(* ===== verification/_CoqProject ===== *)
-Q . S2P
Prelude.v
Cxx.v
Protocol.v
Utf8.v
Json.v
ModelJson.v
MessageCodec.v
Sqlite.v
ModelDb.v
MessageStore.v
StoreProperties.v
Healthy.v
Statements.v
Env.v
Node.v
Clock.v
PeerRegistry.v
Discovery.v
DiscoveryProperties.v
Ledger.v
EventStream.v
Replication.v
MessageService.v
Http.v
HttpApi.v
HttpApiProperties.v
Specification.v
Sync.v
SyncProperties.v
Convergence.v
Rounds.v
Main.v
Delivery.v
Poison.v
Daemon.v
Frame.v
Application.v
Typing.v
Lifecycle.v
Ownership.v
Knowledge.v
Network.v
Exchange.v
