(* ===== verification/Prelude.v ===== *)
(** * LES Mesh Chat: a verification of the daemon les-chatd

    les-chatd is a single-threaded C++ daemon.  Every node keeps a bounded store
    of chat messages in SQLite, finds other nodes by UDP broadcasts, serves a web
    client and its peers over HTTP, pushes each new message to the active peers,
    and every five seconds sends a peer the messages it has not seen.  This
    library models all of its components that carry logic and proves what makes
    them correct.  The sources are src/src/*.cpp and src/include/leschat/*.hpp;
    a definition has the name of the function it translates.

    ** How the parts fit

    [Application] (Daemon.v) builds, in this order, the message store, the
    discovery service, the synchronisation service, the message service and the
    HTTP server; [run] then handles one libevent event at a time, and
    [destroy_application] takes the daemon apart; [launch] is all three in main.  All objects
    live in one record, [Node.Node]; a method is a computation [M (Node D W) A]
    that returns a value ([Ok]), throws one of the exceptions the code throws
    ([Throw]) or has undefined behaviour ([Undefined], signed overflow), with
    the new state.  try and catch are [try_catch].  What the daemon does to the
    outside (datagrams, requests, replies, log lines, output, the taking and
    giving back of handles, freeing) is appended to the [trace] of the node.

    Three libraries and the operating system are parameters:
    - json-c is [Json.JsonC], with its documented behaviour as [Json.JsonLaws];
    - SQLite is [Sqlite.Sqlite]; [Sqlite.SqliteLaws] gives the meaning of the
      statements of message_store.cpp, and lets every statement fail at any time
      with nothing changed or with its transaction rolled back;
      [Sqlite.SqliteStatements] counts the statements that are open;
    - libevent and the system calls are [Env.Env]: a call may answer anything
      and change the world [W]; [Env.EnvLaws] has the one documented fact used (what evbuffer_copyout reads);
    - the iteration order of std::unordered_map is [Env.Unordered].
    Concrete instances ([ModelJson], [ModelDb], [RoomyDb], [ModelEnv], [ReliableEnv]) show
    that the laws can hold and let the witnesses compute.

    ** The files

    - Prelude.v: the result type, the state monad, [try_catch]; [spec] (triples
      with a postcondition for exceptions), [keeps] (a relation between the
      states before and after) with the tactic [solve_keeps] and the hint
      database [leschat]; stable sorting.
    - Cxx.v: integers at their width, std::string, [c_str].
    - Protocol.v: protocol.hpp and the structs ChatMessage, Peer, NodeIdentity.
    - Utf8.v: utf8.hpp.  Json.v, MessageCodec.v: json.cpp, message_codec.cpp.
    - Sqlite.v, ModelDb.v: the interface of SQLite and an engine for it.
    - MessageStore.v, StoreProperties.v, Statements.v: message_store.cpp.  The abstract
      specification is [MessageStore.alog]: a list of messages without clashes
      and the last sequence of every origin; [abs] reads it off the tables.
    - Env.v, Node.v: the environment, the state of the daemon, its effects.
    - Clock.v, PeerRegistry.v, Discovery.v, DiscoveryProperties.v: clock.hpp,
      peer_registry.cpp, discovery_service.cpp.
    - Ledger.v: who owns requests, connections and their contexts along a trace.
    - EventStream.v: event_stream.cpp.  Replication.v: replication_service.cpp;
      its [post_request] is also the request code of sync_service.cpp.
    - MessageService.v: message_service.cpp.
    - Http.v, HttpApi.v, HttpApiProperties.v: http.cpp and http_api.cpp.
    - Sync.v, SyncProperties.v: sync_service.cpp.  Convergence.v: one round
      between two nodes; Rounds.v: rounds until nothing is missing.
    - Main.v: main.cpp, the command line with its loop over argv, the help and
      the exit.  Daemon.v: application.cpp, the constructor, the event loop and
      the destructor.
    - Delivery.v: a message from one browser to the others.  Poison.v: a message
      that blocks synchronisation, from the peer that sends it to the batches.
    - Specification.v: what a daemon promises about messages, as the steps of a
      log and a counter ([chat_step]); no database, network or libevent.
    - Frame.v: the classes [Ops], [Responds], [Takes], [Sends] and [Makes], which
      say what of the components the handlers use; a relation that respects these
      is respected by every handler ([kept_handler], [kept_event]).
    - Application.v: the invariant of the running daemon, its refinement of
      Specification.v, restarts.  Typing.v, Lifecycle.v, Ownership.v, Knowledge.v:
      four more relations over Frame.v, for the well-formedness of what a node holds, the
      handles, libevent's requests and connections, and for which messages a
      node has seen and sent.
    - Network.v: any number of daemons that exchange requests, are started and
      started again.  Exchange.v: two of them synchronise; Healthy.v has the
      database without faults that this needs.

    ** What is shown

    - The store: [add] refines the abstract log on every path, and forgets the
      oldest messages exactly when the insertion answered SQLITE_FULL
      ([MessageStore.insertion_full]); an insertion is atomic; every store reachable from the
      constructor has a cache equal to its table, no two messages that clash and
      no message above the last sequence of its origin; a sequence is not reused
      after pruning or a restart; the summary is exact.
    - The daemon: the invariant of all reachable states, for any sequence of
      events and any answers of the environment; refinement of Specification.v,
      where only HTTP requests move the log and the counter; every message and
      peer it holds is well formed and every number within its C++ type; no exception leaves a handler; a restart shows the
      stored messages and continues the numbering.
    - HTTP: every request gets exactly one reply; the routing; creating a message;
      the list of messages does not depend on the order of arrival; a message one
      node sends is accepted by another with the fields unchanged.
    - Synchronisation: a node sends exactly the first fifty stored messages above
      the peer's summary, and the peer ingests exactly these; a summary is the
      map of last sequences; repeated rounds end, with one round for every fifty
      missing messages, when the sender has nothing left to send.
    - A network: whatever requests are lost, delayed, repeated or reordered and
      whichever nodes restart, every message stored anywhere was written by the
      node it names, and an id stands for one message ([network_agreement]); in
      every reachable network exchanges bring one node what another has, fifty
      messages each ([network_catches_up]), and where nothing fails such an
      exchange is possible as long as something is missing ([network_progress]).
    - Messages: parsing what was serialized gives the message back; UTF-8 is
      accepted exactly when well formed; ids made at a node are unique.
    - Discovery: an announcement of one node registers it at another; nothing
      received breaks the registry; the clock is corrected only beyond 250 ms,
      by setting it or else by an offset; the receive callback ends exactly when the
      datagrams do.
    - Resources: every handle is taken before its use, given back once and in an
      order the others allow, however the constructor or the loop ends, and the
      database is closed with no statement open ([launch_releases]); over all histories libevent can produce no request or
      connection is used or freed after it was freed, and the context of an
      outgoing request is deleted with its connection ([daemon_frees_once]); every
      outgoing connection is freed or left with its context to its callback.
    - Delivery: a text POSTed at one node is shown on its streams, sent to its
      active peers, and shown by them with the same text.
    - The command line: the loop ends, stays inside argv and reads the options as
      a list; what passes it makes a node others accept; the help names exactly
      the options there are ([help_describes_options]).

    Some theorems state behaviour a reader may not expect:
    [codec_truncates] and [poison_blocks_sync] (strings with a NUL byte are cut
    when sent on, and such an id keeps every later message from a peer), [sync_summary_exact] (a summary of more than 4096 bytes is
    refused by every peer), [replica_accepted_not_stored], [next_sequence_ignores_errors],
    [authority_time_overflow], [forged_sequence_blocks_restart] (a peer can keep
    a node from starting), [post_request_ownership] (a request is freed twice
    when evhttp_make_request fails) and [parse_port_accepts_signs].

    ** Bounds and fuel

    Three loops need fuel.  [Utf8.utf8_loop] runs with the length of the text
    plus one, and the equivalence shows this is enough.  [Main.argument_loop]
    gets one unit per argument and one more, and [read_arguments_exact] shows
    that any such fuel gives its result.
    [Discovery.receive_loop] reads the socket until it is empty;
    [receive_callback_terminates] shows that any fuel above the number of
    datagrams it gets to read gives its result, and that when they never stop,
    and only then, every fuel runs out, as the callback itself does not return.  The message counter is a 64-bit unsigned integer:
    [daemon_invariant], [daemon_refines_chat] and [daemon_well_formed] cover 2^62
    events, far more than a node can live.  Clock values are assumed within
    0 .. 2^61 milliseconds where a theorem says [sane_clock].

    ** What is not modelled

    Running out of memory, apart from json-c's and libevent's; what libevent frees when its base
    is freed (a request that is pending at exit leaves its context undeleted); the JavaScript client, the OpenWrt package, the tools and
    the tests.  A json-c value is immutable here: reference counts are not
    modelled.  An outgoing request is made in the trace and completed by a later
    event, which carries what the peer answered. *)

From stdpp Require Export base gmap strings list sorting pretty.

(** ** Outcomes and the state monad of the handlers *)

(** The exceptions the program throws.  [DatabaseFull] is the private class of
    message_store.cpp; the others are the standard classes it uses, with the
    text of [what()]. *)
Inductive exn :=
  | DatabaseFull
  | LengthError (what : string)
  | RuntimeError (what : string)
  | InvalidArgument (what : string)
  | OutOfRange (what : string).

#[global] Instance exn_eq_dec : EqDecision exn.
Proof. solve_decision. Defined.

(** The outcome of a C++ call: it returns, it throws, or its behaviour is
    undefined (a signed overflow). *)
Inductive result (A : Type) :=
  | Ok (a : A)
  | Throw (e : exn)
  | Undefined.
Arguments Ok {A} a.
Arguments Throw {A} e.
Arguments Undefined {A}.

(** A computation that reads and writes a state of type [S].  A throw keeps the
    writes made before it: C++ does not undo them. *)
Definition M (S A : Type) : Type := S → result A * S.

#[global] Instance M_ret S : MRet (M S) := λ A a s, (Ok a, s).
#[global] Instance M_bind S : MBind (M S) := λ A B k m s,
  match m s with
  | (Ok a, s') => k a s'
  | (Throw e, s') => (Throw e, s')
  | (Undefined, s') => (Undefined, s')
  end.

Definition throw {S A} (e : exn) : M S A := λ s, (Throw e, s).
Definition undefined {S A} : M S A := λ s, (Undefined, s).
Definition get {S} : M S S := λ s, (Ok s, s).
Definition gets {S A} (f : S → A) : M S A := λ s, (Ok (f s), s).
Definition put {S} (s : S) : M S unit := λ _, (Ok tt, s).
Definition modify {S} (f : S → S) : M S unit := λ s, (Ok tt, f s).

(** [try { m } catch (...) { h }]; undefined behaviour is not caught. *)
Definition try_catch {S A} (m : M S A) (h : exn → M S A) : M S A := λ s,
  match m s with
  | (Ok a, s') => (Ok a, s')
  | (Throw e, s') => h e s'
  | (Undefined, s') => (Undefined, s')
  end.

(** [m], then what the destructor of a local object does, however [m] ends. *)
Definition finally {S A} (m : M S A) (f : S → S) : M S A := λ s,
  let (r, s') := m s in (r, f s').

(** Run an operation of a component inside the state that holds it. *)
Definition zoom {S T A} (pi : S → T) (upd : T → S → S) (m : M T A) : M S A := λ s,
  match m (pi s) with
  | (r, t) => (r, upd t s)
  end.

(** [for (x : l) body(x)], with the loop-carried value threaded through. *)
Fixpoint foldM {S A B} (f : B → A → M S B) (b : B) (l : list A) : M S B :=
  match l with
  | [] => mret b
  | x :: l => b' ← f b x; foldM f b' l
  end.

Fixpoint iterM {S A} (f : A → M S unit) (l : list A) : M S unit :=
  match l with
  | [] => mret tt
  | x :: l => f x;; iterM f l
  end.

(** [reads m]: [m] leaves the state alone. *)
Definition reads {S A} (m : M S A) : Prop := ∀ s, (m s).2 = s.

(** ** The hint and rewrite databases of the development *)

Create HintDb leschat discriminated.
#[export] Hint Constants Opaque : leschat.
Create Rewrite HintDb leschat.

(** Case analysis on the outcome of the run at the head of a bind. *)
Ltac run_step :=
  match goal with
  | H : context [mbind _ ?m ?s] |- _ =>
      unfold mbind, M_bind in H;
      let r := fresh "r" in let s' := fresh "s" in let E := fresh "Hrun" in
      destruct (m s) as [[r|r|] s'] eqn:E; simplify_eq/=
  end.

Ltac split_bools :=
  repeat match goal with
  | H : _ && _ = true |- _ => apply andb_true_iff in H as [? ?]
  | H : _ || _ = false |- _ => apply orb_false_iff in H as [? ?]
  | H : negb _ = true |- _ => apply negb_true_iff in H
  | H : negb _ = false |- _ => apply negb_false_iff in H
  | H : bool_decide _ = true |- _ => apply bool_decide_eq_true in H
  | H : bool_decide _ = false |- _ => apply bool_decide_eq_false in H
  | H : (_ <? _)%Z = true |- _ => apply Z.ltb_lt in H
  | H : (_ <? _)%Z = false |- _ => apply Z.ltb_ge in H
  | H : (_ <=? _)%Z = true |- _ => apply Z.leb_le in H
  | H : (_ <=? _)%Z = false |- _ => apply Z.leb_gt in H
  | H : (_ =? _)%Z = true |- _ => apply Z.eqb_eq in H
  | H : (_ =? _)%Z = false |- _ => apply Z.eqb_neq in H
  end.

(** ** Generic lemmas *)

Section monad.
Context {S A B : Type}.

Lemma bind_Ok (m : M S A) (k : A → M S B) s r s' :
  (m ≫= k) s = (Ok r, s') ↔ ∃ a s1, m s = (Ok a, s1) ∧ k a s1 = (Ok r, s').
Proof.
  unfold mbind, M_bind. split.
  - destruct (m s) as [[a|e|] s1]; naive_solver.
  - by intros (a & s1 & -> & ?).
Qed.

Lemma bind_run (m : M S A) (k : A → M S B) s a s' :
  m s = (Ok a, s') → (m ≫= k) s = k a s'.
Proof. unfold mbind, M_bind. by intros ->. Qed.

Lemma bind_throw (m : M S A) (k : A → M S B) s e s' :
  m s = (Throw e, s') → (m ≫= k) s = (Throw e, s').
Proof. unfold mbind, M_bind. by intros ->. Qed.

Lemma reads_ret (a : A) : reads (mret a : M S A).
Proof. done. Qed.
Lemma reads_throw e : reads (throw e : M S A).
Proof. done. Qed.
Lemma reads_gets (f : S → A) : reads (gets f).
Proof. done. Qed.
Lemma reads_bind (m : M S A) (k : A → M S B) :
  reads m → (∀ a, reads (k a)) → reads (m ≫= k).
Proof.
  intros Hm Hk s. specialize (Hm s). unfold mbind, M_bind.
  destruct (m s) as [[a|e|] s1]; simplify_eq/=; [apply Hk|done|done].
Qed.
End monad.

(** A handler that throws again changes no result. *)
Lemma catch_rethrow_Ok {S A B} (m : M S A) (c : M S B) s a s' :
  try_catch m (λ e, c;; throw e) s = (Ok a, s') → m s = (Ok a, s').
Proof.
  unfold try_catch. destruct (m s) as [[x|e|] s1]; [done| |done].
  unfold mbind, M_bind. by destruct (c s1) as [[]].
Qed.


#[export] Hint Resolve reads_ret reads_throw reads_gets reads_bind : leschat.

(** ** A stable sort: what std::stable_sort computes *)

Section stable_sort.
Context {A : Type} (lt : A → A → bool).

(** Insert [x] before the first element that is not less than it and so
    after no element equivalent to it. *)
Fixpoint sort_insert (x : A) (l : list A) : list A :=
  match l with
  | [] => [x]
  | y :: l' => if lt y x then y :: sort_insert x l' else x :: l
  end.

Fixpoint stable_sort (l : list A) : list A :=
  match l with
  | [] => []
  | x :: l' => sort_insert x (stable_sort l')
  end.

(** [x] may stand before [y] in the result. *)
Definition sort_le (x y : A) : Prop := lt y x = false.

Lemma sort_insert_perm x l : sort_insert x l ≡ₚ x :: l.
Proof.
  induction l as [|y l IH]; simpl; [done|].
  destruct (lt y x); [|done]. rewrite IH. apply Permutation_swap.
Qed.

Lemma stable_sort_perm l : stable_sort l ≡ₚ l.
Proof. induction l as [|x l IH]; simpl; [done|]. by rewrite sort_insert_perm, IH. Qed.

Hypothesis lt_asym : ∀ x y, lt x y = true → lt y x = false.
Hypothesis le_trans : ∀ x y z, lt y x = false → lt z y = false → lt z x = false.

Lemma sort_insert_sorted x l :
  StronglySorted sort_le l → StronglySorted sort_le (sort_insert x l).
Proof.
  induction 1 as [|y l Hs IH Hf]; simpl; [repeat constructor|].
  destruct (lt y x) eqn:E.
  - constructor; [done|]. rewrite sort_insert_perm. constructor; [|done].
    by apply lt_asym.
  - constructor; [by constructor|]. constructor; [done|].
    eapply Forall_impl; [exact Hf|]. intros z Hz. unfold sort_le in *. eauto.
Qed.

Lemma stable_sort_sorted l : StronglySorted sort_le (stable_sort l).
Proof. induction l; simpl; [constructor|]. by apply sort_insert_sorted. Qed.

(** Under an order that separates distinct elements of the list the result
    depends only on the elements. *)
Lemma sorted_unique l1 l2 :
  (∀ x y, x ∈ l1 → y ∈ l1 → lt x y = false → lt y x = false → x = y) →
  StronglySorted sort_le l1 → StronglySorted sort_le l2 → l1 ≡ₚ l2 → l1 = l2.
Proof.
  revert l2. induction l1 as [|x l1 IH]; intros l2 Hanti H1 H2 Hp.
  - by apply Permutation_nil_l in Hp.
  - destruct l2 as [|y l2]; [by apply Permutation_nil_r in Hp|].
    apply StronglySorted_cons in H1 as [Hx H1]. apply StronglySorted_cons in H2 as [Hy H2].
    rewrite Forall_forall in Hx, Hy.
    assert (x = y) as ->.
    { assert (x ∈ y :: l2) as Hxin by (rewrite <- Hp; left).
      assert (y ∈ x :: l1) as Hyin by (rewrite Hp; left).
      apply elem_of_cons in Hxin as [->|Hxin]; [done|].
      apply elem_of_cons in Hyin as [->|Hyin]; [done|].
      apply Hanti; [left|by right|by apply Hy|by apply Hx]. }
    f_equal. apply IH; [|done|done|by apply Permutation_cons_inv in Hp].
    intros; apply Hanti; [by right|by right|done|done].
Qed.
End stable_sort.

(** ** Lists *)

Lemma NoDup_fmap_inj {A B} (f : A → B) l x y :
  NoDup (f <$> l) → x ∈ l → y ∈ l → f x = f y → x = y.
Proof.
  induction l as [|z l IH]; intros Hnd Hx Hy Hf; [by apply not_elem_of_nil in Hx|].
  cbn in Hnd. apply NoDup_cons in Hnd as [Hz Hnd].
  apply elem_of_cons in Hx as [->|Hx], Hy as [->|Hy]; [done|..|by apply IH].
  - destruct Hz. rewrite Hf. by apply list_elem_of_fmap_2.
  - destruct Hz. rewrite <- Hf. by apply list_elem_of_fmap_2.
Qed.

Lemma filter_map {A B} (f : A → B) (keep : B → bool) (l : list A) :
  filter (λ y, keep y = true) (f <$> l) = f <$> filter (λ x, keep (f x) = true) l.
Proof.
  induction l as [|x l IH]; [done|]. rewrite fmap_cons, !filter_cons, IH. by case_decide.
Qed.

(** A loop that only filters. *)
Lemma foldM_filter {S A B} (f : list B → A → M S (list B)) (keep : A → bool) (g : A → B) s l acc :
  (∀ acc x, x ∈ l → f acc x s = (Ok (if keep x then acc ++ [g x] else acc), s)) →
  foldM f acc l s = (Ok (acc ++ (g <$> filter (λ x, keep x = true) l)), s).
Proof.
  revert acc. induction l as [|x l IH]; intros acc Hf; cbn.
  { by rewrite app_nil_r. }
  rewrite (bind_run _ _ _ _ _ (Hf acc x ltac:(left))), IH by (intros; apply Hf; by right).
  unfold filter, list_filter; cbn. destruct (keep x); cbn.
  - by rewrite decide_True, <- app_assoc.
  - by rewrite decide_False.
Qed.

(** ** Specifications of computations *)

(** From a state satisfying [P], [m] has no undefined behaviour, returns with
    [Q] or throws with [E]. *)
Definition spec {S A} (P : S → Prop) (m : M S A) (Q : A → S → Prop) (E : exn → S → Prop) : Prop :=
  ∀ s, P s → match m s with
             | (Ok a, s') => Q a s'
             | (Throw e, s') => E e s'
             | (Undefined, _) => False
             end.

Section spec_rules.
Context {S : Type}.

Lemma spec_ret {A} (a : A) (P : S → Prop) Q E : (∀ s, P s → Q a s) → spec P (mret a) Q E.
Proof. intros H s HP. by apply H. Qed.

Lemma spec_throw {A} e (P : S → Prop) (Q : A → S → Prop) E :
  (∀ s, P s → E e s) → spec P (throw e) Q E.
Proof. intros H s HP. by apply H. Qed.

Lemma spec_bind {A B} (m : M S A) (k : A → M S B) P Q R E :
  spec P m Q E → (∀ a, spec (Q a) (k a) R E) → spec P (m ≫= k) R E.
Proof.
  intros Hm Hk s HP. specialize (Hm s HP). unfold mbind, M_bind.
  destruct (m s) as [[a|e|] s']; [by apply Hk|done|done].
Qed.

Lemma spec_weaken {A} (m : M S A) (P P' : S → Prop) (Q Q' : A → S → Prop) (E E' : exn → S → Prop) :
  spec P m Q E → (∀ s, P' s → P s) → (∀ a s, Q a s → Q' a s) → (∀ e s, E e s → E' e s) →
  spec P' m Q' E'.
Proof.
  intros Hm HP HQ HE s Hs. specialize (Hm s (HP s Hs)).
  destruct (m s) as [[a|e|] s']; auto.
Qed.

Lemma spec_if {A} (b : bool) (m1 m2 : M S A) P Q E :
  (b = true → spec P m1 Q E) → (b = false → spec P m2 Q E) → spec P (if b then m1 else m2) Q E.
Proof. destruct b; auto. Qed.

Lemma spec_try {A} (m : M S A) (h : exn → M S A) P Q E F :
  spec P m Q F → (∀ e, spec (F e) (h e) Q E) → spec P (try_catch m h) Q E.
Proof.
  intros Hm Hh s HP. specialize (Hm s HP). unfold try_catch.
  destruct (m s) as [[a|e|] s']; [done|by apply Hh|done].
Qed.

Lemma spec_finally {A} (m : M S A) (f : S → S) P Q E :
  spec P m (λ a s, Q a (f s)) (λ e s, E e (f s)) → spec P (finally m f) Q E.
Proof. intros Hm s HP. specialize (Hm s HP). unfold finally. by destruct (m s) as [[a|e|] s']. Qed.

Lemma spec_pre {A} (m : M S A) (P : S → Prop) Q E :
  (∀ s, P s → spec (λ s', s' = s) m Q E) → spec P m Q E.
Proof. intros H s HP. by apply (H s HP). Qed.

Lemma spec_strengthen {A} (m : M S A) (P P' : S → Prop) Q E :
  (∀ s, P' s → P s) → spec P m Q E → spec P' m Q E.
Proof. intros HP Hm s Hs. by apply Hm, HP. Qed.

Lemma spec_at {A} (m : M S A) (P : S → Prop) Q E s0 :
  P s0 → spec P m Q E → spec (λ s, s = s0) m Q E.
Proof. intros HP Hm s ->. by apply Hm. Qed.

(** Reading a computation's outcome off its specification. *)
Lemma spec_run {A} (m : M S A) P Q E s r s' :
  spec P m Q E → P s → m s = (r, s') →
  match r with Ok a => Q a s' | Throw e => E e s' | Undefined => False end.
Proof. intros Hm HP Hr. specialize (Hm s HP). by rewrite Hr in Hm. Qed.

Lemma spec_read {A} (m : M S A) P : (∀ s, P s → (m s).1 ≠ Undefined) → reads m →
  spec P m (λ _, P) (λ _, P).
Proof.
  intros Hu Hr s HP. specialize (Hr s). specialize (Hu s HP).
  destruct (m s) as [[a|e|] s']; simplify_eq/=; done.
Qed.
End spec_rules.

(** ** What a computation keeps *)

(** Every run of [m], whatever its outcome, relates the state before to the
    state after. *)
Definition keeps {S A} (R : S → S → Prop) (m : M S A) : Prop := ∀ s, R s (m s).2.

(** The part [f] of the state is the same. *)
Definition same {S B} (f : S → B) (s s' : S) : Prop := f s' = f s.

#[global] Instance same_preorder {S B} (f : S → B) : PreOrder (same f).
Proof. split; unfold same; [done|]. intros x y z; congruence. Qed.

Section keeps_rules.
Context {S : Type} (R : S → S → Prop) `{!PreOrder R}.

Lemma keeps_reads {A} (m : M S A) : reads m → keeps R m.
Proof. intros Hm s. rewrite Hm. reflexivity. Qed.

Lemma keeps_ret {A} (a : A) : keeps R (mret a : M S A).
Proof. intros s. reflexivity. Qed.
Lemma keeps_throw {A} e : keeps R (throw e : M S A).
Proof. intros s. reflexivity. Qed.
Lemma keeps_undefined {A} : keeps R (undefined : M S A).
Proof. intros s. reflexivity. Qed.
Lemma keeps_gets {A} (f : S → A) : keeps R (gets f).
Proof. intros s. reflexivity. Qed.

Lemma keeps_bind {A B} (m : M S A) (k : A → M S B) :
  keeps R m → (∀ a, keeps R (k a)) → keeps R (m ≫= k).
Proof.
  intros Hm Hk s. specialize (Hm s). unfold mbind, M_bind.
  destruct (m s) as [[a|e|] s1]; [|done|done]. etransitivity; [exact Hm|apply Hk].
Qed.

Lemma keeps_try {A} (m : M S A) (h : exn → M S A) :
  keeps R m → (∀ e, keeps R (h e)) → keeps R (try_catch m h).
Proof.
  intros Hm Hh s. specialize (Hm s). unfold try_catch.
  destruct (m s) as [[a|e|] s1]; [done| |done]. etransitivity; [exact Hm|apply Hh].
Qed.

Lemma keeps_finally {A} (m : M S A) (f : S → S) :
  keeps R m → (∀ s, R s (f s)) → keeps R (finally m f).
Proof. intros Hm Hf s. specialize (Hm s). unfold finally. destruct (m s) as [r s1]. by etransitivity. Qed.

Lemma keeps_foldM {A B} (f : B → A → M S B) b l :
  (∀ b x, x ∈ l → keeps R (f b x)) → keeps R (foldM f b l).
Proof.
  revert b. induction l as [|x l IH]; intros b Hf; cbn; [apply keeps_ret|].
  apply keeps_bind; [apply Hf; left|]. intros b'. apply IH. intros; apply Hf; by right.
Qed.

Lemma keeps_iterM {A} (f : A → M S unit) l :
  (∀ x, x ∈ l → keeps R (f x)) → keeps R (iterM f l).
Proof.
  induction l as [|x l IH]; intros Hf; cbn; [apply keeps_ret|].
  apply keeps_bind; [apply Hf; left|]. intros _. apply IH. intros; apply Hf; by right.
Qed.
End keeps_rules.

Lemma keeps_modify {S B} (f : S → B) g : (∀ s, f (g s) = f s) → keeps (same f) (modify g).
Proof. intros Hg s. apply Hg. Qed.

Lemma same_reads {S A B} (f : S → B) (m : M S A) : reads m → keeps (same f) m.
Proof. apply keeps_reads, _. Qed.

#[export] Hint Resolve keeps_ret keeps_throw keeps_undefined keeps_gets same_reads : leschat.

(** Walk through a computation; the calls it makes are left to [leschat]. *)
Ltac solve_keeps :=
  repeat (cbn beta; match goal with
  | |- keeps _ (mbind _ _) => apply keeps_bind; [apply _| |intros ?]
  | |- keeps _ (try_catch _ _) => apply keeps_try; [apply _| |intros ?]
  | |- keeps _ (finally _ _) => apply keeps_finally; [apply _| |intros ?]
  | |- keeps _ (mret _) => apply keeps_ret; apply _
  | |- keeps _ (throw _) => apply keeps_throw; apply _
  | |- keeps _ undefined => apply keeps_undefined; apply _
  | |- keeps _ (gets _) => apply keeps_gets; apply _
  | |- keeps _ (foldM _ _ _) => apply keeps_foldM; [apply _|intros ? ? ?]
  | |- keeps _ (iterM _ _) => apply keeps_iterM; [apply _|intros ? ?]
  | |- keeps _ (match ?x with _ => _ end) => destruct x
  | |- keeps _ (let _ := _ in _) => cbv zeta
  | |- keeps (same _) (modify _) => apply keeps_modify; intros ?; reflexivity
  | |- _ => solve [eauto 2 with leschat]
  end).
