(* ===== verification/Cxx.v ===== *)
(** * What the program uses of C++: machine integers and std::string

    Fixed-width integers are [Z] with the wrap-around or, for signed overflow,
    the undefined behaviour written out; std::string is the byte string
    [String.string], and [c_str] is the view of it that an API taking a
    NUL-terminated [const char*] has. *)

From S2P Require Import Prelude.
From Stdlib Require Import Ascii.
Open Scope Z_scope.

(** ** Fixed-width integers *)

Definition i64_min : Z := -9223372036854775808.
Definition i64_max : Z := 9223372036854775807.
Definition i32_min : Z := -2147483648.
Definition i32_max : Z := 2147483647.
Definition u16_max : Z := 65535.
Definition u64_max : Z := 18446744073709551615.

Definition in_i64 (z : Z) : Prop := i64_min ≤ z ≤ i64_max.
Definition in_i32 (z : Z) : Prop := i32_min ≤ z ≤ i32_max.
Definition in_u64 (z : Z) : Prop := 0 ≤ z ≤ u64_max.

#[global] Instance in_i64_dec z : Decision (in_i64 z).
Proof. unfold in_i64. apply _. Defined.
#[global] Instance in_i32_dec z : Decision (in_i32 z).
Proof. unfold in_i32. apply _. Defined.

(** Unsigned arithmetic wraps; conversions reduce modulo the width. *)
Definition u16 (z : Z) : Z := z mod 65536.
Definition u32 (z : Z) : Z := z mod 4294967296.
Definition u64 (z : Z) : Z := z mod 18446744073709551616.
Definition cast_i64 (z : Z) : Z := (z - i64_min) mod 18446744073709551616 + i64_min.
Definition cast_i32 (z : Z) : Z := (z - i32_min) mod 4294967296 + i32_min.

(** Signed 64-bit addition and subtraction: undefined when the exact result
    does not fit. *)
Definition i64_checked {S} (z : Z) : M S Z :=
  if decide (in_i64 z) then mret z else undefined.
Definition i64_add {S} (a b : Z) : M S Z := i64_checked (a + b).
Definition i64_sub {S} (a b : Z) : M S Z := i64_checked (a - b).

Ltac unfold_ints :=
  unfold in_i64, in_i32, in_u64, i64_min, i64_max, i32_min, i32_max, u16_max, u64_max in *.

Lemma u64_small z : in_u64 z → u64 z = z.
Proof. unfold u64. unfold_ints. intros. apply Z.mod_small. lia. Qed.
Lemma u16_small z : 0 ≤ z ≤ 65535 → u16 z = z.
Proof. unfold u16. intros. apply Z.mod_small. lia. Qed.
Lemma u32_small z : 0 ≤ z < 4294967296 → u32 z = z.
Proof. apply Z.mod_small. Qed.
Lemma cast_i64_small z : in_i64 z → cast_i64 z = z.
Proof. unfold cast_i64. unfold_ints. intros. rewrite Z.mod_small; lia. Qed.
Lemma cast_i32_small z : in_i32 z → cast_i32 z = z.
Proof. unfold cast_i32. unfold_ints. intros. rewrite Z.mod_small; lia. Qed.
Lemma cast_i64_range z : in_i64 (cast_i64 z).
Proof.
  unfold cast_i64. unfold_ints.
  pose proof (Z.mod_pos_bound (z - -9223372036854775808) 18446744073709551616). lia.
Qed.

Lemma i64_checked_ok {S} z (s : S) : in_i64 z → i64_checked z s = (Ok z, s).
Proof. intros. unfold i64_checked. by rewrite decide_True. Qed.
Lemma i64_checked_inv {S} z (s s' : S) r :
  i64_checked z s = (Ok r, s') → r = z ∧ s' = s ∧ in_i64 z.
Proof. unfold i64_checked. case_decide; unfold mret, M_ret, undefined; naive_solver. Qed.
Lemma i64_checked_reads {S} z : reads (i64_checked z : M S Z).
Proof. unfold i64_checked. by case_decide. Qed.

#[export] Hint Rewrite u64_small u16_small cast_i64_small cast_i32_small
  using (unfold_ints; lia) : leschat.
#[export] Hint Resolve i64_checked_reads : leschat.

(** ** Strings *)

(** [s.size()] *)
Definition size (s : string) : Z := Z.of_nat (String.length s).

(** [static_cast<unsigned char>(s[i])], for an index inside the string. *)
Definition byte_of (c : ascii) : Z := Z.of_N (N_of_ascii c).
Definition byte_at (s : string) (i : nat) : Z :=
  match String.get i s with Some c => byte_of c | None => 0 end.

Definition NUL : ascii := Ascii.zero.

(** What a reader of [s.c_str()] sees: the bytes before the first NUL. *)
Fixpoint c_str (s : string) : string :=
  match s with
  | EmptyString => EmptyString
  | String c s' => if decide (c = NUL) then EmptyString else String c (c_str s')
  end.

Fixpoint no_nul (s : string) : bool :=
  match s with
  | EmptyString => true
  | String c s' => negb (bool_decide (c = NUL)) && no_nul s'
  end.

(** [std::string{data, n}] for [n] bytes at [data]. *)
Definition assign (data : string) (n : Z) : string := String.substring 0 (Z.to_nat n) data.

(** [s.empty()], [a == b], [a < b] (char_traits<char>: as unsigned bytes). *)
Definition empty (s : string) : bool := bool_decide (s = EmptyString).
Definition str_eqb (a b : string) : bool := bool_decide (a = b).
Definition str_ltb (a b : string) : bool := String.ltb a b.

(** [std::to_string] *)
Definition to_string (z : Z) : string := pretty z.

(** A JSON literal of the source, written here with single quotes for its
    double quotes (no literal of the source has a single quote). *)
Fixpoint json_lit (s : string) : string :=
  match s with
  | EmptyString => EmptyString
  | String c s' =>
      String (if decide (c = ascii_of_nat 39) then ascii_of_nat 34 else c) (json_lit s')
  end.

(** The line feed the source writes as an escape. *)
Definition LF : string := String (ascii_of_nat 10) EmptyString.

Lemma size_nonneg s : 0 ≤ size s.
Proof. unfold size. lia. Qed.
Lemma size_empty s : size s = 0 ↔ s = EmptyString.
Proof. unfold size. destruct s; simpl; split; intros; simplify_eq/=; [done..|lia]. Qed.
Lemma empty_false s : empty s = false ↔ 1 ≤ size s.
Proof.
  unfold empty. rewrite bool_decide_eq_false. rewrite <- size_empty.
  pose proof (size_nonneg s). lia.
Qed.
Lemma empty_true s : empty s = true ↔ s = EmptyString.
Proof. unfold empty. apply bool_decide_eq_true. Qed.
Lemma str_eqb_true a b : str_eqb a b = true ↔ a = b.
Proof. unfold str_eqb. apply bool_decide_eq_true. Qed.
Lemma str_eqb_false a b : str_eqb a b = false ↔ a ≠ b.
Proof. unfold str_eqb. apply bool_decide_eq_false. Qed.

Lemma no_nul_cons c s : no_nul (String c s) = true ↔ c ≠ NUL ∧ no_nul s = true.
Proof. simpl. by rewrite andb_true_iff, negb_true_iff, bool_decide_eq_false. Qed.
Lemma c_str_no_nul s : no_nul s = true → c_str s = s.
Proof.
  induction s as [|c s IH]; [done|]. rewrite no_nul_cons. intros [? ?]; simpl.
  rewrite decide_False by done. by rewrite IH.
Qed.
Lemma no_nul_c_str s : no_nul (c_str s) = true.
Proof.
  induction s as [|c s IH]; simpl; [done|]. case_decide; [done|].
  by apply no_nul_cons.
Qed.
Lemma c_str_size s : size (c_str s) ≤ size s.
Proof.
  unfold size. induction s as [|c s IH]; simpl; [lia|]. case_decide; simpl; lia.
Qed.
Lemma c_str_fixed s : c_str s = s ↔ no_nul s = true.
Proof.
  split; [|apply c_str_no_nul]. intros <-. apply no_nul_c_str.
Qed.
Lemma sapp_cons c a b : String c a +:+ b = String c (a +:+ b).
Proof. done. Qed.
Lemma sapp_assoc a b c : a +:+ (b +:+ c) = (a +:+ b) +:+ c.
Proof. induction a as [|x a IH]; [done|]. rewrite !sapp_cons. by rewrite IH. Qed.
Lemma no_nul_app a b : no_nul (a +:+ b) = no_nul a && no_nul b.
Proof.
  induction a as [|c a IH]; [done|].
  change (String c a +:+ b) with (String c (a +:+ b)). simpl. rewrite IH. apply andb_assoc.
Qed.

Lemma substring_all s : String.substring 0 (String.length s) s = s.
Proof. induction s as [|c s IH]; simpl; [done|]. by rewrite IH. Qed.
Lemma assign_size s : assign s (size s) = s.
Proof. unfold assign, size. rewrite Nat2Z.id. apply substring_all. Qed.

Lemma str_ltb_irrefl s : str_ltb s s = false.
Proof.
  unfold str_ltb, String.ltb. pose proof (String.compare_antisym s s) as H.
  destruct (String.compare s s); simpl in H; congruence.
Qed.
Lemma str_ltb_leb a b : str_ltb a b = false ↔ String.le b a.
Proof.
  unfold str_ltb, String.le, String.leb, String.ltb. rewrite (String.compare_antisym a b).
  destruct (String.compare b a); simpl; naive_solver.
Qed.
Lemma str_ltb_asym a b : str_ltb a b = true → str_ltb b a = false.
Proof.
  unfold str_ltb, String.ltb. rewrite (String.compare_antisym b a).
  by destruct (String.compare a b).
Qed.
Lemma str_le_trans a b c : str_ltb b a = false → str_ltb c b = false → str_ltb c a = false.
Proof. rewrite !str_ltb_leb. intros ? ?. by transitivity b. Qed.
Lemma str_le_antisym a b : str_ltb a b = false → str_ltb b a = false → a = b.
Proof. rewrite !str_ltb_leb. intros. by apply (anti_symm String.le). Qed.

#[export] Hint Resolve size_nonneg no_nul_c_str c_str_size str_ltb_irrefl str_ltb_asym
  str_le_trans : leschat.

#[global] Arguments size : simpl never.
#[global] Arguments c_str : simpl never.
#[global] Arguments no_nul : simpl never.

(** [error.what()] *)
Definition what (e : exn) : string :=
  match e with
  | DatabaseFull => "SQLite database reached 10 MiB"
  | LengthError s | RuntimeError s | InvalidArgument s | OutOfRange s => s
  end.
