(* ===== verification/Protocol.v ===== *)
(** * Constants and data of the protocol

    protocol.hpp, message.hpp, peer.hpp and node_identity.hpp, field by field. *)

From S2P Require Import Prelude Cxx.

(** ** protocol.hpp *)

Definition protocol_version : Z := 1.
Definition app_version : string := "0.1.18".
Definition service_name : string := "les-chatd".
Definition default_channel : string := "les-manet".

Definition max_message_bytes : Z := 2048.
Definition max_request_bytes : Z := 4096.
Definition max_sync_request_bytes : Z := 128 * 1024.
Definition max_datagram_bytes : Z := 4096.
Definition max_sync_batch_messages : Z := 50.
Definition max_database_bytes : Z := 10 * 1024 * 1024.

(** ** message.hpp: [sequence] is a uint64, [created_at_ms] an int64 *)

Record ChatMessage := MkMessage {
  sequence : Z;
  message_id : string;
  origin : string;
  callsign : string;
  channel : string;
  created_at_ms : Z;
  body : string;
}.

#[global] Instance ChatMessage_eq_dec : EqDecision ChatMessage.
Proof. solve_decision. Defined.

(** ** peer.hpp: [http_port] is a uint16, [last_seen_ms] an int64 *)

Record Peer := MkPeer {
  peer_node_id : string;
  peer_callsign : string;
  peer_address : string;
  peer_http_port : Z;
  peer_app_version : string;
  peer_last_seen_ms : Z;
}.

#[global] Instance Peer_eq_dec : EqDecision Peer.
Proof. solve_decision. Defined.

(** ** node_identity.hpp *)

Record NodeIdentity := MkIdentity {
  id_node_id : string;
  id_callsign : string;
}.

#[global] Instance NodeIdentity_eq_dec : EqDecision NodeIdentity.
Proof. solve_decision. Defined.
