(* ===== verification/Utf8.v ===== *)
(** * UTF-8 validation (utf8.hpp)

    [is_valid_utf8] is the index-based scanner of the header.  It is proved
    equivalent to the definition of well-formed UTF-8: a byte string is accepted
    exactly when it is the concatenation of the encodings of Unicode scalar
    values. *)

From S2P Require Import Prelude Cxx.
Open Scope Z_scope.

(** ** The scanner *)

(** The lead byte gives the number of continuation bytes and the first bits. *)
Definition utf8_lead (first : Z) : option (nat * Z) :=
  if first <=? 0x7F then Some (0%nat, first)
  else if (0xC2 <=? first) && (first <=? 0xDF) then Some (1%nat, Z.land first 0x1F)
  else if (0xE0 <=? first) && (first <=? 0xEF) then Some (2%nat, Z.land first 0x0F)
  else if (0xF0 <=? first) && (first <=? 0xF4) then Some (3%nat, Z.land first 0x07)
  else None.

(** The inner loop, over the offsets 1 .. continuation_count. *)
Fixpoint utf8_continue (text : string) (index : nat) (offsets : list nat) (code_point : Z) : option Z :=
  match offsets with
  | [] => Some code_point
  | offset :: offsets' =>
      let next := byte_at text (index + offset) in
      if Z.land next 0xC0 =? 0x80 then
        utf8_continue text index offsets'
          (Z.lor (u32 (Z.shiftl code_point 6)) (Z.land next 0x3F))
      else None
  end.

(** Overlong encodings, values past U+10FFFF and surrogates. *)
Definition utf8_rejected (count : nat) (code_point : Z) : bool :=
  ((count =? 2)%nat && (code_point <? 0x800)) ||
  ((count =? 3)%nat && (code_point <? 0x10000)) ||
  (0x10FFFF <? code_point) ||
  ((0xD800 <=? code_point) && (code_point <=? 0xDFFF)).

(** One iteration at [index]: how far to advance, or [None] to return false. *)
Definition utf8_step (text : string) (index : nat) : option nat :=
  match utf8_lead (byte_at text index) with
  | None => None
  | Some (count, code_point) =>
      if (String.length text <=? index + count)%nat then None
      else match utf8_continue text index (seq 1 count) code_point with
           | None => None
           | Some code_point =>
               if utf8_rejected count code_point then None else Some (count + 1)%nat
           end
  end.

(** The outer loop; the result is [None] only if the fuel runs out. *)
Fixpoint utf8_loop (fuel : nat) (text : string) (index : nat) : option bool :=
  match fuel with
  | O => None
  | S fuel =>
      if (String.length text <=? index)%nat then Some true
      else match utf8_step text index with
           | None => Some false
           | Some n => utf8_loop fuel text (index + n)
           end
  end.

Definition is_valid_utf8 (text : string) : bool :=
  default false (utf8_loop (S (String.length text)) text 0).

(** ** Well-formed UTF-8, as the standard defines it *)

Definition scalar_value (cp : Z) : Prop := 0 ≤ cp ≤ 0xD7FF ∨ 0xE000 ≤ cp ≤ 0x10FFFF.

Definition utf8_encode (cp : Z) : list Z :=
  if cp <? 0x80 then [cp]
  else if cp <? 0x800 then [0xC0 + cp / 64; 0x80 + cp mod 64]
  else if cp <? 0x10000 then [0xE0 + cp / 4096; 0x80 + cp / 64 mod 64; 0x80 + cp mod 64]
  else [0xF0 + cp / 262144; 0x80 + cp / 4096 mod 64; 0x80 + cp / 64 mod 64; 0x80 + cp mod 64].

Definition bytes (s : string) : list Z := byte_of <$> String.list_ascii_of_string s.

Definition well_formed_utf8 (text : string) : Prop :=
  ∃ cps, Forall scalar_value cps ∧ bytes text = cps ≫= utf8_encode.

(** ** Bytes and bits *)

Lemma length_bytes s : length (bytes s) = String.length s.
Proof. unfold bytes. rewrite length_fmap. by induction s; simpl; [|f_equal]. Qed.

Lemma byte_at_lookup s i : byte_at s i = default 0 (bytes s !! i).
Proof.
  unfold byte_at, bytes. revert i. induction s as [|c s IH]; intros [|i]; simpl; done.
Qed.

Lemma byte_of_range c : 0 ≤ byte_of c < 256.
Proof. unfold byte_of. pose proof (Ascii.N_ascii_bounded c). lia. Qed.

Lemma byte_at_range s i : 0 ≤ byte_at s i < 256.
Proof. unfold byte_at. destruct (String.get i s); [apply byte_of_range|lia]. Qed.

(** A fact about all bytes, checked byte by byte. *)
Lemma byte_cases (P : Z → bool) :
  forallb P (seqZ 0 256) = true → ∀ b, 0 ≤ b < 256 → P b = true.
Proof.
  intros H b Hb. rewrite forallb_forall in H. apply H.
  apply list_elem_of_In, elem_of_seqZ. lia.
Qed.

Lemma continuation_byte b : 0 ≤ b < 256 → (Z.land b 0xC0 =? 0x80) = (0x80 <=? b) && (b <=? 0xBF).
Proof.
  intros Hb. apply Bool.eqb_prop.
  apply (byte_cases (λ b, Bool.eqb (Z.land b 0xC0 =? 0x80) ((0x80 <=? b) && (b <=? 0xBF)))); [|done].
  by vm_compute.
Qed.

Lemma append_bits cp b : 0 ≤ cp < 0x8000 → 0 ≤ b < 256 →
  Z.lor (u32 (Z.shiftl cp 6)) (Z.land b 0x3F) = cp * 64 + b mod 64.
Proof.
  intros Hcp Hb. rewrite Z.shiftl_mul_pow2 by lia. change (2 ^ 6) with 64.
  rewrite u32_small by lia. change 0x3F with (Z.ones 6). rewrite Z.land_ones by lia.
  change (2 ^ 6) with 64.
  assert (Z.land (cp * 64) (b mod 64) = 0) as Hdis.
  { apply Z.bits_inj'. intros n Hn. rewrite Z.land_spec, Z.bits_0.
    change 64 with (2 ^ 6). destruct (decide (n < 6)).
    - by rewrite Z.mul_pow2_bits_low.
    - rewrite Z.mod_pow2_bits_high by lia. by rewrite andb_false_r. }
  pose proof (Z.add_lor_land (cp * 64) (b mod 64)). lia.
Qed.

(** ** The three parts of a step, arithmetically *)

Lemma utf8_lead_spec b : 0 ≤ b < 256 →
  utf8_lead b =
    if b <=? 0x7F then Some (0%nat, b)
    else if (0xC2 <=? b) && (b <=? 0xDF) then Some (1%nat, b mod 32)
    else if (0xE0 <=? b) && (b <=? 0xEF) then Some (2%nat, b mod 16)
    else if (0xF0 <=? b) && (b <=? 0xF4) then Some (3%nat, b mod 8)
    else None.
Proof.
  intros _. unfold utf8_lead.
  change 0x1F with (Z.ones 5). change 0x0F with (Z.ones 4). change 0x07 with (Z.ones 3).
  by rewrite !Z.land_ones by lia.
Qed.

Lemma utf8_continue_cons text i o os cp : 0 ≤ cp < 0x8000 →
  utf8_continue text i (o :: os) cp =
    let next := byte_at text (i + o) in
    if (0x80 <=? next) && (next <=? 0xBF)
    then utf8_continue text i os (cp * 64 + next mod 64) else None.
Proof.
  intros Hcp. cbn [utf8_continue]. rewrite continuation_byte by apply byte_at_range.
  by rewrite append_bits by (apply byte_at_range || lia).
Qed.

(** ** A step reads only the suffix at its index *)

Definition is_cont (b : Z) : bool := (0x80 <=? b) && (b <=? 0xBF).

(** The same step on the bytes that remain, by pattern matching. *)
Definition step_bytes (l : list Z) : option nat :=
  match l with
  | b0 :: l1 =>
      if b0 <=? 0x7F then Some 1%nat
      else if (0xC2 <=? b0) && (b0 <=? 0xDF) then
        match l1 with
        | b1 :: _ => if is_cont b1 then Some 2%nat else None
        | _ => None
        end
      else if (0xE0 <=? b0) && (b0 <=? 0xEF) then
        match l1 with
        | b1 :: b2 :: _ =>
            if is_cont b1 && is_cont b2 &&
               negb (utf8_rejected 2 ((b0 mod 16 * 64 + b1 mod 64) * 64 + b2 mod 64))
            then Some 3%nat else None
        | _ => None
        end
      else if (0xF0 <=? b0) && (b0 <=? 0xF4) then
        match l1 with
        | b1 :: b2 :: b3 :: _ =>
            if is_cont b1 && is_cont b2 && is_cont b3 &&
               negb (utf8_rejected 3
                 (((b0 mod 8 * 64 + b1 mod 64) * 64 + b2 mod 64) * 64 + b3 mod 64))
            then Some 4%nat else None
        | _ => None
        end
      else None
  | [] => None
  end.

Lemma low_not_rejected count cp : (count ≤ 1)%nat → 0 ≤ cp < 0x800 → utf8_rejected count cp = false.
Proof.
  intros ? ?. unfold utf8_rejected.
  destruct count as [|[|]]; [..|lia]; simpl;
    rewrite ?orb_false_iff, ?andb_false_iff, ?Z.ltb_ge, ?Z.leb_gt; lia.
Qed.

(** One continuation byte at a time, on the remaining bytes. *)
Ltac continue_with Hat :=
  rewrite utf8_continue_cons by (Z.div_mod_to_equations; lia);
  cbv zeta; rewrite Hat; cbn [lookup list_lookup default from_option id];
  change ((0x80 <=? ?b) && (?b <=? 0xBF)) with (is_cont b).

Lemma utf8_step_bytes text index : (index < String.length text)%nat →
  utf8_step text index = step_bytes (drop index (bytes text)).
Proof.
  intros Hlt. set (rest := drop index (bytes text)).
  assert (∀ k, byte_at text (index + k) = default 0 (rest !! k)) as Hat.
  { intros k. unfold rest. by rewrite byte_at_lookup, lookup_drop. }
  assert (∀ k, (String.length text <=? index + k)%nat = (length rest <=? k)%nat) as Hshort.
  { intros k. unfold rest. rewrite length_drop, length_bytes.
    destruct (Nat.leb_spec (String.length text - index) k); [apply Nat.leb_le|apply Nat.leb_gt]; lia. }
  assert (∀ k, 0 ≤ default 0 (rest !! k) < 256) as Hr.
  { intros k. rewrite <- Hat. apply byte_at_range. }
  assert (byte_at text index = default 0 (rest !! 0%nat)) as Hat0.
  { rewrite <- Hat. by rewrite Nat.add_0_r. }
  assert (length rest ≠ 0%nat) as Hne.
  { unfold rest. rewrite length_drop, length_bytes. lia. }
  unfold utf8_step. rewrite utf8_lead_spec by apply byte_at_range.
  rewrite Hat0. clearbody rest. destruct rest as [|b0 l1]; [done|].
  pose proof (Hr 0%nat) as Hb0. pose proof (Hr 1%nat) as Hb1. pose proof (Hr 2%nat) as Hb2.
  cbn [lookup list_lookup default from_option id] in Hb0 |- *. unfold step_bytes.
  destruct (Z.leb_spec b0 0x7F).
  { cbv beta iota. rewrite Hshort. cbn. by rewrite low_not_rejected by lia. }
  destruct (_ && _).
  { cbv beta iota. rewrite Hshort. destruct l1 as [|b1 l1]; [done|]. cbn [length Nat.leb seq].
    continue_with Hat. destruct (is_cont b1); [|done].
    cbn [utf8_continue]. rewrite low_not_rejected; [done|lia|]. Z.div_mod_to_equations; lia. }
  destruct (_ && _).
  { cbv beta iota. rewrite Hshort. destruct l1 as [|b1 [|b2 l1]]; [done..|]. cbn [length Nat.leb seq].
    continue_with Hat. destruct (is_cont b1); [|done].
    continue_with Hat. destruct (is_cont b2); [|done].
    cbn [utf8_continue andb]. by destruct (utf8_rejected _ _). }
  destruct (_ && _); [|done].
  cbv beta iota. rewrite Hshort. destruct l1 as [|b1 [|b2 [|b3 l1]]]; [done..|]. cbn [length Nat.leb seq].
  continue_with Hat. destruct (is_cont b1); [|done].
  continue_with Hat. destruct (is_cont b2); [|done].
  continue_with Hat. destruct (is_cont b3); [|done].
  cbn [utf8_continue andb]. by destruct (utf8_rejected _ _).
Qed.

(** ** Steps and encodings *)

Ltac bool_goal :=
  unfold is_cont, utf8_rejected; cbn [Nat.eqb andb orb];
  rewrite ?andb_true_iff, ?orb_false_iff, ?andb_false_iff, ?negb_true_iff,
    ?orb_false_iff, ?andb_false_iff, ?Z.leb_le, ?Z.ltb_ge, ?Z.leb_gt.

Lemma mod_lead cp k m : 0 ≤ cp < m → (k mod m = 0) → 0 < m → (k + cp) mod m = cp.
Proof. intros ? Hk ?. rewrite Z.add_mod, Hk by lia. rewrite Z.add_0_l, Zmod_mod. by apply Z.mod_small. Qed.

Lemma div_4096 cp : cp / 64 / 64 = cp / 4096.
Proof. by rewrite Z.div_div by lia. Qed.
Lemma div_262144 cp : cp / 4096 / 64 = cp / 262144.
Proof. by rewrite Z.div_div by lia. Qed.

Lemma step_bytes_encode cp l : scalar_value cp →
  step_bytes (utf8_encode cp ++ l) = Some (length (utf8_encode cp)).
Proof.
  intros Hcp. unfold utf8_encode, scalar_value in *.
  destruct (Z.ltb_spec cp 0x80).
  { cbn [app step_bytes length]. destruct (Z.leb_spec cp 0x7F); [done|lia]. }
  destruct (Z.ltb_spec cp 0x800).
  { assert (2 ≤ cp / 64 < 32) by (Z.div_mod_to_equations; lia).
    pose proof (Z.mod_pos_bound cp 64 ltac:(lia)).
    cbn [app step_bytes length]. destruct (Z.leb_spec (0xC0 + cp / 64) 0x7F); [lia|].
    replace ((0xC2 <=? _) && _) with true by (symmetry; bool_goal; lia).
    by replace (is_cont _) with true by (symmetry; bool_goal; lia). }
  destruct (Z.ltb_spec cp 0x10000).
  { assert (0 ≤ cp / 4096 < 16) by (Z.div_mod_to_equations; lia).
    pose proof (Z.mod_pos_bound cp 64 ltac:(lia)).
    pose proof (Z.mod_pos_bound (cp / 64) 64 ltac:(lia)).
    cbn [app step_bytes length]. destruct (Z.leb_spec (0xE0 + cp / 4096) 0x7F); [lia|].
    replace ((0xC2 <=? _) && _) with false by (symmetry; bool_goal; lia).
    replace ((0xE0 <=? _) && _) with true by (symmetry; bool_goal; lia).
    rewrite !(mod_lead _ 0x80 64), (mod_lead _ 0xE0 16) by (done || lia).
    replace ((cp / 4096 * 64 + cp / 64 mod 64) * 64 + cp mod 64) with cp
      by (pose proof (div_4096 cp); rewrite (Z.mod_eq cp 64), (Z.mod_eq (cp / 64) 64) by lia; lia).
    replace (_ && _) with true; [done|]. symmetry. bool_goal. lia. }
  assert (0 ≤ cp / 262144 < 5) by (Z.div_mod_to_equations; lia).
  pose proof (Z.mod_pos_bound cp 64 ltac:(lia)).
  pose proof (Z.mod_pos_bound (cp / 64) 64 ltac:(lia)).
  pose proof (Z.mod_pos_bound (cp / 4096) 64 ltac:(lia)).
  cbn [app step_bytes length]. destruct (Z.leb_spec (0xF0 + cp / 262144) 0x7F); [lia|].
  replace ((0xC2 <=? _) && _) with false by (symmetry; bool_goal; lia).
  replace ((0xE0 <=? _) && _) with false by (symmetry; bool_goal; lia).
  replace ((0xF0 <=? _) && _) with true by (symmetry; bool_goal; lia).
  rewrite !(mod_lead _ 0x80 64), (mod_lead _ 0xF0 8) by (done || lia).
  replace (((cp / 262144 * 64 + cp / 4096 mod 64) * 64 + cp / 64 mod 64) * 64 + cp mod 64) with cp
    by (pose proof (div_4096 cp); pose proof (div_4096 (cp / 64)); pose proof (div_262144 cp);
        rewrite (Z.mod_eq cp 64), (Z.mod_eq (cp / 64) 64), (Z.mod_eq (cp / 4096) 64) by lia; lia).
  replace (_ && _) with true; [done|]. symmetry. bool_goal. lia.
Qed.

Lemma cont_split b : is_cont b = true → 0x80 + b mod 64 = b ∧ 0 ≤ b mod 64 < 64.
Proof. unfold is_cont. intros. split_bools. Z.div_mod_to_equations. lia. Qed.

(** Reading back the fields of [q * 64 + r]. *)
Lemma low_field q r : 0 ≤ r < 64 → (q * 64 + r) mod 64 = r ∧ (q * 64 + r) / 64 = q.
Proof. intros. Z.div_mod_to_equations. lia. Qed.

(** What [utf8_rejected] lets through. *)
Lemma accepted_range count cp : utf8_rejected count cp = false →
  cp ≤ 0x10FFFF ∧ (cp < 0xD800 ∨ 0xDFFF < cp) ∧
  (count = 2%nat → 0x800 ≤ cp) ∧ (count = 3%nat → 0x10000 ≤ cp).
Proof.
  unfold utf8_rejected.
  rewrite !orb_false_iff, !andb_false_iff, !Z.leb_gt, !Z.ltb_ge, !Nat.eqb_neq. lia.
Qed.

Lemma step_bytes_sound l n : Forall (λ b, 0 ≤ b < 256) l → step_bytes l = Some n →
  ∃ cp l', scalar_value cp ∧ l = utf8_encode cp ++ l' ∧ n = length (utf8_encode cp).
Proof.
  intros Hb. destruct l as [|b0 l1]; [done|]. cbn [step_bytes].
  apply Forall_cons in Hb as [Hb0 _].
  destruct (Z.leb_spec b0 0x7F).
  { intros Hn; simplify_eq. exists b0, l1. unfold scalar_value, utf8_encode.
    destruct (Z.ltb_spec b0 0x80); [|lia]. split; [lia|done]. }
  destruct ((0xC2 <=? b0) && (b0 <=? 0xDF)) eqn:E2.
  { destruct l1 as [|b1 l1]; [done|]. destruct (is_cont b1) eqn:C1; [|done]. intros Hn; simplify_eq.
    split_bools. apply cont_split in C1 as [C1 R1].
    set (q := b0 mod 32). assert (q = b0 - 0xC0) by (unfold q; Z.div_mod_to_equations; lia).
    exists (q * 64 + b1 mod 64), l1. unfold scalar_value, utf8_encode.
    destruct (low_field q (b1 mod 64) R1) as [-> ->].
    destruct (Z.ltb_spec (q * 64 + b1 mod 64) 0x80); [lia|].
    destruct (Z.ltb_spec (q * 64 + b1 mod 64) 0x800); [|lia].
    split; [lia|]. split; [|done]. cbn [app]. repeat f_equal; lia. }
  destruct ((0xE0 <=? b0) && (b0 <=? 0xEF)) eqn:E3.
  { destruct l1 as [|b1 [|b2 l1]]; [done..|]. match goal with |- (if ?c then _ else _) = _ → _ => destruct c eqn:C end; [|done]. intros Hn; simplify_eq.
    split_bools. rename select (is_cont b1 = true) into C1. rename select (is_cont b2 = true) into C2.
    apply cont_split in C1 as [C1 R1]. apply cont_split in C2 as [C2 R2].
    set (q := b0 mod 16) in *. assert (q = b0 - 0xE0) by (unfold q; Z.div_mod_to_equations; lia).
    set (p := q * 64 + b1 mod 64) in *. set (cp := p * 64 + b2 mod 64) in *.
    exists cp, l1. unfold scalar_value, utf8_encode.
    destruct (low_field q (b1 mod 64) R1) as [P1 P2]. destruct (low_field p (b2 mod 64) R2) as [Q1 Q2].
    fold p in P1, P2. fold cp in Q1, Q2.
    rewrite <- div_4096, Q1, Q2, P1, P2.
    assert (0x800 ≤ cp ∧ cp ≤ 0x10FFFF ∧ (cp < 0xD800 ∨ 0xDFFF < cp)) as (? & ? & ?)
      by (rename select (utf8_rejected _ _ = false) into Hrej; apply accepted_range in Hrej; lia).
    destruct (Z.ltb_spec cp 0x80); [lia|]. destruct (Z.ltb_spec cp 0x800); [lia|].
    destruct (Z.ltb_spec cp 0x10000); [|lia].
    split; [lia|]. split; [|done]. cbn [app]. repeat f_equal; lia. }
  destruct ((0xF0 <=? b0) && (b0 <=? 0xF4)) eqn:E4; [|done].
  destruct l1 as [|b1 [|b2 [|b3 l1]]]; [done..|].
  match goal with |- (if ?c then _ else _) = _ → _ => destruct c eqn:C end; [|done].
  intros Hn; simplify_eq. split_bools.
  rename select (is_cont b1 = true) into C1. rename select (is_cont b2 = true) into C2.
  rename select (is_cont b3 = true) into C3.
  apply cont_split in C1 as [C1 R1]. apply cont_split in C2 as [C2 R2]. apply cont_split in C3 as [C3 R3].
  set (q := b0 mod 8) in *. assert (q = b0 - 0xF0) by (unfold q; Z.div_mod_to_equations; lia).
  set (p := q * 64 + b1 mod 64) in *. set (o := p * 64 + b2 mod 64) in *.
  set (cp := o * 64 + b3 mod 64) in *.
  exists cp, l1. unfold scalar_value, utf8_encode.
  destruct (low_field q (b1 mod 64) R1) as [P1 P2]. destruct (low_field p (b2 mod 64) R2) as [Q1 Q2].
  destruct (low_field o (b3 mod 64) R3) as [O1 O2]. fold p in P1, P2. fold o in Q1, Q2. fold cp in O1, O2.
  rewrite <- div_262144, <- div_4096, O1, O2, Q1, Q2, P1, P2.
  assert (0x10000 ≤ cp ∧ cp ≤ 0x10FFFF ∧ (cp < 0xD800 ∨ 0xDFFF < cp)) as (? & ? & ?)
    by (rename select (utf8_rejected _ _ = false) into Hrej; apply accepted_range in Hrej; lia).
  destruct (Z.ltb_spec cp 0x80); [lia|]. destruct (Z.ltb_spec cp 0x800); [lia|].
  destruct (Z.ltb_spec cp 0x10000); [lia|].
  split; [lia|]. split; [|done]. cbn [app]. repeat f_equal; lia.
Qed.

(** ** The scanner accepts exactly the well-formed strings *)

Lemma utf8_encode_length cp : (1 ≤ length (utf8_encode cp))%nat.
Proof. unfold utf8_encode. repeat case_match; simpl; lia. Qed.

Lemma utf8_step_bounds text index n : (index < String.length text)%nat →
  utf8_step text index = Some n → (1 ≤ n)%nat.
Proof.
  intros Hlt. rewrite utf8_step_bytes by done. intros Hn.
  apply step_bytes_sound in Hn as (cp & l' & _ & _ & ->); [apply utf8_encode_length|].
  apply Forall_drop. unfold bytes. apply Forall_fmap, Forall_true. intros c. apply byte_of_range.
Qed.

Lemma utf8_loop_total fuel text index :
  (String.length text - index < fuel)%nat → is_Some (utf8_loop fuel text index).
Proof.
  revert index. induction fuel as [|fuel IH]; intros index Hf; [lia|]. cbn [utf8_loop].
  destruct (Nat.leb_spec (String.length text) index); [done|].
  destruct (utf8_step text index) as [n|] eqn:E; [|done].
  apply utf8_step_bounds in E; [|done]. apply IH. lia.
Qed.

Lemma utf8_loop_spec fuel text index :
  (String.length text - index < fuel)%nat →
  utf8_loop fuel text index = Some true ↔
  ∃ cps, Forall scalar_value cps ∧ drop index (bytes text) = cps ≫= utf8_encode.
Proof.
  revert index. induction fuel as [|fuel IH]; intros index Hf; [lia|]. cbn [utf8_loop].
  destruct (Nat.leb_spec (String.length text) index) as [Hge|Hlt].
  { rewrite drop_ge by (by rewrite length_bytes). split; [|done]. intros _. by exists []. }
  pose proof (utf8_step_bytes text index Hlt) as Hstep.
  assert (drop index (bytes text) ≠ []) as Hne.
  { intros Hd. apply (f_equal length) in Hd. rewrite length_drop, length_bytes in Hd. simpl in Hd. lia. }
  split.
  - destruct (utf8_step text index) as [n|] eqn:E; [|done]. symmetry in Hstep.
    pose proof (utf8_step_bounds _ _ _ Hlt E).
    apply step_bytes_sound in Hstep as (cp & l' & Hcp & Hl & ->).
    2:{ apply Forall_drop. unfold bytes. apply Forall_fmap, Forall_true. intros c. apply byte_of_range. }
    intros (cps & Hcps & Hr)%IH; [|lia]. exists (cp :: cps). split; [by constructor|].
    rewrite Hl. cbn. f_equal. rewrite <- Hr, <- drop_drop, Hl. by rewrite drop_app_length.
  - intros (cps & Hcps & Hr). destruct Hcps as [|cp cps Hcp Hcps]; [done|]. cbn in Hr.
    rewrite Hr, step_bytes_encode in Hstep by done. rewrite Hstep.
    apply IH; [pose proof (utf8_encode_length cp); lia|]. exists cps. split; [done|].
    rewrite <- drop_drop, Hr. by rewrite drop_app_length.
Qed.

(** C20: is_valid_utf8 returns true exactly on the byte strings that are a
    concatenation of UTF-8 encodings of Unicode scalar values: no overlong form,
    no surrogate, nothing past U+10FFFF and no truncated sequence. *)
Theorem is_valid_utf8_exact text : is_valid_utf8 text = true ↔ well_formed_utf8 text.
Proof.
  unfold is_valid_utf8, well_formed_utf8.
  rewrite <- (drop_0 (bytes text)) , <- (utf8_loop_spec (S (String.length text)) text 0) by lia.
  destruct (utf8_loop _ _ _) as [[]|]; naive_solver.
Qed.

#[global] Arguments is_valid_utf8 : simpl never.
