(* ===== verification/Json.v ===== *)
(** * JSON: the interface of json-c and the helpers of json.cpp

    json-c is a library the program calls, so its values and functions are the
    parameters of the class [JsonC]; what the program relies on is stated as the
    class [JsonLaws], from json-c's documentation.  The helpers of json.cpp are
    defined on that interface.  ModelJson.v has an implementation with all the
    laws, used to evaluate the development on concrete inputs. *)

From S2P Require Import Prelude Cxx.
Open Scope Z_scope.

(** ** The interface *)

(** enum json_type of json_types.h *)
Inductive json_type :=
  | json_type_null | json_type_boolean | json_type_double | json_type_int
  | json_type_object | json_type_array | json_type_string.

#[global] Instance json_type_eq_dec : EqDecision json_type.
Proof. solve_decision. Defined.

(** enum json_tokener_error: the program only compares with the first. *)
Definition json_tokener_success : Z := 0.

(** [J] is the type of JSON values as the program holds them (json_object
    pointers; the program never depends on the identity of a node). *)
Class JsonC (J : Type) := {
  json_null : J;
  json_is_null : J → bool;
  json_object_get_type : J → json_type;
  json_object_object_get_ex : J → string → option J;
  json_object_get_boolean : J → bool;
  json_object_get_int : J → Z;
  json_object_get_int64 : J → Z;
  (** the bytes behind the returned pointer, [None] for NULL *)
  json_object_get_string : J → option string;
  json_object_get_string_len : J → Z;
  json_object_array_length : J → Z;
  json_object_array_get_idx : J → Z → J;
  (** the constructors return NULL when the allocation fails *)
  json_object_new_object : J;
  json_object_new_array : J;
  json_object_new_boolean : bool → J;
  json_object_new_int : Z → J;
  json_object_new_int64 : Z → J;
  json_object_new_string : string → J;
  json_object_new_string_len : string → Z → J;
  json_object_object_add : J → string → J → J;
  json_object_array_add : J → J → J;
  json_object_to_json_string_ext : J → option string;
  json_tokener_new : bool;
  (** object, error and end of the parse of the first [len] bytes *)
  json_tokener_parse_ex : string → Z → J * Z * Z;
}.

Definition json_object_is_type `{JsonC J} (j : J) (t : json_type) : bool :=
  bool_decide (json_object_get_type j = t).

(** The values the program builds, with a bound on their nesting. *)
Inductive built `{JsonC J} : nat → J → Prop :=
  | built_boolean d b : built d (json_object_new_boolean b)
  | built_int d z : in_i32 z → built d (json_object_new_int z)
  | built_int64 d z : in_i64 z → built d (json_object_new_int64 z)
  | built_string d s : no_nul s = true → built d (json_object_new_string s)
  | built_string_len d s : built d (json_object_new_string_len s (size s))
  | built_object d : built d json_object_new_object
  | built_object_add d o k v :
      json_object_get_type o = json_type_object → no_nul k = true →
      built (S d) o → built d v → built (S d) (json_object_object_add o k v)
  | built_array d : built d json_object_new_array
  | built_array_add d a v :
      json_object_get_type a = json_type_array →
      built (S d) a → built d v → built (S d) (json_object_array_add a v).

(** What the program relies on.  Allocation succeeds; the type, the members and
    the elements of a constructed value are the ones it was given; a string is
    read back whole; a value built within the default depth of the tokener
    (JSON_TOKENER_DEFAULT_DEPTH, 32) is read back from its text. *)
Class JsonLaws (J : Type) `{JsonC J} : Prop := {
  law_null j : json_is_null j = true ↔ json_object_get_type j = json_type_null;
  law_tokener_new : json_tokener_new = true;
  law_type_object : json_object_get_type json_object_new_object = json_type_object;
  law_type_array : json_object_get_type json_object_new_array = json_type_array;
  law_type_boolean b : json_object_get_type (json_object_new_boolean b) = json_type_boolean;
  law_type_int z : json_object_get_type (json_object_new_int z) = json_type_int;
  law_type_int64 z : json_object_get_type (json_object_new_int64 z) = json_type_int;
  law_type_string s : json_object_get_type (json_object_new_string s) = json_type_string;
  law_type_string_len s n :
    json_object_get_type (json_object_new_string_len s n) = json_type_string;
  law_get_boolean b : json_object_get_boolean (json_object_new_boolean b) = b;
  law_get_int z : in_i32 z → json_object_get_int (json_object_new_int z) = z;
  law_get_int_int64 z : in_i32 z → json_object_get_int64 (json_object_new_int z) = z;
  law_get_int64 z : in_i64 z → json_object_get_int64 (json_object_new_int64 z) = z;
  law_int64_range j : in_i64 (json_object_get_int64 j);
  law_get_string s : no_nul s = true →
    json_object_get_string (json_object_new_string s) = Some s;
  law_get_string_len s n : 0 ≤ n ≤ size s →
    json_object_get_string (json_object_new_string_len s n) = Some (assign s n);
  law_string_view j : json_object_get_type j = json_type_string →
    ∃ t, json_object_get_string j = Some t ∧ json_object_get_string_len j = size t;
  law_get_ex_empty k : json_object_object_get_ex json_object_new_object k = None;
  law_get_ex_add o k v k' : json_object_get_type o = json_type_object →
    json_object_object_get_ex (json_object_object_add o k v) k' =
      if decide (k = k') then Some v else json_object_object_get_ex o k';
  law_type_add o k v : json_object_get_type o = json_type_object →
    json_object_get_type (json_object_object_add o k v) = json_type_object;
  law_array_length_empty : json_object_array_length json_object_new_array = 0;
  law_array_length_nonneg j : 0 ≤ json_object_array_length j;
  law_array_length_add a v : json_object_get_type a = json_type_array →
    json_object_array_length (json_object_array_add a v) = json_object_array_length a + 1;
  law_array_get_add a v i : json_object_get_type a = json_type_array →
    0 ≤ i ≤ json_object_array_length a →
    json_object_array_get_idx (json_object_array_add a v) i =
      if decide (i = json_object_array_length a) then v else json_object_array_get_idx a i;
  law_type_array_add a v : json_object_get_type a = json_type_array →
    json_object_get_type (json_object_array_add a v) = json_type_array;
  law_serialize d j : built d j → (d < 32)%nat →
    ∃ s, json_object_to_json_string_ext j = Some s ∧ no_nul s = true ∧
      (size s ≤ i32_max → json_tokener_parse_ex s (size s) = (j, json_tokener_success, size s));
}.

(** ** json.cpp *)

Section json_cpp.
Context `{JsonC J} {S : Type}.

Definition make_json_object : M S J :=
  let object := json_object_new_object in
  if json_is_null object then throw (RuntimeError "Unable to create JSON object")
  else mret object.

Definition make_json_array : M S J :=
  let object := json_object_new_array in
  if json_is_null object then throw (RuntimeError "Unable to create JSON array")
  else mret object.

(** The [const char*] becomes a std::string. *)
Definition serialize_json (object : J) : M S string :=
  match json_object_to_json_string_ext object with
  | None => throw (RuntimeError "Unable to serialize JSON")
  | Some serialized => mret (c_str serialized)
  end.

Record JsonParse := MkParse { parsed_object : J; parsed_error : Z; parse_end : Z }.

Definition parse_json (text : string) : M S JsonParse :=
  if negb json_tokener_new then throw (RuntimeError "Unable to create JSON parser")
  else
    let '(object, error, stop) := json_tokener_parse_ex text (cast_i32 (size text)) in
    mret (MkParse object error stop).

Definition json_is_object (object : J) : bool :=
  negb (json_is_null object) && json_object_is_type object json_type_object.

(** [Some value] when the function returns true and assigns [value]. *)
Definition json_get_string (object : J) (name : string) : option string :=
  match json_object_object_get_ex object name with
  | None => None
  | Some member =>
      if negb (json_object_is_type member json_type_string) then None
      else match json_object_get_string member with
           | None => None
           | Some text =>
               let length := json_object_get_string_len member in
               if length <? 0 then None else Some (assign text length)
           end
  end.

(** [get_ex(object, name, &v) && is_type(v, t)], the test the handlers use. *)
Definition get_typed (object : J) (name : string) (t : json_type) : option J :=
  match json_object_object_get_ex object name with
  | Some v => if json_object_is_type v t then Some v else None
  | None => None
  end.
End json_cpp.
Arguments JsonParse J : clear implicits.

(** ** Lemmas the clients use *)

Section json_lemmas.
Context `{JsonLaws J}.

Lemma is_type_true (j : J) t : json_object_is_type j t = true ↔ json_object_get_type j = t.
Proof. apply bool_decide_eq_true. Qed.

Lemma is_type_eq (j : J) t : json_object_get_type j = t → json_object_is_type j t = true.
Proof. apply is_type_true. Qed.

Lemma make_json_object_run {S} (s : S) :
  make_json_object s = (Ok json_object_new_object, s).
Proof.
  unfold make_json_object. destruct (json_is_null _) eqn:E; [|done].
  apply law_null in E. by rewrite law_type_object in E.
Qed.

Lemma make_json_array_run {S} (s : S) :
  make_json_array s = (Ok json_object_new_array, s).
Proof.
  unfold make_json_array. destruct (json_is_null _) eqn:E; [|done].
  apply law_null in E. by rewrite law_type_array in E.
Qed.

Lemma json_is_object_true (j : J) :
  json_is_object j = true ↔ json_object_get_type j = json_type_object.
Proof.
  unfold json_is_object. rewrite andb_true_iff, is_type_true, negb_true_iff.
  split; [naive_solver|]. intros Ht. split; [|done].
  apply not_true_is_false. rewrite law_null. congruence.
Qed.

Lemma get_typed_Some (o v : J) k t :
  get_typed o k t = Some v ↔ json_object_object_get_ex o k = Some v ∧ json_object_get_type v = t.
Proof.
  unfold get_typed. destruct (json_object_object_get_ex o k) as [v'|]; [|naive_solver].
  unfold json_object_is_type. case_bool_decide; naive_solver.
Qed.

(** A string member is read back byte for byte. *)
Lemma json_get_string_Some (o v : J) k t :
  json_object_object_get_ex o k = Some v → json_object_get_type v = json_type_string →
  json_object_get_string v = Some t → json_get_string o k = Some t.
Proof.
  intros Hk Hv Ht. unfold json_get_string. rewrite Hk, is_type_eq by done. simpl. rewrite Ht.
  destruct (law_string_view v Hv) as (t' & Ht' & ->). assert (t' = t) as -> by congruence.
  destruct (Z.ltb_spec (size t) 0); [pose proof (size_nonneg t); lia|].
  by rewrite assign_size.
Qed.

Lemma serialize_json_run {S} d (j : J) (s : S) : built d j → (d < 32)%nat →
  ∃ t, serialize_json j s = (Ok t, s) ∧
    (size t ≤ i32_max → ∀ S' (s' : S'),
      parse_json t s' = (Ok (MkParse j json_tokener_success (size t)), s')).
Proof.
  intros Hb Hd. destruct (law_serialize d j Hb Hd) as (t & Ht & Hn & Hp).
  exists t. unfold serialize_json. rewrite Ht, c_str_no_nul by done. split; [done|].
  intros Hsz S' s'. unfold parse_json. rewrite law_tokener_new. simpl.
  pose proof (size_nonneg t). rewrite cast_i32_small by (unfold_ints; lia). by rewrite Hp.
Qed.
End json_lemmas.

(** [serialize_json] is a read: its result does not depend on the state. *)
Lemma serialize_json_reads `{JsonC J} {S} (j : J) : reads (serialize_json j : M S string).
Proof. intros s. unfold serialize_json. by destruct (json_object_to_json_string_ext j). Qed.
Lemma make_json_object_reads `{JsonC J} {S} : reads (make_json_object : M S J).
Proof. intros s. unfold make_json_object. by destruct (json_is_null _). Qed.
Lemma make_json_array_reads `{JsonC J} {S} : reads (make_json_array : M S J).
Proof. intros s. unfold make_json_array. by destruct (json_is_null _). Qed.
Lemma parse_json_reads `{JsonC J} {S} t : reads (parse_json t : M S (JsonParse J)).
Proof.
  intros s. unfold parse_json. destruct (negb _); [done|].
  by destruct (json_tokener_parse_ex _ _) as [[? ?] ?].
Qed.

#[export] Hint Resolve serialize_json_reads make_json_object_reads make_json_array_reads
  parse_json_reads : leschat.
#[export] Hint Constructors built : leschat.
#[export] Hint Rewrite @make_json_object_run @make_json_array_run using typeclasses eauto : leschat.
