(* ===== verification/ModelJson.v ===== *)
(** * A concrete JSON implementation

    An implementation of the interface of Json.v with all its laws: values are
    trees, and the text of a value is the binary encoding of the tree.  It is
    not a model of json-c's text format; it shows that the laws can hold and
    lets the witnesses compute. *)

From S2P Require Import Prelude Cxx Json.
From Stdlib Require Import Ascii.
Open Scope Z_scope.

Inductive leaf := LNull | LBool (b : bool) | LInt (z : Z) | LStr (s : string).

#[global] Instance leaf_eq_dec : EqDecision leaf.
Proof. solve_decision. Defined.
#[global] Program Instance leaf_countable : Countable leaf :=
  inj_countable' (λ l, match l with
    | LNull => inl (inl ()) | LBool b => inl (inr b) | LInt z => inr (inl z) | LStr s => inr (inr s)
    end) (λ x, match x with
    | inl (inl _) => LNull | inl (inr b) => LBool b | inr (inl z) => LInt z | inr (inr s) => LStr s
    end) _.
Next Obligation. by intros []. Qed.

Abbreviation jtree := (gen_tree leaf).

(** Arrays are nodes labelled 0, objects nodes labelled 1 with a node per member. *)
Definition member (k : string) (v : jtree) : jtree := GenNode 2 [GenLeaf (LStr k); v].

Fixpoint find_member (k : string) (l : list jtree) : option jtree :=
  match l with
  | GenNode _ [GenLeaf (LStr k'); v] :: l' => if decide (k' = k) then Some v else find_member k l'
  | _ :: l' => find_member k l'
  | [] => None
  end.

Fixpoint pos_text (p : positive) : string :=
  match p with
  | xH => EmptyString
  | xO p => String (ascii_of_nat 48) (pos_text p)
  | xI p => String (ascii_of_nat 49) (pos_text p)
  end.

Fixpoint text_pos (s : string) : option positive :=
  match s with
  | EmptyString => Some xH
  | String c s' =>
      if decide (c = ascii_of_nat 48) then xO <$> text_pos s'
      else if decide (c = ascii_of_nat 49) then xI <$> text_pos s'
      else None
  end.

Lemma text_pos_text p : text_pos (pos_text p) = Some p.
Proof.
  induction p as [p IH|p IH|]; [..|done].
  - change (xI <$> text_pos (pos_text p) = Some (xI p)). by rewrite IH.
  - change (xO <$> text_pos (pos_text p) = Some (xO p)). by rewrite IH.
Qed.

Lemma no_nul_pos_text p : no_nul (pos_text p) = true.
Proof. induction p; simpl; done. Qed.

Definition clamp (lo hi z : Z) : Z := Z.max lo (Z.min hi z).

#[global] Instance ModelJson : JsonC jtree := {
  json_null := GenLeaf LNull;
  json_is_null j := match j with GenLeaf LNull => true | _ => false end;
  json_object_get_type j := match j with
    | GenLeaf LNull => json_type_null
    | GenLeaf (LBool _) => json_type_boolean
    | GenLeaf (LInt _) => json_type_int
    | GenLeaf (LStr _) => json_type_string
    | GenNode 0 _ => json_type_array
    | GenNode _ _ => json_type_object
    end;
  json_object_object_get_ex j k := match j with
    | GenNode (S _) l => find_member k l
    | _ => None
    end;
  json_object_get_boolean j := match j with GenLeaf (LBool b) => b | _ => false end;
  json_object_get_int j := match j with GenLeaf (LInt z) => clamp i32_min i32_max z | _ => 0 end;
  json_object_get_int64 j := match j with GenLeaf (LInt z) => clamp i64_min i64_max z | _ => 0 end;
  json_object_get_string j := match j with GenLeaf (LStr s) => Some s | _ => None end;
  json_object_get_string_len j := match j with GenLeaf (LStr s) => size s | _ => 0 end;
  json_object_array_length j := match j with GenNode 0 l => Z.of_nat (length l) | _ => 0 end;
  json_object_array_get_idx j i := match j with
    | GenNode 0 l => default (GenLeaf LNull) (l !! Z.to_nat i)
    | _ => GenLeaf LNull
    end;
  json_object_new_object := GenNode 1 [];
  json_object_new_array := GenNode 0 [];
  json_object_new_boolean b := GenLeaf (LBool b);
  json_object_new_int z := GenLeaf (LInt z);
  json_object_new_int64 z := GenLeaf (LInt z);
  json_object_new_string s := GenLeaf (LStr s);
  json_object_new_string_len s n := GenLeaf (LStr (assign s n));
  json_object_object_add o k v := match o with
    | GenNode (S n) l => GenNode (S n) (member k v :: l)
    | _ => o
    end;
  json_object_array_add a v := match a with
    | GenNode 0 l => GenNode 0 (l ++ [v])
    | _ => a
    end;
  json_object_to_json_string_ext j := Some (pos_text (encode j));
  json_tokener_new := true;
  json_tokener_parse_ex s len :=
    match text_pos (assign s len) ≫= decode with
    | Some j => (j, json_tokener_success, len)
    | None => (GenLeaf LNull, 7, 0)
    end;
}.

Lemma array_lookup_snoc (l : list jtree) v i : 0 ≤ i ≤ Z.of_nat (length l) →
  (l ++ [v]) !! Z.to_nat i =
    if decide (i = Z.of_nat (length l)) then Some v else l !! Z.to_nat i.
Proof.
  intros Hi. case_decide as E.
  - rewrite E, Nat2Z.id. rewrite lookup_app_r by lia. by rewrite Nat.sub_diag.
  - by rewrite lookup_app_l by lia.
Qed.

#[global] Instance ModelJson_laws : JsonLaws jtree.
Proof.
  assert (∀ z lo hi, lo ≤ z ≤ hi → clamp lo hi z = z) as Hclamp by (unfold clamp; lia).
  split; try done; simpl.
  - intros [[]|[|n] l]; simpl; naive_solver.
  - intros z Hz. by apply Hclamp.
  - intros z Hz. apply Hclamp. unfold_ints. lia.
  - intros z Hz. by apply Hclamp.
  - intros [[]|[|n] l]; unfold clamp; unfold_ints; lia.
  - intros [[| | |t]|[|n] l]; simpl; try done. by exists t.
  - intros [[]|[|n] l] k v k' Ht; simplify_eq/=; done.
  - intros [[]|[|n] l] k v Ht; simplify_eq/=; done.
  - intros [[]|[|n] l]; lia.
  - intros [[]|[|n] l] v Ht; simplify_eq/=; rewrite ?length_app; simpl; lia.
  - intros [[]|[|n] l] v i Ht Hi; simplify_eq/=. rewrite array_lookup_snoc by done. by case_decide.
  - intros [[]|[|n] l] v Ht; simplify_eq/=; done.
  - intros d j _ _. exists (pos_text (encode j)). split; [done|].
    split; [apply no_nul_pos_text|]. intros _. rewrite assign_size, text_pos_text. simpl.
    by rewrite decode_encode.
Qed.
