(* ===== verification/MessageCodec.v ===== *)
(** * The message codec (message_codec.cpp)

    [parse_message] validates a JSON value and builds the message;
    [message_to_json] builds the value sent to browsers and peers. *)

From S2P Require Import Prelude Cxx Protocol Utf8 Json ModelJson.
Open Scope Z_scope.

(** ** The two functions *)

Section codec.
Context `{JsonC J} {S : Type}.

(** [Some m] when the function returns true; a caller that gets false drops
    the partly assigned message. *)
Definition parse_message (object : J) : option ChatMessage :=
  if negb (json_object_is_type object json_type_object) then None else
  message_id ← json_get_string object "id";
  origin ← json_get_string object "origin";
  callsign ← json_get_string object "callsign";
  channel ← json_get_string object "channel";
  body ← json_get_string object "body";
  sequence ← get_typed object "sequence" json_type_int;
  created_at ← get_typed object "created_at_ms" json_type_int;
  let sequence_value := json_object_get_int64 sequence in
  if (sequence_value <? 1) || empty message_id ||
     (160 <? size message_id) || empty origin ||
     (64 <? size origin) || empty callsign ||
     (64 <? size callsign) ||
     negb (str_eqb channel default_channel) ||
     empty body || (max_message_bytes <? size body) ||
     negb (is_valid_utf8 body)
  then None
  else Some {| sequence := u64 sequence_value; message_id := message_id; origin := origin;
               callsign := callsign; channel := channel;
               created_at_ms := json_object_get_int64 created_at; body := body |}.

Definition message_to_json (message : ChatMessage) : M S J :=
  object ← make_json_object;
  let object := json_object_object_add object "sequence"
    (json_object_new_int64 (cast_i64 (sequence message))) in
  let object := json_object_object_add object "id"
    (json_object_new_string (c_str (message_id message))) in
  let object := json_object_object_add object "callsign"
    (json_object_new_string (c_str (callsign message))) in
  let object := json_object_object_add object "channel"
    (json_object_new_string (c_str (channel message))) in
  let object := json_object_object_add object "created_at_ms"
    (json_object_new_int64 (created_at_ms message)) in
  let object := json_object_object_add object "body"
    (json_object_new_string_len (body message) (cast_i32 (size (body message)))) in
  mret (json_object_object_add object "origin"
    (json_object_new_string (c_str (origin message)))).
End codec.

Lemma message_to_json_reads `{JsonC J} {S} m : reads (message_to_json m : M S J).
Proof.
  unfold message_to_json. apply reads_bind; [apply make_json_object_reads|intros o; apply reads_ret].
Qed.
#[export] Hint Resolve message_to_json_reads : leschat.

(** ** What a message that passes the codec satisfies *)

Record valid_message (m : ChatMessage) : Prop := {
  vm_sequence : 1 ≤ sequence m ≤ i64_max;
  vm_id : 1 ≤ size (message_id m) ≤ 160;
  vm_origin : 1 ≤ size (origin m) ≤ 64;
  vm_callsign : 1 ≤ size (callsign m) ≤ 64;
  vm_channel : channel m = default_channel;
  vm_created : in_i64 (created_at_ms m);
  vm_body : 1 ≤ size (body m) ≤ max_message_bytes;
  vm_utf8 : is_valid_utf8 (body m) = true;
}.

(** The message as a peer reads it back: the identifying strings pass through
    [c_str()], the body does not. *)
Definition truncated (m : ChatMessage) : ChatMessage :=
  {| sequence := sequence m; message_id := c_str (message_id m); origin := c_str (origin m);
     callsign := c_str (callsign m); channel := channel m;
     created_at_ms := created_at_ms m; body := body m |}.

Definition nul_free (m : ChatMessage) : bool :=
  no_nul (message_id m) && no_nul (origin m) && no_nul (callsign m).

(** The tests of [parse_message] on the fields it read. *)
Definition acceptable (m : ChatMessage) : bool :=
  negb ((sequence m <? 1) || empty (message_id m) || (160 <? size (message_id m)) ||
    empty (origin m) || (64 <? size (origin m)) || empty (callsign m) ||
    (64 <? size (callsign m)) || negb (str_eqb (channel m) default_channel) ||
    empty (body m) || (max_message_bytes <? size (body m)) || negb (is_valid_utf8 (body m))).

Lemma acceptable_valid m : in_i64 (sequence m) → in_i64 (created_at_ms m) →
  acceptable m = true ↔ valid_message m.
Proof.
  intros Hs Hc. unfold acceptable.
  rewrite negb_true_iff, !orb_false_iff, !negb_false_iff, !empty_false, !Z.ltb_ge, str_eqb_true.
  split; [intros; destruct_and!; split; try done; unfold_ints; lia|].
  intros []. split_and!; try done; lia.
Qed.

Lemma valid_acceptable m : valid_message m → acceptable m = true.
Proof. intros Hv. destruct (Hv) as []. apply acceptable_valid; [unfold_ints; lia|done..]. Qed.

(** The side conditions of the conversions a valid message goes through. *)
Lemma valid_ranges m : valid_message m →
  in_i64 (sequence m) ∧ in_i64 (created_at_ms m) ∧ size (body m) ≤ i32_max ∧
  no_nul (channel m) = true.
Proof.
  intros [? ? ? ? Hch ? ? ?]. rewrite Hch. unfold max_message_bytes in *.
  split_and!; try done; unfold_ints; lia.
Qed.

Section laws.
Context `{JsonLaws J}.

(** What [message_to_json] builds. *)
Definition message_json (m : ChatMessage) : J :=
  let str s := json_object_new_string (c_str s) in
  json_object_object_add (json_object_object_add (json_object_object_add
    (json_object_object_add (json_object_object_add (json_object_object_add
      (json_object_object_add json_object_new_object
      "sequence" (json_object_new_int64 (cast_i64 (sequence m))))
      "id" (str (message_id m)))
      "callsign" (str (callsign m)))
      "channel" (str (channel m)))
      "created_at_ms" (json_object_new_int64 (created_at_ms m)))
      "body" (json_object_new_string_len (body m) (cast_i32 (size (body m)))))
      "origin" (str (origin m)).

Lemma message_to_json_run {S} m (s : S) : message_to_json m s = (Ok (message_json m), s).
Proof. unfold message_to_json. by rewrite (bind_run _ _ _ _ _ (make_json_object_run s)). Qed.

Lemma type_added (o : J) k v :
  json_object_get_type o = json_type_object →
  json_object_get_type (json_object_object_add o k v) = json_type_object.
Proof. apply law_type_add. Qed.
Local Hint Resolve type_added law_type_object : core.

Lemma message_json_type m : json_object_get_type (message_json m) = json_type_object.
Proof. unfold message_json. auto 20. Qed.

Lemma message_json_built d m : (1 ≤ d)%nat → in_i64 (created_at_ms m) → size (body m) ≤ i32_max →
  built d (message_json m).
Proof.
  intros Hd Hc Hb. destruct d as [|d]; [lia|]. unfold message_json.
  rewrite cast_i32_small by (pose proof (size_nonneg (body m)); unfold_ints; lia).
  repeat (apply built_object_add; [auto 20|done| |]); try constructor;
    auto using no_nul_c_str, cast_i64_range.
Qed.

(** Reading the members of [message_json]. *)
Lemma message_json_get m k :
  json_object_object_get_ex (message_json m) k =
    if decide (k = "origin") then Some (json_object_new_string (c_str (origin m)))
    else if decide (k = "body")
      then Some (json_object_new_string_len (body m) (cast_i32 (size (body m))))
    else if decide (k = "created_at_ms") then Some (json_object_new_int64 (created_at_ms m))
    else if decide (k = "channel") then Some (json_object_new_string (c_str (channel m)))
    else if decide (k = "callsign") then Some (json_object_new_string (c_str (callsign m)))
    else if decide (k = "id") then Some (json_object_new_string (c_str (message_id m)))
    else if decide (k = "sequence") then Some (json_object_new_int64 (cast_i64 (sequence m)))
    else None.
Proof.
  unfold message_json. rewrite !law_get_ex_add, law_get_ex_empty by auto 20.
  repeat (case_decide; try congruence).
Qed.

Lemma parse_message_valid j m : parse_message j = Some m → valid_message m.
Proof.
  unfold parse_message. destruct (negb _); [done|]. intros Hp.
  repeat match type of Hp with
  | (?o ≫= _) = Some _ => destruct o; [cbn [mbind option_bind] in Hp|done]
  end.
  match type of Hp with context [json_object_get_int64 ?j <? 1] =>
    pose proof (law_int64_range j) as Hr; set (sv := json_object_get_int64 j) in * end.
  match type of Hp with (if ?c then _ else _) = _ => destruct c eqn:E; [done|] end.
  simplify_eq. apply acceptable_valid; cbn.
  - rewrite !orb_false_iff, Z.ltb_ge in E. rewrite u64_small; unfold_ints; lia.
  - apply law_int64_range.
  - unfold acceptable. cbn [sequence message_id origin callsign channel body].
    rewrite negb_true_iff, u64_small; [exact E|].
    rewrite !orb_false_iff, Z.ltb_ge in E. unfold_ints; lia.
Qed.

Lemma parse_message_json m : valid_message m →
  parse_message (message_json m) =
    if acceptable (truncated m) then Some (truncated m) else None.
Proof.
  intros (Hs & Hc & Hb & Hch)%valid_ranges. unfold parse_message.
  rewrite is_type_eq by apply message_json_type. cbn [negb].
  assert (∀ k v s, json_object_object_get_ex (message_json m) k = Some v →
    v = json_object_new_string (c_str s) →
    json_get_string (message_json m) k = Some (c_str s)) as Hstr.
  { intros k v s Hk ->. eapply json_get_string_Some; [done|apply law_type_string|].
    apply law_get_string, no_nul_c_str. }
  rewrite (Hstr "id" _ (message_id m) (message_json_get m "id") eq_refl).
  rewrite (Hstr "origin" _ (origin m) (message_json_get m "origin") eq_refl).
  rewrite (Hstr "callsign" _ (callsign m) (message_json_get m "callsign") eq_refl).
  rewrite (Hstr "channel" _ (channel m) (message_json_get m "channel") eq_refl).
  assert (json_get_string (message_json m) "body" = Some (body m)) as ->.
  { pose proof (size_nonneg (body m)).
    eapply json_get_string_Some; [apply (message_json_get m "body")|apply law_type_string_len|].
    rewrite cast_i32_small by (unfold_ints; lia). rewrite law_get_string_len by lia.
    by rewrite assign_size. }
  assert (get_typed (message_json m) "sequence" json_type_int =
    Some (json_object_new_int64 (sequence m))) as ->.
  { apply get_typed_Some. split; [|apply law_type_int64].
    rewrite (message_json_get m "sequence"). by rewrite cast_i64_small. }
  assert (get_typed (message_json m) "created_at_ms" json_type_int =
    Some (json_object_new_int64 (created_at_ms m))) as ->.
  { apply get_typed_Some. split; [apply (message_json_get m "created_at_ms")|apply law_type_int64]. }
  cbn [mbind option_bind]. rewrite !law_get_int64 by done.
  rewrite (c_str_no_nul (channel m)) by done. unfold acceptable, truncated; cbn.
  destruct (sequence m <? 1) eqn:E1; [done|]. cbn [orb].
  apply Z.ltb_ge in E1. rewrite u64_small by (unfold_ints; lia).
  by match goal with |- (if ?c then _ else _) = _ => destruct c end.
Qed.
End laws.

Lemma truncated_fixed m : truncated m = m ↔ nul_free m = true.
Proof.
  unfold nul_free. rewrite !andb_true_iff, <- !c_str_fixed. destruct m; cbn. unfold truncated; cbn.
  split; [by intros [= -> -> ->]|]. by intros [[-> ->] ->].
Qed.

Lemma truncated_acceptable m : valid_message m →
  acceptable (truncated m) =
    negb (empty (c_str (message_id m)) || empty (c_str (origin m)) || empty (c_str (callsign m))).
Proof.
  intros [? ? ? ? Hch ? ? Hu]. unfold acceptable, truncated; cbn. rewrite Hch, Hu.
  pose proof (c_str_size (message_id m)). pose proof (c_str_size (origin m)).
  pose proof (c_str_size (callsign m)).
  rewrite (proj2 (Z.ltb_ge (sequence m) 1)), (proj2 (Z.ltb_ge 160 _)) by lia.
  rewrite !(proj2 (Z.ltb_ge 64 _)), (proj2 (empty_false (body m))), (proj2 (Z.ltb_ge _ (size (body m))))
    by lia.
  rewrite (proj2 (str_eqb_true _ _) eq_refl). cbn [negb]. rewrite !orb_false_r. cbn [orb].
  done.
Qed.

(** ** Properties of the codec *)

(** The text of a message: what is published to browsers and sent to peers. *)
Definition message_text `{JsonC J} {S} (m : ChatMessage) : M S string :=
  object ← message_to_json m; serialize_json object.

Section properties.
Context `{JsonLaws J}.

(** Every message parse_message accepts, whatever the JSON value, has a
    sequence in 1 .. 2^63-1, an id of 1 .. 160 bytes, an origin and a callsign
    of 1 .. 64 bytes, the default channel, an int64 time and a body of
    1 .. 2048 bytes of valid UTF-8. *)
Theorem parse_message_bounds (j : J) m : parse_message j = Some m → valid_message m.
Proof. apply parse_message_valid. Qed.

(** C14: a valid message without NUL bytes in its id, origin and callsign
    survives the wire: the text message_to_json and serialize_json produce is
    parsed completely, into an object parse_message turns back into it. *)
Theorem codec_roundtrip {S} m (s : S) : valid_message m → nul_free m = true →
  ∃ t, message_text m s = (Ok t, s) ∧
    (size t ≤ i32_max → ∀ S' (s' : S'), ∃ p : JsonParse J, parse_json t s' = (Ok p, s') ∧
      parsed_error p = json_tokener_success ∧ parse_end p = size t ∧
      json_is_object (parsed_object p) = true ∧ parse_message (parsed_object p) = Some m).
Proof.
  intros Hv Hn. destruct (valid_ranges m Hv) as (_ & Hc & Hb & _).
  destruct (serialize_json_run 1 (message_json m) s) as (t & Ht & Hp);
    [by apply message_json_built|lia|].
  exists t. split.
  { unfold message_text. by rewrite (bind_run _ _ _ _ _ (message_to_json_run m s)). }
  intros Hsz S' s'. eexists. split; [by apply Hp|]. cbn. split_and!; try done.
  - apply json_is_object_true, message_json_type.
  - rewrite parse_message_json by done. rewrite (proj2 (truncated_fixed m) Hn).
    by rewrite valid_acceptable.
Qed.

(** C34: what the codec does to every valid message: message_to_json passes
    the id, the origin and the callsign through c_str(), so a peer reads the
    bytes before the first NUL of each, rejects the message when one of them
    starts with NUL, and reads the message itself only when there is no NUL. *)
Theorem codec_truncates {S} m (s : S) : valid_message m →
  ∃ j : J, message_to_json m s = (Ok j, s) ∧
    parse_message j =
      (if empty (c_str (message_id m)) || empty (c_str (origin m)) || empty (c_str (callsign m))
       then None else Some (truncated m)) ∧
    (truncated m = m ↔ nul_free m = true).
Proof.
  intros Hv. exists (message_json m). split; [apply message_to_json_run|].
  split; [|apply truncated_fixed].
  rewrite parse_message_json, truncated_acceptable by done. by destruct (_ || _).
Qed.
End properties.

(** ** Witnesses *)

Definition sample_message : ChatMessage :=
  {| sequence := 7; message_id := "node-a:7"; origin := "node-a"; callsign := "Alpha";
     channel := default_channel; created_at_ms := 1700000000000; body := "hello" |}.

Lemma sample_valid : valid_message sample_message.
Proof. apply acceptable_valid; [by unfold_ints|by unfold_ints|by vm_compute]. Qed.

Lemma parse_message_bounds_witness :
  parse_message (message_json (J := jtree) sample_message) = Some sample_message ∧
  valid_message sample_message.
Proof.
  split; [by vm_compute|].
  apply (parse_message_bounds (message_json (J := jtree) sample_message)). by vm_compute.
Defined.

Lemma codec_roundtrip_witness : ∃ t, message_text (J := jtree) sample_message tt = (Ok t, tt) ∧
  (size t ≤ i32_max → ∀ S' (s' : S'), ∃ p : JsonParse jtree, parse_json t s' = (Ok p, s') ∧
    parsed_error p = json_tokener_success ∧ parse_end p = size t ∧
    json_is_object (parsed_object p) = true ∧ parse_message (parsed_object p) = Some sample_message).
Proof. apply codec_roundtrip; [apply sample_valid|by vm_compute]. Defined.

(** A valid message whose id has a NUL byte. *)
Definition nul_message : ChatMessage :=
  {| sequence := 7; message_id := String.append "node-a" (String NUL ":7"); origin := "node-a";
     callsign := "Alpha"; channel := default_channel; created_at_ms := 1700000000000;
     body := "hello" |}.

Lemma codec_truncates_witness :
  valid_message nul_message ∧ message_id (truncated nul_message) = "node-a" ∧
  ∃ j : jtree, message_to_json nul_message tt = (Ok j, tt) ∧
    parse_message j =
      (if empty (c_str (message_id nul_message)) || empty (c_str (origin nul_message)) ||
          empty (c_str (callsign nul_message))
       then None else Some (truncated nul_message)) ∧
    (truncated nul_message = nul_message ↔ nul_free nul_message = true).
Proof.
  assert (valid_message nul_message) as Hv
    by (apply acceptable_valid; [by unfold_ints|by unfold_ints|by vm_compute]).
  split; [done|]. split; [done|]. apply (codec_truncates nul_message tt Hv).
Defined.
