(* ===== verification/Sqlite.v ===== *)
(** * The interface of SQLite

    The message store keeps its data in SQLite, a library the program calls.
    The statements are the program's own (message_store.cpp); their execution is
    the parameter [Sqlite], and [SqliteLaws] states SQLite's documented
    behaviour: constraints, AUTOINCREMENT, INSERT OR IGNORE, UPSERT, and that a
    statement that fails changes nothing or rolls its transaction back.
    [SqliteStatements] counts the prepared statements that are open.
    ModelDb.v has an engine with all the laws, for the witnesses. *)

From S2P Require Import Prelude Cxx Protocol.
Open Scope Z_scope.

Definition SQLITE_OK : Z := 0.
Definition SQLITE_BUSY : Z := 5.
Definition SQLITE_FULL : Z := 13.
Definition SQLITE_ROW : Z := 100.
Definition SQLITE_DONE : Z := 101.

(** ** The statements of message_store.cpp *)

(** Run with sqlite3_exec. *)
Inductive exec_sql :=
  | PRAGMA_journal_mode_DELETE
  | PRAGMA_synchronous_NORMAL
  | PRAGMA_foreign_keys_ON
  | PRAGMA_max_page_count (max_pages : Z)
  | CREATE_TABLE_messages
  | CREATE_TABLE_sequences
  | BEGIN_IMMEDIATE
  | COMMIT
  | ROLLBACK
  | DELETE_oldest (limit : nat).

(** Prepared, bound and stepped to completion. *)
Inductive write_sql :=
  | INSERT_OR_IGNORE_INTO_messages (row : ChatMessage)
  | UPSERT_sequences (origin : string) (last_sequence : Z).

(** The columns of SELECT sequence, message_id, origin, callsign, channel,
    created_at_ms, body; a text column is the result of sqlite3_column_text,
    [None] for NULL. *)
Record message_columns := MkColumns {
  col_sequence : Z;
  col_message_id : option string;
  col_origin : option string;
  col_callsign : option string;
  col_channel : option string;
  col_created_at_ms : Z;
  col_body : option string;
}.

(** Queries, indexed by the type of a row. *)
Inductive query : Type → Type :=
  | PRAGMA_page_size : query Z
  | SELECT_messages_ORDER_BY_storage_id : query message_columns
  | SELECT_1_WHERE_message_id (message_id : string) : query unit
  | SELECT_last_sequence_WHERE_origin (origin : string) : query Z
  | SELECT_origin_last_sequence : query (option string * Z).

(** The texts given to sqlite3_prepare_v2. *)
Inductive statement :=
  | st_page_size | st_select_messages | st_select_by_id | st_insert | st_upsert
  | st_select_last | st_select_sequences.

Class Sqlite (D : Type) := {
  sqlite3_open_v2 : string → Z * option D;
  sqlite3_errmsg : D → string;
  (** result code and error text *)
  sqlite3_exec : D → exec_sql → (Z * option string) * D;
  sqlite3_prepare_v2 : D → statement → Z * D;
  sqlite3_bind_text : D → Z → string → Z;
  sqlite3_finalize : D → statement → D;
  (** the result code of the step that ends the statement *)
  sqlite3_step_write : D → write_sql → Z * D;
  (** the rows stepped over and the result code that ends them *)
  sqlite3_step_rows {R} : D → query R → (list R * Z) * D;
  sqlite3_changes : D → Z;
  (** the result code; the handle is closed when it is SQLITE_OK *)
  sqlite3_close : D → Z;
}.

(** ** The contents of a database *)

Record tables := MkTables {
  t_messages : list (Z * ChatMessage);   (** by increasing storage_id *)
  t_sequences : gmap string Z;
  t_last_id : Z;                         (** AUTOINCREMENT's high-water mark *)
}.

(** [saved] is what ROLLBACK restores while a transaction is open. *)
Record db_view := MkView { current : tables; saved : option tables }.

Definition rolled_back (v : db_view) : db_view :=
  match saved v with
  | None => v
  | Some t => MkView t None
  end.

(** The UNIQUE constraints on message_id and on (origin, sequence). *)
Definition conflicts (m : ChatMessage) (r : ChatMessage) : bool :=
  str_eqb (message_id r) (message_id m) ||
  (str_eqb (origin r) (origin m) && (sequence r =? sequence m)).

Definition has_conflict (t : tables) (m : ChatMessage) : bool :=
  existsb (λ r, conflicts m r.2) (t_messages t).

Definition insert_row (id : Z) (m : ChatMessage) (t : tables) : tables :=
  MkTables (t_messages t ++ [(id, m)]) (t_sequences t) id.

Definition upsert_sequence (o : string) (n : Z) (t : tables) : tables :=
  MkTables (t_messages t)
    (<[o := match t_sequences t !! o with Some last => Z.max last n | None => n end]> (t_sequences t))
    (t_last_id t).

Definition delete_oldest (limit : nat) (t : tables) : tables :=
  MkTables (drop limit (t_messages t)) (t_sequences t) (t_last_id t).

Definition columns_of (m : ChatMessage) : message_columns :=
  MkColumns (sequence m) (Some (message_id m)) (Some (origin m)) (Some (callsign m))
    (Some (channel m)) (created_at_ms m) (Some (body m)).

(** The answer of a query; the order of SELECT_origin_last_sequence is not
    specified, so it is only given up to permutation. *)
Definition answers {R} (t : tables) (q : query R) : list R → Prop :=
  match q in query R return list R → Prop with
  | PRAGMA_page_size => λ rows, ∃ n, rows = [n]
  | SELECT_messages_ORDER_BY_storage_id => λ rows, rows = columns_of <$> (t_messages t).*2
  | SELECT_1_WHERE_message_id i => λ rows,
      rows = if existsb (λ r, str_eqb (message_id r.2) i) (t_messages t) then [tt] else []
  | SELECT_last_sequence_WHERE_origin o => λ rows, rows = option_list (t_sequences t !! o)
  | SELECT_origin_last_sequence => λ rows,
      rows ≡ₚ (λ '(o, n), (Some o, n)) <$> map_to_list (t_sequences t)
  end.

(** What the constraints of the schema ensure. *)
Record tables_ok (t : tables) : Prop := {
  ok_ids : StronglySorted Z.lt (t_messages t).*1;
  ok_last_id : Forall (λ i, i ≤ t_last_id t) (t_messages t).*1;
  ok_unique : ∀ i j r1 r2, (t_messages t).*2 !! i = Some r1 → (t_messages t).*2 !! j = Some r2 →
    i ≠ j → conflicts r1 r2 = false;
}.

(** A statement that does not complete leaves the database as it was or, on
    some errors, rolls the open transaction back. *)
Definition failed (v v' : db_view) : Prop := v' = v ∨ v' = rolled_back v.

Class SqliteLaws (D : Type) `{Sqlite D} := {
  view : D → db_view;
  law_open path d : sqlite3_open_v2 path = (SQLITE_OK, Some d) →
    tables_ok (current (view d)) ∧ saved (view d) = None;
  law_open_handle path : (sqlite3_open_v2 path).1 = SQLITE_OK → is_Some (sqlite3_open_v2 path).2;
  law_prepare d st : view (sqlite3_prepare_v2 d st).2 = view d;
  law_finalize d st : view (sqlite3_finalize d st) = view d;
  law_config d c : match c with
    | PRAGMA_journal_mode_DELETE | PRAGMA_synchronous_NORMAL | PRAGMA_foreign_keys_ON
    | PRAGMA_max_page_count _ | CREATE_TABLE_messages | CREATE_TABLE_sequences =>
        view (sqlite3_exec d c).2 = view d
    | _ => True
    end;
  law_begin d e d' rc : sqlite3_exec d BEGIN_IMMEDIATE = ((rc, e), d') →
    if decide (rc = SQLITE_OK)
    then saved (view d) = None ∧ view d' = MkView (current (view d)) (Some (current (view d)))
    else view d' = view d;
  law_commit d e d' rc : sqlite3_exec d COMMIT = ((rc, e), d') →
    if decide (rc = SQLITE_OK) then view d' = MkView (current (view d)) None
    else failed (view d) (view d');
  law_rollback d e d' rc : sqlite3_exec d ROLLBACK = ((rc, e), d') →
    view d' = rolled_back (view d);
  law_delete d n e d' rc : sqlite3_exec d (DELETE_oldest n) = ((rc, e), d') →
    if decide (rc = SQLITE_OK)
    then view d' = MkView (delete_oldest n (current (view d))) (saved (view d))
    else failed (view d) (view d');
  law_insert d m d' rc : sqlite3_step_write d (INSERT_OR_IGNORE_INTO_messages m) = (rc, d') →
    if decide (rc = SQLITE_DONE) then
      if has_conflict (current (view d)) m
      then view d' = view d ∧ sqlite3_changes d' = 0
      else sqlite3_changes d' = 1 ∧ ∃ id, t_last_id (current (view d)) < id ∧
        view d' = MkView (insert_row id m (current (view d))) (saved (view d))
    else failed (view d) (view d');
  law_upsert d o n d' rc : sqlite3_step_write d (UPSERT_sequences o n) = (rc, d') →
    if decide (rc = SQLITE_DONE)
    then view d' = MkView (upsert_sequence o n (current (view d))) (saved (view d))
    else failed (view d) (view d');
  law_rows {R} d (q : query R) rows rc d' : sqlite3_step_rows d q = ((rows, rc), d') →
    view d' = view d ∧
    ∃ full, answers (current (view d)) q full ∧ rows `prefix_of` full ∧
      (rc = SQLITE_DONE → rows = full);
}.

(** ** Prepared statements

    A statement that was prepared stays open until it is finalized, and a handle
    can be closed when none is open; sqlite3_close answers SQLITE_BUSY for
    others. *)
Class SqliteStatements (D : Type) `{Sqlite D} := {
  open_statements : D → nat;
  st_open path d rc : sqlite3_open_v2 path = (rc, Some d) → open_statements d = 0%nat;
  st_prepare d st d' rc : sqlite3_prepare_v2 d st = (rc, d') →
    open_statements d' = if decide (rc = SQLITE_OK) then S (open_statements d) else open_statements d;
  st_finalize d st : open_statements (sqlite3_finalize d st) = pred (open_statements d);
  st_exec d c : open_statements (sqlite3_exec d c).2 = open_statements d;
  st_write d w : open_statements (sqlite3_step_write d w).2 = open_statements d;
  st_rows {R} d (q : query R) : open_statements (sqlite3_step_rows d q).2 = open_statements d;
  st_close d : open_statements d = 0%nat → sqlite3_close d = SQLITE_OK;
}.
