(* ===== verification/ModelDb.v ===== *)
(** * A concrete database engine

    An implementation of the interface of Sqlite.v with all its laws, for the
    witnesses: the tables themselves, a capacity in rows past which an insertion
    reports SQLITE_FULL.  [FailingDb] is the same engine with every query failing
    before its first row. *)

From S2P Require Import Prelude Cxx Protocol Sqlite.
Open Scope Z_scope.

(** [m_open] counts the statements that are prepared and not finalized. *)
Record mdb := MkDb { m_view : db_view; m_changes : Z; m_capacity : nat; m_open : nat }.

Definition set_view (d : mdb) (v : db_view) : mdb := MkDb v (m_changes d) (m_capacity d) (m_open d).
Definition set_open (d : mdb) (k : nat) : mdb := MkDb (m_view d) (m_changes d) (m_capacity d) k.
Definition set_current (d : mdb) (t : tables) : mdb := set_view d (MkView t (saved (m_view d))).

Definition empty_tables : tables := MkTables [] ∅ 0.
Definition fresh_db (capacity : nat) : mdb := MkDb (MkView empty_tables None) 0 capacity 0.

Definition m_exec (d : mdb) (c : exec_sql) : (Z * option string) * mdb :=
  match c with
  | BEGIN_IMMEDIATE =>
      match saved (m_view d) with
      | None => ((SQLITE_OK, None), set_view d (MkView (current (m_view d)) (Some (current (m_view d)))))
      | Some _ => ((1, Some "cannot start a transaction within a transaction"), d)
      end
  | COMMIT =>
      match saved (m_view d) with
      | Some _ => ((SQLITE_OK, None), set_view d (MkView (current (m_view d)) None))
      | None => ((1, Some "cannot commit - no transaction is active"), d)
      end
  | ROLLBACK => ((SQLITE_OK, None), set_view d (rolled_back (m_view d)))
  | DELETE_oldest n => ((SQLITE_OK, None), set_current d (delete_oldest n (current (m_view d))))
  | _ => ((SQLITE_OK, None), d)
  end.

Definition m_write (d : mdb) (w : write_sql) : Z * mdb :=
  match w with
  | INSERT_OR_IGNORE_INTO_messages m =>
      let t := current (m_view d) in
      if has_conflict t m then (SQLITE_DONE, MkDb (m_view d) 0 (m_capacity d) (m_open d))
      else if (m_capacity d <=? length (t_messages t))%nat then (SQLITE_FULL, d)
      else (SQLITE_DONE,
        MkDb (MkView (insert_row (t_last_id t + 1) m t) (saved (m_view d))) 1
          (m_capacity d) (m_open d))
  | UPSERT_sequences o n => (SQLITE_DONE, set_current d (upsert_sequence o n (current (m_view d))))
  end.

Definition m_answer {R} (t : tables) (q : query R) : list R :=
  match q in query R return list R with
  | PRAGMA_page_size => [4096]
  | SELECT_messages_ORDER_BY_storage_id => columns_of <$> (t_messages t).*2
  | SELECT_1_WHERE_message_id i =>
      if existsb (λ r, str_eqb (message_id r.2) i) (t_messages t) then [tt] else []
  | SELECT_last_sequence_WHERE_origin o => option_list (t_sequences t !! o)
  | SELECT_origin_last_sequence => (λ '(o, n), (Some o, n)) <$> map_to_list (t_sequences t)
  end.

Definition m_rows {R} (d : mdb) (q : query R) : (list R * Z) * mdb :=
  ((m_answer (current (m_view d)) q, SQLITE_DONE), d).

(** The files on the disk: "used.db" holds the 41st message of node-a, "forged.db"
    one that was given the largest sequence, any other is new. *)
Definition written (q : Z) : ChatMessage :=
  {| sequence := q; message_id := "node-a:" +:+ to_string q; origin := "node-a"; callsign := "Bolt";
     channel := default_channel; created_at_ms := 1; body := "hello" |}.
Definition one_message (q : Z) : tables :=
  upsert_sequence "node-a" q (insert_row 1 (written q) empty_tables).
Definition m_disk (path : string) : mdb :=
  if str_eqb path "used.db" then MkDb (MkView (one_message 41) None) 0 1000 0
  else if str_eqb path "forged.db" then MkDb (MkView (one_message i64_max) None) 0 1000 0
  else fresh_db 1000.

#[global] Instance ModelDb : Sqlite mdb := {
  sqlite3_open_v2 path := (SQLITE_OK, Some (m_disk path));
  sqlite3_errmsg _ := "error";
  sqlite3_exec := m_exec;
  sqlite3_prepare_v2 d _ := (SQLITE_OK, set_open d (S (m_open d)));
  sqlite3_bind_text _ _ _ := SQLITE_OK;
  sqlite3_finalize d _ := set_open d (pred (m_open d));
  sqlite3_step_write := m_write;
  sqlite3_step_rows _ := m_rows;
  sqlite3_changes := m_changes;
  sqlite3_close d := if decide (m_open d = 0%nat) then SQLITE_OK else SQLITE_BUSY;
}.

Lemma empty_tables_ok : tables_ok empty_tables.
Proof. split; cbn; [constructor|constructor|]. by intros i j r1 r2 Hi; rewrite lookup_nil in Hi. Qed.

Lemma one_message_ok q : tables_ok (one_message q).
Proof.
  split; cbn; [repeat constructor|constructor; [lia|constructor]|].
  intros i j r1 r2 Hi Hj Hij. apply list_lookup_singleton_Some in Hi as [-> _], Hj as [-> _]. done.
Qed.

Lemma m_answer_ok {R} t (q : query R) : answers t q (m_answer t q).
Proof. destruct q; cbn; eauto. Qed.

#[global] Instance ModelDb_laws : SqliteLaws mdb.
Proof.
  refine {| view := m_view |}.
  - cbn. intros path d [= <-]. unfold m_disk.
    repeat destruct (str_eqb _ _); (split; [first [apply one_message_ok|apply empty_tables_ok]|done]).
  - done.
  - done.
  - done.
  - by intros d [].
  - cbn. intros d e d' rc Hx. destruct (saved (m_view d)); simplify_eq; by case_decide.
  - cbn. intros d e d' rc Hx. destruct (saved (m_view d)); simplify_eq; case_decide; try done. by left.
  - cbn. intros d e d' rc Hx. by simplify_eq.
  - cbn. intros d n e d' rc Hx. simplify_eq. by case_decide.
  - cbn. intros d m d' rc Hx. destruct (has_conflict _ m); [by simplify_eq; rewrite decide_True|].
    destruct (_ <=? _)%nat; simplify_eq; [rewrite decide_False by done; by left|].
    rewrite decide_True by done. split; [done|]. exists (t_last_id (current (m_view d)) + 1).
    split; [lia|done].
  - cbn. intros d o n d' rc Hx. simplify_eq. by rewrite decide_True.
  - cbn. unfold m_rows. intros R d q rows rc d' Hx. simplify_eq. split; [done|].
    exists (m_answer (current (m_view d')) q). split; [apply m_answer_ok|].
    by split.
Defined.

#[global] Instance ModelDb_statements : SqliteStatements mdb.
Proof.
  refine {| open_statements := m_open |}.
  - cbn. intros path d rc [= _ <-]. unfold m_disk. by repeat destruct (str_eqb _ _).
  - cbn. intros d st d' rc [= <- <-]. done.
  - done.
  - intros d []; cbn; try done; by destruct (saved (m_view d)).
  - intros d [m|o q]; cbn; [|done]. destruct (has_conflict _ m); [done|]. by destruct (_ <=? _)%nat.
  - done.
  - cbn. intros d ->. done.
Defined.

(** Queries that fail with SQLITE_BUSY. *)
Record fdb := MkFailing { f_db : mdb }.

#[global] Instance FailingDb : Sqlite fdb := {
  sqlite3_open_v2 path := (SQLITE_OK, Some (MkFailing (fresh_db 1000)));
  sqlite3_errmsg _ := "database is locked";
  sqlite3_exec d c := let (r, d') := m_exec (f_db d) c in (r, MkFailing d');
  sqlite3_prepare_v2 d _ := (SQLITE_OK, d);
  sqlite3_bind_text _ _ _ := SQLITE_OK;
  sqlite3_finalize d _ := d;
  sqlite3_step_write d w := let (r, d') := m_write (f_db d) w in (r, MkFailing d');
  sqlite3_step_rows _ d q := (([], 5), d);
  sqlite3_changes d := m_changes (f_db d);
  sqlite3_close _ := SQLITE_OK;
}.
