(* ===== verification/MessageStore.v ===== *)
(** * The message store (message_store.cpp)

    [Store] is the object: the database handle and the list of messages cached
    in memory.  Each method is an operation of the state monad over it.  The
    abstract specification is a log of messages with the last sequence of each
    origin; [add] is proved to refine it. *)

From S2P Require Import Prelude Cxx Protocol Sqlite ModelDb.
Open Scope Z_scope.

Record Store (D : Type) := MkStore { database : D; messages_ : list ChatMessage }.
Arguments MkStore {D} _ _.
Arguments database {D} _.
Arguments messages_ {D} _.

(** ** The methods *)

Section methods.
Context `{Sqlite D}.

(** A call of SQLite on the handle. *)
Definition on_database {A} (f : D → A * D) : M (Store D) A := λ s,
  let (a, d) := f (database s) in (Ok a, MkStore d (messages_ s)).

Definition set_messages (l : list ChatMessage) : M (Store D) unit :=
  modify (λ s, MkStore (database s) l).
Definition push_message (m : ChatMessage) : M (Store D) unit :=
  modify (λ s, MkStore (database s) (messages_ s ++ [m])).
Definition errmsg : M (Store D) string := gets (λ s, sqlite3_errmsg (database s)).

(** Statement::Statement *)
Definition prepare (st : statement) : M (Store D) unit :=
  result ← on_database (λ d, sqlite3_prepare_v2 d st);
  if negb (result =? SQLITE_OK) then
    e ← errmsg; throw (RuntimeError ("SQLite prepare failed: " +:+ e))
  else mret tt.

(** Statement::~Statement *)
Definition finalize (st : statement) (s : Store D) : Store D :=
  MkStore (sqlite3_finalize (database s) st) (messages_ s).

(** The scope of a Statement; when its constructor throws there is nothing to
    destroy. *)
Definition with_statement {A} (st : statement) (body : M (Store D) A) : M (Store D) A :=
  prepare st;;
  finally body (finalize st).

Definition bind_text (index : Z) (value : string) : M (Store D) unit :=
  result ← gets (λ s, sqlite3_bind_text (database s) index value);
  if negb (result =? SQLITE_OK) then throw (RuntimeError "SQLite text binding failed")
  else mret tt.

Definition column_text (text : option string) : string := default EmptyString text.

Definition execute (sql : exec_sql) : M (Store D) unit :=
  '(result, error) ← on_database (λ d, sqlite3_exec d sql);
  if negb (result =? SQLITE_OK) then
    message ← match error with None => errmsg | Some e => mret e end;
    if result =? SQLITE_FULL then throw DatabaseFull
    else throw (RuntimeError ("SQLite operation failed: " +:+ message))
  else mret tt.

(** [std::max<std::uint64_t>(1U, max_bytes / page_size)] *)
Definition max_pages (max_bytes page_size : Z) : Z := Z.max 1 (max_bytes / u64 page_size).

Definition initialize_schema (max_bytes : Z) : M (Store D) unit :=
  execute PRAGMA_journal_mode_DELETE;;
  execute PRAGMA_synchronous_NORMAL;;
  execute PRAGMA_foreign_keys_ON;;
  with_statement st_page_size (
    '(rows, _) ← on_database (λ d, sqlite3_step_rows d PRAGMA_page_size);
    match rows with
    | [] => throw (RuntimeError "Unable to read SQLite page size")
    | page_size :: _ =>
        if page_size <=? 0 then throw (RuntimeError "SQLite returned an invalid page size")
        else
          execute (PRAGMA_max_page_count (max_pages max_bytes page_size));;
          execute CREATE_TABLE_messages;;
          execute CREATE_TABLE_sequences
    end).

(** One row of the result: its sequence must be at least 1. *)
Definition load_row (row : message_columns) : M (Store D) unit :=
  if col_sequence row <? 1 then throw (RuntimeError "Database contains an invalid sequence")
  else push_message
    {| sequence := u64 (col_sequence row);
       message_id := column_text (col_message_id row);
       origin := column_text (col_origin row);
       callsign := column_text (col_callsign row);
       channel := column_text (col_channel row);
       created_at_ms := col_created_at_ms row;
       body := column_text (col_body row) |}.

Definition load_messages : M (Store D) unit :=
  set_messages [];;
  with_statement st_select_messages (
    '(rows, result) ← on_database (λ d, sqlite3_step_rows d SELECT_messages_ORDER_BY_storage_id);
    iterM load_row rows;;
    if result =? SQLITE_DONE then mret tt
    else e ← errmsg; throw (RuntimeError ("Unable to load messages: " +:+ e))).

Definition contains (id : string) : M (Store D) bool :=
  with_statement st_select_by_id (
    bind_text 1 id;;
    '(rows, _) ← on_database (λ d, sqlite3_step_rows d (SELECT_1_WHERE_message_id id));
    mret (negb (bool_decide (rows = [])))).

(** The values bound to the INSERT: the sequence is converted to int64. *)
Definition bound_row (message : ChatMessage) : ChatMessage :=
  {| sequence := cast_i64 (sequence message); message_id := message_id message;
     origin := origin message; callsign := callsign message; channel := channel message;
     created_at_ms := created_at_ms message; body := body message |}.

(** The body of insert_message's try block. *)
Definition insert_in_transaction (message : ChatMessage) : M (Store D) bool :=
  (if i64_max <? sequence message then
     throw (RuntimeError "Message sequence exceeds SQLite range") else mret tt);;
  with_statement st_insert (
    bind_text 1 (origin message);;
    bind_text 3 (message_id message);;
    bind_text 4 (callsign message);;
    bind_text 5 (channel message);;
    bind_text 7 (body message);;
    insert_result ← on_database (λ d, sqlite3_step_write d
      (INSERT_OR_IGNORE_INTO_messages (bound_row message)));
    if insert_result =? SQLITE_FULL then throw DatabaseFull
    else if negb (insert_result =? SQLITE_DONE) then
      e ← errmsg; throw (RuntimeError ("Unable to store message: " +:+ e))
    else
    changes ← gets (λ s, sqlite3_changes (database s));
    let inserted := negb (changes =? 0) in
    (if inserted then
       with_statement st_upsert (
         bind_text 1 (origin message);;
         update_result ← on_database (λ d, sqlite3_step_write d
           (UPSERT_sequences (origin message) (cast_i64 (sequence message))));
         if update_result =? SQLITE_FULL then throw DatabaseFull
         else if negb (update_result =? SQLITE_DONE) then
           throw (RuntimeError "Unable to update message sequence")
         else mret tt)
     else mret tt);;
    execute COMMIT;;
    mret inserted).

Definition insert_message (message : ChatMessage) : M (Store D) bool :=
  execute BEGIN_IMMEDIATE;;
  try_catch (insert_in_transaction message) (λ e,
    try_catch (execute ROLLBACK) (λ _, mret tt);;
    throw e).

Definition prune_oldest_messages : M (Store D) unit :=
  execute (DELETE_oldest 100);;
  load_messages.

(** [if (inserted) messages_.push_back(...)], on both paths of add. *)
Definition insert_and_cache (message : ChatMessage) : M (Store D) bool :=
  inserted ← insert_message message;
  (if inserted : bool then push_message message else mret tt);;
  mret inserted.

Definition add (message : ChatMessage) : M (Store D) bool :=
  try_catch (insert_and_cache message) (λ e,
    match e with
    | DatabaseFull =>
        prune_oldest_messages;;
        insert_and_cache message
    | _ => throw e
    end).

Definition messages : M (Store D) (list ChatMessage) := gets messages_.

Definition next_sequence (origin : string) : M (Store D) Z :=
  with_statement st_select_last (
    bind_text 1 origin;;
    '(rows, _) ← on_database (λ d, sqlite3_step_rows d (SELECT_last_sequence_WHERE_origin origin));
    match rows with
    | [] => mret 1
    | last :: _ =>
        if (last <? 0) || (last =? i64_max) then
          throw (RuntimeError "Stored message sequence is invalid")
        else mret (u64 (u64 last + 1))
    end).

(** [summary.emplace(origin, sequence)] keeps the first value of a key. *)
Definition summary_row (summary : gmap string Z) (row : option string * Z) : M (Store D) (gmap string Z) :=
  let '(o, n) := row in
  if n <? 0 then throw (RuntimeError "Stored sequence summary is invalid")
  else mret (match summary !! column_text o with
             | Some _ => summary
             | None => <[column_text o := u64 n]> summary
             end).

Definition sequence_summary : M (Store D) (gmap string Z) :=
  with_statement st_select_sequences (
    '(rows, result) ← on_database (λ d, sqlite3_step_rows d SELECT_origin_last_sequence);
    summary ← foldM summary_row ∅ rows;
    if result =? SQLITE_DONE then mret summary
    else throw (RuntimeError "Unable to read sequence summary")).

(** The constructor; the object exists only when it returns. *)
Definition MessageStore (database_path : string) (max_bytes : Z) : result (Store D) :=
  if empty database_path || (max_bytes =? 0) then
    Throw (InvalidArgument "Database path and size limit must be provided")
  else
    let '(rc, handle) := sqlite3_open_v2 database_path in
    if negb (rc =? SQLITE_OK) then
      Throw (RuntimeError ("Unable to open message database: " +:+
        match handle with None => "unknown SQLite error" | Some d => sqlite3_errmsg d end))
    else match handle with
    | None => Undefined
    | Some d =>
        match (initialize_schema max_bytes;; load_messages) (MkStore d []) with
        | (Ok _, s) => Ok s
        | (Throw e, _) => Throw e
        | (Undefined, _) => Undefined
        end
    end.
End methods.

(** ** The abstract store: a log and the last sequence of each origin *)

Record alog := MkLog { entries : list ChatMessage; lasts : gmap string Z }.

Definition clashes (a : alog) (m : ChatMessage) : bool := existsb (conflicts m) (entries a).

Definition append (a : alog) (m : ChatMessage) : alog :=
  MkLog (entries a ++ [m])
    (<[origin m := match lasts a !! origin m with
                   | Some last => Z.max last (sequence m) | None => sequence m end]> (lasts a)).

Definition forget (n : nat) (a : alog) : alog := MkLog (drop n (entries a)) (lasts a).

(** One insertion: a message that clashes changes nothing. *)
Definition put_message (a : alog) (m : ChatMessage) : bool * alog :=
  if clashes a m then (false, a) else (true, append a m).

(** The abstract [add]: the message is put into the log or, when SQLite reports
    that it is full, into the log without its 100 oldest entries. *)
Definition add_result (full : bool) (a : alog) (m : ChatMessage) : bool * alog :=
  put_message (if full then forget 100 a else a) m.

(** What the log satisfies: every message has a sequence that fits SQLite, no
    two clash, and no sequence is above the last one of its origin. *)
Record log_ok (a : alog) : Prop := {
  lo_sequence : Forall (λ m, 1 ≤ sequence m ≤ i64_max) (entries a);
  lo_unique : ∀ i j m1 m2, entries a !! i = Some m1 → entries a !! j = Some m2 → i ≠ j →
    conflicts m1 m2 = false;
  lo_last : Forall (λ m, ∃ last, lasts a !! origin m = Some last ∧ sequence m ≤ last) (entries a);
  lo_range : map_Forall (λ _ n, 1 ≤ n ≤ i64_max) (lasts a);
}.

(** ** Lists of rows *)

#[global] Instance columns_of_inj : Inj (=) (=) columns_of.
Proof. intros [] [] [=]. by subst. Qed.

Lemma prefix_fmap_inv {A B} (f : A → B) (k : list B) (l : list A) :
  k `prefix_of` f <$> l → ∃ l', k = f <$> l' ∧ l' `prefix_of` l.
Proof.
  intros [k' Hk]. apply fmap_app_inv in Hk as (l1 & l2 & -> & -> & ->).
  exists l1. split; [done|]. by exists l2.
Qed.

Lemma list_fmap_eq_inj {A B} (f : A → B) (l k : list A) :
  Inj (=) (=) f → f <$> l = f <$> k → l = k.
Proof. intros ?. apply (inj (fmap f)). Qed.

Lemma Forall_prefix_of {A} (P : A → Prop) l k : l `prefix_of` k → Forall P k → Forall P l.
Proof. intros [k' ->]. rewrite Forall_app. naive_solver. Qed.

(** ** When the database is full *)

Section full.
Context `{Sqlite D}.

(** Whether SQLite ends the insertion of a message by reporting that it is full:
    its answers along the calls of insert_message, up to the first that ends it. *)
Definition is_full (rc : Z) : bool := rc =? SQLITE_FULL.
Definition binds (d : D) (index : Z) (value : string) : bool := sqlite3_bind_text d index value =? SQLITE_OK.
Definition commit_full (d : D) : bool := is_full (sqlite3_exec d COMMIT).1.1.

Definition upsert_full (d : D) (m : ChatMessage) : bool :=
  let '(rc, d) := sqlite3_prepare_v2 d st_upsert in
  if negb ((rc =? SQLITE_OK) && binds d 1 (origin m)) then false
  else
  let '(rc, d) := sqlite3_step_write d (UPSERT_sequences (origin m) (cast_i64 (sequence m))) in
  if negb (rc =? SQLITE_DONE) then is_full rc else commit_full (sqlite3_finalize d st_upsert).

Definition transaction_full (d : D) (m : ChatMessage) : bool :=
  let '(rc, d) := sqlite3_prepare_v2 d st_insert in
  if negb ((rc =? SQLITE_OK) && (binds d 1 (origin m) && (binds d 3 (message_id m) &&
           (binds d 4 (callsign m) && (binds d 5 (channel m) && binds d 7 (body m)))))) then false
  else
  let '(rc, d) := sqlite3_step_write d (INSERT_OR_IGNORE_INTO_messages (bound_row m)) in
  if negb (rc =? SQLITE_DONE) then is_full rc
  else if sqlite3_changes d =? 0 then commit_full d else upsert_full d m.

Definition insertion_full (d : D) (m : ChatMessage) : bool :=
  let '((rc, _), d) := sqlite3_exec d BEGIN_IMMEDIATE in
  if negb (rc =? SQLITE_OK) then is_full rc
  else if i64_max <? sequence m then false else transaction_full d m.

(** The outcome of the calls, each from the answer of SQLite. *)
Lemma execute_outcome q (s : Store D) : ∃ r, execute q s = (r, MkStore (sqlite3_exec (database s) q).2 (messages_ s)) ∧
  r ≠ Undefined ∧ (r = Ok tt ↔ (sqlite3_exec (database s) q).1.1 = SQLITE_OK) ∧
  (r = Throw DatabaseFull ↔ (sqlite3_exec (database s) q).1.1 = SQLITE_FULL).
Proof.
  unfold execute, on_database, errmsg, gets, mbind, M_bind, mret, M_ret.
  destruct (sqlite3_exec (database s) q) as [[rc error] d]. cbn.
  destruct (Z.eqb_spec rc SQLITE_OK) as [->|]; [by eexists|]. cbn [negb].
  destruct error; destruct (Z.eqb_spec rc SQLITE_FULL); by eexists.
Qed.

Lemma commit_outcome {A} (b : A) (s : Store D) :
  ((execute COMMIT;; mret b) s).1 = Throw DatabaseFull ↔ commit_full (database s) = true.
Proof.
  destruct (execute_outcome COMMIT s) as (r & Hr & Hu & _ & Hf). unfold commit_full, is_full.
  unfold mbind, M_bind. rewrite Hr, Z.eqb_eq. destruct r as [[]|e|]; cbn; naive_solver.
Qed.

(** ROLLBACK, whatever it answers, hides no exception. *)
Lemma rethrow_full {A} (c : M (Store D) A) (s : Store D) :
  (try_catch c (λ e, try_catch (execute ROLLBACK) (λ _, mret tt);; throw e) s).1 = Throw DatabaseFull ↔
  (c s).1 = Throw DatabaseFull.
Proof.
  unfold try_catch, mbind, M_bind. destruct (c s) as [[a|e|] s1]; [done| |done].
  destruct (execute_outcome ROLLBACK s1) as (r & -> & Hu & _). by destruct r as [[]|e'|].
Qed.

(** The code after a write step. *)
Lemma codes_outcome {A} rc (e c : M (Store D) A) (b : bool) s : (e s).1 ≠ Throw DatabaseFull →
  ((c s).1 = Throw DatabaseFull ↔ b = true) →
  ((if rc =? SQLITE_FULL then throw DatabaseFull else if negb (rc =? SQLITE_DONE) then e else c) s).1 =
    Throw DatabaseFull ↔ (if negb (rc =? SQLITE_DONE) then is_full rc else b) = true.
Proof.
  intros He Hc. unfold is_full. destruct (Z.eqb_spec rc SQLITE_FULL) as [->|]; [done|].
  by destruct (rc =? SQLITE_DONE).
Qed.

(** The statements, in continuation-passing style. *)
Lemma prepare_outcome {A} st (c : M (Store D) A) s :
  (prepare st;; c) s = (let '(rc, d) := sqlite3_prepare_v2 (database s) st in
    if rc =? SQLITE_OK then c (MkStore d (messages_ s))
    else (Throw (RuntimeError ("SQLite prepare failed: " +:+ sqlite3_errmsg d)), MkStore d (messages_ s))).
Proof.
  unfold prepare, on_database, errmsg, gets, mbind, M_bind. destruct (sqlite3_prepare_v2 _ _) as [rc d].
  by destruct (rc =? SQLITE_OK).
Qed.

Lemma bind_outcome {A} i t (c : M (Store D) A) s :
  (bind_text i t;; c) s = if binds (database s) i t then c s else (Throw (RuntimeError "SQLite text binding failed"), s).
Proof. unfold bind_text, binds, gets, mbind, M_bind. by destruct (_ =? SQLITE_OK). Qed.

Lemma step_outcome {A} w (c : Z → M (Store D) A) s :
  (rc ← on_database (λ d, sqlite3_step_write d w); c rc) s =
    c (sqlite3_step_write (database s) w).1 (MkStore (sqlite3_step_write (database s) w).2 (messages_ s)).
Proof. unfold on_database, mbind, M_bind. by destruct (sqlite3_step_write (database s) w). Qed.

Lemma finally_outcome {A} (c : M (Store D) A) f s : (finally c f s).1 = (c s).1.
Proof. unfold finally. by destruct (c s). Qed.

Lemma upsert_outcome m (b : bool) (s : Store D) :
  ((with_statement st_upsert (
      bind_text 1 (origin m);;
      update_result ← on_database (λ d, sqlite3_step_write d
        (UPSERT_sequences (origin m) (cast_i64 (sequence m))));
      if update_result =? SQLITE_FULL then throw DatabaseFull
      else if negb (update_result =? SQLITE_DONE) then
        throw (RuntimeError "Unable to update message sequence")
      else mret tt);; execute COMMIT;; mret b) s).1 = Throw DatabaseFull ↔
  upsert_full (database s) m = true.
Proof.
  unfold with_statement, upsert_full. unfold mbind at 1, M_bind at 1. rewrite prepare_outcome.
  destruct (sqlite3_prepare_v2 _ _) as [rc d]. destruct (rc =? SQLITE_OK); [|done]. cbn [andb].
  unfold finally. rewrite bind_outcome. cbn [database messages_]. destruct (binds d 1 (origin m)); [|done]. cbn [negb].
  rewrite step_outcome. cbn [database messages_]. destruct (sqlite3_step_write _ _) as [rc2 d2]. cbn [fst snd].
  unfold is_full. destruct (Z.eqb_spec rc2 SQLITE_FULL) as [->|]; [done|].
  destruct (rc2 =? SQLITE_DONE); [|done]. apply commit_outcome.
Qed.

Lemma transaction_outcome m (s : Store D) : (insert_in_transaction m s).1 = Throw DatabaseFull ↔
  (if i64_max <? sequence m then false else transaction_full (database s) m) = true.
Proof.
  unfold insert_in_transaction. destruct (i64_max <? sequence m); [done|].
  rewrite (bind_run _ _ s tt s) by done. unfold with_statement, transaction_full. rewrite prepare_outcome.
  destruct (sqlite3_prepare_v2 _ _) as [rc d]. destruct (rc =? SQLITE_OK); [|done].
  rewrite finally_outcome. cbn [andb].
  do 5 (rewrite bind_outcome; cbn [database]; match goal with |- context [binds d ?i ?t] =>
    destruct (binds d i t); [cbn [andb negb]|done] end).
  rewrite step_outcome. cbn [database messages_]. destruct (sqlite3_step_write _ _) as [rc2 d2]. cbn [fst snd].
  apply codes_outcome; [done|]. rewrite (bind_run _ _ _ (sqlite3_changes d2) (MkStore d2 (messages_ s))) by done.
  destruct (sqlite3_changes d2 =? 0); cbn [negb].
  - rewrite (bind_run _ _ _ tt (MkStore d2 (messages_ s))) by done. apply commit_outcome.
  - apply (upsert_outcome m true).
Qed.

(** insert_message throws DatabaseFull exactly when SQLite reported that it is
    full. *)
Lemma insert_message_full m (s : Store D) :
  (insert_message m s).1 = Throw DatabaseFull ↔ insertion_full (database s) m = true.
Proof.
  unfold insert_message, insertion_full.
  destruct (execute_outcome BEGIN_IMMEDIATE s) as (r & Hr & Hu & Hok & Hf).
  unfold mbind at 1, M_bind at 1. rewrite Hr. unfold is_full.
  destruct (sqlite3_exec (database s) BEGIN_IMMEDIATE) as [[rc e] d]. cbn in *.
  destruct r as [[]|e'|]; [|..|done].
  - rewrite (proj1 Hok eq_refl). cbn [Z.eqb negb]. rewrite rethrow_full. apply transaction_outcome.
  - destruct (Z.eqb_spec rc SQLITE_OK) as [Hrc|]; [by apply Hok in Hrc|]. cbn [negb]. rewrite Z.eqb_eq. naive_solver.
Qed.

Lemma insert_and_cache_full m (s : Store D) :
  (insert_and_cache m s).1 = Throw DatabaseFull ↔ insertion_full (database s) m = true.
Proof.
  rewrite <- insert_message_full. unfold insert_and_cache, mbind, M_bind.
  destruct (insert_message m s) as [[[]|e|] s1]; cbn; naive_solver.
Qed.
End full.

(** ** Specifications of the methods *)

Section specs.
Context `{SqliteLaws D}.

Definition at_view (v : db_view) (l : list ChatMessage) (s : Store D) : Prop :=
  view (database s) = v ∧ messages_ s = l.

(** Rolling back gives the tables [t] with no transaction open. *)
Definition undoable (t : tables) (l : list ChatMessage) (s : Store D) : Prop :=
  rolled_back (view (database s)) = MkView t None ∧ messages_ s = l.

Lemma rolled_back_failed v v' : failed v v' → rolled_back v' = rolled_back v.
Proof. intros [->| ->]; [done|]. unfold rolled_back. by destruct v as [t [u|]]. Qed.

Lemma undoable_open t u l s : at_view (MkView u (Some t)) l s → undoable t l s.
Proof. intros [Hv Hl]. unfold undoable, rolled_back. by rewrite Hv. Qed.

Lemma on_database_spec {A} (f : D → A * D) P (Q : A → Store D → Prop) E :
  (∀ s a d, P s → f (database s) = (a, d) → Q a (MkStore d (messages_ s))) →
  spec P (on_database f) Q E.
Proof.
  intros HQ s HP. unfold on_database. destruct (f (database s)) as [a d] eqn:Hf. by eapply HQ.
Qed.

Lemma gets_spec {S A} (f : S → A) (P : S → Prop) E : spec P (gets f) (λ a s, P s ∧ a = f s) E.
Proof. by intros s HP. Qed.

(** Calls that keep the contents and the cache. *)
Definition stable_at {A} (v : db_view) (l : list ChatMessage) (m : M (Store D) A) : Prop :=
  spec (at_view v l) m (λ _, at_view v l) (λ _, at_view v l).
Definition stable {A} (m : M (Store D) A) : Prop := ∀ v l, stable_at v l m.

Lemma throw_errmsg_spec {A} (P : Store D → Prop) (Q : A → Store D → Prop) f :
  spec P (e ← errmsg; throw (f e)) Q (λ _, P).
Proof. by intros s HP. Qed.

Lemma prepare_stable st : stable (prepare st).
Proof.
  intros v l. eapply spec_bind; [apply (on_database_spec _ _ (λ _, at_view v l))|].
  - intros s rc d [Hv Hl] Hp. split; [|done]. cbn.
    pose proof (law_prepare (database s) st) as Hl'. rewrite Hp in Hl'. simpl in Hl'. congruence.
  - intros rc. apply spec_if; intros _; [apply throw_errmsg_spec|by apply spec_ret].
Qed.

(** What depends on the contents and the cache only is kept by a finalized
    statement. *)
Definition by_view (P : Store D → Prop) : Prop := ∀ s s', view (database s') = view (database s) →
  messages_ s' = messages_ s → P s → P s'.

Lemma at_view_by_view v l : by_view (at_view v l).
Proof. intros s s' Hv Hl [??]. split; congruence. Qed.
Lemma undoable_by_view t l : by_view (undoable t l).
Proof. intros s s' Hv Hl [??]. split; congruence. Qed.

Lemma with_statement_spec {A} st (body : M (Store D) A) v l Q E : spec (at_view v l) body Q E →
  (∀ a, by_view (Q a)) → (∀ e, by_view (E e)) → (∀ e s, at_view v l s → E e s) →
  spec (at_view v l) (with_statement st body) Q E.
Proof.
  intros Hb HQ HE Hp. eapply spec_bind.
  - eapply spec_weaken; [apply (prepare_stable st v l)|done|by intros ? s Hs; exact Hs|apply Hp].
  - intros ?. cbn beta. apply spec_finally. eapply spec_weaken; [exact Hb|done|..].
    + intros x s. apply HQ; [apply law_finalize|done].
    + intros e s. apply HE; [apply law_finalize|done].
Qed.

(** A statement that only reads. *)
Lemma read_statement_spec {A} st (body : M (Store D) A) v l (P : A → Prop) :
  spec (at_view v l) body (λ a s, at_view v l s ∧ P a) (λ _, at_view v l) →
  spec (at_view v l) (with_statement st body) (λ a s, at_view v l s ∧ P a) (λ _, at_view v l).
Proof.
  intros Hb. apply with_statement_spec; [done| |intros _; apply at_view_by_view|done].
  intros a s s' Hv Hl [Hs Ha]. split; [by eapply at_view_by_view|done].
Qed.

Lemma bind_text_stable i t : stable (bind_text i t).
Proof.
  intros v l s Hs. unfold bind_text, gets, mbind, M_bind.
  by destruct (negb _).
Qed.

(** [execute], given what the engine does on success and on failure. *)
Lemma execute_spec c v l (Q E : db_view → Prop) :
  (∀ d rc e d', view d = v → sqlite3_exec d c = ((rc, e), d') →
    if decide (rc = SQLITE_OK) then Q (view d') else E (view d')) →
  spec (at_view v l) (execute c)
    (λ _ s, Q (view (database s)) ∧ messages_ s = l)
    (λ _ s, E (view (database s)) ∧ messages_ s = l).
Proof.
  intros Hc. eapply (spec_bind _ _ _ (λ '(rc, e) s,
    (if decide (rc = SQLITE_OK) then Q (view (database s)) else E (view (database s))) ∧ messages_ s = l)).
  - apply on_database_spec. intros s [rc e] d [Hv Hl] He. split; [|done]. by apply (Hc _ _ e _ Hv).
  - intros [rc e]. destruct (decide (rc = SQLITE_OK)) as [->|Hn].
    + change (SQLITE_OK =? SQLITE_OK) with true. by apply spec_ret.
    + rewrite (proj2 (Z.eqb_neq rc SQLITE_OK) Hn). cbn [negb].
      intros s Hs. destruct e; unfold errmsg, gets, mbind, M_bind, mret, M_ret;
        by destruct (rc =? SQLITE_FULL).
Qed.

(** The step of a write statement. *)
Lemma step_write_spec w v l (Q : Z → D → Prop) :
  (∀ d rc d', view d = v → sqlite3_step_write d w = (rc, d') → Q rc d') →
  spec (at_view v l) (on_database (λ d, sqlite3_step_write d w))
    (λ rc s, Q rc (database s) ∧ messages_ s = l) (λ _ _, False).
Proof. intros Hw. apply on_database_spec. intros s rc d [Hv Hl] Hs. split; [by eapply Hw|done]. Qed.

(** ** insert_message *)

(** What a successful insertion does to the tables. *)
Definition inserted_tables (t : tables) (m : ChatMessage) (b : bool) (t' : tables) : Prop :=
  if has_conflict t m then b = false ∧ t' = t
  else b = true ∧ ∃ id, t_last_id t < id ∧
    t' = upsert_sequence (origin m) (sequence m) (insert_row id m t).

Lemma bound_row_id m : 0 ≤ sequence m ≤ i64_max → bound_row m = m.
Proof. intros. unfold bound_row. rewrite cast_i64_small by (unfold_ints; lia). by destruct m. Qed.

Lemma config_undoable {A} (m : M (Store D) A) t u l :
  stable m → spec (at_view (MkView u (Some t)) l) m (λ _, at_view (MkView u (Some t)) l) (λ _, undoable t l).
Proof. intros Hm. eapply spec_weaken; [apply Hm|done..|]. intros e s. apply undoable_open. Qed.

Lemma failed_undoable t u l s v : v = MkView u (Some t) →
  failed v (view (database s)) → messages_ s = l → undoable t l s.
Proof. intros -> Hf Hl. split; [|done]. by rewrite (rolled_back_failed _ _ Hf). Qed.

Lemma commit_spec t u l :
  spec (at_view (MkView u (Some t)) l) (execute COMMIT)
    (λ _, at_view (MkView u None) l) (λ _, undoable t l).
Proof.
  eapply spec_weaken; [apply (execute_spec COMMIT (MkView u (Some t)) l (λ v, v = MkView u None)
    (λ v, failed (MkView u (Some t)) v))| | |].
  - intros d rc e d' Hv He. apply law_commit in He. rewrite Hv in He. by case_decide.
  - done.
  - by intros _ s [??].
  - intros _ s [Hf Hl]. by eapply failed_undoable.
Qed.

Lemma insert_step_spec t m l :
  spec (at_view (MkView t (Some t)) l)
    (on_database (λ d, sqlite3_step_write d (INSERT_OR_IGNORE_INTO_messages m)))
    (λ rc s, if decide (rc = SQLITE_DONE) then
        if has_conflict t m then sqlite3_changes (database s) = 0 ∧ at_view (MkView t (Some t)) l s
        else sqlite3_changes (database s) = 1 ∧ ∃ id, t_last_id t < id ∧
          at_view (MkView (insert_row id m t) (Some t)) l s
      else undoable t l s)
    (λ _, undoable t l).
Proof.
  eapply spec_weaken; [apply (step_write_spec _ (MkView t (Some t)) l (λ rc d',
    if decide (rc = SQLITE_DONE) then
      if has_conflict t m then view d' = MkView t (Some t) ∧ sqlite3_changes d' = 0
      else sqlite3_changes d' = 1 ∧ ∃ id, t_last_id t < id ∧
        view d' = MkView (insert_row id m t) (Some t)
    else failed (MkView t (Some t)) (view d')))| | |done].
  - intros d rc d' Hv Hs. apply law_insert in Hs. rewrite Hv in Hs. exact Hs.
  - done.
  - intros rc s [Hq Hl]. case_decide; [|by eapply failed_undoable].
    destruct (has_conflict t m); [by destruct Hq|].
    destruct Hq as (? & id & ? & ?). split; [done|]. by exists id.
Qed.

Lemma upsert_step_spec t u o n l :
  spec (at_view (MkView u (Some t)) l)
    (on_database (λ d, sqlite3_step_write d (UPSERT_sequences o n)))
    (λ rc s, if decide (rc = SQLITE_DONE)
      then at_view (MkView (upsert_sequence o n u) (Some t)) l s else undoable t l s)
    (λ _, undoable t l).
Proof.
  eapply spec_weaken; [apply (step_write_spec _ (MkView u (Some t)) l (λ rc d',
    if decide (rc = SQLITE_DONE) then view d' = MkView (upsert_sequence o n u) (Some t)
    else failed (MkView u (Some t)) (view d')))| | |done].
  - intros d rc d' Hv Hs. apply law_upsert in Hs. rewrite Hv in Hs. exact Hs.
  - done.
  - intros rc s [Hq Hl]. case_decide; [done|by eapply failed_undoable].
Qed.

(** The codes other than DONE leave through a throw. *)
Lemma spec_codes {A} rc (k f : M (Store D) A) (P P' : Store D → Prop) Q (E : exn → Store D → Prop) :
  (rc = SQLITE_DONE → spec P k Q E) →
  (∀ e s, P' s → E e s) → spec P' f Q E →
  spec (λ s, if decide (rc = SQLITE_DONE) then P s else P' s)
    (if rc =? SQLITE_FULL then throw DatabaseFull
     else if negb (rc =? SQLITE_DONE) then f else k) Q E.
Proof.
  intros Hk HE Hf. destruct (decide (rc = SQLITE_DONE)) as [->|Hn].
  - change (SQLITE_DONE =? SQLITE_FULL) with false. change (SQLITE_DONE =? SQLITE_DONE) with true.
    by apply Hk.
  - rewrite (proj2 (Z.eqb_neq rc SQLITE_DONE) Hn). cbn [negb].
    destruct (rc =? SQLITE_FULL); [|done]. intros s Hs. by apply HE.
Qed.

(** The insertion's second half: the last sequence of the origin. *)
Lemma upsert_spec t u l m : 0 ≤ sequence m ≤ i64_max →
  spec (at_view (MkView u (Some t)) l)
    (with_statement st_upsert (
       bind_text 1 (origin m);;
       update_result ← on_database (λ d, sqlite3_step_write d
         (UPSERT_sequences (origin m) (cast_i64 (sequence m))));
       if update_result =? SQLITE_FULL then throw DatabaseFull
       else if negb (update_result =? SQLITE_DONE) then
         throw (RuntimeError "Unable to update message sequence")
       else mret tt))
    (λ _, at_view (MkView (upsert_sequence (origin m) (sequence m) u) (Some t)) l)
    (λ _, undoable t l).
Proof.
  intros Hm. rewrite cast_i64_small by (unfold_ints; lia).
  apply with_statement_spec; [|intros ?; apply at_view_by_view|intros ?; apply undoable_by_view|intros ? ?; apply undoable_open].
  eapply spec_bind; [apply config_undoable, bind_text_stable|intros ?; cbn beta].
  eapply spec_bind; [apply upsert_step_spec|]. intros rc. cbn beta.
  apply spec_codes; [intros _; by apply spec_ret|done|by apply spec_throw].
Qed.

Lemma insert_in_transaction_spec t l m : 0 ≤ sequence m →
  spec (at_view (MkView t (Some t)) l) (insert_in_transaction m)
    (λ b s, sequence m ≤ i64_max ∧
      ∃ t', inserted_tables t m b t' ∧ at_view (MkView t' None) l s)
    (λ _, undoable t l).
Proof.
  intros Hm. unfold insert_in_transaction.
  destruct (Z.ltb_spec i64_max (sequence m)) as [Hgt|Hle].
  { eapply spec_bind; [by apply (spec_throw _ _ (λ _ _, False)), undoable_open|].
    by intros _ s []. }
  eapply spec_bind; [by apply (spec_ret _ _ (λ _, at_view (MkView t (Some t)) l))|intros ?; cbn beta].
  apply with_statement_spec; [| |intros ?; apply undoable_by_view|intros ? ?; apply undoable_open].
  2:{ intros b s s' Hv Hl (? & t' & ? & ?). split; [done|]. exists t'. split; [done|]. by eapply at_view_by_view. }
  do 5 (eapply spec_bind; [apply config_undoable, bind_text_stable|intros ?; cbn beta]).
  rewrite bound_row_id by done.
  eapply spec_bind; [apply insert_step_spec|]. intros rc. cbn beta.
  apply spec_codes; [intros _|done|apply (throw_errmsg_spec (undoable t l))].
  unfold inserted_tables. destruct (has_conflict t m).
  - eapply spec_bind; [apply gets_spec|]. intros c. cbn beta.
    apply spec_pre. intros s0 [[Hc Hat] ->]. rewrite Hc. cbn.
    apply (spec_at _ (at_view (MkView t (Some t)) l)); [done|].
    eapply spec_bind; [by apply (spec_ret _ _ (λ _, at_view (MkView t (Some t)) l))|intros ?; cbn beta].
    eapply spec_bind; [apply commit_spec|intros ?; cbn beta]. apply spec_ret. naive_solver.
  - eapply spec_bind; [apply gets_spec|]. intros c. cbn beta.
    apply spec_pre. intros s0 [[Hc (id & Hid & Hat)] ->]. rewrite Hc. cbn [Z.eqb negb].
    apply (spec_at _ (at_view (MkView (insert_row id m t) (Some t)) l)); [done|].
    eapply spec_bind; [by apply upsert_spec|intros ?; cbn beta].
    eapply spec_bind; [apply commit_spec|intros ?; cbn beta]. apply spec_ret. naive_solver.
Qed.

(** Atomicity of insert_message: it inserts the message and updates the last
    sequence of its origin, finds a duplicate and changes nothing, or throws
    and changes nothing; in every case no transaction stays open. *)
Lemma insert_message_spec t l m : 0 ≤ sequence m →
  spec (at_view (MkView t None) l) (insert_message m)
    (λ b s, sequence m ≤ i64_max ∧ ∃ t', inserted_tables t m b t' ∧ at_view (MkView t' None) l s)
    (λ _, at_view (MkView t None) l).
Proof.
  intros Hm. unfold insert_message. eapply spec_bind.
  { eapply spec_weaken; [apply (execute_spec BEGIN_IMMEDIATE (MkView t None) l (λ v, v = MkView t (Some t))
      (λ v, v = MkView t None))|done|..].
    - intros d rc e d' Hv He. apply law_begin in He. rewrite Hv in He. case_decide; [by destruct He|done].
    - intros ? s Hs. exact Hs.
    - by intros ? s [??]. }
  intros ?; cbn beta. eapply spec_try; [by apply insert_in_transaction_spec|].
  intros e. eapply (spec_bind _ _ _ (λ _, at_view (MkView t None) l)); [|intros ?; by apply spec_throw].
  apply spec_pre. intros s0 [Hu Hl]. 
  assert (∀ d rc e d', view d = view (database s0) → sqlite3_exec d ROLLBACK = ((rc, e), d') →
    view d' = MkView t None) as Hroll.
  { intros d rc e' d' Hv He. apply law_rollback in He. congruence. }
  apply (spec_at _ (at_view (view (database s0)) l)); [done|].
  eapply spec_try.
  - eapply spec_weaken; [apply (execute_spec ROLLBACK (view (database s0)) l (λ v, v = MkView t None)
      (λ v, v = MkView t None))|done| |done].
    + intros d rc e' d' Hv He. case_decide; by eapply Hroll.
    + intros ? s Hs. exact Hs.
  - intros e'. apply spec_ret. done.
Qed.

(** ** load_messages *)

Definition loadable (ms : list ChatMessage) : Prop := Forall (λ m, 1 ≤ sequence m ≤ i64_max) ms.

Lemma load_rows_run ms (s : Store D) : loadable ms →
  iterM load_row (columns_of <$> ms) s = (Ok tt, MkStore (database s) (messages_ s ++ ms)).
Proof.
  intros Hms. revert s. induction Hms as [|m ms Hm _ IH]; intros s.
  { rewrite app_nil_r. by destruct s. }
  cbn [fmap list_fmap iterM]. 
  assert (load_row (columns_of m) s = (Ok tt, MkStore (database s) (messages_ s ++ [m]))) as Hrow.
  { unfold load_row, columns_of; cbn. rewrite (proj2 (Z.ltb_ge _ 1)) by lia.
    rewrite u64_small by (unfold_ints; lia). by destruct m. }
  rewrite (bind_run _ _ _ _ _ Hrow), IH. cbn. by rewrite <- app_assoc.
Qed.

Lemma select_spec {R} (q : query R) v l (E : exn → Store D → Prop) :
  spec (at_view v l) (on_database (λ d, sqlite3_step_rows d q))
    (λ '(rows, rc) s, at_view v l s ∧ ∃ full, answers (current v) q full ∧ rows `prefix_of` full ∧
      (rc = SQLITE_DONE → rows = full)) E.
Proof.
  apply on_database_spec. intros s [rows rc] d [Hv Hl] Hq.
  apply law_rows in Hq as [Hvd (full & Ha & Hp & Hd)]. unfold at_view; cbn.
  split; [split; congruence|]. exists full. rewrite <- Hv. done.
Qed.

Lemma load_messages_spec v l : loadable (t_messages (current v)).*2 →
  spec (at_view v l) load_messages
    (λ _, at_view v (t_messages (current v)).*2)
    (λ _ s, view (database s) = v ∧ messages_ s `prefix_of` (t_messages (current v)).*2).
Proof.
  intros Hload. set (ms := (t_messages (current v)).*2) in *. unfold load_messages.
  eapply (spec_bind _ _ _ (λ _, at_view v [])); [by intros s [Hv _]|intros ?].
  apply with_statement_spec; [|intros ?; apply at_view_by_view|..].
  2:{ intros e s s' Hv Hl [??]. split; congruence. }
  2:{ intros e s [Hv Hl]. split; [done|]. rewrite Hl. apply prefix_nil. }
  eapply spec_bind; [apply select_spec|]. intros [rows rc].
  intros s [[Hv Hl] (full & -> & Hp & Hd)].
  apply prefix_fmap_inv in Hp as (ms' & -> & Hp).
  erewrite bind_run; [|apply load_rows_run; by eapply Forall_prefix_of].
  destruct (Z.eqb_spec rc SQLITE_DONE) as [Hrc|Hrc]; cbn.
  - split; [done|]. cbn. rewrite Hl. cbn. by apply (inj (fmap columns_of)), Hd.
  - rewrite Hl. split; [done|]. cbn. done.
Qed.

(** ** add *)

Lemma insert_and_cache_spec t l m : 0 ≤ sequence m →
  spec (at_view (MkView t None) l) (insert_and_cache m)
    (λ b s, sequence m ≤ i64_max ∧ ∃ t', inserted_tables t m b t' ∧
      at_view (MkView t' None) (if b : bool then l ++ [m] else l) s)
    (λ _, at_view (MkView t None) l).
Proof.
  intros Hm. eapply spec_bind; [by apply insert_message_spec|]. intros b.
  intros s (Hle & t' & Ht & Hv & Hl). destruct b; cbn; unfold at_view; cbn; naive_solver congruence.
Qed.

Lemma delete_spec t l :
  spec (at_view (MkView t None) l) (execute (DELETE_oldest 100))
    (λ _, at_view (MkView (delete_oldest 100 t) None) l) (λ _, at_view (MkView t None) l).
Proof.
  eapply spec_weaken; [apply (execute_spec (DELETE_oldest 100) (MkView t None) l
    (λ v, v = MkView (delete_oldest 100 t) None) (λ v, v = MkView t None))|done|..].
  - intros d rc e d' Hv He. apply law_delete in He. rewrite Hv in He.
    case_decide; [done|]. by destruct He.
  - intros ? s Hs. exact Hs.
  - by intros ? s.
Qed.

(** The same with what SQLite reports. *)
Lemma insert_and_cache_reports t l m full : 0 ≤ sequence m →
  spec (λ s, at_view (MkView t None) l s ∧ insertion_full (database s) m = full) (insert_and_cache m)
    (λ b s, full = false ∧ sequence m ≤ i64_max ∧ ∃ t', inserted_tables t m b t' ∧
      at_view (MkView t' None) (if b : bool then l ++ [m] else l) s)
    (λ e s, at_view (MkView t None) l s ∧ (e = DatabaseFull ↔ full = true)).
Proof.
  intros Hm s [Hat <-]. pose proof (insert_and_cache_full m s) as Hf.
  pose proof (insert_and_cache_spec t l m Hm s Hat) as Hs.
  destruct (insert_and_cache m s) as [[b|e|] s']; [|naive_solver..].
  split; [|done]. apply not_true_is_false. rewrite <- Hf. done.
Qed.

(** The tables and the cache the second attempt starts from. *)
Definition pruned_tables (full : bool) (t : tables) : tables := if full then delete_oldest 100 t else t.
Definition pruned_cache (full : bool) (t : tables) (l : list ChatMessage) : list ChatMessage :=
  if full then (t_messages (delete_oldest 100 t)).*2 else l.

(** What a throw leaves: the store as it was or, when SQLite reported that it
    is full, pruned with a cache that holds a prefix of the table. *)
Definition add_recovers (full : bool) (t : tables) (l : list ChatMessage) (s : Store D) : Prop :=
  at_view (MkView t None) l s ∨
  (full = true ∧ view (database s) = MkView (delete_oldest 100 t) None ∧
   messages_ s `prefix_of` (t_messages (delete_oldest 100 t)).*2).

Lemma prune_spec t l : loadable (t_messages t).*2 →
  spec (at_view (MkView t None) l) prune_oldest_messages
    (λ _, at_view (MkView (pruned_tables true t) None) (pruned_cache true t l)) (λ _, add_recovers true t l).
Proof.
  intros Hload. eapply spec_bind; [eapply spec_weaken; [apply delete_spec|done|intros ? s Hs; exact Hs|]|].
  - intros ? s Hs. by left.
  - intros ?. cbn beta. eapply spec_weaken; [apply (load_messages_spec (MkView (delete_oldest 100 t) None))|done|done|].
    + unfold delete_oldest, loadable in *; cbn. rewrite fmap_drop. by apply Forall_drop.
    + intros ? s Hs. by right.
Qed.

Lemma add_spec t l m full : 0 ≤ sequence m → loadable (t_messages t).*2 →
  spec (λ s, at_view (MkView t None) l s ∧ insertion_full (database s) m = full) (add m)
    (λ b s, sequence m ≤ i64_max ∧ ∃ t', inserted_tables (pruned_tables full t) m b t' ∧
      at_view (MkView t' None)
        (if b : bool then pruned_cache full t l ++ [m] else pruned_cache full t l) s)
    (λ _, add_recovers full t l).
Proof.
  intros Hm Hload. eapply spec_try.
  { eapply spec_weaken; [by apply (insert_and_cache_reports t l m full)|done| |by intros e s Hs; exact Hs].
    intros b s (-> & ?). done. }
  intros e. cbn beta. destruct e; try (apply spec_throw; intros s [Hs _]; by left).
  apply spec_pre. intros s0 [Hat Hfull]. rewrite (proj1 Hfull eq_refl). clear Hfull.
  apply (spec_at _ (at_view (MkView t None) l)); [done|].
  eapply spec_bind; [by apply prune_spec|]. intros ?.
  eapply spec_weaken; [by apply insert_and_cache_spec|done|done|].
  intros ? s [Hv Hl]. right. by rewrite Hl.
Qed.

(** ** The invariant *)

Definition abs_tables (t : tables) : alog := MkLog (t_messages t).*2 (t_sequences t).
Definition abs (s : Store D) : alog := abs_tables (current (view (database s))).

Record db_ok (s : Store D) : Prop := {
  db_idle : saved (view (database s)) = None;
  db_tables : tables_ok (current (view (database s)));
  db_log : log_ok (abs s);
}.
Definition cache_ok (s : Store D) : Prop := messages_ s = entries (abs s).
Definition store_ok (s : Store D) : Prop := db_ok s ∧ cache_ok s.
End specs.

(** ** The tables and the log *)

Lemma has_conflict_abs t m : has_conflict t m = clashes (abs_tables t) m.
Proof.
  unfold has_conflict, clashes, abs_tables; cbn. 
  induction (t_messages t) as [|r l IH]; simpl; [done|]. by rewrite IH.
Qed.

Lemma inserted_abs t m b t' : inserted_tables t m b t' →
  (b, abs_tables t') = put_message (abs_tables t) m.
Proof.
  unfold inserted_tables, put_message. rewrite has_conflict_abs.
  destruct (clashes _ _); [by intros [-> ->]|].
  intros (-> & id & _ & ->). unfold abs_tables, append, upsert_sequence, insert_row; cbn.
  by rewrite fmap_app.
Qed.

Lemma conflicts_sym m1 m2 : conflicts m1 m2 = conflicts m2 m1.
Proof.
  unfold conflicts, str_eqb. f_equal; [|f_equal].
  - apply bool_decide_ext. naive_solver.
  - apply bool_decide_ext. naive_solver.
  - apply Z.eqb_sym.
Qed.

(** No two elements of a list clash. *)
Definition pairwise_free (l : list ChatMessage) : Prop :=
  ∀ i j m1 m2, l !! i = Some m1 → l !! j = Some m2 → i ≠ j → conflicts m1 m2 = false.

Lemma pairwise_free_snoc l m :
  pairwise_free l → existsb (conflicts m) l = false → pairwise_free (l ++ [m]).
Proof.
  intros Hl Hm. 
  assert (∀ i r, l !! i = Some r → conflicts m r = false) as Hfree.
  { intros i r Hr. apply not_true_is_false. intros Hc. 
    rewrite <- not_true_iff_false in Hm. apply Hm, existsb_exists. exists r. split; [|done].
    apply list_elem_of_In. by eapply list_elem_of_lookup_2. }
  intros i j m1 m2 Hi Hj Hij. apply lookup_snoc_Some in Hi, Hj.
  destruct Hi as [[? Hi]|[? <-]], Hj as [[? Hj]|[? <-]]; [by eapply Hl|..|lia].
  - rewrite conflicts_sym. by eapply Hfree.
  - by eapply Hfree.
Qed.

Lemma pairwise_free_drop n l : pairwise_free l → pairwise_free (drop n l).
Proof.
  intros Hl i j m1 m2 Hi Hj Hij. rewrite lookup_drop in Hi, Hj.
  eapply Hl; [done..|lia].
Qed.

Lemma append_ok a m : log_ok a → 1 ≤ sequence m ≤ i64_max → clashes a m = false → log_ok (append a m).
Proof.
  intros [Hs Hu Hl Hr] Hm Hc. unfold append. split; cbn.
  - apply Forall_app. by rewrite Forall_singleton.
  - by apply pairwise_free_snoc.
  - apply Forall_app. rewrite Forall_singleton. split.
    + eapply Forall_impl; [exact Hl|]. intros r (last & Hlast & Hle).
      destruct (decide (origin r = origin m)) as [E|E].
      * rewrite E, lookup_insert_eq. rewrite E in Hlast. rewrite Hlast. eexists; split; [done|lia].
      * rewrite lookup_insert_ne by congruence. eauto.
    + rewrite lookup_insert_eq. eexists; split; [done|]. destruct (lasts a !! origin m); lia.
  - apply map_Forall_insert_2; [|done]. destruct (lasts a !! origin m) as [last|] eqn:E; [|lia].
    apply Hr in E. cbn in E. lia.
Qed.

Lemma forget_ok n a : log_ok a → log_ok (forget n a).
Proof.
  intros [Hs Hu Hl Hr]. unfold forget. split; cbn; [by apply Forall_drop| |by apply Forall_drop|done].
  by apply pairwise_free_drop.
Qed.

Lemma put_message_ok a m b a' : log_ok a → 1 ≤ sequence m ≤ i64_max →
  put_message a m = (b, a') → log_ok a'.
Proof.
  unfold put_message. intros Ha Hm. destruct (clashes a m) eqn:E; intros; simplify_eq; [done|].
  by apply append_ok.
Qed.

Lemma add_result_ok full a m b a' : log_ok a → 1 ≤ sequence m ≤ i64_max →
  (b, a') = add_result full a m → log_ok a'.
Proof.
  unfold add_result. intros Ha Hm Hp. symmetry in Hp. destruct full; [apply (forget_ok 100) in Ha|]; by eapply put_message_ok.
Qed.

Lemma delete_tables_ok n t : tables_ok t → tables_ok (delete_oldest n t).
Proof.
  intros [Hi Hl Hu]. unfold delete_oldest. split; cbn; rewrite fmap_drop.
  - rewrite <- (take_drop n (t_messages t).*1) in Hi. by apply StronglySorted_app_1_r in Hi.
  - by apply Forall_drop.
  - by apply pairwise_free_drop.
Qed.

Lemma inserted_tables_ok t m b t' : tables_ok t → inserted_tables t m b t' → tables_ok t'.
Proof.
  intros [Hi Hl Hu] Hins. unfold inserted_tables in Hins. rewrite has_conflict_abs in Hins.
  destruct (clashes _ _) eqn:E; [by destruct Hins as [-> ->]|].
  destruct Hins as (-> & id & Hid & ->). split; cbn; rewrite ?fmap_app; cbn.
  - apply StronglySorted_app_2; [|done|repeat constructor].
    intros x y Hx Hy. rewrite Forall_forall in Hl. apply Hl in Hx.
    apply list_elem_of_singleton in Hy as ->. cbn. lia.
  - apply Forall_app. rewrite Forall_singleton. split; [|done].
    eapply Forall_impl; [exact Hl|]. cbn. lia.
  - by apply pairwise_free_snoc.
Qed.

Lemma abs_delete n t : abs_tables (delete_oldest n t) = forget n (abs_tables t).
Proof. unfold abs_tables, forget, delete_oldest; cbn. by rewrite fmap_drop. Qed.

Lemma entries_put a m b a' : put_message a m = (b, a') →
  entries a' = if b then entries a ++ [m] else entries a.
Proof. unfold put_message. destruct (clashes a m); intros; by simplify_eq. Qed.

Section invariant.
Context `{SqliteLaws D}.

Lemma db_ok_view (s : Store D) : db_ok s → view (database s) = MkView (current (view (database s))) None.
Proof. intros [Hi _ _]. destruct (view (database s)); cbn in *. by rewrite Hi. Qed.

Lemma at_view_ok t l (s : Store D) : at_view (MkView t None) l s →
  tables_ok t → log_ok (abs_tables t) → db_ok s ∧ abs s = abs_tables t ∧ messages_ s = l.
Proof. intros [Hv Hl] Ht Hlog. unfold abs. rewrite Hv. split_and!; [split|..]; unfold abs; by rewrite ?Hv. Qed.

Lemma pruned_ok full t : tables_ok t → log_ok (abs_tables t) →
  tables_ok (pruned_tables full t) ∧ log_ok (abs_tables (pruned_tables full t)) ∧
  abs_tables (pruned_tables full t) = if full then forget 100 (abs_tables t) else abs_tables t.
Proof.
  intros Ht Hl. destruct full; cbn [pruned_tables]; [|done]. rewrite abs_delete.
  split_and!; [by apply delete_tables_ok|by apply forget_ok|done].
Qed.

(** [add] against the abstract log, in any state whose database is in order. *)
Lemma add_abs_spec a l m full : 1 ≤ sequence m → log_ok a →
  spec (λ s, db_ok s ∧ abs s = a ∧ messages_ s = l ∧ insertion_full (database s) m = full) (add m)
    (λ b s, sequence m ≤ i64_max ∧ db_ok s ∧ (b, abs s) = add_result full a m ∧
      (l = entries a → messages_ s = entries (abs s)))
    (λ _ s, db_ok s ∧ (abs s = a ∧ messages_ s = l ∨
      full = true ∧ abs s = forget 100 a ∧ messages_ s `prefix_of` entries (abs s))).
Proof.
  intros Hm Ha. apply spec_pre. intros s (Hdb & <- & <- & Hfull).
  pose proof (db_ok_view s Hdb) as Hv. destruct Hdb as [_ Htab Hlog]. unfold abs in *.
  set (t := current (view (database s))) in *.
  destruct (pruned_ok full t Htab Hlog) as (Ht0 & Hl0 & Ha0).
  eapply spec_weaken; [apply (add_spec t (messages_ s) m full ltac:(lia))| | |].
  - apply Hlog.
  - intros ? ->. by repeat split.
  - intros b s' (Hle & t' & Hins & Hat).
    pose proof (inserted_abs _ _ _ _ Hins) as Hput.
    apply at_view_ok in Hat as (Hdb & Habs & Hmsg);
      [|by eapply inserted_tables_ok|eapply (put_message_ok _ m); [exact Hl0|lia|by symmetry]].
    unfold abs in Habs. rewrite Habs. split_and!; [done|done| |].
    + unfold add_result. by rewrite <- Ha0.
    + intros Hl. rewrite Hmsg, (entries_put _ _ _ _ (eq_sym Hput)), Ha0. by destruct full, b; cbn; rewrite ?fmap_drop, ?Hl.
  - intros _ s' [Hat|(-> & Hv' & Hp)].
    + apply at_view_ok in Hat as (? & ? & ?); [|done..]. by split; [|left].
    + assert (db_ok s' ∧ abs s' = abs_tables (delete_oldest 100 t) ∧ messages_ s' = messages_ s')
        as (? & Habs & _) by (by apply at_view_ok).
      unfold abs in *. rewrite Habs, abs_delete. split; [done|]. right. split_and!; [done|done|].
      rewrite <- abs_delete. by cbn.
Qed.
End invariant.

(** ** The readers *)

Section readers.
Context `{SqliteLaws D}.

(** Every query of this engine runs to completion. *)
Definition reliable_reads : Prop :=
  ∀ d R (q : query R), (sqlite3_step_rows d q).1.2 = SQLITE_DONE.

Lemma reliable_select {R} (q : query R) v l (E : exn → Store D → Prop) :
  spec (at_view v l) (on_database (λ d, sqlite3_step_rows d q))
    (λ '(rows, rc) s, at_view v l s ∧ ∃ full, answers (current v) q full ∧ rows `prefix_of` full ∧
      (rc = SQLITE_DONE ∨ reliable_reads → rows = full)) E.
Proof.
  apply on_database_spec. intros s [rows rc] d [Hv Hl] Hq. pose proof Hq as Hq'.
  apply law_rows in Hq as [Hvd (full & Ha & Hp & Hd)]. unfold at_view; cbn.
  split; [split; congruence|]. exists full. rewrite <- Hv. split_and!; [done..|].
  intros [Hrc|Hr]; [by apply Hd|]. apply Hd. specialize (Hr (database s) R q). by rewrite Hq' in Hr.
Qed.

Definition holds_id (t : tables) (i : string) : bool :=
  existsb (λ r, str_eqb (message_id r.2) i) (t_messages t).

(** [contains] never claims a message that is not stored; a query that fails
    reads as "not stored". *)
Lemma contains_spec v l i :
  spec (at_view v l) (contains i)
    (λ b s, at_view v l s ∧ (b = true → holds_id (current v) i = true) ∧
      (reliable_reads → b = holds_id (current v) i))
    (λ _, at_view v l).
Proof.
  apply (read_statement_spec _ _ v l (λ _, _)).
  eapply spec_bind; [apply bind_text_stable|intros ?; cbn beta].
  eapply spec_bind; [apply reliable_select|]. intros [rows rc].
  apply spec_ret. intros s [Hv (full & Ha & Hp & Hd)]. split; [done|]. cbn in Ha. subst full.
  unfold holds_id. destruct (existsb _ _).
  - split; [done|]. intros Hr. by rewrite Hd by auto.
  - apply prefix_nil_inv in Hp as ->. done.
Qed.

Lemma next_sequence_spec v l o : map_Forall (λ _ n, 1 ≤ n ≤ i64_max) (t_sequences (current v)) →
  spec (at_view v l) (next_sequence o)
    (λ n s, at_view v l s ∧ 1 ≤ n ≤ i64_max ∧
      (n = 1 ∨ n = 1 + default 0 (t_sequences (current v) !! o)) ∧
      (reliable_reads → n = 1 + default 0 (t_sequences (current v) !! o)))
    (λ _, at_view v l).
Proof.
  intros Hrange.
  apply (read_statement_spec _ _ v l (λ _, _)).
  eapply spec_bind; [apply bind_text_stable|intros ?; cbn beta].
  eapply spec_bind; [apply reliable_select|]. intros [rows rc].
  intros s [Hv (full & Ha & Hp & Hd)]. cbn in Ha. subst full.
  destruct rows as [|last rows]; cbn.
  { split; [done|]. split; [unfold_ints; lia|]. split; [by left|]. intros Hr.
    specialize (Hd (or_intror Hr)). by destruct (t_sequences (current v) !! o). }
  destruct (t_sequences (current v) !! o) as [n|] eqn:E; [|by apply prefix_nil_inv in Hp].
  apply prefix_cons_inv_1 in Hp as ->. apply Hrange in E as Hn. cbn in Hn.
  rewrite (proj2 (Z.ltb_ge n 0)) by lia. cbn [orb].
  destruct (Z.eqb_spec n i64_max); [done|].
  cbn. rewrite (u64_small n), u64_small by (unfold_ints; lia).
  split; [done|]. split; [unfold_ints; lia|]. split; [right|intros _]; cbn; lia.
Qed.

Lemma summary_rows_run l acc (s : Store D) :
  NoDup l.*1 → Forall (λ p, 0 ≤ p.2 ≤ i64_max) l →
  foldM summary_row acc ((λ '(o, n), (Some o, n)) <$> l) s = (Ok (acc ∪ list_to_map l), s).
Proof.
  revert acc. induction l as [|[o n] l IH]; intros acc Hnd Hf; cbn.
  { by rewrite (right_id_L ∅ (∪)). }
  apply NoDup_cons in Hnd as [Ho Hnd]. apply Forall_cons in Hf as [Hn Hf]. cbn in Hn.
  unfold summary_row at 1. rewrite (proj2 (Z.ltb_ge n 0)) by lia. cbn [column_text default].
  erewrite bind_run by done. rewrite IH by done. rewrite u64_small by (unfold_ints; lia).
  do 2 f_equal. unfold column_text; cbn. destruct (acc !! o) as [n'|] eqn:E.
  - apply map_eq. intros k. rewrite !lookup_union. destruct (decide (k = o)) as [->|].
    + rewrite E, lookup_insert_eq. by destruct (list_to_map l !! o).
    + by rewrite lookup_insert_ne.
  - rewrite <- insert_union_l, <- insert_union_r by done. done.
Qed.

Lemma sequence_summary_spec v l : map_Forall (λ _ n, 1 ≤ n ≤ i64_max) (t_sequences (current v)) →
  spec (at_view v l) sequence_summary
    (λ summary s, at_view v l s ∧ summary = t_sequences (current v))
    (λ _, at_view v l).
Proof.
  intros Hrange.
  apply (read_statement_spec _ _ v l (λ summary, summary = _)).
  eapply spec_bind; [apply select_spec|]. intros [rows rc] s [Hv (full & Ha & Hp & Hd)].
  cbn in Ha. apply Permutation_map_inv in Ha as (l' & -> & Hperm).
  apply prefix_fmap_inv in Hp as (k & -> & Hk).
  assert (NoDup (l'.*1)) as Hnd by (rewrite <- Hperm; apply NoDup_fst_map_to_list).
  assert (Forall (λ p, 0 ≤ p.2 ≤ i64_max) l') as Hf.
  { apply Forall_forall. intros [o n] Hin. rewrite <- Hperm in Hin.
    apply elem_of_map_to_list in Hin. apply Hrange in Hin. cbn in *. lia. }
  erewrite bind_run.
  2:{ apply summary_rows_run; [|by eapply Forall_prefix_of]. destruct Hk as [k' ->].
      rewrite fmap_app in Hnd. by apply NoDup_app in Hnd as (? & _). }
  rewrite (left_id_L ∅ (∪)).
  destruct (Z.eqb_spec rc SQLITE_DONE) as [Hrc|]; [|done]. split; [done|].
  assert (k = l') as ->.
  { apply (list_fmap_eq_inj (λ '(o, n), (Some o, n))); [intros [??] [??] [=]; by subst|by apply Hd]. }
  rewrite <- (list_to_map_to_list (t_sequences (current v))).
  symmetry. apply list_to_map_proper; [apply NoDup_fst_map_to_list|done].
Qed.
End readers.
