(* ===== verification/StoreProperties.v ===== *)
(** * Properties of the message store

    The refinement of the abstract log by [add], the atomicity of an insertion,
    the invariant over all reachable stores, and what the readers and the
    constructor return. *)

From S2P Require Import Prelude Cxx Protocol Sqlite ModelDb MessageStore.
Open Scope Z_scope.

(** ** Reachable stores *)

Section reachable.
Context `{SqliteLaws D}.

(** One call of [add], whatever its outcome, with a sequence of at least 1
    (parse_message and create_local give no other). *)
Definition add_step (s s' : Store D) : Prop :=
  ∃ m r, 1 ≤ sequence m ∧ add m s = (r, s').

Lemma add_run s m r s' : db_ok s → 1 ≤ sequence m → add m s = (r, s') →
  match r with
  | Ok b => sequence m ≤ i64_max ∧ db_ok s' ∧
      (b, abs s') = add_result (insertion_full (database s) m) (abs s) m ∧ (cache_ok s → cache_ok s')
  | Throw _ => db_ok s' ∧ (abs s' = abs s ∧ messages_ s' = messages_ s ∨
      insertion_full (database s) m = true ∧ abs s' = forget 100 (abs s) ∧
      messages_ s' `prefix_of` entries (abs s'))
  | Undefined => False
  end.
Proof.
  intros Hs Hm Hr.
  pose proof (spec_run _ _ _ _ _ _ _ (add_abs_spec (abs s) (messages_ s) m _ Hm (db_log s Hs))
    (conj Hs (conj eq_refl (conj eq_refl eq_refl))) Hr) as Hp.
  by destruct r.
Qed.

(** Whatever its outcome, the cached list holds nothing that was not cached,
    stored or offered. *)
Lemma add_cache s m r s' : db_ok s → 1 ≤ sequence m → add m s = (r, s') →
  ∀ x, x ∈ messages_ s' → x ∈ messages_ s ∨ x ∈ entries (abs s) ∨ x = m.
Proof.
  intros Hs Hm Hr. pose proof (db_ok_view s Hs) as Hv.
  pose proof (spec_run _ _ _ _ _ _ _ (add_spec (current (view (database s))) (messages_ s) m _ ltac:(lia)
    (lo_sequence _ (db_log s Hs))) (conj (conj Hv eq_refl) eq_refl) Hr) as Hp.
  generalize dependent (insertion_full (database s) m). intros full Hp.
  assert (∀ x, x ∈ (t_messages (delete_oldest 100 (current (view (database s))))).*2 → x ∈ entries (abs s)) as Hold.
  { intros x Hx. unfold delete_oldest in Hx. cbn in Hx. rewrite fmap_drop in Hx.
    change (x ∈ drop 100 (entries (abs s))) in Hx. rewrite <- (take_drop 100 (entries (abs s))). set_solver. }
  destruct r as [b|e|]; [| |done].
  - destruct Hp as (_ & t' & _ & [_ ->]). set (l0 := pruned_cache _ _ _). intros x Hx.
    assert (x ∈ l0 ∨ x = m) as [Hx0|?] by (destruct b; set_solver); [|auto].
    unfold l0 in Hx0. destruct full; cbn [pruned_cache] in Hx0; auto.
  - destruct Hp as [[_ ->]|(_ & _ & [k Hk])]; [auto|]. intros x Hx. right. left. apply Hold. rewrite Hk. set_solver.
Qed.

Lemma add_step_ok s s' : db_ok s → add_step s s' → db_ok s'.
Proof.
  intros Hs (m & r & Hm & Hr). pose proof (add_run s m r s' Hs Hm Hr) as Hp.
  destruct r; [naive_solver|naive_solver|done].
Qed.

(** The last sequence of an origin never decreases, even when its messages
    are pruned. *)
Definition lasts_le (a a' : alog) : Prop :=
  ∀ o n, lasts a !! o = Some n → ∃ n', lasts a' !! o = Some n' ∧ n ≤ n'.

Lemma put_lasts_le a m b a' : put_message a m = (b, a') → lasts_le a a'.
Proof.
  unfold put_message. destruct (clashes a m); intros Hp; simplify_eq; intros o n Hn; [eauto with lia|].
  unfold append; cbn. destruct (decide (o = origin m)) as [->|].
  - rewrite lookup_insert_eq, Hn. eauto with lia.
  - rewrite lookup_insert_ne by done. eauto with lia.
Qed.

Lemma add_step_lasts s s' : db_ok s → add_step s s' → lasts_le (abs s) (abs s').
Proof.
  intros Hs (m & r & Hm & Hr). pose proof (add_run s m r s' Hs Hm Hr) as Hp.
  destruct r as [b|e|]; [| |done].
  - destruct Hp as (_ & _ & Hp & _). symmetry in Hp. unfold add_result in Hp.
    by destruct (insertion_full _ _); apply put_lasts_le in Hp.
  - destruct Hp as [_ [[-> _]|(_ & -> & _)]]; intros o n Hn; eauto with lia.
Qed.

Lemma reachable_ok s s' : db_ok s → rtc add_step s s' → db_ok s' ∧ lasts_le (abs s) (abs s').
Proof.
  intros Hs Hr. induction Hr as [s|s s1 s2 Hstep _ IH].
  - split; [done|]. intros o n Hn. eauto with lia.
  - destruct (IH (add_step_ok _ _ Hs Hstep)) as [Hok Hle]. split; [done|].
    intros o n Hn. apply (add_step_lasts _ _ Hs Hstep) in Hn as (n1 & Hn1 & ?).
    apply Hle in Hn1 as (n2 & ? & ?). exists n2. split; [done|lia].
Qed.

Lemma config_spec c v l :
  match c with
  | PRAGMA_journal_mode_DELETE | PRAGMA_synchronous_NORMAL | PRAGMA_foreign_keys_ON
  | PRAGMA_max_page_count _ | CREATE_TABLE_messages | CREATE_TABLE_sequences => True
  | _ => False
  end → stable_at v l (execute c).
Proof.
  intros Hc. unfold stable_at.
  eapply spec_weaken; [apply (execute_spec c v l (λ v', v' = v) (λ v', v' = v))|done|..];
    [|by intros ? s Hs|by intros ? s Hs].
  intros d rc e d' Hv He. pose proof (law_config d c) as Hl. rewrite He in Hl. cbn in Hl.
  destruct c; try done; case_decide; congruence.
Qed.

Lemma initialize_schema_stable n v l : stable_at v l (initialize_schema n).
Proof.
  unfold stable_at.
  do 3 (eapply spec_bind; [by apply config_spec|intros ?; cbn beta]).
  apply with_statement_spec; [|intros ?; apply at_view_by_view..|done].
  eapply spec_bind; [apply select_spec|]. intros [rows rc]. cbn beta iota.
  apply (spec_strengthen _ (at_view v l)); [by intros s [??]|].
  destruct rows as [|p rows]; [by apply spec_throw|].
  apply spec_if; intros _; [by apply spec_throw|].
  do 2 (eapply spec_bind; [by apply config_spec|intros ?; cbn beta]). by apply config_spec.
Qed.

(** The constructor, from the contents of the database it opens. *)
Lemma construct_ok path max_bytes s : MessageStore path max_bytes = Ok s →
  ∃ d, sqlite3_open_v2 path = (SQLITE_OK, Some d) ∧
    (log_ok (abs_tables (current (view d))) →
      store_ok s ∧ abs s = abs_tables (current (view d))).
Proof.
  unfold MessageStore. destruct (_ || _); [done|].
  destruct (sqlite3_open_v2 path) as [rc [d|]] eqn:Hopen; [|by destruct (negb _)].
  destruct (Z.eqb_spec rc SQLITE_OK) as [->|]; [|done]. cbn [negb].
  match goal with |- context [?m (MkStore d [])] => destruct (m (MkStore d [])) as [[[]|e|] s0] eqn:Hr end;
    [|done..].
  intros [= <-]. exists d. split; [done|]. intros Hlog.
  apply law_open in Hopen as [Htab Hsaved].
  assert (view d = MkView (current (view d)) None) as Hv
    by (destruct (view d); cbn in *; by rewrite Hsaved).
  set (t := current (view d)) in *.
  assert (at_view (MkView t None) (t_messages t).*2 s0) as Hat.
  { eapply (spec_run _ (at_view (MkView t None) []) (λ _, at_view (MkView t None) (t_messages t).*2)
      (λ _ _, True)) in Hr; [done| |by split].
    eapply spec_bind.
    - eapply spec_weaken; [apply (initialize_schema_stable max_bytes (MkView t None) [])|done| |done].
      intros a s Hs. exact Hs.
    - intros a. eapply spec_weaken; [apply (load_messages_spec (MkView t None))|done|done|done].
      apply Hlog. }
  destruct (at_view_ok _ _ _ Hat Htab Hlog) as (Hdb & Habs & Hm).
  split; [split; [done|]|done]. unfold cache_ok. by rewrite Hm, Habs.
Qed.
End reachable.

(** ** The properties *)

Section properties.
Context `{SqliteLaws D}.

(** C1: MessageStore::add refines the abstract log, for messages with a sequence of
    at least 1.  [insertion_full] reads off SQLite's answers whether it reports
    SQLITE_FULL while the message is inserted.  If it does not, and only then, add works on
    the whole log; if it does, on the log without its 100 oldest entries.  From a store
    in order add returns true after appending the message to that log and false
    when the message clashes with it, which then changes nothing more, and keeps
    the cached list equal to the table.  A throw leaves the log and the cache as they were
    or, only if SQLite reported that it is full, the pruned log, with no transaction
    open. *)
Theorem add_refines_log s m r s' : store_ok s → 1 ≤ sequence m → add m s = (r, s') →
  let full := insertion_full (database s) m in
  match r with
  | Ok b => store_ok s' ∧ (b, abs s') = add_result full (abs s) m
  | Throw _ => db_ok s' ∧ (abs s' = abs s ∧ messages_ s' = messages_ s ∨
      full = true ∧ abs s' = forget 100 (abs s) ∧ messages_ s' `prefix_of` entries (abs s'))
  | Undefined => False
  end.
Proof.
  intros [Hs Hc] Hm Hr full. pose proof (add_run s m r s' Hs Hm Hr) as Hp.
  destruct r; [|done..]. destruct Hp as (? & ? & ? & Hcache). split; [|done]. split; [done|auto].
Qed.

(** C18: insert_message is all or nothing.  It inserts the row and raises the
    last sequence of its origin together, or finds a clash and changes
    nothing, or throws and leaves the database as it was; no transaction stays
    open and the cached list is not touched. *)
Theorem insert_message_atomic s m r s' : db_ok s → 0 ≤ sequence m →
  insert_message m s = (r, s') →
  messages_ s' = messages_ s ∧ saved (view (database s')) = None ∧
  match r with
  | Ok b => sequence m ≤ i64_max ∧ put_message (abs s) m = (b, abs s')
  | Throw _ => view (database s') = view (database s)
  | Undefined => False
  end.
Proof.
  intros Hs Hm Hr. pose proof (db_ok_view s Hs) as Hv.
  pose proof (spec_run _ _ _ _ _ _ _
    (insert_message_spec (current (view (database s))) (messages_ s) m Hm) (conj Hv eq_refl) Hr) as Hp.
  destruct r as [b|e|]; [| |done].
  - destruct Hp as (Hle & t' & Hins & Hv' & Hl). apply inserted_abs in Hins.
    unfold abs. rewrite Hv', Hl. split_and!; done.
  - destruct Hp as [Hv' Hl]. rewrite Hv', Hl. by split_and!.
Qed.

(** C21: when the database the constructor opens has its contents in order (numbers in
    1 .. 2^63-1, no two rows that clash, no row above the last sequence of its origin),
    every store reached from the constructor by calls of add with messages whose
    sequence is at least 1, whatever their outcomes, has no open transaction, no two clashing rows, sequences
    in 1 .. 2^63-1, and no row above the last sequence recorded for its
    origin; the recorded last sequences never decrease. *)
Theorem reachable_store_invariant path max_bytes d s s' :
  sqlite3_open_v2 path = (SQLITE_OK, Some d) → log_ok (abs_tables (current (view d))) →
  MessageStore path max_bytes = Ok s → rtc add_step s s' →
  db_ok s' ∧ lasts_le (abs s) (abs s').
Proof.
  intros Hd Hlog Hs. apply construct_ok in Hs as (d' & Hd' & Hok).
  assert (d' = d) as -> by congruence. apply reachable_ok, Hok, Hlog.
Qed.

(** The constructor loads the database it opens: the cached messages are
    the rows in storage order, and the store is in order. *)
Theorem constructor_loads path max_bytes d s :
  sqlite3_open_v2 path = (SQLITE_OK, Some d) → log_ok (abs_tables (current (view d))) →
  MessageStore path max_bytes = Ok s →
  store_ok s ∧ messages_ s = (t_messages (current (view d))).*2.
Proof.
  intros Hd Hlog Hs. apply construct_ok in Hs as (d' & Hd' & Hok).
  assert (d' = d) as -> by congruence. destruct (Hok Hlog) as [[Hdb Hc] Habs].
  split; [done|]. unfold cache_ok in Hc. by rewrite Hc, Habs.
Qed.

(** When queries do not fail, the sequence next_sequence gives for an
    origin is above every sequence ever stored for it, also after any number
    of later insertions, failures and prunings of its messages. *)
Theorem sequence_never_reused s s' m n : reliable_reads (D := D) → db_ok s →
  m ∈ entries (abs s) → rtc add_step s s' →
  (next_sequence (origin m) s').1 = Ok n → sequence m < n ≤ i64_max.
Proof.
  intros Hrel Hs Hm Hr Hn. destruct (reachable_ok _ _ Hs Hr) as [Hs' Hle].
  pose proof (lo_last _ (db_log s Hs)) as Hlast. rewrite Forall_forall in Hlast.
  destruct (Hlast m Hm) as (last & Hl & Hml). apply Hle in Hl as (last' & Hl' & ?).
  destruct (next_sequence (origin m) s') as [r s''] eqn:Hrun. simpl in Hn. subst r.
  eapply spec_run in Hrun; [|apply (next_sequence_spec (view (database s')) (messages_ s'))|by split];
    [|apply (lo_range _ (db_log s' Hs'))].
  destruct Hrun as (_ & Hrange & _ & Hexact). specialize (Hexact Hrel).
  unfold abs, abs_tables in Hl'; cbn in Hl'. rewrite Hl' in Hexact. cbn in Hexact. lia.
Qed.

(** sequence_summary returns exactly the recorded last sequence of every
    origin, changes nothing, and no stored message is above it. *)
Theorem sequence_summary_exact s summary s' : db_ok s →
  sequence_summary s = (Ok summary, s') →
  summary = lasts (abs s) ∧ view (database s') = view (database s) ∧ messages_ s' = messages_ s ∧
  ∀ m, m ∈ entries (abs s) → ∃ n, summary !! origin m = Some n ∧ sequence m ≤ n.
Proof.
  intros Hs Hr.
  eapply spec_run in Hr; [|apply (sequence_summary_spec (view (database s)) (messages_ s))|by split];
    [|apply (lo_range _ (db_log s Hs))].
  destruct Hr as [[Hv Hl] ->]. split_and!; [done..|].
  pose proof (lo_last _ (db_log s Hs)) as Hlast. by rewrite Forall_forall in Hlast.
Qed.

(** C33: next_sequence takes a failed query for an origin without messages: a
    step that yields no row because of an error makes it return 1, whatever
    is stored for the origin. *)
Theorem next_sequence_ignores_errors s o d1 d2 rc :
  sqlite3_prepare_v2 (database s) st_select_last = (SQLITE_OK, d1) →
  sqlite3_bind_text d1 1 o = SQLITE_OK →
  sqlite3_step_rows d1 (SELECT_last_sequence_WHERE_origin o) = (([], rc), d2) →
  next_sequence o s = (Ok 1, finalize st_select_last (MkStore d2 (messages_ s))).
Proof.
  intros Hp Hb Hq. unfold next_sequence, with_statement, prepare, on_database, mbind, M_bind. rewrite Hp. cbn.
  unfold finally.
  unfold bind_text, gets, mbind, M_bind. cbn. rewrite Hb. cbn. by rewrite Hq.
Qed.
End properties.

(** The page limit given to SQLite keeps the database within the byte limit:
    it is the largest number of pages that fit, and at least one page. *)
Theorem max_pages_bounds max_bytes page_size : 0 ≤ max_bytes → 1 ≤ page_size ≤ i64_max →
  1 ≤ max_pages max_bytes page_size ∧
  max_bytes < page_size * (max_pages max_bytes page_size + 1) ∧
  (page_size ≤ max_bytes → page_size * max_pages max_bytes page_size ≤ max_bytes).
Proof.
  intros Hm Hp. unfold max_pages. rewrite u64_small by (unfold_ints; lia).
  pose proof (Z.mul_div_le max_bytes page_size ltac:(lia)).
  pose proof (Z.mul_succ_div_gt max_bytes page_size ltac:(lia)).
  destruct (Z.max_spec 1 (max_bytes / page_size)) as [[? ->]|[? ->]]; [split; [lia|]; split; nia|].
  split; [lia|]. split; [nia|]. intros Hle. pose proof (Z.div_le_lower_bound max_bytes page_size 1). nia.
Qed.

(** ** Witnesses *)

(** A fresh database opened by the constructor, and a first message. *)
Definition store0 : Store mdb := MkStore (fresh_db 1000) [].
Definition first_message : ChatMessage :=
  {| sequence := 1; message_id := "node-a:1"; origin := "node-a"; callsign := "Bolt";
     channel := default_channel; created_at_ms := 1; body := "hello" |}.
Definition store1 : Store mdb := (add first_message store0).2.

Lemma empty_log_ok : log_ok (abs_tables empty_tables).
Proof. split; cbn; [constructor| |constructor|by apply map_Forall_empty].
  by intros i j r1 r2 Hi; rewrite lookup_nil in Hi. Qed.

Lemma store0_ok : store_ok store0.
Proof. split; [|done]. split; [done|apply empty_tables_ok|apply empty_log_ok]. Qed.

Lemma store1_ok : db_ok store1.
Proof.
  apply (add_run store0 first_message (Ok true) store1); [apply store0_ok|done|by vm_compute].
Qed.

(** A database with room for one row, which is there, and a second message. *)
Definition small_store : Store mdb := MkStore (fresh_db 1) [].
Definition full_store : Store mdb := (add first_message small_store).2.
Definition second_message : ChatMessage :=
  {| sequence := 2; message_id := "node-a:2"; origin := "node-a"; callsign := "Bolt";
     channel := default_channel; created_at_ms := 2; body := "hello again" |}.

Lemma full_store_ok : store_ok full_store.
Proof.
  destruct (add_run small_store first_message (Ok true) full_store) as (_ & Hs & _ & Hc);
    [split; [done|apply empty_tables_ok|apply empty_log_ok]|done|by vm_compute|]. split; [exact Hs|by apply Hc].
Qed.

(** The first message finds room; the second finds the database full, drops the
    first and is taken. *)
Lemma add_refines_log_witness :
  (store_ok store1 ∧ (true, abs store1) = add_result false (abs store0) first_message) ∧
  ∃ s', add second_message full_store = (Ok true, s') ∧ store_ok s' ∧
    (true, abs s') = add_result true (abs full_store) second_message ∧ entries (abs s') = [second_message].
Proof.
  split.
  - replace false with (insertion_full (database store0) first_message) by (by vm_compute).
    apply (add_refines_log store0 first_message (Ok true) store1); [apply store0_ok|done|by vm_compute].
  - exists (add second_message full_store).2. split; [by vm_compute|].
    pose proof (add_refines_log full_store second_message (Ok true) (add second_message full_store).2
      full_store_ok ltac:(done) ltac:(by vm_compute)) as [Hs Hlog].
    replace (insertion_full (database full_store) second_message) with true in Hlog by (by vm_compute).
    split; [exact Hs|]. split; [exact Hlog|by vm_compute].
Defined.

Lemma insert_message_atomic_witness :
  ∃ r s', insert_message first_message store0 = (r, s') ∧ r = Ok true ∧
    messages_ s' = messages_ store0 ∧ saved (view (database s')) = None ∧
    put_message (abs store0) first_message = (true, abs s').
Proof.
  exists (Ok true), (insert_message first_message store0).2.
  destruct (insert_message_atomic store0 first_message (Ok true) (insert_message first_message store0).2)
    as (? & ? & ? & ?); [apply store0_ok|done|by vm_compute|].
  split; [by vm_compute|]. done.
Defined.

Lemma reachable_store_invariant_witness :
  db_ok store1 ∧ lasts_le (abs store0) (abs store1).
Proof.
  apply (reachable_store_invariant "les-chat.db" max_database_bytes (fresh_db 1000) store0 store1);
    [done|apply empty_log_ok|by vm_compute|].
  apply rtc_once. exists first_message, (Ok true). split; [done|by vm_compute].
Defined.

Lemma constructor_loads_witness : store_ok store0 ∧ messages_ store0 = [].
Proof.
  exact (constructor_loads "les-chat.db" max_database_bytes (fresh_db 1000) store0
    eq_refl empty_log_ok eq_refl).
Defined.

(** The queries of [ModelDb] complete as long as its code says so. *)
Lemma sequence_summary_exact_witness :
  ∃ summary, (sequence_summary store0).1 = Ok summary ∧ summary = lasts (abs store0).
Proof.
  exists ∅. split; [by vm_compute|].
  destruct (sequence_summary_exact store0 ∅ (sequence_summary store0).2) as [H _];
    [apply store0_ok|by vm_compute|exact H].
Defined.

Lemma sequence_never_reused_witness :
  (next_sequence "node-a" store1).1 = Ok 2 ∧ sequence first_message < 2 ≤ i64_max.
Proof.
  split; [by vm_compute|].
  apply (sequence_never_reused store1 store1 first_message 2); [by intros|..].
  - apply store1_ok.
  - vm_compute. left.
  - done.
  - by vm_compute.
Defined.

(** Forty-one messages are recorded for the origin, and the query fails. *)
Definition busy_store : Store fdb :=
  MkStore (MkFailing (MkDb (MkView (MkTables [] {["node-a" := 41]} 41) None) 0 1000 0)) [].

Lemma next_sequence_ignores_errors_witness : (next_sequence "node-a" busy_store).1 = Ok 1.
Proof.
  by rewrite (next_sequence_ignores_errors busy_store "node-a" (database busy_store)
    (database busy_store) 5).
Defined.

Lemma max_pages_bounds_witness :
  max_pages max_database_bytes 4096 = 2560 ∧ 4096 * max_pages max_database_bytes 4096 ≤ max_database_bytes.
Proof. split; [done|]. apply max_pages_bounds; done. Defined.
