(* ===== verification/Healthy.v ===== *)
(** * A database without faults

    When SQLite refuses nothing that is allowed and the disk has room, the store
    throws nothing: it takes every message whose number fits, and gives its
    summary. *)

From S2P Require Import Prelude Cxx Protocol Sqlite ModelDb MessageStore StoreProperties.
Open Scope Z_scope.

(** Statements are prepared and bound, a transaction begins when none is open and
    commits when one is, and steps run to completion. *)
Record healthy (D : Type) `{SqliteLaws D} : Prop := {
  he_prepare d st : (sqlite3_prepare_v2 d st).1 = SQLITE_OK;
  he_bind d i t : sqlite3_bind_text d i t = SQLITE_OK;
  he_begin d : saved (view d) = None → (sqlite3_exec d BEGIN_IMMEDIATE).1.1 = SQLITE_OK;
  he_commit d : is_Some (saved (view d)) → (sqlite3_exec d COMMIT).1.1 = SQLITE_OK;
  he_write d w : (sqlite3_step_write d w).1 = SQLITE_DONE;
  he_reads : reliable_reads (D := D);
}.
Arguments healthy D {_ _}.

Section sure.
Context `{SqliteLaws D} (Hh : healthy D).

(** Runs that throw nothing. *)
Definition sure {A} (P : Store D → Prop) (m : M (Store D) A) (Q : A → Store D → Prop) : Prop :=
  spec P m Q (λ _ _, False).

Lemma sure_bind {A B} (m : M (Store D) A) (k : A → M (Store D) B) a P Q R :
  sure P m (λ x s, x = a ∧ Q s) → sure Q (k a) R → sure P (m ≫= k) R.
Proof. intros Hm Hk. eapply spec_bind; [exact Hm|]. intros x s [-> Hs]. by apply Hk. Qed.

Lemma sure_then {A B} (m : M (Store D) A) (k : M (Store D) B) P Q R :
  sure P m (λ _, Q) → sure Q k R → sure P (m;; k) R.
Proof. intros Hm Hk. eapply spec_bind; [exact Hm|intros ?; exact Hk]. Qed.

Lemma sure_statement {A} st (m : M (Store D) A) P Q : by_view P → (∀ a, by_view (Q a)) →
  sure P m Q → sure P (with_statement st m) Q.
Proof.
  intros HP HQ Hm. apply (sure_then _ _ _ P).
  - intros s Hs. unfold prepare, on_database, mbind, M_bind. pose proof (he_prepare _ Hh (database s) st) as Hok.
    pose proof (law_prepare (database s) st) as Hv. destruct (sqlite3_prepare_v2 _ _) as [rc d]. cbn in Hok, Hv. subst rc.
    by apply (HP s).
  - apply spec_finally. eapply spec_weaken; [exact Hm|done| |done]. intros a s. apply HQ; [apply law_finalize|done].
Qed.

Lemma sure_text i t P : sure P (bind_text i t) (λ _, P).
Proof. intros s Hs. unfold bind_text, gets, mbind, M_bind. by rewrite (he_bind _ Hh). Qed.

(** A transaction is open. *)
Definition in_transaction (s : Store D) : Prop := is_Some (saved (view (database s))).

Lemma in_transaction_by_view : by_view in_transaction.
Proof. intros s s' Hv _ Hs. unfold in_transaction. by rewrite Hv. Qed.

Lemma anything_by_view : by_view (λ _ : Store D, True).
Proof. done. Qed.

Hint Resolve in_transaction_by_view anything_by_view : core.

Lemma sure_write w : sure in_transaction (on_database (λ d, sqlite3_step_write d w))
  (λ rc s, rc = SQLITE_DONE ∧ in_transaction s).
Proof.
  intros s Hs. unfold on_database, in_transaction in *. pose proof (he_write _ Hh (database s) w) as Hok.
  destruct (sqlite3_step_write (database s) w) as [rc d] eqn:E. cbn in Hok |- *. subst rc. split; [done|].
  destruct w as [m|o q]; [apply law_insert in E|apply law_upsert in E]; rewrite decide_True in E by done;
    [destruct (has_conflict _ m); [destruct E as [-> _]|destruct E as (_ & id & _ & ->)]|rewrite E]; exact Hs.
Qed.

Lemma sure_begin : sure (λ s, saved (view (database s)) = None) (execute BEGIN_IMMEDIATE) (λ _, in_transaction).
Proof.
  intros s Hs. unfold execute, on_database, mbind, M_bind. pose proof (he_begin _ Hh (database s) Hs) as Hok.
  destruct (sqlite3_exec (database s) BEGIN_IMMEDIATE) as [[rc e] d] eqn:E. cbn in Hok. subst rc.
  apply law_begin in E. cbn in E. destruct E as [_ E]. unfold in_transaction. cbn. by rewrite E.
Qed.

Lemma sure_commit : sure in_transaction (execute COMMIT) (λ _ _, True).
Proof.
  intros s Hs. unfold execute, on_database, mbind, M_bind. pose proof (he_commit _ Hh (database s) Hs) as Hok.
  destruct (sqlite3_exec (database s) COMMIT) as [[rc e] d]. cbn in Hok. by subst rc.
Qed.

Lemma sure_insert m : sequence m ≤ i64_max → sure in_transaction (insert_in_transaction m) (λ _ _, True).
Proof.
  intros Hm. unfold insert_in_transaction. rewrite (proj2 (Z.ltb_ge _ _)) by lia.
  apply (sure_then _ _ _ in_transaction); [by apply spec_ret|]. apply sure_statement; [auto..|].
  do 5 (apply (sure_then _ _ _ in_transaction); [apply sure_text|]).
  eapply sure_bind; [apply sure_write|]. cbn beta. change (SQLITE_DONE =? SQLITE_FULL) with false.
  change (SQLITE_DONE =? SQLITE_DONE) with true. cbn [negb].
  eapply (spec_bind _ _ _ (λ _, in_transaction)); [by intros s Hs|]. intros changes. apply (sure_then _ _ _ in_transaction).
  - destruct (negb _); [|by apply spec_ret]. apply sure_statement; [auto..|].
    apply (sure_then _ _ _ in_transaction); [apply sure_text|]. eapply sure_bind; [apply sure_write|]. by apply spec_ret.
  - apply (sure_then _ _ _ (λ _, True)); [apply sure_commit|by apply spec_ret].
Qed.

(** A caught exception that is not thrown. *)
Lemma sure_try {A} (m : M (Store D) A) h P Q : sure P m Q → sure P (try_catch m h) Q.
Proof. intros Hm. eapply spec_try; [exact Hm|by intros e s]. Qed.

Lemma add_sure s m : db_ok s → sequence m ≤ i64_max → ∃ b, (add m s).1 = Ok b.
Proof.
  intros Hs Hm. assert (sure (λ s, saved (view (database s)) = None) (add m) (λ _ _, True)) as Hsure.
  { apply sure_try. eapply (spec_bind _ _ _ (λ _ _, True)); [|by intros [] s' _].
    apply (sure_then _ _ _ in_transaction); [apply sure_begin|]. by apply sure_try, sure_insert. }
  specialize (Hsure s (db_idle _ Hs)). destruct (add m s) as [[b|e|] s']; [by eexists|done..].
Qed.

Lemma summary_sure s : db_ok s → ∃ s', sequence_summary s = (Ok (lasts (abs s)), s').
Proof.
  intros Hs. set (P := at_view (view (database s)) (messages_ s)).
  assert (sure P sequence_summary (λ _ _, True)) as Hsure.
  { apply sure_statement; [apply at_view_by_view|auto|]. intros s1 [Hv _]. unfold on_database, mbind, M_bind.
    pose proof (he_reads _ Hh (database s1) _ SELECT_origin_last_sequence) as Hrc.
    destruct (sqlite3_step_rows _ _) as [[rows rc] d] eqn:E. cbn in Hrc. subst rc.
    apply law_rows in E as (_ & full & Ha & _ & Hd). rewrite (Hd eq_refl). clear rows Hd. rewrite Hv in Ha. cbn in Ha.
    apply Permutation_map_inv in Ha as (l & -> & Hperm). rewrite summary_rows_run; [done|..].
    - rewrite <- Hperm. apply NoDup_fst_map_to_list.
    - apply Forall_forall. intros [o n] Hin. rewrite <- Hperm in Hin. apply elem_of_map_to_list in Hin.
      pose proof (lo_range _ (db_log _ Hs) o n Hin). cbn in *. lia. }
  destruct (sequence_summary s) as [[summary|e|] s'] eqn:E.
  - exists s'. by destruct (sequence_summary_exact _ _ _ Hs E) as [-> _].
  - specialize (Hsure s ltac:(done)). by rewrite E in Hsure.
  - specialize (Hsure s ltac:(done)). by rewrite E in Hsure.
Qed.
End sure.

(** ** An engine without faults *)

(** The engine of ModelDb.v with room for every row. *)
Record rdb := MkRoomy { r_db : mdb }.

Definition with_room (d : mdb) : mdb := MkDb (m_view d) (m_changes d) (S (length (t_messages (current (m_view d))))) (m_open d).

#[global] Instance RoomyDb : Sqlite rdb := {
  sqlite3_open_v2 path := (SQLITE_OK, Some (MkRoomy (m_disk path)));
  sqlite3_errmsg _ := "error";
  sqlite3_exec d c := let (r, d') := m_exec (r_db d) c in (r, MkRoomy d');
  sqlite3_prepare_v2 d _ := (SQLITE_OK, MkRoomy (set_open (r_db d) (S (m_open (r_db d)))));
  sqlite3_bind_text _ _ _ := SQLITE_OK;
  sqlite3_finalize d _ := MkRoomy (set_open (r_db d) (pred (m_open (r_db d))));
  sqlite3_step_write d w := let (r, d') := m_write (with_room (r_db d)) w in (r, MkRoomy d');
  sqlite3_step_rows _ d q := ((m_answer (current (m_view (r_db d))) q, SQLITE_DONE), d);
  sqlite3_changes d := m_changes (r_db d);
  sqlite3_close d := if decide (m_open (r_db d) = 0%nat) then SQLITE_OK else SQLITE_BUSY;
}.

#[local] Arguments m_exec : simpl never.
#[local] Arguments m_write : simpl never.

#[global] Instance RoomyDb_laws : SqliteLaws rdb.
Proof.
  refine {| view d := m_view (r_db d) |}; cbn.
  - intros path d [= <-]. exact (law_open (D := mdb) path (m_disk path) eq_refl).
  - done.
  - done.
  - done.
  - intros d c. pose proof (law_config (D := mdb) (r_db d) c) as Hc. cbn in Hc. by destruct (m_exec (r_db d) c).
  - intros d e d' rc. destruct (m_exec (r_db d) BEGIN_IMMEDIATE) as [r d1] eqn:E. intros [= -> <-].
    exact (law_begin (D := mdb) _ _ _ _ E).
  - intros d e d' rc. destruct (m_exec (r_db d) COMMIT) as [r d1] eqn:E. intros [= -> <-].
    exact (law_commit (D := mdb) _ _ _ _ E).
  - intros d e d' rc [= <- <- <-]. done.
  - intros d n e d' rc [= <- <- <-]. done.
  - intros d m d' rc. destruct (m_write (with_room (r_db d)) (INSERT_OR_IGNORE_INTO_messages m)) as [r d1] eqn:E.
    intros [= -> <-]. exact (law_insert (D := mdb) _ _ _ _ E).
  - intros d o n d' rc [= <- <-]. done.
  - intros R d q rows rc d' [= <- <- <-]. split; [done|]. eexists. by split; [apply m_answer_ok|].
Defined.

Lemma roomy_healthy : healthy rdb.
Proof.
  split; try done.
  - intros d Hs. cbn in *. unfold m_exec. by rewrite Hs.
  - intros d [t Hs]. cbn in *. unfold m_exec. by rewrite Hs.
  - intros d [m|o q]; [|done]. cbn. unfold m_write. destruct (has_conflict _ m); [done|].
    by rewrite (proj2 (Nat.leb_gt _ _)) by (cbn; lia).
Qed.
