(* ===== verification/Statements.v ===== *)
(** * The prepared statements of the message store

    Every method of message_store.cpp finalizes the statements it prepared,
    whether it returns or throws, so the handle of a store, constructed or not,
    can always be closed. *)

From S2P Require Import Prelude Cxx Protocol Sqlite ModelDb MessageStore StoreProperties.
Open Scope Z_scope.

Section statements.
Context `{SqliteStatements D}.
Implicit Types s : Store D.

Definition opened s : nat := open_statements (database s).

Lemma on_database_opened {A} (f : D → A * D) : (∀ d, open_statements (f d).2 = open_statements d) →
  keeps (same opened) (on_database f).
Proof. intros Hf s. specialize (Hf (database s)). unfold same, opened, on_database. by destruct (f _). Qed.

Lemma with_statement_opened {A} st (body : M (Store D) A) :
  keeps (same opened) body → keeps (same opened) (with_statement st body).
Proof.
  intros Hb s. unfold with_statement, prepare, on_database, mbind, M_bind.
  destruct (sqlite3_prepare_v2 (database s) st) as [rc d] eqn:Hp.
  apply st_prepare in Hp. destruct (decide (rc = SQLITE_OK)) as [->|Hrc]; cbn.
  - unfold finally. specialize (Hb (MkStore d (messages_ s))). unfold same, opened in *. cbn in Hb.
    destruct (body _) as [r s']. cbn in *. rewrite st_finalize, Hb, Hp. done.
  - rewrite (proj2 (Z.eqb_neq rc SQLITE_OK) Hrc). exact Hp.
Qed.

Lemma execute_opened c : keeps (same opened) (execute (D := D) c).
Proof. unfold execute, errmsg. solve_keeps. apply on_database_opened. intros d. apply st_exec. Qed.
Lemma rows_opened {R} (q : query R) : keeps (same opened) (on_database (λ d : D, sqlite3_step_rows d q)).
Proof. apply on_database_opened. intros d. apply st_rows. Qed.
Lemma write_opened w : keeps (same opened) (on_database (λ d : D, sqlite3_step_write d w)).
Proof. apply on_database_opened. intros d. apply st_write. Qed.

#[local] Hint Resolve with_statement_opened execute_opened rows_opened write_opened : leschat.
#[local] Hint Extern 1 (keeps (same opened) (with_statement _ _)) => (apply with_statement_opened; solve_keeps) : leschat.

Lemma bind_text_opened i t : keeps (same opened) (bind_text (D := D) i t).
Proof. unfold bind_text. solve_keeps. Qed.
#[local] Hint Resolve bind_text_opened : leschat.

(** ** The methods *)

Lemma initialize_schema_opened max_bytes : keeps (same opened) (initialize_schema (D := D) max_bytes).
Proof. unfold initialize_schema. solve_keeps. Qed.

Lemma load_messages_opened : keeps (same opened) (load_messages (D := D)).
Proof. unfold load_messages, load_row, push_message, set_messages, errmsg. solve_keeps. Qed.

Lemma contains_opened i : keeps (same opened) (contains (D := D) i).
Proof. unfold contains. solve_keeps. Qed.

Lemma next_sequence_opened o : keeps (same opened) (next_sequence (D := D) o).
Proof. unfold next_sequence. solve_keeps. Qed.

Lemma sequence_summary_opened : keeps (same opened) (sequence_summary (D := D)).
Proof. unfold sequence_summary, summary_row. solve_keeps. Qed.
#[local] Hint Resolve load_messages_opened : leschat.

Lemma add_opened m : keeps (same opened) (add (D := D) m).
Proof.
  unfold add, prune_oldest_messages, insert_and_cache, insert_message, insert_in_transaction, push_message, errmsg.
  solve_keeps.
Qed.

(** ** Closing *)

Lemma constructor_opened d path rc max_bytes : sqlite3_open_v2 path = (rc, Some d) →
  opened ((initialize_schema max_bytes;; load_messages) (MkStore d [])).2 = 0%nat.
Proof.
  intros Hd%st_open. assert (keeps (same opened) (initialize_schema (D := D) max_bytes;; load_messages)) as Hk.
  { apply keeps_bind; [apply _|apply initialize_schema_opened|intros _; apply load_messages_opened]. }
  specialize (Hk (MkStore d [])). unfold same, opened in *. by rewrite Hk.
Qed.

Lemma constructed_opened path max_bytes s : MessageStore path max_bytes = Ok s → opened s = 0%nat.
Proof.
  unfold MessageStore. destruct (_ || _); [done|].
  destruct (sqlite3_open_v2 path) as [rc [d|]] eqn:Hopen; [|by destruct (negb _)].
  destruct (negb _); [done|]. pose proof (constructor_opened d path rc max_bytes Hopen) as Hs.
  match goal with |- context [?m (MkStore d [])] => destruct (m (MkStore d [])) as [[[]|e|] s'] end; [|done..].
  by intros [= <-].
Qed.
End statements.

#[export] Hint Resolve contains_opened next_sequence_opened sequence_summary_opened add_opened : leschat.
