(* ===== verification/Env.v ===== *)
(** * The environment of the daemon

    The operating system and libevent are called, not written, by the program:
    their calls are the parameters of the class [Env] over a type [W] of worlds.
    A call may change the world, and two calls may answer differently.
    [EnvLaws] states the one documented fact the theorems use; [ModelEnv] is a
    concrete scripted world for the witnesses. *)

From S2P Require Import Prelude Cxx.
Open Scope Z_scope.

(** What recvfrom gives: a datagram with its sender's address, nothing more to
    read (EAGAIN, EWOULDBLOCK), or another error with its strerror text. *)
Inductive received :=
  | Datagram (payload : string) (sender : Z)
  | WouldBlock
  | RecvError (text : string).

(** The calls by which the constructors take their resources; each succeeds or
    fails. *)
Inductive setup :=
  | EventBaseNew
  | NewSocket | SetReuseAddress | SetBroadcast | SetNonblocking | BindDatagrams (port : Z)
  | NewReceiveEvent | NewAnnounceEvent | AddReceiveEvent | AddAnnounceEvent
  | NewSyncTimer | AddSyncTimer
  | NewHttpServer | BindHttp (address : string) (port : Z).

Class Env (W : Type) := {
  setup_ok : W → setup → bool * W;
  (** std::chrono::system_clock::now(), in milliseconds since the epoch *)
  system_clock_now : W → Z * W;
  (** clock_settime(CLOCK_REALTIME, {tv_sec, tv_nsec}) *)
  clock_settime : W → Z → Z → Z * W;
  recvfrom : W → received * W;
  inet_ntop : Z → option string;
  (** [Some a] when inet_pton(AF_INET, s, &a) returns 1 *)
  inet_pton : string → option Z;
  if_nametoindex : W → string → Z * W;
  (** the name and the IPv4 address of each entry, [None] for a null pointer or
      an address of another family; [None] when getifaddrs fails *)
  getifaddrs : W → option (list (option string * option Z));
  (** the count of bytes sent, negative on error; address, port, payload and,
      for sendmsg, the interface index of IP_PKTINFO *)
  sendto : W → Z → Z → string → Z * W;
  sendmsg : W → Z → Z → Z → string → Z * W;
  errno_text : W → string;
  (** libevent: connections and requests are named by numbers *)
  evhttp_connection_base_new : W → string → Z → option Z * W;
  evhttp_request_new : W → option Z * W;
  evhttp_make_request : W → Z → Z → string → Z * W;
  (** the path of a parsed URI: [None] when evhttp_uri_parse returns NULL,
      [Some None] when evhttp_uri_get_path does *)
  evhttp_uri_path : string → option (option string);
  (** the count of bytes copied, negative on error, and the bytes now in the
      destination *)
  evbuffer_copyout : W → string → Z → Z * string;
  (** the output buffer of a reply; [false] when evbuffer_new returns NULL *)
  evbuffer_new : W → bool * W;
  (** a file of the web root: [None] when it cannot be opened, [Some None] when
      reading it fails *)
  read_file : W → string → option (option string);
}.

(** evbuffer_copyout: copying as many bytes as a buffer holds copies them all. *)
Class EnvLaws (W : Type) `{Env W} : Prop := {
  law_copyout w b : evbuffer_copyout w b (size b) = (size b, b);
}.

(** ** The iteration order of std::unordered_map

    It is unspecified: a permutation of the pairs. *)
Class Unordered := {
  iterate {V} : gmap string V → list (string * V);
  iterate_perm {V} (m : gmap string V) : iterate m ≡ₚ map_to_list m;
}.

(** ** A scripted world *)

Record menv := MkEnv {
  w_now : Z;                      (** the system clock *)
  w_settable : bool;              (** whether clock_settime is permitted *)
  w_queue : list (string * Z);    (** datagrams waiting *)
  w_interfaces : gmap string Z;
  w_online : bool;                (** whether sends and requests succeed *)
  w_next : Z;                     (** the next name of a connection or request *)
  w_files : gmap string string;
}.

Definition w_with_now (w : menv) (t : Z) : menv :=
  MkEnv t (w_settable w) (w_queue w) (w_interfaces w) (w_online w) (w_next w) (w_files w).
Definition w_with_queue (w : menv) (q : list (string * Z)) : menv :=
  MkEnv (w_now w) (w_settable w) q (w_interfaces w) (w_online w) (w_next w) (w_files w).
Definition w_fresh (w : menv) : menv :=
  MkEnv (w_now w) (w_settable w) (w_queue w) (w_interfaces w) (w_online w) (w_next w + 1) (w_files w).

#[global] Instance ModelEnv : Env menv := {
  setup_ok w _ := (true, w);
  system_clock_now w := (w_now w, w);
  clock_settime w sec nsec :=
    if w_settable w then (0, w_with_now w (sec * 1000 + nsec / 1000000)) else (-1, w);
  recvfrom w := match w_queue w with
    | [] => (WouldBlock, w)
    | (p, a) :: q => (Datagram p a, w_with_queue w q)
    end;
  inet_ntop a := if a <? 0 then None else Some ("10.0.0." +:+ to_string a);
  inet_pton s := if str_eqb s "255.255.255.255" then Some 4294967295 else None;
  if_nametoindex w i := (default 0 (w_interfaces w !! i), w);
  getifaddrs w := Some [(Some "lo", Some 1); (Some "br-ahwlan", None); (Some "br-ahwlan", Some 7)];
  sendto w _ _ payload := (if w_online w then size payload else -1, w);
  sendmsg w _ _ _ payload := (if w_online w then size payload else -1, w);
  errno_text _ := "Network is unreachable";
  evhttp_connection_base_new w _ _ := (Some (w_next w), w_fresh w);
  evhttp_request_new w := (Some (w_next w), w_fresh w);
  evhttp_make_request w _ _ _ := (if w_online w then 0 else -1, w);
  evhttp_uri_path s := if empty s then None else Some (Some s);
  evbuffer_copyout w b n := (n, assign b n);
  evbuffer_new w := (true, w);
  read_file w f := Some <$> w_files w !! f;
}.

#[global] Instance ModelEnv_laws : EnvLaws menv.
Proof.
  split. intros w b. cbn. by rewrite assign_size.
Qed.

#[global] Program Instance ModelUnordered : Unordered := {| iterate V m := map_to_list m |}.
Next Obligation. done. Qed.

(** The same world with the network always there, a clock that stays in
    0 .. 2^61 and may not be set. *)
Record reliable := Reliable { underlying : menv }.

#[global] Instance ReliableEnv : Env reliable := {
  setup_ok w _ := (true, w);
  system_clock_now w := (Z.max 0 (Z.min (2 ^ 61) (w_now (underlying w))), w);
  clock_settime w _ _ := (-1, w);
  recvfrom w := match w_queue (underlying w) with
    | [] => (WouldBlock, w)
    | (p, a) :: q => (Datagram p a, Reliable (w_with_queue (underlying w) q))
    end;
  inet_ntop a := inet_ntop (W := menv) a;
  inet_pton s := inet_pton (W := menv) s;
  if_nametoindex w _ := (1, w);
  getifaddrs w := Some [(Some "br-ahwlan", Some 7)];
  sendto w _ _ payload := (size payload, w);
  sendmsg w _ _ _ payload := (size payload, w);
  errno_text _ := "Network is unreachable";
  evhttp_connection_base_new w _ _ := (Some (w_next (underlying w)), Reliable (w_fresh (underlying w)));
  evhttp_request_new w := (Some (w_next (underlying w)), Reliable (w_fresh (underlying w)));
  evhttp_make_request w _ _ _ := (0, w);
  evhttp_uri_path s := Some (Some s);
  evbuffer_copyout _ b n := (n, assign b n);
  evbuffer_new w := (true, w);
  read_file w f := Some <$> w_files (underlying w) !! f;
}.

#[global] Instance ReliableEnv_laws : EnvLaws reliable.
Proof.
  split. intros w b. cbn. by rewrite assign_size.
Qed.
