(* ===== verification/Node.v ===== *)
(** * The state of a running daemon

    One record holds the state of the objects Application owns: the message
    store, the registry of peers, the clock offset, the discovery service's
    failure flag, the event stream's open requests, the message service's
    counter, the world, and the trace of the effects performed so far.  The
    members that never change after construction are the record [Config]. *)

From S2P Require Import Prelude Cxx Protocol Sqlite MessageStore Env.
Open Scope Z_scope.

(** enum class TimeSyncMode *)
Inductive TimeSyncMode := Off | Authority | Client.

#[global] Instance TimeSyncMode_eq_dec : EqDecision TimeSyncMode.
Proof. solve_decision. Defined.

(** The constant members of the services. *)
Record Config := MkConfig {
  identity_ : NodeIdentity;
  bind_address_ : string;
  port_ : Z;
  discovery_address_ : string;
  discovery_interface_ : string;
  discovery_port_ : Z;
  time_sync_mode_ : TimeSyncMode;
  time_authority_id_ : string;
  local_address_ : string;
  web_root_ : string;   (** the macro LESCHAT_WEB_ROOT *)
}.

(** A request held open by the event stream, with its connection. *)
Record subscriber := MkSubscriber { sub_request : Z; sub_connection : Z }.

#[global] Instance subscriber_eq_dec : EqDecision subscriber.
Proof. solve_decision. Defined.

(** What the objects hold from their construction to their destruction, each
    freed by its own call: event_base_free, sqlite3_close, close, event_free,
    evhttp_free. *)
Inductive handle :=
  | EventBase | Database | DiscoverySocket | ReceiveEvent | AnnounceEvent | SyncTimerEvent | HttpServer.

#[global] Instance handle_eq_dec : EqDecision handle.
Proof. solve_decision. Defined.

(** What the daemon does to the outside, in order. *)
Inductive effect :=
  | Log (line : string)                                    (** std::cerr *)
  | Print (text : string)                                  (** std::cout *)
  | Acquired (h : handle)
  | Released (h : handle)
  | SendDatagram (interface : option Z) (address port : Z) (payload : string)
  | OpenConnection (connection : Z) (address : string) (port : Z)
  | SetLocalAddress (connection : Z) (address : string)
  | NewRequest (request : Z)
  | MakeRequest (connection request : Z) (path : string) (headers : list (string * string)) (payload : string)
  | RefusedRequest (connection request : Z)                (** evhttp_make_request failed *)
  | FreeRequest (request : Z)
  | FreeConnection (connection : Z)
  | NewContext (connection : Z)                            (** std::make_unique<RequestContext> *)
  | DeleteContext (connection : Z)                         (** the end of its unique_ptr *)
  | Reply (request : Z) (status : Z) (reason : string) (headers : list (string * string)) (body : string)
  | SendError (request : Z)
  | SetCloseCallback (connection : Z) (installed : bool)
  | OwnRequest (request : Z)                               (** evhttp_request_own *)
  | StartStream (request : Z) (headers : list (string * string))
  | Chunk (request : Z) (payload : string).

#[global] Instance effect_eq_dec : EqDecision effect.
Proof. solve_decision. Defined.

Record Node (D W : Type) := MkNode {
  store_ : Store D;
  peers_ : gmap string Peer;
  time_offset_ms : Z;
  announce_failed_ : bool;
  requests_ : list subscriber;
  next_sequence_ : Z;
  handles_ : list handle;    (** the pointers and descriptors that are not null *)
  world : W;
  trace : list effect;
}.
Arguments MkNode {D W}.
Arguments store_ {D W}.
Arguments peers_ {D W}.
Arguments time_offset_ms {D W}.
Arguments announce_failed_ {D W}.
Arguments requests_ {D W}.
Arguments next_sequence_ {D W}.
Arguments handles_ {D W}.
Arguments world {D W}.
Arguments trace {D W}.

Section setters.
Context {D W : Type}.
Implicit Types n : Node D W.

Definition with_store s (n : Node D W) : Node D W := MkNode s (peers_ n) (time_offset_ms n) (announce_failed_ n)
  (requests_ n) (next_sequence_ n) (handles_ n) (world n) (trace n).
Definition with_peers p (n : Node D W) : Node D W := MkNode (store_ n) p (time_offset_ms n) (announce_failed_ n)
  (requests_ n) (next_sequence_ n) (handles_ n) (world n) (trace n).
Definition with_offset o (n : Node D W) : Node D W := MkNode (store_ n) (peers_ n) o (announce_failed_ n)
  (requests_ n) (next_sequence_ n) (handles_ n) (world n) (trace n).
Definition with_announce_failed b (n : Node D W) : Node D W := MkNode (store_ n) (peers_ n) (time_offset_ms n) b
  (requests_ n) (next_sequence_ n) (handles_ n) (world n) (trace n).
Definition with_requests r (n : Node D W) : Node D W := MkNode (store_ n) (peers_ n) (time_offset_ms n) (announce_failed_ n)
  r (next_sequence_ n) (handles_ n) (world n) (trace n).
Definition with_next_sequence q (n : Node D W) : Node D W := MkNode (store_ n) (peers_ n) (time_offset_ms n)
  (announce_failed_ n) (requests_ n) q (handles_ n) (world n) (trace n).
Definition with_handles h (n : Node D W) : Node D W := MkNode (store_ n) (peers_ n) (time_offset_ms n)
  (announce_failed_ n) (requests_ n) (next_sequence_ n) h (world n) (trace n).
Definition with_world w (n : Node D W) : Node D W := MkNode (store_ n) (peers_ n) (time_offset_ms n) (announce_failed_ n)
  (requests_ n) (next_sequence_ n) (handles_ n) w (trace n).
Definition with_trace t (n : Node D W) : Node D W := MkNode (store_ n) (peers_ n) (time_offset_ms n) (announce_failed_ n)
  (requests_ n) (next_sequence_ n) (handles_ n) (world n) t.

(** A call of the environment, a store operation, an effect. *)
Definition call {A} (f : W → A * W) : M (Node D W) A := λ n,
  let (a, w) := f (world n) in (Ok a, with_world w n).
Definition on_store {A} (m : M (Store D) A) : M (Node D W) A := zoom store_ with_store m.
Definition emit (e : effect) : M (Node D W) unit := modify (λ n, with_trace (trace n ++ [e]) n).

(** [a || b || ...] over calls that may fail: the first failure ends it. *)
Fixpoint all_succeed `{Env W} (l : list setup) : M (Node D W) bool :=
  match l with
  | [] => mret true
  | s :: l' =>
      ok ← call (λ w, setup_ok w s);
      if ok : bool then all_succeed l' else mret false
  end.

Definition acquire `{Env W} (l : list setup) (failure : string) : M (Node D W) unit :=
  ok ← all_succeed l;
  if negb ok then throw (RuntimeError failure) else mret tt.

(** A call that gives a handle: null when it fails. *)
Definition take_handle (h : handle) : M (Node D W) unit :=
  modify (λ n, with_handles (handles_ n ++ [h]) n);;
  emit (Acquired h).
Definition new_handle `{Env W} (s : setup) (h : handle) : M (Node D W) bool :=
  ok ← call (λ w, setup_ok w s);
  (if ok : bool then take_handle h else mret tt);;
  mret ok.

(** [if (h != nullptr) { free(h); h = nullptr; }] *)
Definition release (h : handle) : M (Node D W) unit :=
  held ← gets (λ n, bool_decide (h ∈ handles_ n));
  if (held : bool) then
    emit (Released h);;
    modify (λ n, with_handles (filter (λ x, x ≠ h) (handles_ n)) n)
  else mret tt.

(** Only the world and the trace differ. *)
Definition same_state (n n' : Node D W) : Prop :=
  store_ n' = store_ n ∧ peers_ n' = peers_ n ∧ time_offset_ms n' = time_offset_ms n ∧
  announce_failed_ n' = announce_failed_ n ∧ requests_ n' = requests_ n ∧
  next_sequence_ n' = next_sequence_ n ∧ handles_ n' = handles_ n.

Lemma call_run {A} (f : W → A * W) n :
  call f n = (Ok (f (world n)).1, with_world (f (world n)).2 n).
Proof. unfold call. by destruct (f (world n)). Qed.

Lemma emit_run e n : emit e n = (Ok tt, with_trace (trace n ++ [e]) n).
Proof. done. Qed.

Lemma on_store_run {A} (m : M (Store D) A) n :
  on_store m n = ((m (store_ n)).1, with_store (m (store_ n)).2 n).
Proof. unfold on_store, zoom. by destruct (m (store_ n)). Qed.

Lemma with_trace_same n : with_trace (trace n) n = n.
Proof. by destruct n. Qed.

(** A loop that only emits. *)
Lemma iterM_emits {A} (f : A → M (Node D W) unit) (g : A → list effect) l n :
  (∀ x n, f x n = (Ok tt, with_trace (trace n ++ g x) n)) →
  iterM f l n = (Ok tt, with_trace (trace n ++ (l ≫= g)) n).
Proof.
  intros Hf. revert n. induction l as [|x l IH]; intros n; cbn.
  { by rewrite app_nil_r, with_trace_same. }
  rewrite (bind_run _ _ _ _ _ (Hf x n)), IH. cbn. by rewrite <- app_assoc.
Qed.
End setters.

(** ** What the calls of the node keep *)

Section keeps.
Context {D W : Type}.

Lemma call_keeps {A B} (f : Node D W → B) (g : W → A * W) :
  (∀ n w, f (with_world w n) = f n) → keeps (same f) (call g).
Proof. intros Hf n. rewrite call_run. apply Hf. Qed.

Lemma all_succeed_keeps `{Env W} {B} (f : Node D W → B) l :
  (∀ n w, f (with_world w n) = f n) → keeps (same f) (all_succeed l).
Proof.
  intros Hf. induction l as [|s l IH]; cbn; [apply keeps_ret, _|].
  apply keeps_bind; [apply _|by apply call_keeps|intros []; [exact IH|apply keeps_ret, _]].
Qed.

Lemma acquire_keeps `{Env W} {B} (f : Node D W → B) l failure :
  (∀ n w, f (with_world w n) = f n) → keeps (same f) (acquire l failure).
Proof.
  intros Hf. apply keeps_bind; [apply _|by apply all_succeed_keeps|].
  intros []; [apply keeps_ret|apply keeps_throw]; apply _.
Qed.

Lemma new_handle_keeps `{Env W} {B} (f : Node D W → B) s h :
  (∀ n w, f (with_world w n) = f n) → (∀ n l, f (with_handles l n) = f n) →
  (∀ n t, f (with_trace t n) = f n) → keeps (same f) (new_handle s h).
Proof.
  intros Hw Hh Ht. apply keeps_bind; [apply _|by apply call_keeps|intros ok].
  apply keeps_bind; [apply _| |intros _; apply keeps_ret, _]. destruct ok; [|apply keeps_ret, _].
  apply keeps_bind; [apply _|by apply keeps_modify|intros _; by apply keeps_modify].
Qed.

Lemma release_keeps {B} (f : Node D W → B) h :
  (∀ n l, f (with_handles l n) = f n) → (∀ n t, f (with_trace t n) = f n) → keeps (same f) (release h).
Proof.
  intros Hh Ht. apply keeps_bind; [apply _|apply keeps_gets, _|intros []; [|apply keeps_ret, _]].
  apply keeps_bind; [apply _|by apply keeps_modify|intros _; by apply keeps_modify].
Qed.

Lemma emit_keeps {B} (f : Node D W → B) e :
  (∀ n t, f (with_trace t n) = f n) → keeps (same f) (emit e).
Proof. intros Hf n. apply Hf. Qed.

Lemma on_store_keeps {A B} (f : Node D W → B) (m : M (Store D) A) :
  (∀ n s, f (with_store s n) = f n) → keeps (same f) (on_store m).
Proof. intros Hf n. rewrite on_store_run. apply Hf. Qed.

Lemma i64_checked_keeps {S} (R : S → S → Prop) `{!PreOrder R} z : keeps R (i64_checked z).
Proof. apply keeps_reads; [done|apply i64_checked_reads]. Qed.
End keeps.

#[export] Hint Extern 1 (keeps (same _) (call _)) =>
  (apply call_keeps; intros ? ?; reflexivity) : leschat.
#[export] Hint Extern 1 (keeps (same _) (all_succeed _)) =>
  (apply all_succeed_keeps; intros ? ?; reflexivity) : leschat.
#[export] Hint Extern 1 (keeps (same _) (acquire _ _)) =>
  (apply acquire_keeps; intros ? ?; reflexivity) : leschat.
#[export] Hint Extern 1 (keeps (same _) (new_handle _ _)) =>
  (apply new_handle_keeps; intros ? ?; reflexivity) : leschat.
#[export] Hint Extern 1 (keeps (same _) (release _)) =>
  (apply release_keeps; intros ? ?; reflexivity) : leschat.
#[export] Hint Extern 1 (keeps (same _) (emit _)) =>
  (apply emit_keeps; intros ? ?; reflexivity) : leschat.
#[export] Hint Extern 1 (keeps (same _) (on_store _)) =>
  (apply on_store_keeps; intros ? ?; reflexivity) : leschat.
#[export] Hint Extern 1 (keeps _ (i64_checked _)) => (apply i64_checked_keeps; apply _) : leschat.
#[export] Hint Extern 1 (keeps _ (i64_add _ _)) => (apply i64_checked_keeps; apply _) : leschat.
#[export] Hint Extern 1 (keeps _ (i64_sub _ _)) => (apply i64_checked_keeps; apply _) : leschat.
