(* ===== verification/Clock.v ===== *)
(** * The clock (clock.hpp)

    The process-wide offset is a field of the node; the system clock is the
    world's.  Additions and subtractions of times are 64-bit and signed, so an
    overflow is undefined behaviour. *)

From S2P Require Import Prelude Cxx Protocol Sqlite MessageStore Env Node.
Open Scope Z_scope.

Section clock.
Context `{Env W} {D : Type}.

Definition system_time_ms : M (Node D W) Z := call system_clock_now.

Definition current_time_ms : M (Node D W) Z :=
  now ← system_time_ms;
  offset ← gets time_offset_ms;
  i64_add now offset.

Definition current_time_offset_ms : M (Node D W) Z := gets time_offset_ms.

Definition set_time_offset_ms (offset_ms : Z) : M (Node D W) unit := modify (with_offset offset_ms).

(** C++ division truncates; the timestamp is not negative here. *)
Definition set_system_time_ms (timestamp_ms : Z) : M (Node D W) bool :=
  if timestamp_ms <? 0 then mret false
  else
    let tv_sec := Z.quot timestamp_ms 1000 in
    let tv_nsec := Z.rem timestamp_ms 1000 * 1000000 in
    rc ← call (λ w, clock_settime w tv_sec tv_nsec);
    if negb (rc =? 0) then mret false
    else set_time_offset_ms 0;; mret true.
End clock.

Section lemmas.
Context `{Env W} {D : Type}.

Lemma current_time_run (n : Node D W) :
  let now := (system_clock_now (world n)).1 in
  current_time_ms n =
    if decide (in_i64 (now + time_offset_ms n))
    then (Ok (now + time_offset_ms n), with_world (system_clock_now (world n)).2 n)
    else (Undefined, with_world (system_clock_now (world n)).2 n).
Proof.
  unfold current_time_ms, system_time_ms. rewrite (bind_run _ _ _ _ _ (call_run _ n)).
  unfold gets, mbind, M_bind, i64_add, i64_checked; cbn. by case_decide.
Qed.

(** Setting the clock: when the call succeeds the offset is zero; otherwise
    nothing but the world changes. *)
Lemma set_system_time_run t (n : Node D W) : 0 ≤ t →
  let '(rc, w') := clock_settime (world n) (t / 1000) (t mod 1000 * 1000000) in
  set_system_time_ms t n =
    (Ok (rc =? 0), with_world w' (if rc =? 0 then with_offset 0 n else n)).
Proof.
  intros Ht. unfold set_system_time_ms. rewrite (proj2 (Z.ltb_ge t 0)) by done.
  rewrite Z.quot_div_nonneg, Z.rem_mod_nonneg by lia.
  rewrite (bind_run _ _ _ _ _ (call_run _ n)).
  destruct (clock_settime (world n) (t / 1000) (t mod 1000 * 1000000)) as [rc w']. cbn.
  by destruct (rc =? 0).
Qed.
End lemmas.

(** What the clock keeps. *)
Section keeps.
Context `{Env W} {D : Type} {B : Type} (f : Node D W → B).

Lemma system_time_keeps : (∀ n w, f (with_world w n) = f n) → keeps (same f) system_time_ms.
Proof. apply call_keeps. Qed.

Lemma current_time_keeps : (∀ n w, f (with_world w n) = f n) → keeps (same f) current_time_ms.
Proof. intros Hf. unfold current_time_ms. solve_keeps. by apply system_time_keeps. Qed.

Lemma set_system_time_keeps t : (∀ n w, f (with_world w n) = f n) →
  (∀ n o, f (with_offset o n) = f n) → keeps (same f) (set_system_time_ms t).
Proof.
  intros Hf Ho. unfold set_system_time_ms, set_time_offset_ms. destruct (_ <? _); [solve_keeps|].
  apply keeps_bind; [apply _|by apply call_keeps|intros rc]. destruct (negb _); [solve_keeps|].
  apply keeps_bind; [apply _|by intros n; apply Ho|intros ?]. apply keeps_ret, _.
Qed.
End keeps.

#[export] Hint Extern 1 (keeps (same _) system_time_ms) =>
  (apply system_time_keeps; intros ? ?; reflexivity) : leschat.
#[export] Hint Extern 1 (keeps (same _) current_time_ms) =>
  (apply current_time_keeps; intros ? ?; reflexivity) : leschat.
#[export] Hint Extern 1 (keeps (same _) (set_system_time_ms _)) =>
  (apply set_system_time_keeps; intros ? ?; reflexivity) : leschat.
