(* ===== verification/PeerRegistry.v ===== *)
(** * The registry of peers (peer_registry.cpp)

    A map from node ids to the peers last heard from; [active_peers] lists those
    heard from within twenty seconds, in the order of their node ids. *)

From S2P Require Import Prelude Cxx Protocol Sqlite MessageStore Env Node Clock.
Open Scope Z_scope.

Definition peer_timeout_ms : Z := 20 * 1000.

(** std::ranges::sort by node_id *)
Definition node_id_lt (a b : Peer) : bool := str_ltb (peer_node_id a) (peer_node_id b).
Definition sort_peers : list Peer → list Peer := stable_sort node_id_lt.

Section registry.
Context `{Unordered} {D W : Type}.

(** [peers_.insert_or_assign(peer.node_id, std::move(peer))] *)
Definition update (peer : Peer) : M (Node D W) unit :=
  modify (λ n, with_peers (<[peer_node_id peer := peer]> (peers_ n)) n).

Definition keep_active (now_ms : Z) (result : list Peer) (entry : string * Peer) :
    M (Node D W) (list Peer) :=
  let '(_, peer) := entry in
  age_ms ← i64_sub now_ms (peer_last_seen_ms peer);
  mret (if (0 <=? age_ms) && (age_ms <=? peer_timeout_ms) then result ++ [peer] else result).

Definition active_peers (now_ms : Z) : M (Node D W) (list Peer) :=
  entries ← gets (λ n, iterate (peers_ n));
  result ← foldM (keep_active now_ms) [] entries;
  mret (sort_peers result).
End registry.

(** ** Which peers are active *)

(** Every peer is filed under its own node id. *)
Definition registry_ok (peers : gmap string Peer) : Prop :=
  map_Forall (λ k p, peer_node_id p = k) peers.

Definition is_active (now : Z) (p : Peer) : bool :=
  (0 <=? now - peer_last_seen_ms p) && (now - peer_last_seen_ms p <=? peer_timeout_ms).

(** The ages of all the peers fit in 64 bits. *)
Definition ages_fit (now : Z) (peers : gmap string Peer) : Prop :=
  map_Forall (λ _ p, in_i64 (now - peer_last_seen_ms p)) peers.

Definition peer_list (peers : gmap string Peer) : list Peer := (map_to_list peers).*2.

Lemma update_ok peers p : registry_ok peers → registry_ok (<[peer_node_id p := p]> peers).
Proof. intros Hp. by apply map_Forall_insert_2. Qed.

Lemma peer_list_elem peers p : registry_ok peers →
  p ∈ peer_list peers ↔ peers !! peer_node_id p = Some p.
Proof.
  intros Hok. unfold peer_list. rewrite list_elem_of_fmap. split.
  - intros ([k p'] & -> & Hin). apply elem_of_map_to_list in Hin. cbn. by rewrite (Hok _ _ Hin).
  - intros Hp. exists (peer_node_id p, p). split; [done|]. by apply elem_of_map_to_list.
Qed.

Lemma peer_list_ids peers : registry_ok peers → peer_node_id <$> peer_list peers = (map_to_list peers).*1.
Proof.
  intros Hok. unfold peer_list. rewrite <- list_fmap_compose. apply list_fmap_ext.
  intros i [k p] Hi. cbn. apply list_elem_of_lookup_2, elem_of_map_to_list in Hi. by apply Hok in Hi.
Qed.

Lemma node_id_lt_asym a b : node_id_lt a b = true → node_id_lt b a = false.
Proof. apply str_ltb_asym. Qed.
Lemma node_id_le_trans a b c :
  node_id_lt b a = false → node_id_lt c b = false → node_id_lt c a = false.
Proof. apply str_le_trans. Qed.

(** The sorted list depends only on the set of peers when the ids are distinct. *)
Lemma sort_peers_unique l1 l2 : NoDup (peer_node_id <$> l1) → l1 ≡ₚ l2 → sort_peers l1 = sort_peers l2.
Proof.
  intros Hnd Hp. apply (sorted_unique node_id_lt).
  - intros x y Hx Hy H1 H2. apply (NoDup_fmap_inj peer_node_id l1); [done|..].
    + by rewrite <- (stable_sort_perm node_id_lt l1).
    + by rewrite <- (stable_sort_perm node_id_lt l1).
    + by apply str_le_antisym.
  - apply stable_sort_sorted; [apply node_id_lt_asym|apply node_id_le_trans].
  - apply stable_sort_sorted; [apply node_id_lt_asym|apply node_id_le_trans].
  - unfold sort_peers. by rewrite !stable_sort_perm.
Qed.

(** The peers that [active_peers] is to return, without the iteration order. *)
Definition active_list (now : Z) (peers : gmap string Peer) : list Peer :=
  sort_peers (filter (λ p, is_active now p = true) (peer_list peers)).

Lemma active_list_nodup now peers : registry_ok peers →
  NoDup (peer_node_id <$> filter (λ p, is_active now p = true) (peer_list peers)).
Proof.
  intros Hok. assert (NoDup (peer_node_id <$> peer_list peers)) as Hnd.
  { rewrite peer_list_ids by done. apply NoDup_fst_map_to_list. }
  eapply sublist_NoDup; [exact Hnd|]. apply fmap_sublist, sublist_filter.
Qed.

Section lemmas.
Context `{Unordered} {D W : Type}.

Lemma active_peers_run now (n : Node D W) : registry_ok (peers_ n) → ages_fit now (peers_ n) →
  active_peers now n = (Ok (active_list now (peers_ n)), n).
Proof.
  intros Hok Hfit. unfold active_peers.
  rewrite (bind_run _ _ n (iterate (peers_ n)) n) by done.
  rewrite (bind_run _ _ n (filter (λ p, is_active now p = true) (iterate (peers_ n)).*2) n).
  - unfold mret, M_ret. do 2 f_equal. symmetry. apply sort_peers_unique; [by apply active_list_nodup|].
    unfold peer_list. by rewrite iterate_perm.
  - rewrite (foldM_filter _ (λ e, is_active now e.2) snd n).
    + cbn. do 2 f_equal. symmetry. apply filter_map.
    + intros acc [k p] Hin. rewrite iterate_perm in Hin. apply elem_of_map_to_list in Hin.
      unfold keep_active, i64_sub. rewrite (bind_run _ _ _ _ _ (i64_checked_ok _ n (Hfit k p Hin))).
      done.
Qed.
End lemmas.

(** ** Times that cannot overflow *)

(** A system clock between 1970 and about 73 million years later. *)
Definition sane_clock (W : Type) `{Env W} : Prop := ∀ w : W, 0 ≤ (system_clock_now w).1 ≤ 2 ^ 61.

(** The offset and the times of the peers are in the range such a clock and
    [synchronize_time] produce. *)
Record times_ok {D W} (n : Node D W) : Prop := {
  to_offset : - 2 ^ 61 ≤ time_offset_ms n ≤ 2 ^ 61;
  to_seen : map_Forall (λ _ p, - 2 ^ 61 ≤ peer_last_seen_ms p ≤ 2 ^ 62) (peers_ n);
}.

(** A time the clock of the node can show. *)
Definition clock_time `{Env W} {D} (n : Node D W) (now : Z) : Prop :=
  ∃ w : W, now = (system_clock_now w).1 + time_offset_ms n.

Lemma times_ok_current `{Env W} {D} (n : Node D W) : sane_clock W → times_ok n →
  ∃ now w, current_time_ms n = (Ok now, with_world w n) ∧ - 2 ^ 61 ≤ now ≤ 2 ^ 62 ∧
    ages_fit now (peers_ n) ∧ clock_time n now.
Proof.
  intros Hc [Ho Hs]. specialize (Hc (world n)). rewrite current_time_run.
  rewrite decide_True by (unfold_ints; lia). eexists _, _. split; [done|]. split; [lia|].
  split; [|by exists (world n)].
  intros k p Hp. specialize (Hs k p Hp). unfold_ints. lia.
Qed.

(** ** Properties *)

Section properties.
Context {D W : Type}.

(** C26: active_peers returns, sorted by node id and without duplicates, exactly
    the registered peers heard from at most 20 seconds ago and not in the
    future; it changes nothing. *)
Theorem active_peers_exact `{Unordered} now (n : Node D W) :
  registry_ok (peers_ n) → ages_fit now (peers_ n) →
  ∃ l, active_peers now n = (Ok l, n) ∧
    StronglySorted (λ a b, str_ltb (peer_node_id b) (peer_node_id a) = false) l ∧
    NoDup (peer_node_id <$> l) ∧
    ∀ p, p ∈ l ↔ peers_ n !! peer_node_id p = Some p ∧ 0 ≤ now - peer_last_seen_ms p ≤ 20000.
Proof.
  intros Hok Hfit. eexists. split; [by apply active_peers_run|]. unfold active_list. split_and!.
  - apply (stable_sort_sorted node_id_lt); [apply node_id_lt_asym|apply node_id_le_trans].
  - unfold sort_peers. rewrite stable_sort_perm. by apply active_list_nodup.
  - intros p. unfold sort_peers. rewrite stable_sort_perm, list_elem_of_filter, peer_list_elem by done.
    unfold is_active, peer_timeout_ms. rewrite andb_true_iff, !Z.leb_le. naive_solver lia.
Qed.

(** The result does not depend on the iteration order of the hash map: any
    two orders give the same list. *)
Theorem active_peers_any_order (o1 o2 : Unordered) now (n : Node D W) :
  registry_ok (peers_ n) → ages_fit now (peers_ n) →
  @active_peers o1 D W now n = @active_peers o2 D W now n.
Proof. intros Hok Hfit. by rewrite !active_peers_run. Qed.
End properties.

(** ** Witnesses *)

Definition peer_b : Peer := MkPeer "node-b" "Bravo" "10.0.0.2" 7777 app_version 100000.
Definition peer_c : Peer := MkPeer "node-c" "Charlie" "10.0.0.3" 7777 app_version 70000.
Definition two_peers : gmap string Peer := <["node-c" := peer_c]> (<["node-b" := peer_b]> ∅).

Lemma two_peers_ok : registry_ok two_peers ∧ ages_fit 100500 two_peers.
Proof.
  by split; (apply map_Forall_insert_2; [|apply map_Forall_insert_2; [|apply map_Forall_empty]]).
Qed.

Definition quiet_world : menv := MkEnv 100500 false [] ∅ true 1 ∅.

(** A node that knows two peers, one of them silent for half a minute. *)
Definition peers_node : Node unit menv :=
  MkNode (MkStore tt []) two_peers 0 false [] 1 [] quiet_world [].

Lemma active_peers_exact_witness :
  active_peers 100500 peers_node = (Ok [peer_b], peers_node) ∧
  ∃ l, active_peers 100500 peers_node = (Ok l, peers_node) ∧
    StronglySorted (λ a b, str_ltb (peer_node_id b) (peer_node_id a) = false) l ∧
    NoDup (peer_node_id <$> l) ∧
    ∀ p, p ∈ l ↔ two_peers !! peer_node_id p = Some p ∧ 0 ≤ 100500 - peer_last_seen_ms p ≤ 20000.
Proof.
  split; [by vm_compute|]. apply (active_peers_exact 100500 peers_node); apply two_peers_ok.
Defined.

(** Another admissible order: the reverse one. *)
Definition ReverseUnordered : Unordered.
Proof.
  refine {| iterate V m := reverse (map_to_list m) |}. intros V m. by rewrite reverse_Permutation.
Defined.

Lemma active_peers_any_order_witness :
  @active_peers ModelUnordered unit menv 100500 peers_node =
  @active_peers ReverseUnordered unit menv 100500 peers_node.
Proof. apply active_peers_any_order; apply two_peers_ok. Defined.
