(* ===== verification/Discovery.v ===== *)
(** * Peer discovery and time synchronisation (discovery_service.cpp)

    Announcements are broadcast every five seconds and received as UDP
    datagrams; a valid one registers its sender, and one from a time authority
    may set the clock.  The constructor takes the socket and the
    events, close_resources gives them back. *)

From S2P Require Import Prelude Cxx Protocol Json ModelJson Sqlite MessageStore Env Node Clock.
From S2P Require Import PeerRegistry.
Open Scope Z_scope.

Definition log {D W} (line : string) : M (Node D W) unit := emit (Log line).

Section discovery.
Context (J : Type) `{JsonC J} `{Env W} {D : Type} (cfg : Config).

Definition synchronize_time (authority_id : string) (authority_time_ms : Z) : M (Node D W) unit :=
  if authority_time_ms <=? 0 then mret tt
  else
    system ← system_time_ms;
    measured_offset ← i64_sub authority_time_ms system;
    current_offset ← current_time_offset_ms;
    offset_delta ← i64_sub measured_offset current_offset;
    if (-250 <? offset_delta) && (offset_delta <? 250) then mret tt
    else
      set ← set_system_time_ms authority_time_ms;
      if (set : bool) then
        log ("Time synchronized from MeshGate " +:+ authority_id +:+ " (offset " +:+
             to_string measured_offset +:+ " ms)")
      else
        set_time_offset_ms measured_offset;;
        log ("System clock update unavailable; using MeshGate time offset " +:+
             to_string measured_offset +:+ " ms from " +:+ authority_id).

(** The members every announcement must have: node id, callsign, version and
    port, or [None] to skip the datagram. *)
Definition decode_announcement (object : J) : option (string * string * string * Z) :=
  protocol ← get_typed object "protocol" json_type_int;
  if negb (json_object_get_int protocol =? protocol_version) then None else
  type ← json_get_string object "type";
  if negb (str_eqb type "announce") then None else
  node_id ← json_get_string object "node_id";
  if empty node_id then None else
  callsign ← json_get_string object "callsign";
  version ← json_get_string object "app_version";
  port ← get_typed object "http_port" json_type_int;
  Some (node_id, callsign, version, json_object_get_int64 port).

(** The claim to be a time authority: [None] to skip the datagram, [Some None]
    for no claim, [Some (Some t)] for a claim with its time. *)
Definition time_claim (object : J) : option (option Z) :=
  match get_typed object "time_authority" json_type_boolean with
  | None => Some None
  | Some authority =>
      if json_object_get_boolean authority then
        match get_typed object "time_ms" json_type_int with
        | None => None
        | Some authority_time => Some (Some (json_object_get_int64 authority_time))
        end
      else Some None
  end.

(** Whether this node follows the claims of [node_id]. *)
Definition follows (node_id : string) : bool :=
  bool_decide (time_sync_mode_ cfg = Client) &&
  (empty (time_authority_id_ cfg) || str_eqb (time_authority_id_ cfg) node_id).

(** The body of the receive loop, for one datagram. *)
Definition handle_datagram (payload : string) (sender : Z) : M (Node D W) unit :=
  if max_datagram_bytes <? size payload then mret tt else
  parsed ← parse_json payload;
  if negb (parsed_error parsed =? json_tokener_success) ||
     negb (parse_end parsed =? size payload) ||
     negb (json_is_object (parsed_object parsed)) then mret tt else
  match decode_announcement (parsed_object parsed) with
  | None => mret tt
  | Some (node_id, callsign, version, port_value) =>
      if (port_value <? 1) || (65535 <? port_value) ||
         str_eqb node_id (id_node_id (identity_ cfg)) then mret tt else
      match time_claim (parsed_object parsed) with
      | None => mret tt
      | Some claim =>
          (match claim with
           | Some authority_time_ms =>
               if follows node_id then synchronize_time node_id authority_time_ms else mret tt
           | None => mret tt
           end);;
          match inet_ntop sender with
          | None => mret tt
          | Some address =>
              now ← current_time_ms;
              update (MkPeer node_id callsign (c_str address) (u16 port_value) version now)
          end
      end
  end.

(** The receive loop; [false] if the fuel runs out. *)
Fixpoint receive_loop (fuel : nat) : M (Node D W) bool :=
  match fuel with
  | O => mret false
  | S fuel =>
      r ← call recvfrom;
      match r with
      | WouldBlock => mret true
      | RecvError text => throw (RuntimeError ("recvfrom failed: " +:+ text))
      | Datagram payload sender => handle_datagram payload sender;; receive_loop fuel
      end
  end.

Definition receive_announcements := receive_loop.

Definition receive_callback (fuel : nat) : M (Node D W) bool :=
  try_catch (receive_announcements fuel) (λ e,
    log ("Discovery receive error: " +:+ what e);; mret true).

(** The announcement's JSON. *)
Definition announcement_json : M (Node D W) J :=
  root ← make_json_object;
  let root := json_object_object_add root "protocol" (json_object_new_int protocol_version) in
  let root := json_object_object_add root "type" (json_object_new_string "announce") in
  let root := json_object_object_add root "node_id"
    (json_object_new_string (c_str (id_node_id (identity_ cfg)))) in
  let root := json_object_object_add root "callsign"
    (json_object_new_string (c_str (id_callsign (identity_ cfg)))) in
  let root := json_object_object_add root "http_port" (json_object_new_int (port_ cfg)) in
  let root := json_object_object_add root "app_version" (json_object_new_string app_version) in
  if decide (time_sync_mode_ cfg = Authority) then
    now ← current_time_ms;
    let root := json_object_object_add root "time_authority" (json_object_new_boolean true) in
    mret (json_object_object_add root "time_ms" (json_object_new_int64 now))
  else mret root.

Definition send_announce : M (Node D W) unit :=
  root ← announcement_json;
  payload ← serialize_json root;
  match inet_pton (c_str (discovery_address_ cfg)) with
  | None => throw (RuntimeError "Invalid discovery IPv4 address")
  | Some destination =>
      sent ←
        (if empty (discovery_interface_ cfg) then
           emit (SendDatagram None destination (discovery_port_ cfg) payload);;
           call (λ w, sendto w destination (discovery_port_ cfg) payload)
         else
           interface_index ← call (λ w, if_nametoindex w (c_str (discovery_interface_ cfg)));
           if interface_index =? 0 then
             throw (RuntimeError ("Discovery interface is unavailable: " +:+ discovery_interface_ cfg))
           else if i32_max <? interface_index then
             throw (RuntimeError "Discovery interface index is out of range")
           else
             emit (SendDatagram (Some interface_index) destination (discovery_port_ cfg) payload);;
             call (λ w, sendmsg w interface_index destination (discovery_port_ cfg) payload));
      if sent <? 0 then
        e ← gets (λ n, errno_text (world n));
        throw (RuntimeError ("Discovery datagram send failed: " +:+ e))
      else if negb (sent =? size payload) then
        throw (RuntimeError "Discovery datagram was not sent completely")
      else mret tt
  end.

Definition set_announce_failed (b : bool) : M (Node D W) unit := modify (with_announce_failed b).

(** The first failure of a run and the recovery are logged, the rest is quiet. *)
Definition announce : M (Node D W) unit :=
  try_catch
    (send_announce;;
     failed ← gets announce_failed_;
     (if (failed : bool) then log "Discovery announce recovered" else mret tt);;
     set_announce_failed false)
    (λ e,
     failed ← gets announce_failed_;
     (if negb failed then log ("Discovery announce error: " +:+ what e) else mret tt);;
     set_announce_failed true).

Definition announce_callback : M (Node D W) unit := announce.

Definition close_resources : M (Node D W) unit :=
  release AnnounceEvent;;
  release ReceiveEvent;;
  release DiscoverySocket.

(** The constructor: what was taken is released when it throws. *)
Definition DiscoveryService : M (Node D W) unit :=
  try_catch
    (socket ← new_handle NewSocket DiscoverySocket;
     (if negb socket then throw (RuntimeError "Failed to create discovery socket") else mret tt);;
     acquire [SetReuseAddress; SetBroadcast; SetNonblocking] "Failed to configure discovery socket";;
     acquire [BindDatagrams (discovery_port_ cfg)]
       ("Failed to bind discovery UDP port " +:+ to_string (discovery_port_ cfg));;
     match inet_pton (c_str (discovery_address_ cfg)) with
     | None => throw (RuntimeError ("Invalid discovery IPv4 address: " +:+ discovery_address_ cfg))
     | Some _ => mret tt
     end;;
     receive_event ← new_handle NewReceiveEvent ReceiveEvent;
     announce_event ← new_handle NewAnnounceEvent AnnounceEvent;
     (if negb receive_event || negb announce_event
      then throw (RuntimeError "Failed to create discovery events") else mret tt);;
     acquire [AddReceiveEvent; AddAnnounceEvent] "Failed to activate discovery events";;
     announce)
    (λ e, close_resources;; throw e).

Definition destroy_discovery : M (Node D W) unit := close_resources.
End discovery.
