(* ===== verification/DiscoveryProperties.v ===== *)
(** * Properties of discovery

    The correction of the clock, what a datagram may do to the registry, the
    round trip of an announcement from one node to another, the termination of
    the receive loop exactly with the datagrams, and the logging of announcement
    failures. *)

From S2P Require Import Prelude Cxx Protocol Json ModelJson Sqlite MessageStore Env Node Clock.
From S2P Require Import PeerRegistry Discovery.
Open Scope Z_scope.

(** ** The registry's invariant *)

(** Every peer is filed under its id, is not this node, and has a usable port. *)
Record peer_ok (cfg : Config) (k : string) (p : Peer) : Prop := {
  po_key : peer_node_id p = k;
  po_named : empty k = false;
  po_other : k ≠ id_node_id (identity_ cfg);
  po_port : 1 ≤ peer_http_port p ≤ 65535;
}.
Definition registry_valid (cfg : Config) (peers : gmap string Peer) : Prop :=
  map_Forall (peer_ok cfg) peers.

Lemma registry_valid_ok cfg peers : registry_valid cfg peers → registry_ok peers.
Proof. intros Hv k p Hp. by apply (Hv k p Hp). Qed.

(** The step relation: the registry stays valid. *)
Definition keeps_valid {D W} (cfg : Config) (n n' : Node D W) : Prop :=
  registry_valid cfg (peers_ n) → registry_valid cfg (peers_ n').
#[global] Instance keeps_valid_preorder {D W} cfg : PreOrder (@keeps_valid D W cfg).
Proof. split; [by intros n Hv|]. intros x y z H1 H2 Hv. by apply H2, H1. Qed.

Lemma same_valid {D W A} cfg (m : M (Node D W) A) : keeps (same peers_) m → keeps (keeps_valid cfg) m.
Proof. intros Hm n Hv. unfold keeps, same in Hm. by rewrite Hm. Qed.

(** Everything discovery does not own. *)
Definition elsewhere {D W} (n : Node D W) := (store_ n, requests_ n, next_sequence_ n, announce_failed_ n).

Section frames.
Context `{JsonC J} `{Env W} {D : Type} (cfg : Config).

Lemma synchronize_time_keeps {B} (f : Node D W → B) id t :
  (∀ n w, f (with_world w n) = f n) → (∀ n o, f (with_offset o n) = f n) →
  (∀ n l, f (with_trace l n) = f n) → keeps (same f) (synchronize_time id t).
Proof.
  intros Hw Ho Ht. unfold synchronize_time, log, set_time_offset_ms, current_time_offset_ms.
  solve_keeps; auto using system_time_keeps, set_system_time_keeps, emit_keeps, keeps_modify.
Qed.

Lemma handle_datagram_keeps {B} (f : Node D W → B) payload sender :
  (∀ n w, f (with_world w n) = f n) → (∀ n o, f (with_offset o n) = f n) →
  (∀ n l, f (with_trace l n) = f n) → (∀ n l, f (with_peers l n) = f n) →
  keeps (same f) (handle_datagram J cfg payload sender).
Proof.
  intros Hw Ho Ht Hp. unfold handle_datagram, update.
  solve_keeps; auto using synchronize_time_keeps, current_time_keeps, keeps_modify, same_reads, parse_json_reads.
Qed.

Lemma receive_loop_keeps R `{!PreOrder R} fuel : keeps R (call (D := D) recvfrom) →
  (∀ payload sender, keeps R (handle_datagram J cfg payload sender)) →
  keeps R (receive_loop J cfg fuel).
Proof. intros Hc Hh. induction fuel as [|fuel IH]; cbn; solve_keeps; auto. Qed.
End frames.

(** ** What one datagram does *)

Lemma decode_named `{JsonC J} (o : J) id c v p :
  decode_announcement J o = Some (id, c, v, p) → empty id = false.
Proof.
  unfold decode_announcement. intros Hd.
  repeat (match type of Hd with
  | (?o ≫= _) = Some _ => destruct o as [?x|]; [cbn [mbind option_bind] in Hd|done]
  | (if ?c then _ else _) = Some _ => destruct c eqn:?; [done|]
  end). by simplify_eq.
Qed.

Section valid.
Context `{JsonC J} `{Env W} {D : Type} (cfg : Config).

Lemma update_valid (p : Peer) : peer_ok cfg (peer_node_id p) p →
  keeps (keeps_valid cfg) (update (D := D) (W := W) p).
Proof. intros Hp n Hv. cbn. by apply map_Forall_insert_2. Qed.

Lemma handle_datagram_valid payload sender :
  keeps (keeps_valid cfg) (handle_datagram J cfg payload sender : M (Node D W) unit).
Proof.
  unfold handle_datagram. destruct (_ <? _); [solve_keeps|].
  apply keeps_bind; [apply _|by apply same_valid, same_reads, parse_json_reads|intros parsed].
  destruct (_ || _); [solve_keeps|].
  destruct (decode_announcement _ _) as [[[[id c] v] port]|] eqn:Hd; [|solve_keeps].
  destruct (_ || _) eqn:Hg; [solve_keeps|]. split_bools.
  destruct (time_claim _ _) as [claim|]; [|solve_keeps].
  apply keeps_bind; [apply _| |intros _].
  { apply same_valid. destruct claim as [t|]; [destruct (follows cfg id)|];
      eauto using keeps_ret with typeclass_instances. by apply synchronize_time_keeps. }
  destruct (inet_ntop sender) as [a|]; [|solve_keeps].
  apply keeps_bind; [apply _|by apply same_valid, current_time_keeps|intros now].
  apply update_valid. split; cbn [peer_node_id peer_http_port]; [done|by eapply decode_named|by apply str_eqb_false|].
  rewrite u16_small; lia.
Qed.
End valid.

(** ** The announcement of a node *)

(** The identity main.cpp accepts has neither an empty id nor a NUL byte. *)
Record announces (cfg : Config) : Prop := {
  an_named : empty (id_node_id (identity_ cfg)) = false;
  an_id : no_nul (id_node_id (identity_ cfg)) = true;
  an_callsign : no_nul (id_callsign (identity_ cfg)) = true;
  an_port : 1 ≤ port_ cfg ≤ 65535;
}.

Section announcement.
Context `{JsonLaws J} `{Env W} {D : Type} (cfg : Config).

(** The members all announcements have, then those of an authority. *)
Definition announced : J :=
  let str s := json_object_new_string s in
  json_object_object_add (json_object_object_add (json_object_object_add
    (json_object_object_add (json_object_object_add (json_object_object_add
      json_object_new_object
      "protocol" (json_object_new_int protocol_version))
      "type" (str "announce"))
      "node_id" (str (c_str (id_node_id (identity_ cfg)))))
      "callsign" (str (c_str (id_callsign (identity_ cfg)))))
      "http_port" (json_object_new_int (port_ cfg)))
      "app_version" (str app_version).

Definition claimed (claim : option Z) : J :=
  match claim with
  | None => announced
  | Some t => json_object_object_add
      (json_object_object_add announced "time_authority" (json_object_new_boolean true))
      "time_ms" (json_object_new_int64 t)
  end.

Local Hint Resolve law_type_add law_type_object : core.

Lemma announced_type : json_object_get_type announced = json_type_object.
Proof. unfold announced. auto 20. Qed.
Local Hint Resolve announced_type : core.

Lemma claimed_type claim : json_object_get_type (claimed claim) = json_type_object.
Proof. destruct claim; cbn; auto. Qed.

Lemma announced_built d : 1 ≤ port_ cfg ≤ 65535 → built (S d) announced.
Proof.
  intros Hp. unfold announced.
  repeat (apply built_object_add; [auto 20|done| |]); try constructor;
    auto using no_nul_c_str; unfold_ints; unfold protocol_version; lia.
Qed.

Lemma claimed_built d claim : 1 ≤ port_ cfg ≤ 65535 → (∀ t, claim = Some t → in_i64 t) →
  built (S d) (claimed claim).
Proof.
  intros Hp Hc. destruct claim as [t|]; cbn; [|by apply announced_built].
  apply built_object_add; [auto|done| |constructor; auto].
  apply built_object_add; [auto|done| |constructor]. by apply announced_built.
Qed.

Lemma claimed_get claim k :
  json_object_object_get_ex (claimed claim) k =
    if decide (k = "time_ms") then json_object_new_int64 <$> claim
    else if decide (k = "time_authority") then (λ _, json_object_new_boolean true) <$> claim
    else json_object_object_get_ex announced k.
Proof.
  destruct claim as [t|]; cbn [claimed].
  - rewrite !law_get_ex_add by auto. repeat (case_decide; try congruence); done.
  - unfold announced. rewrite !law_get_ex_add by auto 20. rewrite law_get_ex_empty.
    repeat (case_decide; subst; try done).
Qed.

Lemma announced_get k :
  json_object_object_get_ex announced k =
    if decide (k = "app_version") then Some (json_object_new_string app_version)
    else if decide (k = "http_port") then Some (json_object_new_int (port_ cfg))
    else if decide (k = "callsign")
      then Some (json_object_new_string (c_str (id_callsign (identity_ cfg))))
    else if decide (k = "node_id")
      then Some (json_object_new_string (c_str (id_node_id (identity_ cfg))))
    else if decide (k = "type") then Some (json_object_new_string "announce")
    else if decide (k = "protocol") then Some (json_object_new_int protocol_version)
    else None.
Proof.
  unfold announced. rewrite !law_get_ex_add, law_get_ex_empty by auto 20.
  repeat (case_decide; try congruence).
Qed.

Lemma claimed_decodes claim : announces cfg → (∀ t, claim = Some t → in_i64 t) →
  decode_announcement J (claimed claim) =
    Some (id_node_id (identity_ cfg), id_callsign (identity_ cfg), app_version, port_ cfg) ∧
  time_claim J (claimed claim) = Some claim.
Proof.
  intros [Hn Hi Hc Hp] Hr. unfold decode_announcement, time_claim.
  assert (∀ k s, json_object_object_get_ex (claimed claim) k = Some (json_object_new_string s) →
    no_nul s = true → json_get_string (claimed claim) k = Some s) as Hstr.
  { intros k s Hk Hs. eapply json_get_string_Some; [done|apply law_type_string|by apply law_get_string]. }
  rewrite (Hstr "type" "announce"), (Hstr "node_id" (id_node_id (identity_ cfg))),
    (Hstr "callsign" (id_callsign (identity_ cfg))), (Hstr "app_version" app_version)
    by (rewrite ?claimed_get, ?announced_get, ?c_str_no_nul by done; done).
  assert (get_typed (claimed claim) "protocol" json_type_int =
    Some (json_object_new_int protocol_version)) as ->.
  { apply get_typed_Some. by rewrite claimed_get, announced_get, law_type_int. }
  assert (get_typed (claimed claim) "http_port" json_type_int =
    Some (json_object_new_int (port_ cfg))) as ->.
  { apply get_typed_Some. by rewrite claimed_get, announced_get, law_type_int. }
  cbn [mbind option_bind]. rewrite law_get_int by (by unfold_ints). rewrite Hn. cbn.
  rewrite law_get_int_int64 by (unfold_ints; lia). split; [done|].
  destruct claim as [t|].
  - assert (get_typed (claimed (Some t)) "time_authority" json_type_boolean =
      Some (json_object_new_boolean true)) as ->.
    { apply get_typed_Some. by rewrite claimed_get, law_type_boolean. }
    assert (get_typed (claimed (Some t)) "time_ms" json_type_int =
      Some (json_object_new_int64 t)) as ->.
    { apply get_typed_Some. by rewrite claimed_get, law_type_int64. }
    rewrite law_get_boolean. by rewrite law_get_int64 by auto.
  - unfold get_typed. by rewrite claimed_get, announced_get.
Qed.

(** The claim an announcement sent now carries. *)
Definition announcement_of (n : Node D W) (claim : option Z) (n' : Node D W) : Prop :=
  if decide (time_sync_mode_ cfg = Authority)
  then ∃ t, claim = Some t ∧ current_time_ms n = (Ok t, n')
  else claim = None ∧ n' = n.

Lemma announcement_json_run n (j : J) n' : announcement_json J cfg n = (Ok j, n') →
  ∃ claim, j = claimed claim ∧ announcement_of n claim n'.
Proof.
  unfold announcement_json, announcement_of. rewrite (bind_run _ _ _ _ _ (make_json_object_run n)).
  cbv zeta. case_decide as Hm.
  - intros (t & n1 & Ht & Hr)%bind_Ok. exists (Some t). unfold mret, M_ret in Hr. simplify_eq.
    split; [done|]. by exists t.
  - unfold mret, M_ret. intros Hr. exists None. by simplify_eq.
Qed.

Lemma current_time_range (n : Node D W) t n' : current_time_ms n = (Ok t, n') → in_i64 t.
Proof.
  unfold current_time_ms. intros (now & n1 & _ & Hr)%bind_Ok.
  unfold gets, mbind, M_bind in Hr. by apply i64_checked_inv in Hr as (-> & _ & ?).
Qed.

Lemma announcement_of_range n claim n' t : announcement_of n claim n' → claim = Some t → in_i64 t.
Proof.
  unfold announcement_of. case_decide; [|naive_solver].
  intros (t' & -> & Ht) [= ->]. by eapply current_time_range.
Qed.

(** The effect a call of send_announce has: at most one datagram, holding the
    announcement. *)
Definition sends (n : Node D W) (l : list effect) : Prop :=
  l = [] ∨ ∃ claim n1 i d payload, announcement_of n claim n1 ∧
    serialize_json (claimed claim) n1 = (Ok payload, n1) ∧
    l = [SendDatagram i d (discovery_port_ cfg) payload].

Lemma announcement_json_trace : keeps (same trace) (announcement_json J cfg : M (Node D W) J).
Proof. unfold announcement_json. solve_keeps. Qed.

Lemma send_announce_trace (n : Node D W) :
  ∃ l, trace (send_announce J cfg n).2 = trace n ++ l ∧ sends n l.
Proof.
  pose proof (announcement_json_trace n) as Hk. unfold same in Hk. unfold send_announce.
  assert (∀ n1 : Node D W, trace n1 = trace n → ∃ l, trace n1 = trace n ++ l ∧ sends n l) as Hnone.
  { intros n1 ->. exists []. rewrite app_nil_r. split; [done|by left]. }
  destruct (announcement_json J cfg n) as [[j|e|] n1] eqn:Hj; unfold mbind, M_bind; rewrite Hj;
    [|by apply Hnone..].
  pose proof (serialize_json_reads j n1) as Hs.
  destruct (serialize_json j n1) as [[payload|e|] n2] eqn:Hp; simpl in Hs; subst n2; [|by apply Hnone..].
  simpl in Hk. apply announcement_json_run in Hj as (claim & -> & Hc).
  assert (∀ i d (n2 : Node D W), trace n2 = trace n1 ++ [SendDatagram i d (discovery_port_ cfg) payload] →
    ∃ l, trace n2 = trace n ++ l ∧ sends n l) as Hone.
  { intros i d n2 ->. rewrite Hk. eexists. split; [done|]. right. by eauto 10. }
  destruct (inet_pton _) as [d|]; [|by apply Hnone].
  unfold emit, modify, call, gets, throw, mret, M_ret.
  destruct (empty _).
  - destruct (sendto _ _ _ _) as [sent w]. cbn.
    destruct (sent <? 0); [by apply (Hone None d)|]. by destruct (negb _); apply (Hone None d).
  - destruct (if_nametoindex _ _) as [i w]. destruct (i =? 0); [by apply Hnone|].
    destruct (i32_max <? i); [by apply Hnone|]. cbn.
    destruct (sendmsg _ _ _ _ _) as [sent w']. cbn.
    destruct (sent <? 0); [by apply (Hone (Some i) d)|]. by destruct (negb _); apply (Hone (Some i) d).
Qed.
End announcement.

(** ** Receiving an announcement *)

Section receiving.
Context `{JsonLaws J} `{Env W} {D D' : Type} (cfgA cfgB : Config).

(** What the receiver does with a well-formed announcement of another node. *)
Definition discovered (claim : option Z) (address : string) : M (Node D W) unit :=
  (match claim with
   | Some t => if follows cfgB (id_node_id (identity_ cfgA))
               then synchronize_time (id_node_id (identity_ cfgA)) t else mret tt
   | None => mret tt
   end);;
  now ← current_time_ms;
  update (MkPeer (id_node_id (identity_ cfgA)) (id_callsign (identity_ cfgA)) (c_str address)
    (port_ cfgA) app_version now).

Lemma handle_announced claim payload sender address (nA : Node D' W) (nB : Node D W) :
  announces cfgA → (∀ t, claim = Some t → in_i64 t) →
  serialize_json (claimed (J := J) cfgA claim) nA = (Ok payload, nA) →
  size payload ≤ max_datagram_bytes →
  id_node_id (identity_ cfgA) ≠ id_node_id (identity_ cfgB) →
  inet_ntop sender = Some address →
  handle_datagram J cfgB payload sender nB = discovered claim address nB.
Proof.
  intros Ha Hc Hs Hsz Hid Hip. pose proof (an_port _ Ha) as Hport.
  destruct (serialize_json_run 1 (claimed (J := J) cfgA claim) nA) as (t & Ht & Hp);
    [by apply claimed_built|lia|]. rewrite Ht in Hs. simplify_eq.
  unfold handle_datagram. rewrite (proj2 (Z.ltb_ge _ _) Hsz).
  assert (size payload ≤ i32_max) as Hi by (unfold max_datagram_bytes in *; unfold_ints; lia).
  rewrite (bind_run _ _ _ _ _ (Hp Hi _ nB)). cbn [parsed_error parse_end parsed_object].
  rewrite !Z.eqb_refl. rewrite (proj2 (json_is_object_true _) (claimed_type cfgA claim)).
  destruct (claimed_decodes cfgA claim Ha Hc) as [-> ->]. cbn [negb orb].
  rewrite (proj2 (Z.ltb_ge _ _)), (proj2 (Z.ltb_ge 65535 _)) by lia.
  rewrite (proj2 (str_eqb_false _ _) Hid). cbn [orb]. rewrite Hip, u16_small by lia. done.
Qed.
End receiving.

(** ** The log of announcement failures *)

(** Which lines a run of announcements logs: an error when the first one fails,
    a recovery when the next succeeds, in turn. *)
Fixpoint alternates (failed : bool) (l : list effect) : Prop :=
  match l with
  | [] => True
  | Log line :: l' =>
      (if failed then line = "Discovery announce recovered"
       else ∃ e, line = "Discovery announce error: " +:+ what e) ∧ alternates (negb failed) l'
  | _ :: l' => alternates failed l'
  end.

(** The state of the flag after the lines. *)
Fixpoint flag_after (failed : bool) (l : list effect) : bool :=
  match l with
  | [] => failed
  | Log _ :: l' => flag_after (negb failed) l'
  | _ :: l' => flag_after failed l'
  end.

Lemma alternates_app b l1 l2 :
  alternates b (l1 ++ l2) ↔ alternates b l1 ∧ alternates (flag_after b l1) l2.
Proof.
  revert b. induction l1 as [|e l1 IH]; intros b; cbn; [naive_solver|].
  destruct e; rewrite IH; naive_solver.
Qed.
Lemma flag_after_app b l1 l2 : flag_after b (l1 ++ l2) = flag_after (flag_after b l1) l2.
Proof. revert b. induction l1 as [|[] l1 IH]; intros b; cbn; auto. Qed.

Section announcing.
Context `{JsonLaws J} `{Env W} {D : Type} (cfg : Config).

Lemma send_announce_flag : keeps (same announce_failed_) (send_announce J cfg : M (Node D W) unit).
Proof. unfold send_announce, announcement_json. solve_keeps. Qed.

(** A sent datagram logs nothing. *)
Lemma sends_quiet (n : Node D W) l b : sends (J := J) cfg n l → alternates b l ∧ flag_after b l = b.
Proof. intros [->|(claim & n1 & i & d & p & _ & _ & ->)]; done. Qed.

Lemma announce_run (n : Node D W) :
  announce J cfg n = match send_announce J cfg n with
    | (Ok _, n1) => (Ok tt, with_announce_failed false
        (if announce_failed_ n1 then with_trace (trace n1 ++ [Log "Discovery announce recovered"]) n1
         else n1))
    | (Throw e, n1) => (Ok tt, with_announce_failed true
        (if announce_failed_ n1 then n1
         else with_trace (trace n1 ++ [Log ("Discovery announce error: " +:+ what e)]) n1))
    | (Undefined, n1) => (Undefined, n1)
    end.
Proof.
  unfold announce, try_catch, mbind, M_bind, gets. destruct (send_announce J cfg n) as [[[]|e|] n1];
    [by destruct (announce_failed_ n1)| |done]. by destruct (announce_failed_ n1).
Qed.

(** One call of announce. *)
Lemma announce_step (n : Node D W) :
  ∃ l, trace (announce J cfg n).2 = trace n ++ l ∧
    (alternates (announce_failed_ n) l) ∧
    ((announce J cfg n).1 ≠ Undefined →
      (announce J cfg n).1 = Ok tt ∧
      announce_failed_ (announce J cfg n).2 = flag_after (announce_failed_ n) l).
Proof.
  destruct (send_announce_trace (J := J) cfg n) as (l & Hl & Hs).
  pose proof (send_announce_flag n) as Hf. unfold same in Hf.
  destruct (sends_quiet n l (announce_failed_ n) Hs) as [Ha Hfl].
  rewrite announce_run. destruct (send_announce J cfg n) as [[[]|e|] n1]; cbn in Hl, Hf |- *.
  - rewrite Hf. destruct (announce_failed_ n) eqn:E; cbn.
    + exists (l ++ [Log "Discovery announce recovered"]). rewrite Hl, app_assoc.
      by rewrite alternates_app, flag_after_app, Hfl.
    + exists l. by rewrite Hfl.
  - rewrite Hf. destruct (announce_failed_ n) eqn:E; cbn.
    + exists l. by rewrite Hfl.
    + exists (l ++ [Log ("Discovery announce error: " +:+ what e)]). rewrite Hl, app_assoc.
      rewrite alternates_app, flag_after_app, Hfl. cbn. split_and!; eauto.
  - exists l. split_and!; done.
Qed.

Lemma announce_runs k (n : Node D W) :
  ∃ l, trace (iterM (λ _, announce J cfg) (repeat tt k) n).2 = trace n ++ l ∧
    alternates (announce_failed_ n) l.
Proof.
  revert n. induction k as [|k IH]; intros n; cbn.
  { exists []. by rewrite app_nil_r. }
  destruct (announce_step n) as (l & Hl & Ha & Hok). unfold mbind, M_bind.
  destruct (announce J cfg n) as [[[]|e|] n1]; cbn in Hl, Hok; [|by exists l..].
  destruct (Hok ltac:(done)) as [_ Hfl]. destruct (IH n1) as (l' & Hl' & Ha').
  exists (l ++ l'). rewrite Hl', Hl, app_assoc, alternates_app, <- Hfl. done.
Qed.
End announcing.

(** ** The correction of the clock *)

Section time.
Context `{Env W} {D : Type}.

(** A correction is due when the authority's time is positive and differs by a
    quarter of a second or more. *)
Definition correction_due (t now offset : Z) : bool :=
  (0 <? t) && negb ((-250 <? t - now - offset) && (t - now - offset <? 250)).

(** The node after a correction to [t] measured at the clock reading [now], in the world
    [w] after that reading: clock_settime is called with the time [t].  When it
    succeeds the offset is zero; when it fails the offset makes up the
    difference.  One line says which. *)
Definition corrected (id : string) (t now : Z) (w : W) (n : Node D W) : Node D W :=
  let '(rc, w') := clock_settime w (t / 1000) (t mod 1000 * 1000000) in
  let logged line := with_world w' (with_trace (trace n ++ [Log line]) n) in
  if rc =? 0 then
    with_offset 0 (logged ("Time synchronized from MeshGate " +:+ id +:+ " (offset " +:+
      to_string (t - now) +:+ " ms)"))
  else
    with_offset (t - now) (logged ("System clock update unavailable; using MeshGate time offset " +:+
      to_string (t - now) +:+ " ms from " +:+ id)).

Lemma synchronize_time_run id t (n : Node D W) :
  let now := (system_clock_now (world n)).1 in
  in_i64 (t - now) → in_i64 (t - now - time_offset_ms n) →
  ∃ n', synchronize_time id t n = (Ok tt, n') ∧
    if correction_due t now (time_offset_ms n) then n' = corrected id t now (system_clock_now (world n)).2 n
    else ∃ w', n' = with_world w' n.
Proof.
  intros now Hm Hd. unfold synchronize_time, correction_due.
  destruct (Z.leb_spec t 0) as [Ht|Ht].
  { rewrite (proj2 (Z.ltb_ge 0 t)) by done. exists n. split; [done|]. exists (world n). by destruct n. }
  rewrite (proj2 (Z.ltb_lt 0 t)) by done. cbn [andb]. unfold system_time_ms, i64_sub.
  rewrite (bind_run _ _ _ _ _ (call_run _ n)). fold now. set (w1 := (system_clock_now (world n)).2).
  rewrite (bind_run _ _ _ _ _ (i64_checked_ok _ _ Hm)).
  rewrite (bind_run _ _ (with_world w1 n) (time_offset_ms n) (with_world w1 n)) by done.
  rewrite (bind_run _ _ _ _ _ (i64_checked_ok _ _ Hd)).
  destruct (_ && _) eqn:E; cbn [negb].
  { exists (with_world w1 n). split; [done|]. by exists w1. }
  pose proof (set_system_time_run t (with_world w1 n) ltac:(lia)) as Hr. unfold corrected.
  cbn [world with_world] in Hr. destruct (clock_settime w1 _ _) as [rc w']. rewrite (bind_run _ _ _ _ _ Hr).
  destruct (rc =? 0); by eexists.
Qed.

(** *** The receive loop *)

Context `{JsonC J} (cfg : Config).

(** One turn of the loop: a datagram is there and is handled. *)
Inductive receives : Node D W → Node D W → Prop :=
  | receives_one n payload sender w n' :
      recvfrom (world n) = (Datagram payload sender, w) →
      handle_datagram J cfg payload sender (with_world w n) = (Ok tt, n') → receives n n'.

(** The turn that ends it: no datagram is waiting, recvfrom fails, or an exception
    (or undefined behaviour) leaves the handling of a datagram. *)
Inductive stops : Node D W → result bool → Node D W → Prop :=
  | stops_empty n w : recvfrom (world n) = (WouldBlock, w) → stops n (Ok true) (with_world w n)
  | stops_error n text w : recvfrom (world n) = (RecvError text, w) →
      stops n (Throw (RuntimeError ("recvfrom failed: " +:+ text))) (with_world w n)
  | stops_throw n payload sender w e n' :
      recvfrom (world n) = (Datagram payload sender, w) →
      handle_datagram J cfg payload sender (with_world w n) = (Throw e, n') → stops n (Throw e) n'
  | stops_undefined n payload sender w n' :
      recvfrom (world n) = (Datagram payload sender, w) →
      handle_datagram J cfg payload sender (with_world w n) = (Undefined, n') → stops n Undefined n'.

(** Every turn is one or the other. *)
Lemma receives_or_stops n : (∃ n', receives n n') ∨ ∃ r n', stops n r n'.
Proof.
  destruct (recvfrom (world n)) as [[p a| |e] w] eqn:E.
  - destruct (handle_datagram J cfg p a (with_world w n)) as [[[]|e|] n'] eqn:Eh.
    + left. exists n'. by eapply receives_one.
    + right. exists (Throw e), n'. by eapply stops_throw.
    + right. exists Undefined, n'. by eapply stops_undefined.
  - right. exists (Ok true), (with_world w n). by apply stops_empty.
  - right. eexists _, (with_world w n). by apply stops_error.
Qed.

Lemma loop_receives fuel n n' : receives n n' →
  receive_loop J cfg (S fuel) n = receive_loop J cfg fuel n'.
Proof.
  intros [? p a w ? Hr Hh]. cbn. rewrite (bind_run _ _ _ _ _ (call_run _ _)), Hr. cbn.
  by rewrite (bind_run _ _ _ _ _ Hh).
Qed.

Lemma loop_stops fuel n r n' : stops n r n' → receive_loop J cfg (S fuel) n = (r, n') ∧ r ≠ Ok false.
Proof.
  intros [? w Hr|? text w Hr|? p a w e ? Hr Hh|? p a w ? Hr Hh]; cbn;
    rewrite (bind_run _ _ _ _ _ (call_run _ _)), Hr; cbn; [done|done|..];
    unfold mbind, M_bind; by rewrite Hh.
Qed.

(** The fuel runs out after as many datagrams. *)
Lemma loop_unfinished fuel n n' : receive_loop J cfg fuel n = (Ok false, n') ↔ nsteps receives fuel n n'.
Proof.
  revert n. induction fuel as [|fuel IH]; intros n; split.
  - intros [= <-]. constructor.
  - inversion 1; by subst.
  - destruct (receives_or_stops n) as [[n1 Hn1]|(r & n1 & Hn1)].
    + rewrite (loop_receives _ _ _ Hn1). intros Hl. econstructor; [exact Hn1|by apply IH].
    + destruct (loop_stops fuel n r n1 Hn1) as [-> Hr]. by intros [= -> _].
  - intros Hs. inversion Hs as [|? ? n1 ? Hn1 Hrest]; subst. rewrite (loop_receives _ _ _ Hn1). by apply IH.
Qed.

(** It stops where the datagrams do. *)
Lemma loop_finished k n n1 r n2 fuel : nsteps receives k n n1 → stops n1 r n2 → (k < fuel)%nat →
  receive_loop J cfg fuel n = (r, n2).
Proof.
  intros Hk Hs. revert fuel. induction Hk as [n|k n n' n1 Hstep _ IH]; intros [|fuel] Hf; [lia| |lia|].
  - by apply loop_stops.
  - rewrite (loop_receives _ _ _ Hstep). apply IH; [done|lia].
Qed.

(** The loop ends exactly when no endless sequence of datagrams follows. *)
Lemma loop_ends n : Acc (flip receives) n ↔ ∃ k n1 r n2, nsteps receives k n n1 ∧ stops n1 r n2.
Proof.
  split.
  - induction 1 as [n _ IH]. destruct (receives_or_stops n) as [[n' Hn']|(r & n' & Hn')].
    + destruct (IH n' Hn') as (k & n1 & r & n2 & Hk & Hs). exists (S k), n1, r, n2.
      split; [by econstructor|done].
    + exists 0%nat, n, r, n'. split; [constructor|done].
  - intros (k & n1 & r & n2 & Hk & Hs).
    assert (∀ n a b, receives n a → receives n b → a = b) as Hdet.
    { intros x a b [? p1 a1 w1 ? H1 H1'] Hb. inversion Hb as [? p2 a2 w2 ? H2 H2']; subst.
      rewrite H2 in H1. injection H1 as <- <- <-. rewrite H2' in H1'. by injection H1'. }
    induction Hk as [n|k n n' n1 Hstep _ IH]; constructor; intros y Hy; unfold flip in Hy.
    + exfalso. destruct (loop_stops 0 _ _ _ Hs) as [Hl Hne]. rewrite (loop_receives 0 _ _ Hy) in Hl.
      injection Hl as <- _. done.
    + rewrite (Hdet _ _ _ Hy Hstep). by apply IH.
Qed.
End time.

(** ** Properties *)

Section properties.
Context `{JsonLaws J} `{EnvLaws W} {D D' : Type}.

(** C28: with clock readings, offset and authority time of at most 2^61 in magnitude,
    synchronize_time never overflows.  It does nothing when the authority time
    is not positive or is within 250 ms of this node's current time.  Otherwise it
    calls clock_settime with the authority's time: when the call succeeds the
    offset is zero, and when it fails, and only then, the offset is the
    measured difference; one line, naming the authority and the difference, is logged, and nothing
    else of the node changes. *)
Theorem clock_correction id t (n : Node D W) (now := (system_clock_now (world n)).1) :
  t ≤ 2 ^ 61 → 0 ≤ now ≤ 2 ^ 61 → - 2 ^ 61 ≤ time_offset_ms n ≤ 2 ^ 61 →
  ∃ n', synchronize_time id t n = (Ok tt, n') ∧
    - 2 ^ 61 ≤ time_offset_ms n' ≤ 2 ^ 61 ∧
    if correction_due t now (time_offset_ms n) then n' = corrected id t now (system_clock_now (world n)).2 n
    else ∃ w', n' = with_world w' n.
Proof.
  intros Ht Hnow Ho. destruct (decide (t ≤ 0)) as [Hle|Hgt].
  { exists n. unfold synchronize_time, correction_due.
    rewrite (proj2 (Z.leb_le t 0) Hle), (proj2 (Z.ltb_ge 0 t) Hle). split_and!; [done|lia..|].
    exists (world n). by destruct n. }
  destruct (synchronize_time_run id t n) as (n' & Hr & Hc); [fold now; unfold_ints; lia..|].
  exists n'. split; [done|]. split; [|done]. fold now in Hc.
  destruct (correction_due _ _ _); [|by destruct Hc as [w' ->]].
  rewrite Hc. unfold corrected. destruct (clock_settime _ _ _) as [rc w']. destruct (rc =? 0); cbn; lia.
Qed.

(** An announcement cannot make the receiver file a peer under another id,
    under the receiver's own id, without an id, or with a port outside
    1 .. 65535; and receiving never touches the store, the event stream, the
    message counter or the announcement flag. *)
Theorem receive_keeps_registry cfg fuel (n : Node D W) : registry_valid cfg (peers_ n) →
  registry_valid cfg (peers_ (receive_callback J cfg fuel n).2) ∧
  elsewhere (receive_callback J cfg fuel n).2 = elsewhere n.
Proof.
  intros Hv. split.
  - revert n Hv. change (keeps (keeps_valid cfg) (receive_callback J cfg fuel : M (Node D W) bool)).
    unfold receive_callback, receive_announcements, log. apply keeps_try; [apply _| |intros e].
    + apply receive_loop_keeps; [apply _|by apply same_valid, call_keeps|].
      intros. apply handle_datagram_valid.
    + apply same_valid. solve_keeps.
  - revert n Hv. intros n _. revert n.
    change (keeps (same elsewhere) (receive_callback J cfg fuel : M (Node D W) bool)).
    unfold receive_callback, receive_announcements, log. apply keeps_try; [apply _| |intros e].
    + apply receive_loop_keeps; [apply _|by apply call_keeps|]. intros. by apply handle_datagram_keeps.
    + solve_keeps.
Qed.

(** C40: when the receive callback ends.  Whatever the socket answers: if it gives
    k datagrams that are handled and then none, or an error, or an exception
    leaves the handling of the next one, the callback returns after exactly these turns, with a log
    line for an exception, and any fuel above k gives that result.  It ends
    exactly when the datagrams do: when there is no endless sequence of them
    ([Acc]), and when each turn finds another, every fuel runs out: as long as
    datagrams keep arriving the callback, and with it the daemon's only
    thread, does not return. *)
Theorem receive_callback_terminates cfg (n : Node D W) :
  (∀ k n1 r n2 fuel, nsteps (receives (J := J) cfg) k n n1 → stops (J := J) cfg n1 r n2 → (k < fuel)%nat →
    receive_callback J cfg fuel n =
      match r with
      | Throw e => (Ok true, with_trace (trace n2 ++ [Log ("Discovery receive error: " +:+ what e)]) n2)
      | _ => (r, n2)
      end) ∧
  (Acc (flip (receives (J := J) cfg)) n ↔ ∃ fuel, (receive_callback J cfg fuel n).1 ≠ Ok false) ∧
  (∀ fuel, (receive_callback J cfg fuel n).1 = Ok false ↔ ∃ n', nsteps (receives (J := J) cfg) fuel n n').
Proof.
  assert (∀ fuel, (receive_callback J cfg fuel n).1 = Ok false ↔ ∃ n', nsteps (receives (J := J) cfg) fuel n n') as Hout.
  { intros fuel. unfold receive_callback, receive_announcements, try_catch, log.
    destruct (receive_loop J cfg fuel n) as [[b|e|] n'] eqn:E; cbn.
    - split; [intros [= ->]; exists n'; by apply loop_unfinished|].
      intros [n1 Hn1]. apply loop_unfinished in Hn1. congruence.
    - split; [done|]. intros [n1 Hn1]. apply loop_unfinished in Hn1. congruence.
    - split; [done|]. intros [n1 Hn1]. apply loop_unfinished in Hn1. congruence. }
  assert (∀ k n1 r n2 fuel, nsteps (receives (J := J) cfg) k n n1 → stops (J := J) cfg n1 r n2 → (k < fuel)%nat →
    receive_loop J cfg fuel n = (r, n2) ∧ r ≠ Ok false) as Hend.
  { intros k n1 r n2 fuel Hk Hs Hf. split; [by eapply loop_finished|]. by destruct (loop_stops cfg 0 n1 r n2 Hs). }
  split_and!; [| |exact Hout].
  - intros k n1 r n2 fuel Hk Hs Hf. destruct (Hend k n1 r n2 fuel Hk Hs Hf) as [Hl _].
    unfold receive_callback, receive_announcements, try_catch, log. rewrite Hl.
    destruct r as [b|e|]; [done| |done]. by rewrite (bind_run _ _ _ _ _ (emit_run _ n2)).
  - split.
    + intros (k & n1 & r & n2 & Hk & Hs)%loop_ends. exists (S k). rewrite Hout. intros [n' Hn'].
      apply loop_unfinished in Hn'. destruct (Hend k n1 r n2 (S k) Hk Hs ltac:(lia)) as [Hl Hr]. congruence.
    + intros [fuel Hf]. rewrite Hout in Hf. apply loop_ends.
      assert (∀ k, (∃ n', nsteps (receives (J := J) cfg) k n n') ∨
        ∃ k n1 r n2, nsteps (receives (J := J) cfg) k n n1 ∧ stops (J := J) cfg n1 r n2) as Hall.
      { induction k as [|k [[n1 Hn1]|]]; [left; exists n; constructor| |by right].
        destruct (receives_or_stops cfg n1) as [[n2 Hn2]|(r & n2 & Hn2)]; [left|right; by exists k, n1, r, n2].
        exists n2. by eapply nsteps_r. }
      by destruct (Hall fuel).
Qed.

(** C19: one node discovers another.  Every datagram that send_announce puts on
    the wire at node A, when it has at most 4096 bytes and reaches a node B with
    another id, makes B first follow A's clock if A is an authority that B
    follows, with the time A announced, and then register A with A's id,
    callsign, port and version, under the sender's address and B's current
    time. *)
Theorem announce_discovers cfgA cfgB (nA : Node D' W) (nB : Node D W) l i d p payload sender address :
  announces cfgA → id_node_id (identity_ cfgA) ≠ id_node_id (identity_ cfgB) →
  trace (send_announce J cfgA nA).2 = trace nA ++ l →
  SendDatagram i d p payload ∈ l → size payload ≤ 4096 →
  inet_ntop sender = Some address →
  ∃ claim nA', announcement_of cfgA nA claim nA' ∧
    handle_datagram J cfgB payload sender nB = discovered cfgA cfgB claim address nB.
Proof.
  intros Ha Hid Hl Hin Hsz Hip. destruct (send_announce_trace (J := J) cfgA nA) as (l' & Hl' & Hs).
  rewrite Hl in Hl'. apply app_inv_head in Hl' as <-.
  destruct Hs as [->|(claim & n1 & i' & d' & payload' & Hc & Hp & ->)]; [by apply not_elem_of_nil in Hin|].
  apply list_elem_of_singleton in Hin. simplify_eq. exists claim, n1. split; [done|].
  apply (handle_announced cfgA cfgB claim payload' sender address n1); try done.
  intros t. by apply (announcement_of_range cfgA _ _ _ _ Hc).
Qed.

(** In any run of announcements the log alternates: the first failure is
    reported, repeated failures are quiet, the next success is reported as a
    recovery, and so on, starting from the flag the run began with. *)
Theorem announce_logs_alternate cfg k (n : Node D W) :
  ∃ l, trace (iterM (λ _, announce J cfg) (repeat tt k) n).2 = trace n ++ l ∧
    alternates (announce_failed_ n) l.
Proof. apply announce_runs. Qed.

End properties.

(** C39: a time authority can make the daemon overflow: when the announced time is
    2^63-1, the clock may not be set and the system clock then advances, the
    offset is stored and the next reading of the current time is a signed
    overflow. *)
Theorem authority_time_overflow `{Env W} {D} id (n : Node D W) :
  let '(now, w1) := system_clock_now (world n) in
  let '(rc, w2) := clock_settime w1 9223372036854775 807000000 in
  0 ≤ now < i64_max - 250 → time_offset_ms n = 0 → rc ≠ 0 → now < (system_clock_now w2).1 →
  ∃ n', synchronize_time id i64_max n = (Ok tt, n') ∧ (current_time_ms n').1 = Undefined.
Proof.
  destruct (system_clock_now (world n)) as [now w1] eqn:E1.
  destruct (clock_settime w1 9223372036854775 807000000) as [rc w2] eqn:E2.
  intros Hnow Ho Hrc Hadv.
  exists (with_offset (i64_max - now) (with_world w2 (with_trace (trace n ++
    [Log ("System clock update unavailable; using MeshGate time offset " +:+
          to_string (i64_max - now) +:+ " ms from " +:+ id)]) n))).
  split.
  - unfold synchronize_time, system_time_ms, i64_sub. change (i64_max <=? 0) with false. cbn iota.
    rewrite (bind_run _ _ _ _ _ (call_run _ n)), E1. cbn [fst snd].
    rewrite (bind_run _ _ _ (i64_max - now) (with_world w1 n)) by (apply i64_checked_ok; unfold_ints; lia).
    rewrite (bind_run _ _ (with_world w1 n) 0 (with_world w1 n))
      by (unfold current_time_offset_ms, gets; cbn; by rewrite Ho).
    rewrite (bind_run _ _ _ (i64_max - now - 0) (with_world w1 n)) by (apply i64_checked_ok; unfold_ints; lia).
    rewrite (proj2 (Z.ltb_ge _ 250)), andb_false_r by lia.
    rewrite (bind_run _ _ _ false (with_world w2 n)); [done|].
    unfold set_system_time_ms. change (i64_max <? 0) with false. cbn iota.
    change (Z.quot i64_max 1000) with 9223372036854775.
    change (Z.rem i64_max 1000 * 1000000) with 807000000. cbv zeta.
    rewrite (bind_run _ _ _ _ _ (call_run _ (with_world w1 n))). cbn [world with_world]. rewrite E2. cbn [fst snd].
    by rewrite (proj2 (Z.eqb_neq rc 0) Hrc).
  - unfold current_time_ms, system_time_ms. rewrite (bind_run _ _ _ _ _ (call_run _ _)).
    unfold gets, mbind, M_bind, i64_add, i64_checked. cbn. rewrite decide_False; [done|].
    unfold_ints. lia.
Qed.

(** ** Witnesses *)

Definition config_a : Config :=
  MkConfig (MkIdentity "node-a" "Alpha") "127.0.0.1" 7777 "255.255.255.255" EmptyString 7777
    Authority EmptyString EmptyString "web".
Definition config_b : Config :=
  MkConfig (MkIdentity "node-b" "Bravo") "127.0.0.1" 7777 "255.255.255.255" EmptyString 7777
    Client "node-a" EmptyString "web".

Definition world_at (now : Z) (settable : bool) (queue : list (string * Z)) : menv :=
  MkEnv now settable queue ∅ true 1 ∅.
Definition idle_node (w : menv) : Node unit menv := MkNode (MkStore tt []) ∅ 0 false [] 1 [] w [].

Lemma config_a_announces : announces config_a.
Proof. by split. Qed.

(** B's clock is ten seconds behind; it may be set at the one node and not at the
    other. *)
Lemma clock_correction_witness :
  let behind := idle_node (world_at 1700000000000 true []) in
  let locked := idle_node (world_at 1700000000000 false []) in
  correction_due 1700000010000 1700000000000 0 = true ∧
  (∃ n', synchronize_time "node-a" 1700000010000 behind = (Ok tt, n') ∧
    time_offset_ms n' = 0 ∧ (system_clock_now (world n')).1 = 1700000010000) ∧
  ∃ n', synchronize_time "node-a" 1700000010000 locked = (Ok tt, n') ∧
    time_offset_ms n' = 10000 ∧ (system_clock_now (world n')).1 = 1700000000000.
Proof.
  cbv zeta. split; [done|]. split.
  - destruct (clock_correction "node-a" 1700000010000 (idle_node (world_at 1700000000000 true []))
      ltac:(lia) ltac:(by split) ltac:(by split)) as (n' & Hr & _ & Hn').
    exists n'. split; [exact Hr|]. cbn in Hn'. by rewrite Hn'.
  - destruct (clock_correction "node-a" 1700000010000 (idle_node (world_at 1700000000000 false []))
      ltac:(lia) ltac:(by split) ltac:(by split)) as (n' & Hr & _ & Hn').
    exists n'. split; [exact Hr|]. cbn in Hn'. by rewrite Hn'.
Defined.

Definition announcement_text : string :=
  pos_text (encode (claimed (J := jtree) config_a (Some 1700000010000))).

(** A datagram from A, and one that is not JSON. *)
Definition listening : Node unit menv :=
  idle_node (world_at 1700000000000 true [(announcement_text, 5); ("garbage", 6)]).

Lemma receive_keeps_registry_witness :
  peers_ (receive_callback jtree config_b 3 listening).2 !! "node-a" =
    Some (MkPeer "node-a" "Alpha" "10.0.0.5" 7777 app_version 1700000010000) ∧
  registry_valid config_b (peers_ (receive_callback jtree config_b 3 listening).2) ∧
  elsewhere (receive_callback jtree config_b 3 listening).2 = elsewhere listening.
Proof.
  split; [by vm_compute|]. apply (receive_keeps_registry config_b 3 listening). apply map_Forall_empty.
Defined.

(** Two datagrams wait; and a world where the next one is always there. *)
Record flooded := Flooded { dry : menv }.
#[global] Instance FloodedEnv : Env flooded := {
  setup_ok w _ := (true, w);
  system_clock_now w := (w_now (dry w), w);
  clock_settime w _ _ := (-1, w);
  recvfrom w := (Datagram "garbage" 6, w);
  inet_ntop a := inet_ntop (W := menv) a;
  inet_pton s := inet_pton (W := menv) s;
  if_nametoindex w _ := (0, w);
  getifaddrs _ := None;
  sendto w _ _ _ := (-1, w);
  sendmsg w _ _ _ _ := (-1, w);
  errno_text _ := "Network is unreachable";
  evhttp_connection_base_new w _ _ := (None, w);
  evhttp_request_new w := (None, w);
  evhttp_make_request w _ _ _ := (-1, w);
  evhttp_uri_path s := Some (Some s);
  evbuffer_copyout _ b n := (n, assign b n);
  evbuffer_new w := (true, w);
  read_file _ _ := None;
}.
Definition flooded_node : Node unit flooded :=
  MkNode (MkStore tt []) ∅ 0 false [] 1 [] (Flooded (world_at 1700000000000 false [])) [].

Lemma flooded_receives k : nsteps (receives (J := jtree) config_b) k flooded_node flooded_node.
Proof.
  induction k as [|k IH]; [constructor|]. eapply nsteps_l; [|exact IH].
  by apply (receives_one config_b flooded_node "garbage" 6 (world flooded_node)).
Qed.

Lemma receive_callback_terminates_witness :
  Acc (flip (receives (J := jtree) config_b)) listening ∧
  (receive_callback jtree config_b 3 listening).1 = Ok true ∧
  ∀ fuel, (receive_callback jtree config_b fuel flooded_node).1 = Ok false.
Proof.
  destruct (receive_callback_terminates (J := jtree) config_b listening) as (_ & Hends & _).
  destruct (receive_callback_terminates (J := jtree) config_b flooded_node) as (_ & _ & Hout).
  split; [apply Hends; exists 3%nat; by vm_compute|]. split; [by vm_compute|].
  intros fuel. apply Hout. exists flooded_node. apply flooded_receives.
Defined.

Definition announcing_node : Node unit menv := idle_node (world_at 1700000010000 false []).

Lemma announce_discovers_witness :
  ∃ claim nA', announcement_of config_a announcing_node claim nA' ∧
    handle_datagram jtree config_b announcement_text 5 listening =
      discovered config_a config_b claim "10.0.0.5" listening.
Proof.
  apply (announce_discovers config_a config_b announcing_node listening
    [SendDatagram None 4294967295 7777 announcement_text] None 4294967295 7777 announcement_text 5).
  - apply config_a_announces.
  - done.
  - by vm_compute.
  - left.
  - by vm_compute.
  - by vm_compute.
Defined.

(** A world whose clock advances by a millisecond at each reading. *)
Record ticking := Ticking { ticks : menv }.
#[global] Instance TickingEnv : Env ticking := {
  setup_ok w _ := (true, w);
  system_clock_now w := (w_now (ticks w), Ticking (w_with_now (ticks w) (w_now (ticks w) + 1)));
  clock_settime w _ _ := (-1, w);
  recvfrom w := (WouldBlock, w);
  inet_ntop a := inet_ntop (W := menv) a;
  inet_pton s := inet_pton (W := menv) s;
  if_nametoindex w _ := (0, w);
  getifaddrs _ := None;
  sendto w _ _ _ := (-1, w);
  sendmsg w _ _ _ _ := (-1, w);
  errno_text _ := "Network is unreachable";
  evhttp_connection_base_new w _ _ := (None, w);
  evhttp_request_new w := (None, w);
  evhttp_make_request w _ _ _ := (-1, w);
  evhttp_uri_path s := Some (Some s);
  evbuffer_copyout _ b n := (n, assign b n);
  evbuffer_new w := (true, w);
  read_file _ _ := None;
}.

Definition ticking_node : Node unit ticking :=
  MkNode (MkStore tt []) ∅ 0 false [] 1 [] (Ticking (world_at 1700000000000 false [])) [].

Lemma authority_time_overflow_witness :
  ∃ n', synchronize_time "node-a" i64_max ticking_node = (Ok tt, n') ∧
    (current_time_ms n').1 = Undefined.
Proof.
  pose proof (authority_time_overflow "node-a" ticking_node) as Hover. cbn in Hover.
  apply Hover; [by split|done|done|lia].
Defined.

Lemma announce_logs_alternate_witness :
  ∃ l, trace (iterM (λ _, announce jtree config_a) (repeat tt 3) announcing_node).2 =
      trace announcing_node ++ l ∧ alternates (announce_failed_ announcing_node) l.
Proof. exact (announce_logs_alternate (J := jtree) config_a 3 announcing_node). Defined.
