(* ===== verification/Ledger.v ===== *)
(** * Ownership of requests, connections and contexts

    A trace of effects uses libevent's requests and connections and frees them,
    and deletes the context of an outgoing request, which is named by its
    connection.  [safe]
    checks that nothing is used or freed after it was freed; a request whose
    evhttp_make_request failed counts as freed, as libevent's documentation of
    that function says. *)

From S2P Require Import Prelude Cxx Protocol Sqlite MessageStore Env Node.
Open Scope Z_scope.

Inductive resource := Request (request : Z) | Connection (connection : Z) | Context (connection : Z).

#[global] Instance resource_eq_dec : EqDecision resource.
Proof. solve_decision. Defined.

(** The resources an effect needs alive. *)
Definition uses (e : effect) : list resource :=
  match e with
  | SetLocalAddress c _ | SetCloseCallback c _ | FreeConnection c => [Connection c]
  | MakeRequest c r _ _ _ => [Connection c; Request r; Context c]
  | DeleteContext c => [Context c]
  | FreeRequest r | Reply r _ _ _ _ | SendError r | OwnRequest r | StartStream r _ | Chunk r _ => [Request r]
  | _ => []
  end.

(** The resources that are gone after it. *)
Definition kills (e : effect) : list resource :=
  match e with
  | FreeRequest r | RefusedRequest _ r => [Request r]
  | FreeConnection c => [Connection c]
  | DeleteContext c => [Context c]
  | _ => []
  end.

Definition killed (l : list effect) : list resource := l ≫= kills.

Fixpoint safe (dead : list resource) (l : list effect) : bool :=
  match l with
  | [] => true
  | e :: l' => forallb (λ x, bool_decide (x ∉ dead)) (uses e) && safe (kills e ++ dead) l'
  end.

Definition alive (dead : list resource) (e : effect) : Prop := Forall (λ x, x ∉ dead) (uses e).

Lemma safe_cons dead e l : safe dead (e :: l) = true ↔ alive dead e ∧ safe (kills e ++ dead) l = true.
Proof.
  cbn. rewrite andb_true_iff, forallb_forall. unfold alive. rewrite Forall_forall.
  by setoid_rewrite bool_decide_eq_true; setoid_rewrite list_elem_of_In.
Qed.

(** Only the set of the dead matters. *)
Lemma safe_mono dead dead' l : dead' ⊆ dead → safe dead l = true → safe dead' l = true.
Proof.
  revert dead dead'. induction l as [|e l IH]; intros dead dead' Hsub; [done|].
  rewrite !safe_cons. intros [Ha Hs]. split.
  - eapply Forall_impl; [exact Ha|]. set_solver.
  - eapply IH; [|exact Hs]. set_solver.
Qed.

Lemma killed_app l1 l2 : killed (l1 ++ l2) = killed l1 ++ killed l2.
Proof. apply bind_app. Qed.

Lemma safe_app dead l1 l2 :
  safe dead (l1 ++ l2) = true ↔ safe dead l1 = true ∧ safe (killed l1 ++ dead) l2 = true.
Proof.
  revert dead. induction l1 as [|e l1 IH]; intros dead; [naive_solver|].
  cbn [app]. rewrite !safe_cons, IH. cbn [killed mbind list_bind].
  split; intros; destruct_and!; split_and!; try done;
    (eapply safe_mono; [|eassumption]); unfold killed; cbn; set_solver.
Qed.

Lemma safe_snoc dead l e : safe dead l = true → alive (killed l ++ dead) e →
  safe dead (l ++ [e]) = true.
Proof. intros Hl He. rewrite safe_app, safe_cons. done. Qed.
