(* ===== verification/EventStream.v ===== *)
(** * The event stream (event_stream.cpp)

    Browsers hold a request open; every published message is written to all of
    them as a server-sent event.  The properties: each subscriber gets each
    event once and in order, what it gets parses back to the event, and over any
    history of subscriptions, events and closed connections each request is
    freed once and not used afterwards. *)

From S2P Require Import Prelude Cxx Protocol Sqlite MessageStore Env Node Ledger.
From Stdlib Require Import Ascii.
Open Scope Z_scope.

Section event_stream.
Context {D W : Type}.

Definition set_requests (l : list subscriber) : M (Node D W) unit := modify (with_requests l).

Definition ready : string := "event: ready" +:+ LF +:+ "data: {}" +:+ LF +:+ LF.

Definition stream_headers : list (string * string) :=
  [("Content-Type", "text/event-stream; charset=utf-8"); ("Cache-Control", "no-store");
   ("X-Content-Type-Options", "nosniff"); ("Connection", "keep-alive")].

Definition subscribe (request : subscriber) : M (Node D W) unit :=
  emit (OwnRequest (sub_request request));;
  requests ← gets requests_;
  set_requests (requests ++ [request]);;
  emit (SetCloseCallback (sub_connection request) true);;
  emit (StartStream (sub_request request) stream_headers);;
  emit (Chunk (sub_request request) ready).

Definition event_payload (event_name json_data : string) : string :=
  "event: " +:+ event_name +:+ LF +:+ "data: " +:+ json_data +:+ LF +:+ LF.

Definition publish_event (event_name json_data : string) : M (Node D W) unit :=
  let payload := event_payload event_name json_data in
  requests ← gets requests_;
  iterM (λ request, emit (Chunk (sub_request request) payload)) requests.

(** std::ranges::find_if: the first match, and the list without it. *)
Fixpoint find_request (connection : Z) (l : list subscriber) : option (subscriber * list subscriber) :=
  match l with
  | [] => None
  | request :: l' =>
      if sub_connection request =? connection then Some (request, l')
      else match find_request connection l' with
           | Some (r, rest) => Some (r, request :: rest)
           | None => None
           end
  end.

Definition handle_close (connection : Z) : M (Node D W) unit :=
  requests ← gets requests_;
  match find_request connection requests with
  | None => mret tt
  | Some (request, rest) =>
      emit (FreeRequest (sub_request request));;
      set_requests rest
  end.

(** EventStream::~EventStream; the vector dies with the object. *)
Definition destroy_stream : M (Node D W) unit :=
  requests ← gets requests_;
  iterM (λ request,
    emit (SetCloseCallback (sub_connection request) false);;
    emit (FreeRequest (sub_request request))) requests;;
  set_requests [].

(** ** A history of the stream *)

Inductive stream_op := Subscribe (request : subscriber) | Publish (name data : string) | Close (connection : Z).

Definition run_op (o : stream_op) : M (Node D W) unit :=
  match o with
  | Subscribe request => subscribe request
  | Publish name data => publish_event name data
  | Close connection => handle_close connection
  end.

Definition subscribed (ops : list stream_op) : list subscriber :=
  omap (λ o, match o with Subscribe r => Some r | _ => None end) ops.
End event_stream.

(** ** Server-sent events, as a browser reads them *)

(** The fields of one event: its lines up to the empty one. *)
Fixpoint lines (s : string) : list string :=
  match s with
  | EmptyString => [EmptyString]
  | String c s' =>
      if decide (c = ascii_of_nat 10) then EmptyString :: lines s'
      else match lines s' with
           | [] => [String c EmptyString]
           | l :: ls => String c l :: ls
           end
  end.

(** The value of a line [field: value]. *)
Definition field_value (field line : string) : option string :=
  if String.prefix (field +:+ ": ") line
  then Some (String.substring (String.length field + 2) (String.length line) line) else None.

(** The event name and the data of the events of a stream. *)
Fixpoint read_events (name : option string) (data : list string) (ls : list string) :
    list (option string * list string) :=
  match ls with
  | [] => []
  | EmptyString :: ls' =>
      if decide (data = []) then read_events None [] ls' else (name, data) :: read_events None [] ls'
  | line :: ls' =>
      match field_value "event" line, field_value "data" line with
      | Some v, _ => read_events (Some v) data ls'
      | None, Some v => read_events name (data ++ [v]) ls'
      | None, None => read_events name data ls'
      end
  end.

Definition read_stream (s : string) : list (option string * list string) := read_events None [] (lines s).

(** A text on one line. *)
Fixpoint one_line (s : string) : bool :=
  match s with
  | EmptyString => true
  | String c s' => negb (bool_decide (c = ascii_of_nat 10)) && one_line s'
  end.

Lemma lines_app a b : one_line a = true → lines (a +:+ LF +:+ b) = a :: lines b.
Proof.
  induction a as [|c a IH]; [done|]. cbn [one_line]. intros [Hc Ha]%andb_true_iff.
  apply negb_true_iff, bool_decide_eq_false in Hc.
  change (String c a +:+ LF +:+ b) with (String c (a +:+ LF +:+ b)). cbn [lines].
  rewrite decide_False by done. by rewrite IH.
Qed.

Lemma one_line_app a b : one_line (a +:+ b) = one_line a && one_line b.
Proof.
  induction a as [|c a IH]; [done|]. rewrite sapp_cons.
  cbn. rewrite IH. apply andb_assoc.
Qed.

Lemma prefix_app_true a b : String.prefix a (a +:+ b) = true.
Proof.
  induction a as [|c a IH]; [by destruct b|]. rewrite sapp_cons.
  cbn. by destruct (ascii_dec c c).
Qed.

Lemma substring_app a b n : (String.length b ≤ n)%nat →
  String.substring (String.length a) n (a +:+ b) = b.
Proof.
  intros Hn. induction a as [|c a IH].
  - change (EmptyString +:+ b) with b. revert n Hn. induction b as [|c b IH]; intros [|n] Hn; cbn in *; try done; [lia|].
    f_equal. apply IH. lia.
  - rewrite sapp_cons. apply IH.
Qed.

Lemma length_app_string a b : String.length (a +:+ b) = (String.length a + String.length b)%nat.
Proof. induction a as [|c a IH]; [done|]. rewrite sapp_cons. cbn. by rewrite IH. Qed.

Lemma field_value_app field v : field_value field (field +:+ ": " +:+ v) = Some v.
Proof.
  unfold field_value. rewrite sapp_assoc, prefix_app_true.
  replace (String.length field + 2)%nat with (String.length (field +:+ ": "))
    by (rewrite length_app_string; done).
  by rewrite substring_app by (rewrite !length_app_string; lia).
Qed.

Lemma read_payload name data rest : one_line name = true → one_line data = true →
  read_stream (event_payload name data +:+ rest) = (Some name, [data]) :: read_stream rest.
Proof.
  intros Hn Hd. unfold read_stream, event_payload. rewrite <- !sapp_assoc.
  rewrite (sapp_assoc "event: " name), lines_app by (by rewrite one_line_app, Hn).
  rewrite (sapp_assoc "data: " data), lines_app by (by rewrite one_line_app, Hd).
  change (LF +:+ rest) with (EmptyString +:+ LF +:+ rest). rewrite lines_app by done.
  change ("event: " +:+ name) with (String "e" ("vent: " +:+ name)). cbn [read_events].
  pose proof (field_value_app "event" name) as He.
  change ("event" +:+ ": " +:+ name) with (String "e" ("vent: " +:+ name)) in He. rewrite He.
  change ("data: " +:+ data) with (String "d" ("ata: " +:+ data)). cbn [read_events].
  pose proof (field_value_app "data" data) as Hda.
  change ("data" +:+ ": " +:+ data) with (String "d" ("ata: " +:+ data)) in Hda. rewrite Hda.
  change (field_value "event" (String "d" ("ata: " +:+ data))) with (@None string). done.
Qed.

(** ** Runs *)

Lemma safe_uses_alive dead l : killed l = [] → Forall (alive dead) l → safe dead l = true.
Proof.
  intros Hk Ha. revert Hk. induction Ha as [|e l He _ IH]; [done|]. unfold killed. cbn. intros Hk.
  apply app_nil in Hk as [Hk1 Hk]. apply safe_cons. split; [done|]. rewrite Hk1. by apply IH.
Qed.

Lemma find_request_Some c l r rest : find_request c l = Some (r, rest) →
  l ≡ₚ r :: rest ∧ sub_connection r = c.
Proof.
  revert rest. induction l as [|x l IH]; intros rest; cbn; [done|].
  destruct (Z.eqb_spec (sub_connection x) c); [by intros [= <- <-]|].
  destruct (find_request c l) as [[r' rest']|]; [|done]. intros [= <- <-].
  destruct (IH rest' eq_refl) as [-> ?]. split; [apply Permutation_swap|done].
Qed.

Lemma find_request_None c l : find_request c l = None → c ∉ (sub_connection <$> l).
Proof.
  induction l as [|x l IH]; cbn; intros Hf; [apply not_elem_of_nil|].
  destruct (Z.eqb_spec (sub_connection x) c); [done|].
  destruct (find_request c l) as [[]|]; [done|]. apply not_elem_of_cons. auto.
Qed.

Section runs.
Context {D W : Type}.
Implicit Types n : Node D W.

Lemma publish_run name data n :
  publish_event name data n = (Ok tt, with_trace (trace n ++
    ((λ r, Chunk (sub_request r) (event_payload name data)) <$> requests_ n)) n).
Proof.
  unfold publish_event, gets, mbind, M_bind.
  rewrite (iterM_emits _ (λ r, [Chunk (sub_request r) (event_payload name data)])) by done.
  by do 3 f_equal.
Qed.

Definition owned (l : list subscriber) : list resource := (λ r, Request (sub_request r)) <$> l.

Definition only_requests (l : list resource) : Prop := ∀ c, Connection c ∉ l.

Lemma only_requests_perm l l' : l ≡ₚ l' → only_requests l → only_requests l'.
Proof. intros Hp Ho c. by rewrite <- Hp. Qed.
Lemma only_requests_owned l : only_requests (owned l).
Proof. intros c (r & [=] & _)%list_elem_of_fmap. Qed.

(** What a step does to the books, [dead] being freed before it. *)
Definition accounted (dead : list resource) (added : list subscriber) n n' : Prop :=
  ∃ l, trace n' = trace n ++ l ∧ safe dead l = true ∧
    killed l ++ owned (requests_ n') ≡ₚ owned (requests_ n) ++ owned added.

Lemma op_accounted o dead n :
  NoDup (dead ++ owned (requests_ n) ++ owned (subscribed [o])) → only_requests dead →
  ∃ n', run_op o n = (Ok tt, n') ∧ accounted dead (subscribed [o]) n n'.
Proof.
  intros Hnd Hc. destruct o as [r|name data|c]; cbn [run_op subscribed omap list_omap].
  - eexists. split; [done|]. exists [OwnRequest (sub_request r); SetCloseCallback (sub_connection r) true;
      StartStream (sub_request r) stream_headers; Chunk (sub_request r) ready].
    unfold owned at 2. cbn [trace requests_ with_trace with_requests]. split; [by rewrite <- !app_assoc|].
    assert (Request (sub_request r) ∉ dead) as Hr.
    { apply NoDup_app in Hnd as (_ & Hnd & _). intros Hin. apply (Hnd _ Hin).
      apply elem_of_app. right. left. }
    split; [|unfold owned; by rewrite fmap_app].
    apply safe_uses_alive; [done|]. repeat constructor; done.
  - eexists. split; [apply publish_run|]. eexists. cbn [trace requests_ with_trace]. split; [done|].
    assert (killed ((λ r, Chunk (sub_request r) (event_payload name data)) <$> requests_ n) = []) as Hk
      by (clear; induction (requests_ n) as [|r l IH]; [done|]; exact IH).
    rewrite Hk. split; [|cbn; by rewrite app_nil_r]. apply safe_uses_alive; [done|].
    apply Forall_fmap, Forall_forall. intros r Hr. constructor; [|done].
    apply NoDup_app in Hnd as (_ & Hnd & _). intros Hin. apply (Hnd _ Hin).
    apply elem_of_app. left. apply list_elem_of_fmap. by exists r.
  - cbn [run_op]. unfold handle_close, gets, mbind, M_bind.
    destruct (find_request c (requests_ n)) as [[r rest]|] eqn:Hf.
    + apply find_request_Some in Hf as [Hp _]. eexists. split; [done|].
      exists [FreeRequest (sub_request r)]. cbn [trace requests_ with_trace with_requests].
      split; [done|]. split.
      * apply safe_cons. split; [|done]. constructor; [|done].
        apply NoDup_app in Hnd as (_ & Hnd & _). intros Hin. apply (Hnd _ Hin).
        apply elem_of_app. left. apply list_elem_of_fmap. exists r. split; [done|]. rewrite Hp. left.
      * cbn. rewrite app_nil_r. unfold owned. by rewrite Hp.
    + eexists. split; [done|]. exists []. rewrite !app_nil_r. done.
Qed.

Lemma accounted_nodup dead added rest l live live' :
  killed l ++ owned live' ≡ₚ owned live ++ owned added →
  NoDup (dead ++ owned live ++ owned (added ++ rest)) → only_requests dead →
  NoDup ((killed l ++ dead) ++ owned live' ++ owned rest) ∧ only_requests (killed l ++ dead).
Proof.
  intros Hp Hnd Hc. unfold owned in *. rewrite fmap_app in Hnd. rewrite (app_assoc (_ <$> live)), <- Hp in Hnd.
  split.
  - match type of Hnd with NoDup ?x => match goal with |- NoDup ?y =>
      assert (y ≡ₚ x) as -> by solve_Permutation end end. done.
  - assert (only_requests (killed l ++ ((λ r, Request (sub_request r)) <$> live'))) as Ho.
    { eapply only_requests_perm; [symmetry; exact Hp|]. rewrite <- fmap_app. apply only_requests_owned. }
    intros c [Hin|Hin]%elem_of_app; [apply (Ho c), elem_of_app; by left|by apply (Hc c)].
Qed.

Lemma ops_accounted ops dead n :
  NoDup (dead ++ owned (requests_ n) ++ owned (subscribed ops)) → only_requests dead →
  ∃ n', iterM run_op ops n = (Ok tt, n') ∧ accounted dead (subscribed ops) n n'.
Proof.
  revert dead n. induction ops as [|o ops IH]; intros dead n Hnd Hc.
  { exists n. split; [done|]. exists []. by rewrite !app_nil_r. }
  assert (subscribed (o :: ops) = subscribed [o] ++ subscribed ops) as Hs by (by destruct o).
  rewrite Hs in Hnd |- *.
  destruct (op_accounted o dead n) as (n1 & Hr1 & l1 & Ht1 & Hs1 & Hp1); [|done|].
  { unfold owned in *. rewrite fmap_app, !app_assoc in Hnd. rewrite app_assoc.
    by apply NoDup_app in Hnd as [? _]. }
  destruct (accounted_nodup dead _ (subscribed ops) l1 _ _ Hp1 Hnd Hc) as [Hnd1 Hc1].
  destruct (IH (killed l1 ++ dead) n1 Hnd1 Hc1) as (n2 & Hr2 & l2 & Ht2 & Hs2 & Hp2).
  exists n2. split; [cbn [iterM]; by rewrite (bind_run _ _ _ _ _ Hr1)|].
  exists (l1 ++ l2). split; [by rewrite Ht2, Ht1, <- app_assoc|]. split; [by apply safe_app|].
  rewrite killed_app, <- app_assoc, Hp2. unfold owned in *. rewrite fmap_app, app_assoc, Hp1.
  by rewrite <- app_assoc.
Qed.

(** The effects of the destructor. *)
Definition stream_freed (r : subscriber) : list effect :=
  [SetCloseCallback (sub_connection r) false; FreeRequest (sub_request r)].

Lemma destroy_stream_run n :
  destroy_stream n = (Ok tt, with_requests [] (with_trace (trace n ++ (requests_ n ≫= stream_freed)) n)).
Proof.
  unfold destroy_stream, gets, mbind at 1, M_bind at 1.
  assert (∀ r n1, (emit (SetCloseCallback (sub_connection r) false);; emit (FreeRequest (sub_request r))) n1 =
    (Ok tt, with_trace (trace n1 ++ stream_freed r) n1 : Node D W)) as Hf.
  { intros r n1. rewrite (bind_run _ _ _ _ _ (emit_run _ n1)), emit_run. cbn. by rewrite <- app_assoc. }
  by rewrite (bind_run _ _ _ _ _ (iterM_emits _ _ (requests_ n) n Hf)).
Qed.

Lemma destroy_accounted dead n :
  NoDup (dead ++ owned (requests_ n)) → only_requests dead →
  ∃ n', destroy_stream n = (Ok tt, n') ∧ requests_ n' = [] ∧ accounted dead [] n n'.
Proof.
  intros Hnd Hc. rewrite destroy_stream_run.
  eexists. split; [done|]. split; [done|]. eexists. cbn [trace requests_ with_trace with_requests].
  split; [done|]. rewrite app_nil_r. clear -Hnd Hc. revert dead Hnd Hc.
  induction (requests_ n) as [|r l IH]; intros dead Hnd Hc; [done|].
  cbn [mbind list_bind app stream_freed]. unfold owned in Hnd. cbn in Hnd.
  rewrite <- Permutation_middle in Hnd. apply NoDup_cons in Hnd as [Hr Hnd].
  destruct (IH (Request (sub_request r) :: dead)) as [Hs Hp].
  - apply NoDup_cons. by split.
  - intros c [?|?]%elem_of_cons; [done|by apply (Hc c)].
  - split.
    + rewrite !safe_cons. split; [by constructor|]. split; [|done]. constructor; [|done].
      cbn. set_solver.
    + by apply Permutation_cons.
Qed.
End runs.

(** ** Properties *)

Section properties.
Context {D W : Type}.

(** Publishing writes the event once to every open subscriber, in the order
    they subscribed, and changes nothing else; a browser that reads the chunk,
    whatever follows in its stream, gets exactly that event, when the name and
    the data are single lines. *)
Theorem publish_delivers name data rest (n : Node D W) : one_line name = true → one_line data = true →
  ∃ payload, publish_event name data n = (Ok tt, with_trace (trace n ++
      ((λ r, Chunk (sub_request r) payload) <$> requests_ n)) n) ∧
    read_stream (payload +:+ rest) = (Some name, [data]) :: read_stream rest.
Proof. intros Hn Hd. eexists. split; [apply publish_run|]. by apply read_payload. Qed.

(** Over any history of subscriptions with distinct requests, events and
    closed connections, followed by the destructor, no request is used after it
    was freed, every subscribed request is freed exactly once, and nothing else
    is freed. *)
Theorem stream_history_safe ops (n : Node D W) : requests_ n = [] →
  NoDup (sub_request <$> subscribed ops) →
  ∃ n' l, (iterM run_op ops;; destroy_stream) n = (Ok tt, n') ∧ trace n' = trace n ++ l ∧
    requests_ n' = [] ∧ safe [] l = true ∧
    killed l ≡ₚ (λ r, Request (sub_request r)) <$> subscribed ops.
Proof.
  intros Hr Hnd. assert (NoDup ([] ++ owned (requests_ n) ++ owned (subscribed ops))) as Hnd'.
  { rewrite Hr. cbn. unfold owned. rewrite (list_fmap_compose sub_request Request).
    by apply NoDup_fmap_2; [intros ?? [=]|]. }
  destruct (ops_accounted ops [] n Hnd') as (n1 & Hr1 & l1 & Ht1 & Hs1 & Hp1); [by intros c ?%not_elem_of_nil|].
  rewrite Hr in Hp1. cbn [owned fmap list_fmap app] in Hp1.
  destruct (destroy_accounted (killed l1) n1) as (n2 & Hr2 & He & l2 & Ht2 & Hs2 & Hp2).
  - rewrite Hp1. by rewrite Hr in Hnd'.
  - assert (only_requests (killed l1 ++ owned (requests_ n1))) as Ho.
    { eapply only_requests_perm; [symmetry; exact Hp1|apply only_requests_owned]. }
    intros c Hin. apply (Ho c), elem_of_app. by left.
  - exists n2, (l1 ++ l2). rewrite (bind_run _ _ _ _ _ Hr1). split_and!; [done| |done| |].
    + by rewrite Ht2, Ht1, <- app_assoc.
    + apply safe_app. split; [done|]. by rewrite app_nil_r.
    + rewrite killed_app. rewrite He in Hp2. cbn in Hp2. rewrite !app_nil_r in Hp2.
      by rewrite Hp2.
Qed.
End properties.

(** ** Witnesses *)

Definition two_subscribers : Node unit menv :=
  MkNode (MkStore tt []) ∅ 0 false [MkSubscriber 1 11; MkSubscriber 2 12] 1 [] (MkEnv 0 false [] ∅ true 1 ∅) [].

Lemma publish_delivers_witness :
  ∃ payload, publish_event "message" "{}" two_subscribers =
      (Ok tt, with_trace [Chunk 1 payload; Chunk 2 payload] two_subscribers) ∧
    read_stream (payload +:+ ready) = [(Some "message", ["{}"]); (Some "ready", ["{}"])].
Proof. exact (publish_delivers "message" "{}" ready two_subscribers eq_refl eq_refl). Defined.

Definition no_subscribers : Node unit menv := with_requests [] two_subscribers.
Definition a_history : list stream_op :=
  [Subscribe (MkSubscriber 1 11); Subscribe (MkSubscriber 2 12); Publish "message" "{}"; Close 11;
   Close 13; Publish "message" "[]"].

Lemma stream_history_safe_witness :
  ∃ n' l, (iterM run_op a_history;; destroy_stream) no_subscribers = (Ok tt, n') ∧
    trace n' = trace no_subscribers ++ l ∧ requests_ n' = [] ∧ safe [] l = true ∧
    killed l ≡ₚ [Request 1; Request 2].
Proof.
  apply (stream_history_safe a_history no_subscribers); [done|].
  apply NoDup_cons. split; [by intros ?%list_elem_of_singleton|apply NoDup_singleton].
Defined.
