(* ===== verification/Replication.v ===== *)
(** * Replication of new messages (replication_service.cpp)

    A new message is POSTed at once to every active peer.  [post_request] is the
    sequence of libevent calls that replication_service.cpp and sync_service.cpp
    both make for an outgoing request, with their three error exits. *)

From S2P Require Import Prelude Cxx Protocol Sqlite MessageStore Env Node Ledger Clock PeerRegistry.
From S2P Require Import Discovery.
Open Scope Z_scope.

Section replication.
Context `{Env W} `{Unordered} {D : Type} (cfg : Config).

(** evhttp_connection_free at the end of the scope that holds the context. *)
Definition drop_connection (connection : Z) : M (Node D W) unit :=
  emit (FreeConnection connection);;
  emit (DeleteContext connection).

(** A connection to the peer, the local address if there is one, the context of
    the completion callback, a request with the payload, and the call that sends
    it, after which the context is left to the callback. *)
Definition post_request (on_null : M (Node D W) unit) (headers : list (string * string))
    (address : string) (port : Z) (path payload : string) : M (Node D W) unit :=
  connection ← call (λ w, evhttp_connection_base_new w (c_str address) port);
  match connection with
  | None => on_null
  | Some connection =>
      emit (OpenConnection connection (c_str address) port);;
      (if empty (local_address_ cfg) then mret tt
       else emit (SetLocalAddress connection (c_str (local_address_ cfg))));;
      emit (NewContext connection);;
      outgoing ← call evhttp_request_new;
      match outgoing with
      | None => drop_connection connection
      | Some outgoing =>
          emit (NewRequest outgoing);;
          emit (MakeRequest connection outgoing path headers payload);;
          result ← call (λ w, evhttp_make_request w connection outgoing path);
          if negb (result =? 0) then
            emit (RefusedRequest connection outgoing);;
            emit (FreeRequest outgoing);;
            drop_connection connection
          else mret tt
      end
  end.

Definition replication_headers : list (string * string) :=
  [("Content-Type", "application/json"); ("Accept", "application/json")].

Definition replicate_to (json_payload : string) (peer : Peer) : M (Node D W) unit :=
  post_request (log ("Unable to create replication connection for peer " +:+ peer_node_id peer))
    replication_headers (peer_address peer) (peer_http_port peer) "/api/v1/replicate" json_payload.

Definition broadcast (json_payload : string) : M (Node D W) unit :=
  now ← current_time_ms;
  peers ← active_peers now;
  iterM (replicate_to json_payload) peers.

(** The completion callback: [None] for a failed request, or the status; the
    context holds the connection. *)
Definition replication_response (status : option Z) (connection : Z) : M (Node D W) unit :=
  (if bool_decide (status = Some 200) then mret tt
   else log "Message replication request failed");;
  drop_connection connection.
End replication.

(** ** What one outgoing request does *)

(** The effects of [post_request], by its exit. *)
Inductive attempt (local : string) (on_null : list effect) (headers : list (string * string))
    (address : string) (port : Z) (path payload : string) : list effect → Prop :=
  | attempt_no_connection : attempt local on_null headers address port path payload on_null
  | attempt_no_request c :
      attempt local on_null headers address port path payload
        (OpenConnection c (c_str address) port ::
         (if empty local then [] else [SetLocalAddress c (c_str local)]) ++
         [NewContext c; FreeConnection c; DeleteContext c])
  | attempt_made c r :
      attempt local on_null headers address port path payload
        (OpenConnection c (c_str address) port ::
         (if empty local then [] else [SetLocalAddress c (c_str local)]) ++
         [NewContext c; NewRequest r; MakeRequest c r path headers payload])
  | attempt_refused c r :
      attempt local on_null headers address port path payload
        (OpenConnection c (c_str address) port ::
         (if empty local then [] else [SetLocalAddress c (c_str local)]) ++
         [NewContext c; NewRequest r; MakeRequest c r path headers payload; RefusedRequest c r;
          FreeRequest r; FreeConnection c; DeleteContext c]).

(** *** The requests made along a trace *)

Definition post_of (e : effect) : list (string * string) :=
  match e with MakeRequest _ _ path _ payload => [(path, payload)] | _ => [] end.

(** The requests made along a trace: path and payload. *)
Definition posted (l : list effect) : list (string * string) := l ≫= post_of.

Lemma posted_app l1 l2 : posted (l1 ++ l2) = posted l1 ++ posted l2.
Proof. apply bind_app. Qed.

(** Every connection and request libevent gives is new, and it refuses nothing:
    the conditions under which an attempt is made. *)
Definition accepting (W : Type) `{Env W} : Prop :=
  ∀ w : W, (∀ a p, is_Some (evhttp_connection_base_new w a p).1) ∧ is_Some (evhttp_request_new w).1 ∧
    ∀ c r path, (evhttp_make_request w c r path).1 = 0.

Definition made (l : list effect) : Prop := ∃ c r path headers payload l', l = l' ++ [MakeRequest c r path headers payload].

(** An attempt that was made names its connection and its request. *)
Lemma attempt_made_sends local on_null headers address port path payload l :
  attempt local on_null headers address port path payload l → made l → posted on_null = [] →
  ∃ c r, OpenConnection c (c_str address) port ∈ l ∧ MakeRequest c r path headers payload ∈ l.
Proof.
  destruct 1 as [|c|c r|c r]; intros (c' & r' & path' & headers' & payload' & l' & E) Hn.
  - by rewrite E, posted_app in Hn; apply app_nil in Hn as [_ ?].
  - exfalso. rewrite app_comm_cons in E. apply (f_equal last) in E. by rewrite !last_app in E.
  - exists c, r. split; [left|]. right. apply elem_of_app. right. do 2 right. left.
  - exfalso. rewrite app_comm_cons in E.
    apply (f_equal last) in E. by rewrite !last_app in E.
Qed.

Lemma made_posted c r path headers payload l : MakeRequest c r path headers payload ∈ l → (path, payload) ∈ posted l.
Proof. intros Hin. apply list_elem_of_bind. eexists. split; [|exact Hin]. left. Qed.

Section lemmas.
Context `{Env W} {D : Type} (cfg : Config).
Implicit Types n : Node D W.

(** Runs that only extend the trace and change the world. *)
Definition emits (m : M (Node D W) unit) (P : list effect → Prop) : Prop :=
  ∀ n, ∃ w l, m n = (Ok tt, with_world w (with_trace (trace n ++ l) n)) ∧ P l.

Lemma drop_run c n :
  drop_connection c n = (Ok tt, with_trace (trace n ++ [FreeConnection c; DeleteContext c]) n).
Proof. unfold drop_connection. rewrite (bind_run _ _ _ _ _ (emit_run _ n)), emit_run. cbn. by rewrite <- app_assoc. Qed.

Lemma post_request_emits on_null l0 headers address port path payload :
  (∀ n, on_null n = (Ok tt, with_trace (trace n ++ l0) n)) →
  emits (post_request cfg on_null headers address port path payload) (λ l,
    attempt (local_address_ cfg) l0 headers address port path payload l ∧ (accepting W → made l)).
Proof.
  intros Hnull n. unfold post_request. rewrite (bind_run _ _ _ _ _ (call_run _ n)).
  destruct (evhttp_connection_base_new (world n) (c_str address) port) as [[c|] w1] eqn:E1; cbn [fst snd].
  2: { exists w1, l0. rewrite Hnull. split_and!; [done|constructor|].
    intros Ha. destruct (Ha (world n)) as (Hc & _ & _). specialize (Hc (c_str address) port).
    rewrite E1 in Hc. by destruct Hc. }
  rewrite (bind_run _ _ _ _ _ (emit_run _ _)). cbn [trace with_world with_trace].
  set (l1 := OpenConnection c (c_str address) port ::
    (if empty (local_address_ cfg) then [] else [SetLocalAddress c (c_str (local_address_ cfg))])).
  rewrite (bind_run _ _ _ tt (with_trace (trace n ++ l1) (with_world w1 n))).
  2: { unfold l1. destruct (empty _); [done|]. rewrite emit_run. cbn. by rewrite <- app_assoc. }
  rewrite (bind_run _ _ _ _ _ (emit_run _ _)), (bind_run _ _ _ _ _ (call_run _ _)).
  cbn [world trace with_world with_trace].
  destruct (evhttp_request_new w1) as [[r|] w2] eqn:E2; cbn [fst snd].
  2: { exists w2, (l1 ++ [NewContext c; FreeConnection c; DeleteContext c]). rewrite drop_run. cbn.
    rewrite <- !app_assoc.
    split_and!; [done|constructor|]. intros Ha. destruct (Ha w1) as (_ & Hr & _). rewrite E2 in Hr.
    by destruct Hr. }
  rewrite (bind_run _ _ _ _ _ (emit_run _ _)), (bind_run _ _ _ _ _ (emit_run _ _)).
  rewrite (bind_run _ _ _ _ _ (call_run _ _)). cbn [world trace with_world with_trace].
  destruct (evhttp_make_request w2 c r path) as [rc w3] eqn:E3; cbn [fst snd].
  destruct (Z.eqb_spec rc 0) as [->|Hrc]; cbn [negb].
  - exists w3, (l1 ++ [NewContext c; NewRequest r; MakeRequest c r path headers payload]). rewrite <- !app_assoc.
    split_and!; [done|constructor|]. intros _. exists c, r, path, headers, payload, (l1 ++ [NewContext c; NewRequest r]).
    by rewrite <- app_assoc.
  - rewrite (bind_run _ _ _ _ _ (emit_run _ _)), (bind_run _ _ _ _ _ (emit_run _ _)), drop_run.
    exists w3, (l1 ++ [NewContext c; NewRequest r; MakeRequest c r path headers payload; RefusedRequest c r;
      FreeRequest r; FreeConnection c; DeleteContext c]). cbn [trace with_world with_trace]. rewrite <- !app_assoc.
    split_and!; [done|apply (attempt_refused _ _ _ _ _ _ _ c r)|].
    intros Ha. destruct (Ha w2) as (_ & _ & Hm). specialize (Hm c r path). by rewrite E3 in Hm.
Qed.

(** With nothing to do when there is no connection. *)
Lemma post_request_alone headers address port path payload :
  emits (post_request cfg (mret tt) headers address port path payload) (λ l,
    attempt (local_address_ cfg) [] headers address port path payload l ∧ (accepting W → made l)).
Proof. apply post_request_emits. intros n. by rewrite app_nil_r, with_trace_same. Qed.

Lemma iterM_emits_all {A} (f : A → M (Node D W) unit) (P : A → list effect → Prop) xs :
  (∀ x, emits (f x) (P x)) → emits (iterM f xs) (λ l, ∃ ls, l = concat ls ∧ Forall2 P xs ls).
Proof.
  intros Hf. induction xs as [|x xs IH]; intros n; cbn.
  { exists (world n), []. rewrite app_nil_r. split; [by destruct n|]. by exists []. }
  destruct (Hf x n) as (w1 & l1 & Hr1 & H1). rewrite (bind_run _ _ _ _ _ Hr1).
  destruct (IH (with_world w1 (with_trace (trace n ++ l1) n))) as (w2 & l2 & -> & ls & -> & H2).
  exists w2, (l1 ++ concat ls). cbn. rewrite <- app_assoc. split; [done|].
  exists (l1 :: ls). split; [done|]. by constructor.
Qed.

Lemma attempt_emits_keeps m P {B} (f : Node D W → B) : emits m P →
  (∀ n w, f (with_world w n) = f n) → (∀ n t, f (with_trace t n) = f n) → keeps (same f) m.
Proof. intros Hm Hw Ht n. destruct (Hm n) as (w & l & -> & _). unfold same. cbn. by rewrite Hw, Ht. Qed.
End lemmas.

(** ** Ownership in an attempt *)

(** A connection that was opened is either freed, with its context, or left with
    its context and its request to libevent, which calls the completion callback. *)
Definition settled (l : list effect) : Prop :=
  ∀ c a p, OpenConnection c a p ∈ l → NewContext c ∈ l ∧
    (FreeConnection c ∈ l ∧ DeleteContext c ∈ l ∨
     (DeleteContext c ∉ l) ∧ (∃ r path headers payload, MakeRequest c r path headers payload ∈ l) ∧
     ∀ r, RefusedRequest c r ∉ l).

Lemma attempt_settled local line headers address port path payload l :
  attempt local (Log <$> line) headers address port path payload l → settled l.
Proof.
  assert (∀ c a p, OpenConnection c a p ∉ (if empty local then [] else [SetLocalAddress c (c_str local)])) as Hn1
    by (intros; destruct (empty local); set_solver).
  destruct 1; intros c' a p Hin.
  - by apply list_elem_of_fmap in Hin as (? & ? & _).
  - split; [|left]; destruct (empty local); set_solver.
  - split; [destruct (empty local); set_solver|right].
    destruct (empty local); (split_and!; [set_solver| |set_solver]); cbn in *;
      exists r, path, headers, payload; set_solver.
  - split; [|left]; destruct (empty local); set_solver.
Qed.

Lemma attempt_safe local line headers address port path payload l :
  attempt local (Log <$> line) headers address port path payload l →
  safe [] l = true ↔ ∀ c r, RefusedRequest c r ∉ l.
Proof.
  destruct 1 as [|c|c r|c r].
  - split; intros _.
    + intros c r Hin. by apply list_elem_of_fmap in Hin as (? & ? & _).
    + induction line as [|x line IH]; [done|exact IH].
  - split; intros _; [destruct (empty local); set_solver|by destruct (empty local)].
  - split; intros _; [destruct (empty local); set_solver|by destruct (empty local)].
  - split.
    + destruct (empty local); cbn; rewrite ?bool_decide_eq_true_2 by set_solver; cbn;
        rewrite bool_decide_eq_false_2 by set_solver; done.
    + intros Hn. exfalso. apply (Hn c r). destruct (empty local); set_solver.
Qed.

(** ** Properties *)

Section properties.
Context `{Env W} `{Unordered} {D : Type} (cfg : Config).

(** C25: broadcast makes one attempt for every active peer, in the order of their
    node ids, each to the peer's address and port with the whole payload as the
    body of a POST to /api/v1/replicate; it changes nothing but the world and the
    trace, a failed attempt does not stop the others, and when libevent refuses
    nothing each attempt ends with the request made. *)
Theorem broadcast_exact json_payload now n1 (n : Node D W) :
  registry_ok (peers_ n) → ages_fit now (peers_ n) → current_time_ms n = (Ok now, n1) →
  ∃ w ls, broadcast cfg json_payload n =
      (Ok tt, with_world w (with_trace (trace n ++ concat ls) n)) ∧
    Forall2 (λ peer l,
      attempt (local_address_ cfg)
        [Log ("Unable to create replication connection for peer " +:+ peer_node_id peer)]
        replication_headers (peer_address peer) (peer_http_port peer) "/api/v1/replicate" json_payload l ∧
      (accepting W → made l)) (active_list now (peers_ n)) ls.
Proof.
  intros Hok Hfit Ht. unfold broadcast. rewrite (bind_run _ _ _ _ _ Ht).
  assert (n1 = with_world (world n1) n) as Hn1.
  { rewrite current_time_run in Ht. case_decide; by simplify_eq. }
  rewrite (bind_run _ _ _ _ _ (active_peers_run now n1 ltac:(by rewrite Hn1) ltac:(by rewrite Hn1))).
  rewrite Hn1. cbn [peers_ with_world].
  destruct (iterM_emits_all (replicate_to cfg json_payload) _ (active_list now (peers_ n))
    (λ peer, post_request_emits cfg _ [Log ("Unable to create replication connection for peer " +:+
       peer_node_id peer)] replication_headers (peer_address peer) (peer_http_port peer) "/api/v1/replicate" json_payload
       ltac:(done)) (with_world (world n1) n)) as (w & l & Hr & ls & -> & Hls).
  exists w, ls. split; [exact Hr|done].
Qed.

(** C35: the ownership of an outgoing request.  Whatever libevent answers, every
    connection that was opened is freed with its context or left with it and a
    made request to the completion callback.  The calls are safe, nothing used or freed after it was
    freed, exactly when evhttp_make_request does not fail: on its failure the
    code frees the request a second time. *)
Theorem post_request_ownership line headers address port path payload (n : Node D W) :
  ∃ w l, post_request cfg (iterM (λ x, log x) line) headers address port path payload n =
      (Ok tt, with_world w (with_trace (trace n ++ l) n)) ∧
    settled l ∧ (safe [] l = true ↔ ∀ c r, RefusedRequest c r ∉ l).
Proof.
  assert (∀ n : Node D W, iterM (λ x, log x) line n = (Ok tt, with_trace (trace n ++ (Log <$> line)) n)) as Hlog.
  { intros n'. rewrite (iterM_emits _ (λ x, [Log x])) by done. by do 3 f_equal. }
  destruct (post_request_emits cfg _ _ headers address port path payload Hlog n) as (w & l & Hr & Ha & _).
  exists w, l. split; [done|]. split; [by eapply attempt_settled|by eapply attempt_safe].
Qed.
End properties.

(** ** Witnesses *)

Definition plain_config : Config :=
  MkConfig (MkIdentity "node-a" "Alpha") "127.0.0.1" 7777 "255.255.255.255" EmptyString 7777 Off
    EmptyString EmptyString "web".

Definition replicating : Node unit reliable :=
  MkNode (MkStore tt []) two_peers 0 false [] 1 [] (Reliable quiet_world) [].

Lemma reliable_accepting : accepting reliable.
Proof. intros w. by split_and!. Qed.

Lemma broadcast_exact_witness :
  trace (broadcast plain_config "{}" replicating).2 =
    [OpenConnection 1 "10.0.0.2" 7777; NewContext 1; NewRequest 2; MakeRequest 1 2 "/api/v1/replicate" replication_headers "{}"] ∧
  ∃ w ls, broadcast plain_config "{}" replicating =
      (Ok tt, with_world w (with_trace (concat ls) replicating)) ∧
    Forall2 (λ peer l,
      attempt EmptyString
        [Log ("Unable to create replication connection for peer " +:+ peer_node_id peer)]
        replication_headers (peer_address peer) (peer_http_port peer) "/api/v1/replicate" "{}" l ∧ made l)
      (active_list 100500 two_peers) ls.
Proof.
  split; [by vm_compute|].
  destruct (broadcast_exact plain_config "{}" 100500 replicating replicating) as (w & ls & Hr & Hls);
    [apply two_peers_ok|apply two_peers_ok|by vm_compute|].
  exists w, ls. split; [exact Hr|]. eapply Forall2_impl; [exact Hls|].
  intros p l [Ha Hm]. split; [exact Ha|]. apply Hm, reliable_accepting.
Defined.
