(* ===== verification/MessageService.v ===== *)
(** * The message service (message_service.cpp)

    It numbers the messages written at this node, stores what is written and
    received, publishes each to the browsers and sends the local ones to the
    peers. *)

From S2P Require Import Prelude Cxx Protocol Json ModelJson MessageCodec Sqlite ModelDb MessageStore.
From S2P Require Import StoreProperties Env Node Ledger Clock PeerRegistry Discovery EventStream.
From S2P Require Import Replication.
Open Scope Z_scope.

Section service.
Context (J : Type) `{JsonC J} `{Sqlite D} `{Env W} `{Unordered} (cfg : Config).

Definition set_next_sequence (n : Z) : M (Node D W) unit := modify (with_next_sequence n).

(** MessageService::MessageService *)
Definition MessageService : M (Node D W) unit :=
  n ← on_store (next_sequence (id_node_id (identity_ cfg)));
  set_next_sequence n.

(** MessageService::publish *)
Definition publish (message : ChatMessage) : M (Node D W) unit :=
  message_json ← (message_to_json message : M _ J);
  data ← serialize_json message_json;
  publish_event "message" data.

(** MessageService::replicate *)
Definition replicate_local (message : ChatMessage) : M (Node D W) unit :=
  payload ← (message_to_json message : M _ J);
  data ← serialize_json payload;
  broadcast cfg data.

Definition local_message (sequence created_at_ms : Z) (body : string) : ChatMessage :=
  {| sequence := sequence;
     message_id := id_node_id (identity_ cfg) +:+ ":" +:+ to_string sequence;
     origin := id_node_id (identity_ cfg);
     callsign := id_callsign (identity_ cfg);
     channel := default_channel;
     created_at_ms := created_at_ms;
     body := body |}.

Definition create_local (body : string) : M (Node D W) ChatMessage :=
  next ← gets next_sequence_;
  now ← current_time_ms;
  let message := local_message next now body in
  set_next_sequence (u64 (next + 1));;
  on_store (add message);;
  publish message;;
  replicate_local message;;
  mret message.

Definition ingest_replica (message : ChatMessage) : M (Node D W) bool :=
  known ← on_store (contains (message_id message));
  if (known : bool) then mret false
  else
    on_store (add message);;
    publish message;;
    mret true.

Definition ingest_sync (message : ChatMessage) : M (Node D W) bool :=
  added ← on_store (add message);
  if negb added then mret false
  else
    publish message;;
    mret true.

(** MessageService::messages and MessageService::sequence_summary *)
Definition service_messages : M (Node D W) (list ChatMessage) := on_store messages.
Definition service_summary : M (Node D W) (gmap string Z) := on_store sequence_summary.

(** ** A history of the service

    A request that throws is answered with an error and the daemon goes on. *)

Inductive service_op := Create (body : string) | Replica (m : ChatMessage) | Synced (m : ChatMessage).

(** The messages created by one operation. *)
Definition serve (o : service_op) : M (Node D W) (list ChatMessage) :=
  try_catch
    (match o with
     | Create body => m ← create_local body; mret [m]
     | Replica m => ingest_replica m;; mret []
     | Synced m => ingest_sync m;; mret []
     end) (λ _, mret []).

Fixpoint serve_all (ops : list service_op) : M (Node D W) (list ChatMessage) :=
  match ops with
  | [] => mret []
  | o :: ops => created ← serve o; rest ← serve_all ops; mret (created ++ rest)
  end.
End service.

(** ** What the operations do *)

(** The text of a message on the wire and in an event. *)
Definition has_text (J : Type) `{JsonC J} (m : ChatMessage) (t : string) : Prop :=
  ∀ S (s : S), message_text (J := J) m s = (Ok t, s).

Lemma message_has_text `{JsonLaws J} m : in_i64 (created_at_ms m) → size (body m) ≤ i32_max →
  ∃ t, has_text J m t.
Proof.
  intros Hc Hb. destruct (law_serialize 1 (message_json (J := J) m)) as (t & Ht & Hn & _);
    [by apply message_json_built|lia|].
  exists t. intros S s. unfold message_text. rewrite (bind_run _ _ _ _ _ (message_to_json_run m s)).
  unfold serialize_json. by rewrite Ht, c_str_no_nul.
Qed.

Lemma message_text_bind `{JsonC J} {S A} m t (k : string → M S A) s : has_text J m t →
  (j ← (message_to_json m : M S J); t ← serialize_json j; k t) s = k t s.
Proof.
  intros Ht. specialize (Ht S s). unfold message_text in Ht. apply bind_Ok in Ht as (j & s1 & Hj & Hs).
  by rewrite (bind_run _ _ _ _ _ Hj), (bind_run _ _ _ _ _ Hs).
Qed.

(** What the subscribers of a node get when [t] is published. *)
Definition chunks {D W} (t : string) (n : Node D W) : list effect :=
  (λ r, Chunk (sub_request r) (event_payload "message" t)) <$> requests_ n.

(** Everything but the store, the world, the trace and the counter. *)
Definition quiet {D W} (n : Node D W) := (peers_ n, time_offset_ms n, announce_failed_ n, requests_ n).

Section runs.
Context `{JsonLaws J} `{SqliteLaws D} `{Env W} `{Unordered} (cfg : Config).
Implicit Types n : Node D W.

Lemma publish_runs m t n : has_text J m t →
  publish J m n = (Ok tt, with_trace (trace n ++ chunks t n) n).
Proof. intros Ht. unfold publish. rewrite (message_text_bind _ _ _ _ Ht). apply publish_run. Qed.

(** The log of a node's store. *)
Definition node_log n : alog := abs (store_ n).

(** Whether SQLite reports that it is full while [m] is stored at the node. *)
Definition node_full m n : bool := insertion_full (database (store_ n)) m.

(** What a throw of add leaves of the log. *)
Definition log_recovers m n (a : alog) : Prop :=
  a = node_log n ∨ node_full m n = true ∧ a = forget 100 (node_log n).

(** One call of add inside the node. *)
Lemma add_runs m n : db_ok (store_ n) → 1 ≤ sequence m →
  ∃ r s', on_store (add m) n = (r, with_store s' n) ∧ db_ok s' ∧
    match r with
    | Ok b => sequence m ≤ i64_max ∧ (b, abs s') = add_result (node_full m n) (node_log n) m ∧
        (cache_ok (store_ n) → cache_ok s')
    | Throw _ => log_recovers m n (abs s')
    | Undefined => False
    end.
Proof.
  intros Hok Hm. rewrite on_store_run. destruct (add m (store_ n)) as [r s'] eqn:E.
  pose proof (add_run _ _ _ _ Hok Hm E) as Hr. exists r, s'. cbn. split; [done|].
  destruct r as [b|e|]; [|by destruct Hr as [? [[? _]|(? & ? & _)]]; split; [|left|..|right]|done].
  by destruct Hr as (? & ? & ? & ?).
Qed.
End runs.

(** ** Creating a message *)

(** The attempts a broadcast of [t] makes to [peers]. *)
Definition attempts `{Env W} (cfg : Config) (t : string) (peers : list Peer) (ls : list (list effect)) : Prop :=
  Forall2 (λ peer l,
    attempt (local_address_ cfg)
      [Log ("Unable to create replication connection for peer " +:+ peer_node_id peer)]
      replication_headers (peer_address peer) (peer_http_port peer) "/api/v1/replicate" t l ∧
    (accepting W → made l)) peers ls.

Section create.
Context `{JsonLaws J} `{SqliteLaws D} `{Env W} `{Unordered} (cfg : Config).
Implicit Types n : Node D W.

Lemma broadcast_runs t n : sane_clock W → times_ok n → registry_ok (peers_ n) →
  ∃ w now ls, broadcast cfg t n = (Ok tt, with_world w (with_trace (trace n ++ concat ls) n)) ∧
    attempts cfg t (active_list now (peers_ n)) ls ∧ clock_time n now.
Proof.
  intros Hc Ht Hok. destruct (times_ok_current n Hc Ht) as (now & w & Hr & _ & Hfit & Hnow).
  unfold broadcast. rewrite (bind_run _ _ _ _ _ Hr).
  rewrite (bind_run _ _ _ _ _ (active_peers_run now (with_world w n) Hok Hfit)).
  destruct (iterM_emits_all (replicate_to cfg t) _ (active_list now (peers_ n))
    (λ peer, post_request_emits cfg _ [Log ("Unable to create replication connection for peer " +:+
       peer_node_id peer)] replication_headers (peer_address peer) (peer_http_port peer) "/api/v1/replicate" t
       ltac:(done)) (with_world w n)) as (w' & l & Hrun & ls & -> & Hls).
  exists w', now, ls. split; [exact Hrun|]. split; [exact Hls|exact Hnow].
Qed.

Lemma create_local_runs text n : sane_clock W → times_ok n → registry_ok (peers_ n) →
  db_ok (store_ n) → 1 ≤ next_sequence_ n < u64_max → size text ≤ max_message_bytes →
  ∃ r n' now, create_local J cfg text n = (r, n') ∧ quiet n' = quiet n ∧
    next_sequence_ n' = next_sequence_ n + 1 ∧ db_ok (store_ n') ∧
    let m := local_message cfg (next_sequence_ n) now text in
    match r with
    | Ok m' => m' = m ∧ - 2 ^ 61 ≤ now ≤ 2 ^ 62 ∧ clock_time n now ∧ next_sequence_ n ≤ i64_max ∧
        (∃ b, (b, node_log n') = add_result (node_full m n) (node_log n) m) ∧
        (cache_ok (store_ n) → cache_ok (store_ n')) ∧
        ∃ t now' ls, has_text J m t ∧ trace n' = trace n ++ chunks t n ++ concat ls ∧
          attempts cfg t (active_list now' (peers_ n)) ls ∧ clock_time n now'
    | Throw _ => trace n' = trace n ∧ log_recovers m n (node_log n')
    | Undefined => False
    end.
Proof.
  intros Hc Ht Hreg Hdb Hnext Hsz. destruct (times_ok_current n Hc Ht) as (now & w & Hr & Hnow & _ & Hclock).
  unfold create_local. rewrite (bind_run _ _ n (next_sequence_ n) n) by done.
  rewrite (bind_run _ _ _ _ _ Hr). cbv zeta. set (m := local_message cfg (next_sequence_ n) now text).
  rewrite u64_small by (unfold_ints; lia).
  rewrite (bind_run _ _ (with_world w n) tt (with_next_sequence (next_sequence_ n + 1) (with_world w n))) by done.
  set (n1 := with_next_sequence (next_sequence_ n + 1) (with_world w n)).
  destruct (add_runs m n1 Hdb ltac:(cbn; lia)) as (r & s' & Ha & Hs' & Hadd).
  destruct r as [b|e|]; [| |done].
  - destruct Hadd as (Hmax & Hres & Hcache). rewrite (bind_run _ _ _ _ _ Ha).
    destruct (message_has_text (J := J) m) as (t & Htxt);
      [cbn; unfold_ints; lia|cbn; unfold max_message_bytes in Hsz; unfold_ints; lia|].
    rewrite (bind_run _ _ _ _ _ (publish_runs m t (with_store s' n1) Htxt)).
    set (n2 := with_trace _ (with_store s' n1)).
    destruct (broadcast_runs t n2 Hc) as (w2 & now' & ls & Hb & Hls & Hclock'); [by split; apply Ht|done|].
    rewrite (bind_run _ _ n2 tt (with_world w2 (with_trace (trace n2 ++ concat ls) n2))).
    2: { unfold replicate_local. by rewrite (message_text_bind _ _ _ _ Htxt). }
    eexists (Ok m), _, now. split; [reflexivity|]. split_and!; try done; try lia.
    + by exists b.
    + exists t, now', ls. split; [done|]. split; [cbn; by rewrite <- app_assoc|]. by split.
  - unfold mbind, M_bind. rewrite Ha. eexists (Throw e), _, now. split; [reflexivity|]. by split_and!.
Qed.
End create.

(** ** Receiving a message *)

Lemma holds_id_entries t i :
  holds_id t i = true ↔ ∃ m, m ∈ entries (abs_tables t) ∧ message_id m = i.
Proof.
  unfold holds_id. rewrite existsb_exists. split.
  - intros (x & Hx & Hid). exists x.2. split; [|by apply str_eqb_true].
    cbn. apply list_elem_of_fmap. exists x. by rewrite list_elem_of_In.
  - intros (m & Hm & Hid). cbn in Hm. apply list_elem_of_fmap in Hm as (x & -> & Hx).
    exists x. by rewrite <- list_elem_of_In, str_eqb_true.
Qed.

Lemma clash_with a m m' : m' ∈ entries a → conflicts m m' = true → clashes a m = true.
Proof.
  intros Hin Hc. apply existsb_exists. exists m'. by rewrite <- list_elem_of_In.
Qed.

Lemma conflicts_refl m : conflicts m m = true.
Proof. unfold conflicts. by rewrite (proj2 (str_eqb_true _ _) eq_refl). Qed.

(** A message offered to a log that holds it is taken only if it was among the
    100 oldest, which were dropped to make room. *)
Lemma add_result_known full a m a' : m ∈ entries a → (true, a') = add_result full a m → m ∈ take 100 (entries a).
Proof.
  unfold add_result, put_message. intros Hin Hres. rewrite <- (take_drop 100 (entries a)) in Hin.
  apply elem_of_app in Hin as [Hin|Hin]; [done|]. exfalso.
  rewrite (clash_with _ m m) in Hres; [done| |apply conflicts_refl]. destruct full; [done|].
  rewrite <- (take_drop 100 (entries a)). apply elem_of_app. by right.
Qed.

(** A message that was put is not above the last sequence of its origin. *)
Lemma add_result_last full a m a' : (true, a') = add_result full a m →
  sequence m ≤ default 0 (lasts a' !! origin m).
Proof.
  unfold add_result, put_message. generalize (if full then forget 100 a else a). intros a0.
  destruct (clashes a0 m); [done|]. intros [= ->]. cbn.
  rewrite lookup_insert_eq. destruct (lasts a0 !! origin m); cbn; lia.
Qed.

Section ingest.
Context `{JsonLaws J} `{SqliteLaws D} `{Env W}.
Implicit Types n : Node D W.

(** A message parse_message accepted. *)
Lemma valid_has_text m : valid_message m → ∃ t, has_text J m t.
Proof. intros (_ & Hc & Hb & _)%valid_ranges. by apply message_has_text. Qed.

(** ingest_sync is one call of add, and a publication of what it took. *)
Lemma ingest_sync_adds m n : db_ok (store_ n) → valid_message m →
  ∃ r s' l, ingest_sync J m n = (r, with_trace (trace n ++ l) (with_store s' n)) ∧
    add m (store_ n) = (r, s') ∧ db_ok s' ∧
    match r with
    | Ok b => (b, abs s') = add_result (node_full m n) (node_log n) m
    | Throw _ => log_recovers m n (abs s')
    | Undefined => False
    end.
Proof.
  intros Hdb Hv. destruct (add_runs m n Hdb) as (r & s' & Ha & Hs' & Hadd); [apply (vm_sequence _ Hv)|].
  pose proof Ha as Ha'. rewrite on_store_run in Ha'. destruct (add m (store_ n)) as [r0 s0] eqn:E.
  injection Ha' as -> ->. destruct (valid_has_text m Hv) as (t & Ht). unfold ingest_sync.
  destruct r as [b|e|]; [| |done].
  - rewrite (bind_run _ _ _ _ _ Ha). destruct Hadd as (_ & Hres & _). destruct b; cbn [negb].
    + rewrite (bind_run _ _ _ _ _ (publish_runs m t (with_store s' n) Ht)). by eexists (Ok true), s', _.
    + exists (Ok false), s', []. by rewrite app_nil_r.
  - rewrite (bind_throw _ _ _ _ _ Ha). exists (Throw e), s', []. by rewrite app_nil_r.
Qed.

Lemma ingest_sync_runs m n : db_ok (store_ n) → valid_message m →
  ∃ r s' l, ingest_sync J m n = (r, with_trace (trace n ++ l) (with_store s' n)) ∧ db_ok s' ∧
    match r with
    | Ok b => (b, abs s') = add_result (node_full m n) (node_log n) m ∧ (cache_ok (store_ n) → cache_ok s') ∧
        if b then ∃ t, has_text J m t ∧ l = chunks t n else l = []
    | Throw _ => l = [] ∧ log_recovers m n (abs s')
    | Undefined => False
    end.
Proof.
  intros Hdb Hv. destruct (add_runs m n Hdb) as (r & s' & Ha & Hs' & Hadd); [apply (vm_sequence _ Hv)|].
  destruct (valid_has_text m Hv) as (t & Ht). unfold ingest_sync.
  destruct r as [b|e|]; [| |done].
  - rewrite (bind_run _ _ _ _ _ Ha). destruct Hadd as (_ & Hres & Hcache). destruct b; cbn [negb].
    + rewrite (bind_run _ _ _ _ _ (publish_runs m t (with_store s' n) Ht)).
      eexists (Ok true), s', _. split; [reflexivity|]. split_and!; try done. by exists t.
    + exists (Ok false), s', []. rewrite app_nil_r. by split_and!.
  - unfold mbind, M_bind. rewrite Ha. exists (Throw e), s', []. rewrite app_nil_r. by split_and!.
Qed.

Lemma contains_runs i n : db_ok (store_ n) →
  ∃ r s', on_store (contains i) n = (r, with_store s' n) ∧ db_ok s' ∧ abs s' = node_log n ∧
    messages_ s' = messages_ (store_ n) ∧
    match r with
    | Ok b => (b = true → ∃ m, m ∈ entries (node_log n) ∧ message_id m = i) ∧
        (reliable_reads (D := D) → b = false → ∀ m, m ∈ entries (node_log n) → message_id m ≠ i)
    | Throw _ => True
    | Undefined => False
    end.
Proof.
  intros Hdb. rewrite on_store_run. destruct (contains i (store_ n)) as [r s'] eqn:E. cbn.
  eapply (spec_run _ _ _ _ _ _ _ (contains_spec (view (database (store_ n))) (messages_ (store_ n)) i))
    in E; [|done].
  assert (∀ v l, at_view v l s' → v = view (database (store_ n)) → l = messages_ (store_ n) →
    db_ok s' ∧ abs s' = node_log n ∧ messages_ s' = messages_ (store_ n)) as Hat.
  { intros v l Hs -> ->. rewrite (db_ok_view _ Hdb) in Hs. by apply at_view_ok in Hs; [|apply Hdb..]. }
  exists r, s'. split; [done|]. destruct r as [b|e|]; [| |done].
  - destruct E as (Hv & Hyes & Hno). destruct (Hat _ _ Hv eq_refl eq_refl) as (? & ? & ?).
    split_and!; [done..|intros Hb|intros Hrel Hb m Hm].
    + apply holds_id_entries. by apply Hyes.
    + intros Hid. rewrite (Hno Hrel) in Hb.
      assert (holds_id (current (view (database (store_ n)))) i = true); [|congruence].
      apply holds_id_entries. by exists m.
  - by destruct (Hat _ _ E eq_refl eq_refl) as (? & ? & ?).
Qed.
End ingest.

(** ** The numbers given to messages *)

Section numbers.
Context `{JsonC J} `{Sqlite D} `{Env W} `{Unordered} (cfg : Config).
Implicit Types n : Node D W.

Lemma publish_keeps_next m : keeps (same next_sequence_) (publish J m : M (Node D W) unit).
Proof. unfold publish, publish_event. solve_keeps. Qed.

Lemma replicate_keeps_next m : keeps (same next_sequence_) (replicate_local J cfg m : M (Node D W) unit).
Proof.
  unfold replicate_local, broadcast, replicate_to, post_request, drop_connection, active_peers, keep_active, log.
  solve_keeps.
Qed.

Lemma current_time_result n : (current_time_ms n).1 = Undefined ∨ ∃ t, (current_time_ms n).1 = Ok t.
Proof.
  unfold current_time_ms, system_time_ms. rewrite (bind_run _ _ _ _ _ (call_run _ n)).
  unfold gets, mbind, M_bind, i64_add, i64_checked; cbn. case_decide; eauto.
Qed.

(** The message of the number [next_sequence_ n]. *)
Definition numbered n (m : ChatMessage) : Prop :=
  sequence m = next_sequence_ n ∧
  message_id m = id_node_id (identity_ cfg) +:+ ":" +:+ to_string (sequence m).

Lemma create_local_numbers text n r n' : create_local J cfg text n = (r, n') → r ≠ Undefined →
  next_sequence_ n' = u64 (next_sequence_ n + 1) ∧ ∀ m, r = Ok m → numbered n m.
Proof.
  unfold create_local. rewrite (bind_run _ _ n (next_sequence_ n) n) by done. unfold mbind at 1, M_bind at 1.
  pose proof (current_time_result n) as Ht.
  pose proof (current_time_keeps (D := D) next_sequence_ ltac:(done) n) as Hk. unfold same in Hk.
  destruct (current_time_ms n) as [rt n1]; cbn in Ht, Hk.
  destruct Ht as [->|[now ->]]; [intros; by simplify_eq|]. cbv zeta.
  set (m := local_message cfg (next_sequence_ n) now text).
  rewrite (bind_run _ _ n1 tt (with_next_sequence (u64 (next_sequence_ n + 1)) n1)) by done.
  set (rest := on_store (add m) ≫= _). set (n2 := with_next_sequence _ n1).
  assert (keeps (same next_sequence_) rest) as Hrest.
  { unfold rest. solve_keeps; auto using publish_keeps_next, replicate_keeps_next. }
  intros Hr Hu. specialize (Hrest n2). rewrite Hr in Hrest. split; [exact Hrest|].
  intros m' ->. unfold rest in Hr. repeat (apply bind_Ok in Hr as (? & ? & _ & Hr)).
  unfold mret, M_ret in Hr. by simplify_eq.
Qed.

Lemma serve_numbers o n ms n' : serve J cfg o n = (Ok ms, n') → next_sequence_ n + 1 ≤ u64_max →
  0 ≤ next_sequence_ n → next_sequence_ n ≤ next_sequence_ n' ≤ next_sequence_ n + 1 ∧
  (ms = [] ∨ ∃ m, ms = [m] ∧ numbered n m ∧ next_sequence_ n' = next_sequence_ n + 1).
Proof.
  intros Hr Hmax Hpos. unfold serve in Hr. destruct o as [text|m|m].
  - unfold try_catch, mbind, M_bind in Hr. destruct (create_local J cfg text n) as [r n1] eqn:E.
    pose proof (create_local_numbers text n r n1 E) as Hn.
    destruct r as [m|e|]; unfold mret, M_ret in Hr; [| |done]; destruct (Hn ltac:(done)) as [Hnext Hm];
      simplify_eq; rewrite u64_small in Hnext by (unfold_ints; lia).
    + split; [lia|]. right. exists m. by split_and!; [|apply Hm|].
    + split; [lia|]. by left.
  - assert (keeps (same next_sequence_) (try_catch (ingest_replica J m;; mret ([] : list ChatMessage))
      (λ _, mret []) : M (Node D W) _)) as Hk.
    { unfold ingest_replica. solve_keeps; auto using publish_keeps_next. }
    specialize (Hk n). rewrite Hr in Hk. unfold same in Hk; cbn in Hk. split; [lia|]. left.
    unfold try_catch, mbind, M_bind, mret, M_ret in Hr.
    by destruct (ingest_replica J m n) as [[|e|] n1]; simplify_eq.
  - assert (keeps (same next_sequence_) (try_catch (ingest_sync J m;; mret ([] : list ChatMessage))
      (λ _, mret []) : M (Node D W) _)) as Hk.
    { unfold ingest_sync. solve_keeps; auto using publish_keeps_next. }
    specialize (Hk n). rewrite Hr in Hk. unfold same in Hk; cbn in Hk. split; [lia|]. left.
    unfold try_catch, mbind, M_bind, mret, M_ret in Hr.
    by destruct (ingest_sync J m n) as [[|e|] n1]; simplify_eq.
Qed.

Definition in_order (ms : list ChatMessage) : Prop := StronglySorted (λ a b, sequence a < sequence b) ms.

Lemma serve_all_numbers ops n ms n' : serve_all J cfg ops n = (Ok ms, n') →
  0 ≤ next_sequence_ n → next_sequence_ n + Z.of_nat (length ops) ≤ u64_max →
  next_sequence_ n ≤ next_sequence_ n' ∧ in_order ms ∧
  Forall (λ m, next_sequence_ n ≤ sequence m < next_sequence_ n' ∧
    message_id m = id_node_id (identity_ cfg) +:+ ":" +:+ to_string (sequence m)) ms.
Proof.
  revert n ms. induction ops as [|o ops IH]; intros n ms Hr Hpos Hmax; cbn in Hr, Hmax.
  { unfold mret, M_ret in Hr. simplify_eq. split; [lia|]. split; constructor. }
  apply bind_Ok in Hr as (ms1 & n1 & Hr1 & Hr). apply bind_Ok in Hr as (ms2 & n2 & Hr2 & Hr).
  unfold mret, M_ret in Hr. simplify_eq.
  destruct (serve_numbers o n ms1 n1 Hr1) as [Hn1 Hms1]; [lia..|].
  destruct (IH n1 ms2 Hr2) as (Hn2 & Hs2 & Hf2); [lia..|]. split; [lia|].
  assert (Forall (λ m, next_sequence_ n ≤ sequence m < next_sequence_ n' ∧
    message_id m = id_node_id (identity_ cfg) +:+ ":" +:+ to_string (sequence m)) ms2) as Hf.
  { eapply Forall_impl; [exact Hf2|]. intros m [? ?]. split; [lia|done]. }
  destruct Hms1 as [->|(m & -> & [Hm Hid] & Hnext)]; [done|]. cbn [app]. split.
  - constructor; [done|]. eapply Forall_impl; [exact Hf2|]. cbn. intros m' [? _]. lia.
  - constructor; [|done]. split; [lia|done].
Qed.
End numbers.

(** ** Properties *)

Section properties.
Context `{JsonLaws J} `{SqliteLaws D} `{Env W} `{Unordered} (cfg : Config).
Implicit Types n : Node D W.

(** C13: create_local on every outcome.  The counter advances by one in all cases.
    When the call returns, the message has the number, the id, the origin and the
    callsign of this node and the time of its clock, it was put into the log (the log's own
    rules may reject it), its text was published once to every subscriber, and
    one attempt was made to send it to each peer active at a time of the clock.  When the store throws,
    nothing was published or sent, and the log is as it was or, only when SQLite reported
    that it is full, without its 100
    oldest messages. *)
Theorem create_local_exact text n : sane_clock W → times_ok n → registry_ok (peers_ n) →
  db_ok (store_ n) → 1 ≤ next_sequence_ n < u64_max → size text ≤ max_message_bytes →
  ∃ r n' now, create_local J cfg text n = (r, n') ∧ quiet n' = quiet n ∧
    next_sequence_ n' = next_sequence_ n + 1 ∧ db_ok (store_ n') ∧
    let m := local_message cfg (next_sequence_ n) now text in
    match r with
    | Ok m' => m' = m ∧ - 2 ^ 61 ≤ now ≤ 2 ^ 62 ∧ clock_time n now ∧ next_sequence_ n ≤ i64_max ∧
        (∃ b, (b, node_log n') = add_result (node_full m n) (node_log n) m) ∧
        (cache_ok (store_ n) → cache_ok (store_ n')) ∧
        ∃ t now' ls, has_text J m t ∧ trace n' = trace n ++ chunks t n ++ concat ls ∧
          attempts cfg t (active_list now' (peers_ n)) ls ∧ clock_time n now'
    | Throw _ => trace n' = trace n ∧ log_recovers m n (node_log n')
    | Undefined => False
    end.
Proof. apply create_local_runs. Qed.

(** Over any history of messages written and received, failures included,
    the messages this node creates have strictly increasing sequences and
    pairwise distinct ids. *)
Theorem created_ids_unique ops n ms n' : serve_all J cfg ops n = (Ok ms, n') →
  0 ≤ next_sequence_ n → next_sequence_ n + Z.of_nat (length ops) ≤ u64_max →
  StronglySorted (λ a b, sequence a < sequence b) ms ∧ NoDup (message_id <$> ms).
Proof.
  intros Hr Hpos Hmax. destruct (serve_all_numbers cfg ops n ms n' Hr Hpos Hmax) as (_ & Hs & Hf).
  split; [done|]. clear -Hs Hf. induction Hs as [|m ms Hs IH Hlt]; [constructor|].
  apply Forall_cons in Hf as [[_ Hm] Hf]. cbn. constructor; [|by apply IH].
  intros (m' & Hid & Hin)%list_elem_of_fmap. rewrite Forall_forall in Hlt, Hf.
  destruct (Hf m' Hin) as [_ Hm']. specialize (Hlt m' Hin). rewrite Hm, Hm' in Hid.
  unfold to_string in Hid. simplify_eq. lia.
Qed.

(** A message received by synchronisation is offered to the log; it is
    published, once to every subscriber, exactly when the log took it; when the
    store throws nothing is published. *)
Theorem ingest_sync_exact m n : db_ok (store_ n) → valid_message m →
  ∃ r s' l, ingest_sync J m n = (r, with_trace (trace n ++ l) (with_store s' n)) ∧ db_ok s' ∧
    match r with
    | Ok b => (b, abs s') = add_result (node_full m n) (node_log n) m ∧ (cache_ok (store_ n) → cache_ok s') ∧
        if b then ∃ t, has_text J m t ∧ l = chunks t n else l = []
    | Throw _ => l = [] ∧ log_recovers m n (abs s')
    | Undefined => False
    end.
Proof. apply ingest_sync_runs. Qed.

(** A message that is delivered again.  With working queries a replica of a
    stored message is not accepted, nothing is published and the log is
    untouched; by synchronisation it is only accepted again if it was among the
    100 oldest messages, which were dropped to make room. *)
Theorem duplicate_delivery m n : db_ok (store_ n) → valid_message m →
  m ∈ entries (node_log n) →
  (reliable_reads (D := D) → ∃ r n', ingest_replica J m n = (r, n') ∧ r ≠ Ok true ∧ r ≠ Undefined ∧
    trace n' = trace n ∧ node_log n' = node_log n) ∧
  (∀ n', ingest_sync J m n = (Ok true, n') → m ∈ take 100 (entries (node_log n))).
Proof.
  intros Hdb Hv Hin. split.
  - intros Hrel. destruct (contains_runs (message_id m) n Hdb) as (r & s' & Hr & _ & Habs & _ & Hres).
    exists (match r with Ok _ => Ok false | Throw e => Throw e | Undefined => Undefined end), (with_store s' n).
    unfold ingest_replica, mbind, M_bind. rewrite Hr. destruct r as [b|e|]; [|by split_and!|done].
    destruct Hres as [_ Hno]. destruct b; [by split_and!|]. by destruct (Hno Hrel eq_refl m Hin).
  - intros n' Hr. destruct (ingest_sync_runs m n Hdb Hv) as (r & s' & l & Hr' & _ & Hres).
    rewrite Hr in Hr'. simplify_eq. destruct Hres as [Hres _]. by eapply add_result_known.
Qed.

(** C38: a replica whose id is new but whose origin and sequence are taken is
    reported as accepted and published to the browsers, although the log does
    not take it (unless its 100 oldest messages were dropped first). *)
Theorem replica_accepted_not_stored m n n' b : db_ok (store_ n) → valid_message m →
  (∀ m', m' ∈ entries (node_log n) → message_id m' ≠ message_id m) →
  clashes (node_log n) m = true → ingest_replica J m n = (Ok b, n') →
  b = true ∧ (∃ t, has_text J m t ∧ trace n' = trace n ++ chunks t n) ∧
  (node_log n' = node_log n ∨ node_log n' = (put_message (forget 100 (node_log n)) m).2).
Proof.
  intros Hdb Hv Hnew Hclash Hr.
  destruct (contains_runs (message_id m) n Hdb) as (r & s1 & Hc & Hdb1 & Habs & _ & Hres).
  unfold ingest_replica, mbind, M_bind in Hr. rewrite Hc in Hr.
  destruct r as [known|e|]; [|done|done]. destruct Hres as [Hyes _]. destruct known.
  { destruct (Hyes eq_refl) as (m' & Hin & Hid). by destruct (Hnew m' Hin). }
  destruct (valid_has_text m Hv) as (t & Ht).
  destruct (add_runs m (with_store s1 n) Hdb1 (proj1 (vm_sequence _ Hv))) as (r & s2 & Ha & _ & Hadd).
  rewrite Ha in Hr. destruct r as [b'|e|]; [|done|done]. destruct Hadd as (_ & Hres & _).
  rewrite (publish_runs m t _ Ht) in Hr. unfold mret, M_ret in Hr. simplify_eq.
  split; [done|]. split; [by exists t|].
  change (node_log (with_store s1 n)) with (abs s1) in Hres. rewrite Habs in Hres.
  match goal with |- ?x = _ ∨ _ => change x with (abs s2) end.
  unfold add_result in Hres. destruct (node_full _ _); [right; by rewrite <- Hres|left].
  unfold put_message in Hres. rewrite Hclash in Hres. by simplify_eq.
Qed.
End properties.

(** ** Witnesses *)

(** A node with a fresh database, the two peers of PeerRegistry.v and one
    subscriber. *)
Definition service_node (s : Store mdb) : Node mdb reliable :=
  MkNode s two_peers 0 false [MkSubscriber 1 11] 1 [] (Reliable quiet_world) [].

Lemma reliable_sane : sane_clock reliable.
Proof. intros w. cbn. lia. Qed.

Lemma service_node_times s : times_ok (service_node s).
Proof.
  split; [split; by vm_compute|]. cbn [peers_ service_node]. unfold two_peers.
  do 2 (apply map_Forall_insert_2; [split; by vm_compute|]). apply map_Forall_empty.
Qed.

Lemma mdb_reads : reliable_reads (D := mdb).
Proof. done. Qed.

Lemma create_local_exact_witness :
  (∃ m, (create_local jtree plain_config "hello" (service_node store0)).1 = Ok m ∧ message_id m = "node-a:1") ∧
  ∃ n', quiet n' = quiet (service_node store0) ∧ next_sequence_ n' = 2 ∧
    (create_local jtree plain_config "hello" (service_node store0)).2 = n' ∧ db_ok (store_ n').
Proof.
  split; [eexists; split; [by vm_compute|done]|].
  destruct (create_local_exact (J := jtree) plain_config "hello" (service_node store0))
    as (r & n' & now & Hr & Hq & Hn & Hdb & _);
    [apply reliable_sane|apply service_node_times|apply two_peers_ok|apply store0_ok|by split|done|].
  exists n'. split; [exact Hq|]. split; [exact Hn|]. split; [by rewrite Hr|exact Hdb].
Defined.

Definition a_session : list service_op := [Create "one"; Synced sample_message; Create "two"].

Lemma created_ids_unique_witness :
  ∃ ms n', serve_all jtree plain_config a_session (service_node store0) = (Ok ms, n') ∧
    length ms = 2%nat ∧
    StronglySorted (λ a b, sequence a < sequence b) ms ∧ NoDup (message_id <$> ms).
Proof.
  destruct (serve_all jtree plain_config a_session (service_node store0)) as [r n'] eqn:E.
  assert (∃ ms, r = Ok ms ∧ length ms = 2%nat) as (ms & -> & Hl).
  { assert (r = (serve_all jtree plain_config a_session (service_node store0)).1) as -> by (by rewrite E).
    eexists. split; [by vm_compute|done]. }
  exists ms, n'. split; [done|]. split; [done|].
  by apply (created_ids_unique plain_config a_session (service_node store0) ms n' E).
Defined.

Lemma ingest_sync_exact_witness :
  (ingest_sync jtree sample_message (service_node store0)).1 = Ok true ∧
  ∃ r s' l, ingest_sync jtree sample_message (service_node store0) =
    (r, with_trace l (with_store s' (service_node store0))) ∧ db_ok s'.
Proof.
  split; [by vm_compute|].
  destruct (ingest_sync_exact (J := jtree) sample_message (service_node store0))
    as (r & s' & l & Hr & Hdb & _); [apply store0_ok|apply sample_valid|].
  exists r, s', l. done.
Defined.

Lemma first_message_valid : valid_message first_message.
Proof. apply acceptable_valid; [by unfold_ints|by unfold_ints|by vm_compute]. Qed.

Lemma duplicate_delivery_witness :
  (ingest_replica jtree first_message (service_node store1)).1 = Ok false ∧
  ∃ r n', ingest_replica jtree first_message (service_node store1) = (r, n') ∧
    r ≠ Ok true ∧ r ≠ Undefined ∧ trace n' = [] ∧ node_log n' = node_log (service_node store1).
Proof.
  split; [by vm_compute|].
  destruct (duplicate_delivery (J := jtree) first_message (service_node store1)) as [H _];
    [apply store1_ok|apply first_message_valid|vm_compute; left|].
  apply H, mdb_reads.
Defined.

(** The number of [first_message] under another id. *)
Definition rival_message : ChatMessage :=
  {| sequence := 1; message_id := "node-a:one"; origin := "node-a"; callsign := "Bolt";
     channel := default_channel; created_at_ms := 1; body := "hello again" |}.

Lemma replica_accepted_not_stored_witness :
  ∃ n', ingest_replica jtree rival_message (service_node store1) = (Ok true, n') ∧
    entries (node_log n') = [first_message] ∧
    ∃ t, has_text jtree rival_message t ∧ trace n' = chunks t (service_node store1).
Proof.
  destruct (ingest_replica jtree rival_message (service_node store1)) as [r n'] eqn:E.
  assert (r = Ok true) as ->.
  { assert (r = (ingest_replica jtree rival_message (service_node store1)).1) as -> by (by rewrite E).
    by vm_compute. }
  exists n'. split; [done|]. split.
  { assert (n' = (ingest_replica jtree rival_message (service_node store1)).2) as -> by (by rewrite E).
    by vm_compute. }
  destruct (replica_accepted_not_stored (J := jtree) rival_message (service_node store1) n' true)
    as (_ & Ht & _); [apply store1_ok| | |by vm_compute|exact E|exact Ht].
  - apply acceptable_valid; [by unfold_ints|by unfold_ints|by vm_compute].
  - intros m' Hin. vm_compute in Hin. by apply list_elem_of_singleton in Hin as ->.
Defined.
