(* ===== verification/Http.v ===== *)
(** * HTTP helpers (http.cpp)

    A request is the record of what libevent's accessors return for it; a reply
    is an effect with its status, reason, headers and body. *)

From S2P Require Import Prelude Cxx Protocol Sqlite MessageStore Env Node.
Open Scope Z_scope.

(** enum evhttp_cmd_type *)
Inductive evhttp_cmd_type :=
  | EVHTTP_REQ_GET | EVHTTP_REQ_POST | EVHTTP_REQ_HEAD | EVHTTP_REQ_PUT | EVHTTP_REQ_DELETE
  | EVHTTP_REQ_OPTIONS | EVHTTP_REQ_TRACE | EVHTTP_REQ_CONNECT | EVHTTP_REQ_PATCH.

#[global] Instance evhttp_cmd_type_eq_dec : EqDecision evhttp_cmd_type.
Proof. solve_decision. Defined.

Record evhttp_request := MkHttpRequest {
  req_id : Z;
  req_connection : Z;
  req_uri : option string;            (** evhttp_request_get_uri *)
  req_command : evhttp_cmd_type;      (** evhttp_request_get_command *)
  req_content_type : option string;   (** the Content-Type input header *)
  req_input : string;                 (** the input buffer *)
}.

Definition HTTP_OK : Z := 200.
Definition HTTP_BADREQUEST : Z := 400.
Definition HTTP_NOTFOUND : Z := 404.
Definition HTTP_BADMETHOD : Z := 405.
Definition HTTP_INTERNAL : Z := 500.

Definition html_type : string := "text/html; charset=utf-8".
Definition json_content_type : string := "application/json; charset=utf-8".

Definition content_security_policy : string :=
  "default-src 'self'; script-src 'self'; style-src 'self'; connect-src 'self'; " +:+
  "img-src 'self'; object-src 'none'; base-uri 'none'".

Definition response_headers (content_type : string) : list (string * string) :=
  [("Content-Type", c_str content_type); ("Cache-Control", "no-store");
   ("X-Content-Type-Options", "nosniff")] ++
  if str_eqb content_type html_type then [("Content-Security-Policy", content_security_policy)] else [].

Section http.
Context `{Env W} {D : Type} (cfg : Config).

Definition send_response (request : evhttp_request) (status : Z) (reason content_type body : string) :
    M (Node D W) unit :=
  output ← call evbuffer_new;
  if negb (output : bool) then emit (SendError (req_id request))
  else emit (Reply (req_id request) status reason (response_headers content_type) body).

Definition send_json (request : evhttp_request) (status : Z) (reason body : string) : M (Node D W) unit :=
  send_response request status reason json_content_type body.

Definition load_web_asset (filename : string) : M (Node D W) string :=
  let path := web_root_ cfg +:+ "/" +:+ filename in
  file ← gets (λ n, read_file (world n) path);
  match file with
  | None => throw (RuntimeError ("Unable to open web asset: " +:+ path))
  | Some None => throw (RuntimeError ("Unable to read web asset: " +:+ path))
  | Some (Some contents) => mret contents
  end.

Definition send_web_asset (request : evhttp_request) (filename content_type : string) : M (Node D W) unit :=
  contents ← load_web_asset filename;
  send_response request HTTP_OK "OK" content_type contents.

Definition request_path (request : evhttp_request) : string :=
  match req_uri request with
  | None => EmptyString
  | Some uri_text =>
      match evhttp_uri_path (W := W) uri_text with
      | None => EmptyString
      | Some path_text => default "/" path_text
      end
  end.

Definition read_request_body (request : evhttp_request) (limit : Z) : M (Node D W) string :=
  let length := size (req_input request) in
  if limit <? length then throw (LengthError "request_too_large")
  else if length =? 0 then mret EmptyString
  else
    '(copied, body) ← gets (λ n, evbuffer_copyout (world n) (req_input request) length);
    if (copied <? 0) || negb (copied =? length)
    then throw (RuntimeError "Unable to read request body")
    else mret body.

(** [find(...) == 0] *)
Definition has_json_content_type (request : evhttp_request) : bool :=
  match req_content_type request with
  | None => false
  | Some content_type => String.prefix "application/json" content_type
  end.
End http.

Arguments request_path W {_} request.

(** ** Lemmas *)

Section lemmas.
Context `{EnvLaws W} {D : Type}.

(** The body is read whole when it fits the limit. *)
Lemma read_request_body_run (request : evhttp_request) limit (n : Node D W) :
  read_request_body request limit n =
    if limit <? size (req_input request) then (Throw (LengthError "request_too_large"), n)
    else (Ok (req_input request), n).
Proof.
  unfold read_request_body. destruct (_ <? _); [done|].
  destruct (Z.eqb_spec (size (req_input request)) 0) as [Hz|Hz].
  { apply size_empty in Hz. by rewrite Hz. }
  unfold gets, mbind, M_bind. rewrite law_copyout. rewrite Z.eqb_refl.
  rewrite (proj2 (Z.ltb_ge _ 0)) by apply size_nonneg. done.
Qed.
End lemmas.

Lemma read_request_body_reads `{Env W} {D} request limit :
  reads (read_request_body request limit : M (Node D W) string).
Proof.
  intros n. unfold read_request_body. destruct (_ <? _); [done|]. destruct (_ =? _); [done|].
  unfold gets, mbind, M_bind. destruct (evbuffer_copyout _ _ _) as [c b]. by destruct (_ || _).
Qed.
#[export] Hint Resolve read_request_body_reads : leschat.
