(* ===== verification/HttpApi.v ===== *)
(** * The HTTP API (http_api.cpp)

    The route table and every handler.  A handler throws where the code does;
    [handle_request] turns the exceptions into replies.  The properties are in
    HttpApiProperties.v. *)

From S2P Require Import Prelude Cxx Protocol Utf8 Json ModelJson MessageCodec Sqlite ModelDb.
From S2P Require Import MessageStore Env Node Ledger Clock PeerRegistry Discovery EventStream.
From S2P Require Import Replication MessageService Http.
Open Scope Z_scope.

(** The order of GET /api/v1/messages. *)
Definition message_lt (left right : ChatMessage) : bool :=
  if negb (created_at_ms left =? created_at_ms right) then created_at_ms left <? created_at_ms right
  else if negb (str_eqb (origin left) (origin right)) then str_ltb (origin left) (origin right)
  else if negb (sequence left =? sequence right) then sequence left <? sequence right
  else str_ltb (message_id left) (message_id right).

Definition sort_messages : list ChatMessage → list ChatMessage := stable_sort message_lt.

(** The handlers the route table names. *)
Inductive handler :=
  | serve_index | serve_stylesheet | serve_script | get_healthz | get_status | get_messages
  | create_message | get_peers | replicate_message | sync_summary | sync_messages | open_event_stream.

#[global] Instance handler_eq_dec : EqDecision handler.
Proof. solve_decision. Defined.

Record Route := MkRoute { method : evhttp_cmd_type; path : string; route_handler : handler }.

Definition routes : list Route :=
  [MkRoute EVHTTP_REQ_GET "/" serve_index;
   MkRoute EVHTTP_REQ_GET "/style.css" serve_stylesheet;
   MkRoute EVHTTP_REQ_GET "/app.js" serve_script;
   MkRoute EVHTTP_REQ_GET "/healthz" get_healthz;
   MkRoute EVHTTP_REQ_GET "/api/v1/status" get_status;
   MkRoute EVHTTP_REQ_GET "/api/v1/messages" get_messages;
   MkRoute EVHTTP_REQ_POST "/api/v1/messages" create_message;
   MkRoute EVHTTP_REQ_GET "/api/v1/peers" get_peers;
   MkRoute EVHTTP_REQ_POST "/api/v1/replicate" replicate_message;
   MkRoute EVHTTP_REQ_POST "/api/v1/sync/summary" sync_summary;
   MkRoute EVHTTP_REQ_POST "/api/v1/sync/messages" sync_messages;
   MkRoute EVHTTP_REQ_GET "/api/v1/events" open_event_stream].

(** What the loop over the table finds: a handler, or whether the path exists. *)
Fixpoint find_route (path_exists : bool) (m : evhttp_cmd_type) (p : string) (l : list Route) :
    handler + bool :=
  match l with
  | [] => inr path_exists
  | route :: l' =>
      if negb (str_eqb (path route) p) then find_route path_exists m p l'
      else if decide (method route = m) then inl (route_handler route)
      else find_route true m p l'
  end.

Section http_api.
Context (J : Type) `{JsonC J} `{Sqlite D} `{Env W} `{Unordered} (cfg : Config).

Definition send_unsupported_media_type (request : evhttp_request) : M (Node D W) unit :=
  send_json request 415 "Unsupported Media Type"
    (json_lit "{'error':'content_type_must_be_application_json'}").

(** [None] when the request was answered with an error. *)
Definition read_json_object (request : evhttp_request) (limit : Z) (require_complete : bool)
    (invalid_json : string) : M (Node D W) (option J) :=
  if negb (has_json_content_type request) then
    send_unsupported_media_type request;; mret None
  else
    body ← read_request_body request limit;
    parsed ← parse_json body;
    if negb (parsed_error parsed =? json_tokener_success) ||
       negb (json_is_object (parsed_object parsed)) ||
       (require_complete && negb (parse_end parsed =? size body))
    then
      send_json request HTTP_BADREQUEST "Bad Request" invalid_json;; mret None
    else mret (Some (parsed_object parsed)).

Definition make_status_json : M (Node D W) string :=
  root ← (make_json_object : M _ J);
  let str s := json_object_new_string s in
  let root := json_object_object_add root "status" (str "ok") in
  let root := json_object_object_add root "service" (str service_name) in
  let root := json_object_object_add root "version" (str app_version) in
  let root := json_object_object_add root "node_id" (str (c_str (id_node_id (identity_ cfg)))) in
  let root := json_object_object_add root "callsign" (str (c_str (id_callsign (identity_ cfg)))) in
  let root := json_object_object_add root "bind_address" (str (c_str (bind_address_ cfg))) in
  let root := json_object_object_add root "port" (json_object_new_int (port_ cfg)) in
  offset ← current_time_offset_ms;
  let root := json_object_object_add root "time_offset_ms" (json_object_new_int64 offset) in
  serialize_json root.

(** HttpApi::get_healthz *)
Definition handle_healthz (request : evhttp_request) : M (Node D W) unit :=
  send_json request HTTP_OK "OK"
    (json_lit "{'status':'ok','service':'les-chatd','version':'" +:+ app_version +:+ json_lit "'}").

Definition handle_status (request : evhttp_request) : M (Node D W) unit :=
  body ← make_status_json;
  send_json request HTTP_OK "OK" body.

(** The loop that appends the messages to a JSON array. *)
Definition add_items (items : J) (l : list ChatMessage) : M (Node D W) J :=
  foldM (λ items message,
    item ← (message_to_json message : M _ J);
    mret (json_object_array_add items item)) items l.

Definition handle_get_messages (request : evhttp_request) : M (Node D W) unit :=
  root ← (make_json_object : M _ J);
  items ← (make_json_array : M _ J);
  messages ← service_messages;
  let sorted_messages := sort_messages messages in
  items ← add_items items sorted_messages;
  let root := json_object_object_add root "messages" items in
  let root := json_object_object_add root "count"
    (json_object_new_int64 (cast_i64 (Z.of_nat (length sorted_messages)))) in
  body ← serialize_json root;
  send_json request HTTP_OK "OK" body.

Definition handle_create_message (request : evhttp_request) : M (Node D W) unit :=
  parsed ← read_json_object request max_request_bytes false (json_lit "{'error':'invalid_json'}");
  match parsed with
  | None => mret tt
  | Some parsed =>
      match get_typed parsed "body" json_type_string with
      | None =>
          send_json request HTTP_BADREQUEST "Bad Request" (json_lit "{'error':'body_must_be_string'}")
      | Some body_value =>
          let body_length := json_object_get_string_len body_value in
          match json_object_get_string body_value with
          | None => send_json request HTTP_BADREQUEST "Bad Request" (json_lit "{'error':'message_empty'}")
          | Some body_data =>
              if body_length <=? 0 then
                send_json request HTTP_BADREQUEST "Bad Request" (json_lit "{'error':'message_empty'}")
              else
              let body := assign body_data body_length in
              if max_message_bytes <? size body then
                send_json request 413 "Payload Too Large"
                  (json_lit "{'error':'message_too_large','max_bytes':2048}")
              else if negb (is_valid_utf8 body) then
                send_json request HTTP_BADREQUEST "Bad Request"
                  (json_lit "{'error':'message_must_be_valid_utf8'}")
              else
                message ← create_local J cfg body;
                response ← (make_json_object : M _ J);
                message_json ← (message_to_json message : M _ J);
                let response := json_object_object_add response "message" message_json in
                text ← serialize_json response;
                send_json request HTTP_OK "OK" text
          end
      end
  end.

Definition peer_item (peer : Peer) : M (Node D W) J :=
  item ← (make_json_object : M _ J);
  let str s := json_object_new_string (c_str s) in
  let item := json_object_object_add item "node_id" (str (peer_node_id peer)) in
  let item := json_object_object_add item "callsign" (str (peer_callsign peer)) in
  let item := json_object_object_add item "address" (str (peer_address peer)) in
  let item := json_object_object_add item "http_port" (json_object_new_int (peer_http_port peer)) in
  let item := json_object_object_add item "app_version" (str (peer_app_version peer)) in
  mret (json_object_object_add item "last_seen_ms" (json_object_new_int64 (peer_last_seen_ms peer))).

Definition handle_get_peers (request : evhttp_request) : M (Node D W) unit :=
  now ← current_time_ms;
  peers ← active_peers now;
  root ← (make_json_object : M _ J);
  items ← (make_json_array : M _ J);
  items ← foldM (λ items peer, item ← peer_item peer; mret (json_object_array_add items item)) items peers;
  let root := json_object_object_add root "peers" items in
  let root := json_object_object_add root "count"
    (json_object_new_int64 (cast_i64 (Z.of_nat (length peers)))) in
  body ← serialize_json root;
  send_json request HTTP_OK "OK" body.

Definition handle_replicate_message (request : evhttp_request) : M (Node D W) unit :=
  parsed ← read_json_object request max_request_bytes true (json_lit "{'error':'invalid_message'}");
  match parsed with
  | None => mret tt
  | Some parsed =>
      match parse_message parsed with
      | None => send_json request HTTP_BADREQUEST "Bad Request" (json_lit "{'error':'invalid_message'}")
      | Some message =>
          accepted ← ingest_replica J message;
          send_json request HTTP_OK "OK"
            (if accepted : bool then json_lit "{'status':'accepted'}" else json_lit "{'status':'duplicate'}")
      end
  end.

(** [std::string_view{json_object_get_string(j)} == text] *)
Definition string_view_is (j : J) (text : string) : M (Node D W) bool :=
  match json_object_get_string j with
  | None => undefined
  | Some s => mret (str_eqb (c_str s) text)
  end.

(** The members protocol and type of a synchronisation request, and one more of
    the given type: [None] if the condition of the handlers fails. *)
Definition sync_member (object : J) (type_name member : string) (t : json_type) : M (Node D W) (option J) :=
  match get_typed object "protocol" json_type_int with
  | None => mret None
  | Some protocol =>
      if negb (json_object_get_int protocol =? protocol_version) then mret None else
      match get_typed object "type" json_type_string with
      | None => mret None
      | Some type =>
          same_type ← string_view_is type type_name;
          mret (if same_type : bool then get_typed object member t else None)
      end
  end.

(** An object with the last sequence of each origin. *)
Definition origins_json (summary : gmap string Z) : M (Node D W) J :=
  origins ← (make_json_object : M _ J);
  foldM (λ origins '(origin, sequence),
    mret (json_object_object_add origins (c_str origin) (json_object_new_int64 (cast_i64 sequence))))
    origins (iterate summary).

(** A synchronisation message: its type and its payload member. *)
Definition sync_envelope (type_name member : string) (value : J) : M (Node D W) J :=
  root ← (make_json_object : M _ J);
  let root := json_object_object_add root "protocol" (json_object_new_int protocol_version) in
  let root := json_object_object_add root "type" (json_object_new_string type_name) in
  mret (json_object_object_add root member value).

Definition handle_sync_summary (request : evhttp_request) : M (Node D W) unit :=
  let invalid := json_lit "{'error':'invalid_sync_summary'}" in
  parsed ← read_json_object request max_request_bytes true invalid;
  match parsed with
  | None => mret tt
  | Some parsed =>
      origins ← sync_member parsed "sync_summary" "origins" json_type_object;
      match origins with
      | None => send_json request HTTP_BADREQUEST "Bad Request" invalid
      | Some _ =>
          summary ← service_summary;
          local_origins ← origins_json summary;
          response ← sync_envelope "sync_summary" "origins" local_origins;
          body ← serialize_json response;
          send_json request HTTP_OK "OK" body
      end
  end.

(** The loop over the batch: [None] when an invalid item ended it, after its
    reply; otherwise the count of accepted messages. *)
Fixpoint sync_loop (request : evhttp_request) (messages : J) (indices : list Z) (accepted : Z) :
    M (Node D W) (option Z) :=
  match indices with
  | [] => mret (Some accepted)
  | index :: indices' =>
      match parse_message (json_object_array_get_idx messages (cast_i32 index)) with
      | None =>
          send_json request HTTP_BADREQUEST "Bad Request" (json_lit "{'error':'invalid_sync_message'}");;
          mret None
      | Some message =>
          taken ← ingest_sync J message;
          sync_loop request messages indices' (if taken : bool then accepted + 1 else accepted)
      end
  end.

Definition handle_sync_messages (request : evhttp_request) : M (Node D W) unit :=
  let invalid := json_lit "{'error':'invalid_sync_messages'}" in
  parsed ← read_json_object request max_sync_request_bytes true invalid;
  match parsed with
  | None => mret tt
  | Some parsed =>
      messages ← sync_member parsed "sync_messages" "messages" json_type_array;
      match messages with
      | None => send_json request HTTP_BADREQUEST "Bad Request" invalid
      | Some messages =>
          if max_sync_batch_messages <? json_object_array_length messages then
            send_json request HTTP_BADREQUEST "Bad Request" invalid
          else
            let count := Z.to_nat (json_object_array_length messages) in
            result ← sync_loop request messages (Z.of_nat <$> seq 0 count) 0;
            match result with
            | None => mret tt
            | Some accepted =>
                send_json request HTTP_OK "OK"
                  (json_lit "{'status':'accepted','count':" +:+ to_string accepted +:+ "}")
            end
      end
  end.

(** HttpApi::open_event_stream *)
Definition handle_open_event_stream (request : evhttp_request) : M (Node D W) unit :=
  subscribe (MkSubscriber (req_id request) (req_connection request)).

Definition run_handler (h : handler) (request : evhttp_request) : M (Node D W) unit :=
  match h with
  | serve_index => send_web_asset cfg request "index.html" "text/html; charset=utf-8"
  | serve_stylesheet => send_web_asset cfg request "style.css" "text/css; charset=utf-8"
  | serve_script => send_web_asset cfg request "app.js" "text/javascript; charset=utf-8"
  | get_healthz => handle_healthz request
  | get_status => handle_status request
  | get_messages => handle_get_messages request
  | create_message => handle_create_message request
  | get_peers => handle_get_peers request
  | replicate_message => handle_replicate_message request
  | sync_summary => handle_sync_summary request
  | sync_messages => handle_sync_messages request
  | open_event_stream => handle_open_event_stream request
  end.

Definition process_request (request : evhttp_request) : M (Node D W) unit :=
  let p := request_path W request in
  if empty p then
    send_json request HTTP_BADREQUEST "Bad Request" (json_lit "{'error':'invalid_uri'}")
  else
    match find_route false (req_command request) p routes with
    | inl h => run_handler h request
    | inr true =>
        send_json request HTTP_BADMETHOD "Method Not Allowed" (json_lit "{'error':'method_not_allowed'}")
    | inr false => send_json request HTTP_NOTFOUND "Not Found" (json_lit "{'error':'not_found'}")
    end.

(** The constructor: the server's callback is [handle_request]; the member
    http_server_ frees the server when the constructor throws. *)
Definition HttpApi : M (Node D W) unit :=
  try_catch
    (http_server ← new_handle NewHttpServer HttpServer;
     (if negb http_server then throw (RuntimeError "Failed to create HTTP server") else mret tt);;
     acquire [BindHttp (c_str (bind_address_ cfg)) (port_ cfg)]
       ("Failed to bind HTTP server to " +:+ bind_address_ cfg +:+ ":" +:+ to_string (port_ cfg)))
    (λ e, release HttpServer;; throw e).

Definition destroy_http : M (Node D W) unit := release HttpServer.

Definition handle_request (request : evhttp_request) : M (Node D W) unit :=
  try_catch (process_request request) (λ e,
    match e with
    | LengthError _ =>
        send_json request 413 "Payload Too Large" (json_lit "{'error':'request_too_large'}")
    | _ =>
        log ("Request handling error: " +:+ what e);;
        send_json request HTTP_INTERNAL "Internal Server Error" (json_lit "{'error':'internal_error'}")
    end).
End http_api.
