(* ===== verification/HttpApiProperties.v ===== *)
(** * Properties of the HTTP API

    Every request gets one answer; which handler runs; what the handlers that
    change or read the messages do; the list of messages does not depend on the
    order of arrival; a message one node creates is accepted by another. *)

From S2P Require Import Prelude Cxx Protocol Utf8 Json ModelJson MessageCodec Sqlite ModelDb.
From S2P Require Import MessageStore StoreProperties Env Node Ledger Clock PeerRegistry Discovery.
From S2P Require Import EventStream Replication MessageService Http HttpApi.
Open Scope Z_scope.

(** ** One answer per request *)

Definition is_answer (r : Z) (e : effect) : bool :=
  match e with
  | Reply r' _ _ _ _ | SendError r' | StartStream r' _ => r' =? r
  | _ => false
  end.

Definition answer_count (r : Z) (l : list effect) : nat := length (filter (λ e, is_answer r e = true) l).

Lemma answers_app r l1 l2 : answer_count r (l1 ++ l2) = (answer_count r l1 + answer_count r l2)%nat.
Proof. unfold answer_count. by rewrite filter_app, length_app. Qed.

Lemma answers_one r e : answer_count r [e] = if is_answer r e then 1%nat else 0%nat.
Proof. unfold answer_count. rewrite filter_cons. destruct (is_answer r e); [by rewrite decide_True|by rewrite decide_False]. Qed.

(** Nothing was answered to [r]. *)
Definition unanswered {D W} (r : Z) (n n' : Node D W) : Prop :=
  ∃ l, trace n' = trace n ++ l ∧ answer_count r l = 0%nat.

#[global] Instance unanswered_preorder {D W} r : PreOrder (@unanswered D W r).
Proof.
  split.
  - intros n. exists []. by rewrite app_nil_r.
  - intros n1 n2 n3 (l1 & H1 & ?) (l2 & H2 & ?). exists (l1 ++ l2).
    rewrite H2, H1, <- app_assoc, answers_app. split; [done|lia].
Qed.

(** A run that returns [a] has answered [k a] times, one that throws not at all. *)
Definition answered {D W A} (r : Z) (m : M (Node D W) A) (k : A → nat) : Prop :=
  ∀ n, ∃ l, trace (m n).2 = trace n ++ l ∧
    match (m n).1 with
    | Ok a => answer_count r l = k a
    | Throw _ => answer_count r l = 0%nat
    | Undefined => True
    end.

Definition once {D W} (r : Z) (m : M (Node D W) unit) : Prop := answered r m (λ _, 1%nat).

Section rules.
Context {D W : Type} (r : Z).

Lemma same_unanswered {A} (m : M (Node D W) A) : keeps (same trace) m → keeps (unanswered r) m.
Proof. intros Hm n. exists []. rewrite app_nil_r. by split; [apply Hm|]. Qed.

Lemma emit_unanswered e : is_answer r e = false → keeps (@unanswered D W r) (emit e).
Proof. intros He n. exists [e]. split; [done|]. by rewrite answers_one, He. Qed.

Lemma unanswered_answered {A} (m : M (Node D W) A) k : keeps (unanswered r) m → (∀ a, k a = 0%nat) →
  answered r m k.
Proof.
  intros Hm Hk n. destruct (Hm n) as (l & Hl & Ha). exists l. split; [done|].
  destruct (m n) as [[a|e|] n']; cbn; [by rewrite Hk|done|done].
Qed.

Lemma answered_bind {A B} (m : M (Node D W) A) (f : A → M (Node D W) B) k :
  keeps (unanswered r) m → (∀ a, answered r (f a) k) → answered r (m ≫= f) k.
Proof.
  intros Hm Hf n. destruct (Hm n) as (l1 & Hl1 & Ha1). unfold mbind, M_bind.
  destruct (m n) as [[a|e|] n1]; cbn in Hl1; [|by exists l1..].
  destruct (Hf a n1) as (l2 & Hl2 & Ha2). exists (l1 ++ l2). rewrite Hl2, Hl1, app_assoc.
  split; [done|]. destruct (f a n1) as [[b|e|] n2]; cbn in *; rewrite ?answers_app; lia || done.
Qed.

(** A step that may have answered: then nothing more happens. *)
Lemma answered_then {A} (m : M (Node D W) (option A)) (f : option A → M (Node D W) unit) :
  answered r m (λ o, match o with None => 1%nat | Some _ => 0%nat end) →
  f None = mret tt → (∀ a, once r (f (Some a))) → once r (m ≫= f).
Proof.
  intros Hm Hn Hs n. destruct (Hm n) as (l1 & Hl1 & Ha1). unfold mbind, M_bind.
  destruct (m n) as [[[a|]|e|] n1]; cbn in Hl1, Ha1; [| |by exists l1..].
  - destruct (Hs a n1) as (l2 & Hl2 & Ha2). exists (l1 ++ l2). rewrite Hl2, Hl1, app_assoc.
    split; [done|]. destruct (f (Some a) n1) as [[b|e|] n2]; cbn in *; rewrite ?answers_app; lia || done.
  - rewrite Hn. by exists l1.
Qed.

Lemma answered_ret {A} (a : A) k : k a = 0%nat → answered r (mret a : M (Node D W) A) k.
Proof. intros Hk n. exists []. rewrite app_nil_r. by split. Qed.

Lemma answered_undefined {A} k : answered r (undefined : M (Node D W) A) k.
Proof. intros n. exists []. by rewrite app_nil_r. Qed.
End rules.

#[export] Hint Resolve same_unanswered : leschat.
#[export] Hint Extern 1 (keeps (unanswered _) (emit _)) => (apply emit_unanswered; reflexivity) : leschat.
#[export] Hint Extern 2 (keeps (unanswered _) (call _)) =>
  (apply same_unanswered, call_keeps; intros ? ?; reflexivity) : leschat.
#[export] Hint Extern 2 (keeps (unanswered _) (on_store _)) =>
  (apply same_unanswered, on_store_keeps; intros ? ?; reflexivity) : leschat.
#[export] Hint Extern 2 (keeps (unanswered _) (modify _)) =>
  (apply same_unanswered, keeps_modify; intros ?; reflexivity) : leschat.
#[export] Hint Extern 2 (keeps (unanswered _) current_time_ms) =>
  (apply same_unanswered, current_time_keeps; intros ? ?; reflexivity) : leschat.
#[export] Hint Extern 2 (keeps (unanswered _) _) =>
  (apply keeps_reads; [apply _|solve [eauto 2 with leschat]]) : leschat.

Section once.
Context `{JsonC J} `{Sqlite D} `{Env W} `{Unordered} (cfg : Config).
Variable request : evhttp_request.
Abbreviation r := (req_id request).

Lemma send_json_once status reason body : once r (send_json request status reason body : M (Node D W) unit).
Proof.
  unfold once, send_json, send_response. apply answered_bind; [eauto 2 with leschat|intros b].
  intros n. destruct b; cbn [negb]; rewrite emit_run; eexists; (split; [reflexivity|]);
    cbn [fst snd]; rewrite answers_one; cbn; by rewrite Z.eqb_refl.
Qed.

Lemma active_peers_unanswered now : keeps (@unanswered D W r) (active_peers now).
Proof. unfold active_peers, keep_active. solve_keeps. Qed.

Lemma publish_unanswered m : keeps (@unanswered D W r) (publish J m).
Proof. unfold publish, publish_event. solve_keeps. Qed.

Lemma create_local_unanswered text : keeps (@unanswered D W r) (create_local J cfg text).
Proof.
  unfold create_local, replicate_local, broadcast, replicate_to, post_request, drop_connection, log, set_next_sequence.
  solve_keeps; eauto using publish_unanswered, active_peers_unanswered.
Qed.

Lemma ingest_replica_unanswered m : keeps (@unanswered D W r) (ingest_replica J m).
Proof. unfold ingest_replica. solve_keeps; auto using publish_unanswered. Qed.

Lemma ingest_sync_unanswered m : keeps (@unanswered D W r) (ingest_sync J m).
Proof. unfold ingest_sync. solve_keeps; auto using publish_unanswered. Qed.

Lemma string_view_unanswered (j : J) s : keeps (@unanswered D W r) (string_view_is J j s).
Proof. unfold string_view_is. solve_keeps. Qed.

Lemma sync_member_unanswered (o : J) s k t : keeps (@unanswered D W r) (sync_member J o s k t).
Proof. unfold sync_member. solve_keeps; apply string_view_unanswered. Qed.

Lemma origins_unanswered s : keeps (@unanswered D W r) (origins_json J s).
Proof. unfold origins_json. solve_keeps. Qed.

Lemma envelope_unanswered s k (v : J) : keeps (@unanswered D W r) (sync_envelope J s k v).
Proof. unfold sync_envelope. solve_keeps. Qed.

Lemma answered_error {A} status reason body :
  answered r (send_json request status reason body;; mret (None : option A) : M (Node D W) _)
    (λ o, match o with None => 1%nat | Some _ => 0%nat end).
Proof.
  intros n. destruct (send_json_once status reason body n) as (l & Hl & Ha). unfold mbind, M_bind.
  exists l. destruct (send_json request status reason body n) as [[[]|e|] n']; cbn in *; done.
Qed.

Lemma read_json_object_answered limit complete invalid :
  answered r (read_json_object J request limit complete invalid : M (Node D W) (option J))
    (λ o, match o with None => 1%nat | Some _ => 0%nat end).
Proof.
  unfold read_json_object. destruct (negb _); [apply answered_error|].
  apply answered_bind; [eauto 2 with leschat|intros text].
  apply answered_bind; [eauto 2 with leschat|intros parsed].
  destruct (_ || _); [apply answered_error|by apply answered_ret].
Qed.

Lemma sync_loop_answered (messages : J) indices accepted :
  answered r (sync_loop J request messages indices accepted : M (Node D W) (option Z))
    (λ o, match o with None => 1%nat | Some _ => 0%nat end).
Proof.
  revert accepted. induction indices as [|i indices IH]; intros accepted; cbn; [by apply answered_ret|].
  destruct (parse_message _) as [m|]; [|apply answered_error].
  apply answered_bind; [apply ingest_sync_unanswered|intros taken; apply IH].
Qed.

(** The handlers that compute a body and send it. *)
Lemma send_after {A} (m : M (Node D W) A) status reason (body : A → string) :
  keeps (unanswered r) m → once r (a ← m; send_json request status reason (body a)).
Proof. intros Hm. apply answered_bind; [done|intros a; apply send_json_once]. Qed.

Lemma create_message_once : once r (handle_create_message J cfg request : M (Node D W) unit).
Proof.
  unfold handle_create_message. apply answered_then; [apply read_json_object_answered|done|].
  intros parsed. destruct (get_typed _ _ _) as [b|]; [|apply send_json_once].
  destruct (json_object_get_string b) as [data|]; [|apply send_json_once].
  destruct (_ <=? _); [apply send_json_once|]. cbv zeta. destruct (_ <? _); [apply send_json_once|].
  destruct (negb _); [apply send_json_once|].
  apply answered_bind; [apply create_local_unanswered|intros m].
  apply answered_bind; [eauto 2 with leschat|intros o].
  apply answered_bind; [eauto 2 with leschat|intros j].
  apply answered_bind; [eauto 2 with leschat|intros t]. apply send_json_once.
Qed.

Lemma replicate_message_once : once r (handle_replicate_message J request : M (Node D W) unit).
Proof.
  unfold handle_replicate_message. apply answered_then; [apply read_json_object_answered|done|].
  intros parsed. destruct (parse_message _) as [m|]; [|apply send_json_once].
  apply answered_bind; [apply ingest_replica_unanswered|intros b; apply send_json_once].
Qed.

Lemma sync_summary_once : once r (handle_sync_summary J request : M (Node D W) unit).
Proof.
  unfold handle_sync_summary, service_summary. apply answered_then; [apply read_json_object_answered|done|].
  intros parsed. apply answered_bind; [apply sync_member_unanswered|intros [o|]]; [|apply send_json_once].
  apply answered_bind; [eauto 2 with leschat|intros summary].
  apply answered_bind; [apply origins_unanswered|intros origins].
  apply answered_bind; [apply envelope_unanswered|intros j].
  apply answered_bind; [eauto 2 with leschat|intros t]. apply send_json_once.
Qed.

Lemma sync_messages_once : once r (handle_sync_messages J request : M (Node D W) unit).
Proof.
  unfold handle_sync_messages. apply answered_then; [apply read_json_object_answered|done|].
  intros parsed. apply answered_bind; [apply sync_member_unanswered|intros [o|]]; [|apply send_json_once].
  destruct (_ <? _); [apply send_json_once|].
  apply answered_then; [apply sync_loop_answered|done|intros n; apply send_json_once].
Qed.

Lemma get_messages_once : once r (handle_get_messages J request : M (Node D W) unit).
Proof.
  unfold handle_get_messages, service_messages, add_items.
  do 5 (apply answered_bind; [solve_keeps|intros ?]); apply send_json_once.
Qed.

Lemma get_peers_once : once r (handle_get_peers J request : M (Node D W) unit).
Proof.
  unfold handle_get_peers, peer_item.
  do 6 (apply answered_bind; [solve_keeps; auto using active_peers_unanswered|intros ?]);
    apply send_json_once.
Qed.

Lemma web_asset_once f t : once r (send_web_asset cfg request f t : M (Node D W) unit).
Proof.
  unfold send_web_asset, load_web_asset. apply answered_bind; [solve_keeps|intros contents].
  unfold send_response. apply answered_bind; [eauto 2 with leschat|intros b].
  intros n. destruct b; cbn [negb]; rewrite emit_run; eexists; (split; [reflexivity|]);
    cbn [fst snd]; rewrite answers_one; cbn; by rewrite Z.eqb_refl.
Qed.

Lemma open_stream_once : once r (subscribe (MkSubscriber r (req_connection request)) : M (Node D W) unit).
Proof.
  intros n. eexists. split; [unfold subscribe, set_requests, emit, gets, modify, mbind, M_bind; cbn;
    by rewrite <- !app_assoc|].
  cbn [fst]. unfold answer_count. cbn [app].
  by rewrite !filter_cons; cbn; rewrite Z.eqb_refl.
Qed.

Lemma run_handler_once h : once r (run_handler J cfg h request : M (Node D W) unit).
Proof.
  destruct h; cbn; try apply web_asset_once.
  - apply send_json_once.
  - unfold handle_status. apply answered_bind; [unfold make_status_json, current_time_offset_ms; solve_keeps|].
    intros body; apply send_json_once.
  - apply get_messages_once.
  - apply create_message_once.
  - apply get_peers_once.
  - apply replicate_message_once.
  - apply sync_summary_once.
  - apply sync_messages_once.
  - apply open_stream_once.
Qed.

Lemma process_request_once : once r (process_request J cfg request : M (Node D W) unit).
Proof.
  unfold process_request. destruct (empty _); [apply send_json_once|].
  destruct (find_route _ _ _ _) as [h|[|]]; [apply run_handler_once|apply send_json_once..].
Qed.

(** No reply of the helpers throws. *)
Lemma send_json_ok status reason body (n : Node D W) :
  ∃ n', send_json request status reason body n = (Ok tt, n').
Proof.
  unfold send_json, send_response. rewrite (bind_run _ _ _ _ _ (call_run _ n)).
  destruct (evbuffer_new (world n)).1; cbn [negb]; rewrite emit_run; eauto.
Qed.
End once.

(** ** Routing *)

Definition route_key (x : Route) : evhttp_cmd_type * string := (method x, path x).

Lemma routes_distinct : NoDup (route_key <$> routes).
Proof. by apply (bool_decide_unpack _). Qed.

Lemma find_route_inl b m p l h : find_route b m p l = inl h → MkRoute m p h ∈ l.
Proof.
  revert b. induction l as [|[m' p' h'] l IH]; intros b; cbn; [done|].
  destruct (str_eqb p' p) eqn:E; cbn; [|intros; right; eauto].
  apply str_eqb_true in E as ->. case_decide; [intros [= <-]; subst; left|intros; right; eauto].
Qed.

Lemma find_route_inr b m p l b' : find_route b m p l = inr b' →
  (∀ h, MkRoute m p h ∉ l) ∧ (b' = true ↔ b = true ∨ ∃ x, x ∈ l ∧ path x = p).
Proof.
  revert b. induction l as [|[m' p' h'] l IH]; intros b; cbn.
  { intros [= <-]. split; [intros h; apply not_elem_of_nil|]. split; [by left|].
    intros [?|(x & Hx & _)]; [done|by apply not_elem_of_nil in Hx]. }
  destruct (str_eqb p' p) eqn:E; cbn.
  - apply str_eqb_true in E as ->. case_decide as Hm; [done|]. intros [Hn Hb]%IH. split.
    + intros h [[= -> ->]|Hin]%elem_of_cons; [done|by apply (Hn h)].
    + rewrite Hb. split; intros _; [right; eexists; split; [left|done]|by left].
  - apply str_eqb_false in E. intros [Hn Hb]%IH. split.
    + intros h [[= -> -> ->]|Hin]%elem_of_cons; [done|by apply (Hn h)].
    + rewrite Hb. apply or_iff_compat_l. split; intros (x & Hx & Hp).
      * exists x. split; [by right|done].
      * apply elem_of_cons in Hx as [->|Hx]; [done|by exists x].
Qed.

Lemma find_route_found m p h : MkRoute m p h ∈ routes → find_route false m p routes = inl h.
Proof.
  intros Hin. destruct (find_route false m p routes) as [h'|b] eqn:E.
  - apply find_route_inl in E.
    by assert (MkRoute m p h' = MkRoute m p h) as [= ->]
      by (eapply (NoDup_fmap_inj route_key); [apply routes_distinct|done..]).
  - apply find_route_inr in E as [Hn _]. by destruct (Hn h).
Qed.

(** ** The order of the message list *)

(** Lexicographic orders, as the comparison function is written. *)
Section lex.
Context {A K : Type} `{EqDecision K} (key : A → K) (lt1 : K → K → bool) (lt2 : A → A → bool).

Definition lex (x y : A) : bool :=
  if negb (bool_decide (key x = key y)) then lt1 (key x) (key y) else lt2 x y.

Hypothesis lt1_asym : ∀ a b, lt1 a b = true → lt1 b a = false.
Hypothesis lt1_trans : ∀ a b c, lt1 b a = false → lt1 c b = false → lt1 c a = false.
Hypothesis lt1_antisym : ∀ a b, lt1 a b = false → lt1 b a = false → a = b.
Hypothesis lt2_asym : ∀ x y, lt2 x y = true → lt2 y x = false.
Hypothesis lt2_trans : ∀ x y z, lt2 y x = false → lt2 z y = false → lt2 z x = false.

Lemma lex_eq x y : key x = key y → lex x y = lt2 x y.
Proof. intros E. unfold lex. by rewrite bool_decide_eq_true_2. Qed.
Lemma lex_ne x y : key x ≠ key y → lex x y = lt1 (key x) (key y).
Proof. intros E. unfold lex. by rewrite bool_decide_eq_false_2. Qed.

Lemma lex_asym x y : lex x y = true → lex y x = false.
Proof.
  destruct (decide (key x = key y)) as [E|E].
  - rewrite !lex_eq by done. apply lt2_asym.
  - rewrite !lex_ne by done. apply lt1_asym.
Qed.

Lemma lex_trans x y z : lex y x = false → lex z y = false → lex z x = false.
Proof.
  destruct (decide (key y = key x)) as [E1|E1], (decide (key z = key y)) as [E2|E2].
  - rewrite !lex_eq by congruence. apply lt2_trans.
  - rewrite (lex_eq y x), !lex_ne, E1 by congruence. done.
  - rewrite (lex_eq z y), !lex_ne, E2 by congruence. done.
  - rewrite (lex_ne y x), (lex_ne z y) by done. intros H1 H2.
    destruct (decide (key z = key x)) as [E3|E3].
    + destruct E2. rewrite E3 in H2 |- *. by apply lt1_antisym.
    + rewrite lex_ne by done. eauto.
Qed.

Lemma lex_antisym x y : lex x y = false → lex y x = false →
  key x = key y ∧ lt2 x y = false ∧ lt2 y x = false.
Proof.
  destruct (decide (key x = key y)) as [E|E]; [by rewrite !lex_eq|].
  rewrite !lex_ne by done. intros H1 H2. by destruct E; apply lt1_antisym.
Qed.
End lex.

Lemma z_ltb_asym a b : (a <? b) = true → (b <? a) = false.
Proof. rewrite Z.ltb_lt, Z.ltb_ge. lia. Qed.
Lemma z_le_trans a b c : (b <? a) = false → (c <? b) = false → (c <? a) = false.
Proof. rewrite !Z.ltb_ge. lia. Qed.
Lemma z_le_antisym a b : (a <? b) = false → (b <? a) = false → a = b.
Proof. rewrite !Z.ltb_ge. lia. Qed.

Definition lt_id (x y : ChatMessage) : bool := str_ltb (message_id x) (message_id y).
Definition lt_sequence := lex sequence Z.ltb lt_id.
Definition lt_origin := lex origin str_ltb lt_sequence.

Lemma message_lt_lex x y : message_lt x y = lex created_at_ms Z.ltb lt_origin x y.
Proof.
  unfold message_lt, lt_origin, lt_sequence, lex, str_eqb.
  rewrite !(bool_decide_ext (_ =@{Z} _) ((_ =? _) = true)) by (by rewrite Z.eqb_eq).
  by destruct (_ =? _), (_ =? _).
Qed.

Lemma lt_sequence_asym x y : lt_sequence x y = true → lt_sequence y x = false.
Proof. apply lex_asym; [apply z_ltb_asym|intros ??; apply str_ltb_asym]. Qed.
Lemma lt_sequence_trans x y z : lt_sequence y x = false → lt_sequence z y = false → lt_sequence z x = false.
Proof. apply lex_trans; [apply z_le_trans|apply z_le_antisym|intros ???; apply str_le_trans]. Qed.
Lemma lt_origin_asym x y : lt_origin x y = true → lt_origin y x = false.
Proof. apply lex_asym; [apply str_ltb_asym|apply lt_sequence_asym]. Qed.
Lemma lt_origin_trans x y z : lt_origin y x = false → lt_origin z y = false → lt_origin z x = false.
Proof. apply lex_trans; [apply str_le_trans|apply str_le_antisym|apply lt_sequence_trans]. Qed.

Lemma message_lt_asym x y : message_lt x y = true → message_lt y x = false.
Proof. rewrite !message_lt_lex. apply lex_asym; [apply z_ltb_asym|apply lt_origin_asym]. Qed.
Lemma message_lt_trans x y z : message_lt y x = false → message_lt z y = false → message_lt z x = false.
Proof.
  rewrite !message_lt_lex. apply lex_trans; [apply z_le_trans|apply z_le_antisym|apply lt_origin_trans].
Qed.

(** Messages the order does not separate have the same origin and sequence. *)
Lemma message_lt_antisym x y : message_lt x y = false → message_lt y x = false →
  origin x = origin y ∧ sequence x = sequence y.
Proof.
  rewrite !message_lt_lex. intros Hxy Hyx.
  destruct (lex_antisym _ _ _ z_le_antisym x y Hxy Hyx) as (_ & H1 & H2).
  destruct (lex_antisym _ _ _ str_le_antisym x y H1 H2) as (? & H3 & H4).
  by destruct (lex_antisym _ _ _ z_le_antisym x y H3 H4) as (? & _).
Qed.

Lemma sort_messages_sorted l : StronglySorted (sort_le message_lt) (sort_messages l).
Proof. apply stable_sort_sorted; [apply message_lt_asym|apply message_lt_trans]. Qed.
Lemma sort_messages_perm l : sort_messages l ≡ₚ l.
Proof. apply stable_sort_perm. Qed.

(** Two arrangements of the messages of a log are sorted into one list. *)
Lemma sort_messages_log a l : log_ok a → l ≡ₚ entries a → sort_messages l = sort_messages (entries a).
Proof.
  intros Hlog Hp. apply (sorted_unique message_lt); [|apply sort_messages_sorted..|by rewrite !sort_messages_perm].
  intros x y Hx Hy Hxy Hyx. rewrite sort_messages_perm, Hp in Hx, Hy.
  destruct (message_lt_antisym x y Hxy Hyx) as [Ho Hs].
  apply list_elem_of_lookup in Hx as [i Hi], Hy as [j Hj].
  destruct (decide (i = j)) as [->|Hij]; [congruence|].
  pose proof (lo_unique _ Hlog i j x y Hi Hj Hij) as Hc. unfold conflicts in Hc.
  rewrite Ho, Hs, Z.eqb_refl, (proj2 (str_eqb_true _ _) eq_refl), orb_true_r in Hc. done.
Qed.

(** ** Arrays of messages *)

Section arrays.
Context `{JsonLaws J}.

Definition array_of (a : J) (l : list ChatMessage) : J :=
  foldl (λ a m, json_object_array_add a (message_json m)) a l.

Lemma array_of_type a l : json_object_get_type a = json_type_array →
  json_object_get_type (array_of a l) = json_type_array.
Proof. revert a. induction l as [|m l IH]; intros a Ha; cbn; [done|]. by apply IH, law_type_array_add. Qed.

Lemma array_of_length a l : json_object_get_type a = json_type_array →
  json_object_array_length (array_of a l) = json_object_array_length a + Z.of_nat (length l).
Proof.
  revert a. induction l as [|m l IH]; intros a Ha; cbn; [lia|].
  rewrite IH by by apply law_type_array_add. rewrite law_array_length_add by done. lia.
Qed.

(** Growing an array does not change the elements it has. *)
Lemma array_of_old a l i : json_object_get_type a = json_type_array →
  0 ≤ i < json_object_array_length a →
  json_object_array_get_idx (array_of a l) i = json_object_array_get_idx a i.
Proof.
  revert a. induction l as [|m l IH]; intros a Ha Hi; cbn; [done|].
  rewrite IH; [|by apply law_type_array_add|rewrite law_array_length_add by done; lia].
  rewrite law_array_get_add by (done || lia). by rewrite decide_False by lia.
Qed.

Lemma array_of_get a l k m : json_object_get_type a = json_type_array → l !! k = Some m →
  json_object_array_get_idx (array_of a l) (json_object_array_length a + Z.of_nat k) = message_json m.
Proof.
  revert a k. induction l as [|x l IH]; intros a k Ha Hk; [done|]. pose proof (law_array_length_nonneg a).
  pose proof (law_array_length_add a (message_json x) Ha) as Hlen.
  pose proof (law_type_array_add a (message_json x) Ha) as Ht. cbn. destruct k as [|k].
  - cbn in Hk. simplify_eq. rewrite array_of_old by (done || lia).
    rewrite law_array_get_add by (done || lia). by rewrite decide_True by lia.
  - cbn in Hk. rewrite <- (IH _ k Ht Hk). f_equal. lia.
Qed.

Lemma array_of_built d a l : json_object_get_type a = json_type_array → built (S (S d)) a →
  Forall (λ m, in_i64 (created_at_ms m) ∧ size (body m) ≤ i32_max) l → built (S (S d)) (array_of a l).
Proof.
  intros Ha Hb Hl. revert a Ha Hb. induction Hl as [|m l [Hc Hs] _ IH]; intros a Ha Hb; cbn; [done|].
  apply IH; [by apply law_type_array_add|]. apply built_array_add; [done..|].
  by apply message_json_built; [lia|..].
Qed.

Lemma add_items_run `{Sqlite D} `{Env W} (items : J) l (n : Node D W) :
  add_items J items l n = (Ok (array_of items l), n).
Proof.
  revert items. induction l as [|m l IH]; intros items; cbn; [done|].
  unfold add_items in IH |- *. cbn. rewrite (bind_run _ _ n (json_object_array_add items (message_json m)) n).
  - apply IH.
  - by rewrite (bind_run _ _ _ _ _ (message_to_json_run m n)).
Qed.
End arrays.

(** ** Reading a request *)

(** [t] is the text of [j], and is parsed back whole. *)
Definition text_of {J} `{JsonC J} (j : J) (t : string) : Prop :=
  ∀ S (s : S), serialize_json j s = (Ok t, s) ∧
    parse_json t s = (Ok (MkParse j json_tokener_success (size t)), s).

Section reading.
Context `{JsonLaws J} `{Sqlite D} `{EnvLaws W} `{Unordered} (cfg : Config).
Implicit Types n : Node D W.

Lemma serialized_text_of {S'} d (j : J) t (s' : S') : built d j → (d < 32)%nat →
  serialize_json j s' = (Ok t, s') → size t ≤ i32_max → text_of j t.
Proof.
  intros Hb Hd Ht Hsz S s. destruct (law_serialize d j Hb Hd) as (t' & Hs & Hn & Hp).
  unfold serialize_json in *. rewrite Hs, c_str_no_nul in * by done. unfold mret, M_ret in Ht. simplify_eq.
  split; [done|]. unfold parse_json. rewrite law_tokener_new. cbn [negb].
  pose proof (size_nonneg t). rewrite cast_i32_small by (unfold_ints; lia). by rewrite Hp.
Qed.

(** A value that was built has a text. *)
Lemma built_text d (j : J) : built d j → (d < 32)%nat →
  ∃ t, (∀ S (s : S), serialize_json j s = (Ok t, s)) ∧ (size t ≤ i32_max → text_of j t).
Proof.
  intros Hb Hd. destruct (law_serialize d j Hb Hd) as (t & Hser & Hn & _).
  assert (∀ S (s : S), serialize_json j s = (Ok t, s)) as Htext
    by (intros S s; unfold serialize_json; by rewrite Hser, c_str_no_nul).
  exists t. split; [done|]. intros Hsz. exact (serialized_text_of d j t tt Hb Hd (Htext _ tt) Hsz).
Qed.

Lemma message_text_of m t : valid_message m → has_text J m t → size t ≤ i32_max →
  text_of (message_json (J := J) m) t.
Proof.
  intros (_ & Hc & Hb & _)%valid_ranges Ht Hsz. specialize (Ht unit tt). unfold message_text in Ht.
  rewrite (bind_run _ _ _ _ _ (message_to_json_run m tt)) in Ht.
  refine (serialized_text_of 1 _ _ tt _ _ Ht Hsz); [by apply message_json_built|lia].
Qed.

Lemma read_json_object_run request limit complete invalid (j : J) n :
  has_json_content_type request = true → size (req_input request) ≤ limit →
  text_of j (req_input request) → json_object_get_type j = json_type_object →
  read_json_object J request limit complete invalid n = (Ok (Some j), n).
Proof.
  intros Hct Hsz Ht Hj. unfold read_json_object. rewrite Hct. cbn [negb].
  pose proof (read_request_body_run request limit n) as Hr.
  rewrite (proj2 (Z.ltb_ge _ _) Hsz) in Hr. rewrite (bind_run _ _ _ _ _ Hr).
  rewrite (bind_run _ _ _ _ _ (proj2 (Ht _ n))). cbn [parsed_error parsed_object parse_end].
  rewrite !Z.eqb_refl, (proj2 (json_is_object_true _) Hj). by rewrite andb_false_r.
Qed.

(** A request that is too large is rejected before it is looked at. *)
Lemma read_json_object_large request limit complete invalid n :
  has_json_content_type request = true → limit < size (req_input request) →
  read_json_object J request limit complete invalid n = (Throw (LengthError "request_too_large"), n).
Proof.
  intros Hct Hsz. unfold read_json_object. rewrite Hct. cbn [negb]. unfold mbind, M_bind.
  rewrite read_request_body_run. by rewrite (proj2 (Z.ltb_lt _ _) Hsz).
Qed.

Lemma process_route request h n : empty (request_path W request) = false →
  MkRoute (req_command request) (request_path W request) h ∈ routes →
  process_request J cfg request n = run_handler J cfg h request n.
Proof. intros Hp Hr. unfold process_request. by rewrite Hp, (find_route_found _ _ _ Hr). Qed.

(** A POST with a JSON body to one of the paths of the API. *)
Record posts (request : evhttp_request) (p : string) (h : handler) : Prop := {
  ps_path : request_path W request = p;
  ps_json : has_json_content_type request = true;
  ps_route : MkRoute (req_command request) p h ∈ routes;
}.

Lemma posts_run request p h n : posts request p h →
  process_request J cfg request n = run_handler J cfg h request n.
Proof.
  intros [Hp _ Hr]. apply process_route; [|by rewrite Hp]. rewrite Hp. clear Hp.
  apply not_true_is_false. intros ->%empty_true.
  assert (Forall (λ x, path x ≠ EmptyString) routes) as Hne by (by repeat constructor).
  rewrite Forall_forall in Hne. by apply (Hne _ Hr).
Qed.

Lemma posts_large request p h n : posts request p h →
  h = replicate_message ∧ max_request_bytes < size (req_input request) ∨
  h = sync_summary ∧ max_request_bytes < size (req_input request) ∨
  h = sync_messages ∧ max_sync_request_bytes < size (req_input request) →
  handle_request J cfg request n =
    send_json request 413 "Payload Too Large" (json_lit "{'error':'request_too_large'}") n.
Proof.
  intros Hp Hh. unfold handle_request, try_catch. rewrite (posts_run _ _ _ _ Hp).
  destruct Hp as [_ Hct _].
  destruct Hh as [[-> Hsz]|[[-> Hsz]|[-> Hsz]]]; cbn [run_handler];
    unfold handle_replicate_message, handle_sync_summary, handle_sync_messages, mbind, M_bind;
    by rewrite read_json_object_large.
Qed.

(** *** The synchronisation envelope *)

Definition envelope (type_name member : string) (value : J) : J :=
  json_object_object_add (json_object_object_add (json_object_object_add json_object_new_object
    "protocol" (json_object_new_int protocol_version))
    "type" (json_object_new_string type_name)) member value.

Lemma sync_envelope_run type_name member value n :
  sync_envelope J type_name member value n = (Ok (envelope type_name member value), n).
Proof. unfold sync_envelope. by rewrite (bind_run _ _ _ _ _ (make_json_object_run n)). Qed.

Local Hint Resolve law_type_add law_type_object : core.

Lemma envelope_type type_name member value :
  json_object_get_type (envelope type_name member value) = json_type_object.
Proof. unfold envelope. auto. Qed.

Lemma envelope_built d type_name member value : no_nul type_name = true → no_nul member = true →
  built d value → built (S d) (envelope type_name member value).
Proof.
  intros Ht Hm Hv. unfold envelope. apply built_object_add; [auto|done| |done].
  apply built_object_add; [auto|done| |by constructor].
  apply built_object_add; [auto|done|constructor|]. constructor. by unfold_ints.
Qed.

Lemma sync_member_run type_name member value t n : no_nul type_name = true →
  member ≠ "protocol" → member ≠ "type" → json_object_get_type value = t →
  sync_member J (envelope type_name member value) type_name member t n = (Ok (Some value), n).
Proof.
  intros Hn Hm1 Hm2 Hv. unfold sync_member, envelope.
  assert (∀ k v t', json_object_object_get_ex (envelope type_name member value) k = Some v →
    json_object_get_type v = t' → get_typed (envelope type_name member value) k t' = Some v) as Hget.
  { intros k v t' Hk Hvt. by apply get_typed_Some. }
  unfold envelope in Hget.
  rewrite (Hget "protocol" (json_object_new_int protocol_version));
    [|by rewrite !law_get_ex_add, (decide_False (P := member = _)) by auto|apply law_type_int].
  rewrite law_get_int by (by unfold_ints). rewrite Z.eqb_refl. cbn [negb].
  rewrite (Hget "type" (json_object_new_string type_name));
    [|by rewrite !law_get_ex_add, (decide_False (P := member = _)) by auto|apply law_type_string].
  unfold string_view_is. rewrite law_get_string by done.
  rewrite (bind_run _ _ n true n).
  - rewrite (Hget member value); [done| |done]. by rewrite law_get_ex_add, decide_True by auto.
  - unfold mret, M_ret. by rewrite c_str_no_nul, (proj2 (str_eqb_true _ _) eq_refl).
Qed.
End reading.
Arguments posts W {_} request p h.

(** ** What the handlers of messages do *)

Section handlers.
Context `{JsonLaws J} `{Sqlite D} `{EnvLaws W} `{Unordered} (cfg : Config).
Implicit Types n : Node D W.

(** The batch as sync_messages sees it: the messages as they are read back. *)
Fixpoint ingest_items (request : evhttp_request) (l : list ChatMessage) (accepted : Z) :
    M (Node D W) (option Z) :=
  match l with
  | [] => mret (Some accepted)
  | m :: l' =>
      match parse_message (message_json (J := J) m) with
      | None =>
          send_json request HTTP_BADREQUEST "Bad Request" (json_lit "{'error':'invalid_sync_message'}");;
          mret None
      | Some m' =>
          taken ← ingest_sync J m';
          ingest_items request l' (if taken : bool then accepted + 1 else accepted)
      end
  end.

Lemma sync_loop_items request l k rest accepted n : drop k l = rest → Z.of_nat (length l) ≤ i32_max →
  sync_loop J request (array_of json_object_new_array l) (Z.of_nat <$> seq k (length rest)) accepted n =
  ingest_items request rest accepted n.
Proof.
  revert k accepted n. induction rest as [|m rest IH]; intros k accepted n Hd Hl; [done|].
  assert (l !! k = Some m) as Hk by (by rewrite <- (Nat.add_0_r k), <- lookup_drop, Hd).
  pose proof (lookup_lt_Some _ _ _ Hk) as Hlt. cbn [length seq fmap list_fmap sync_loop ingest_items].
  rewrite cast_i32_small by (unfold_ints; lia).
  pose proof (array_of_get json_object_new_array l k m law_type_array Hk) as Hg.
  rewrite law_array_length_empty in Hg. change (0 + Z.of_nat k) with (Z.of_nat k) in Hg. rewrite Hg.
  destruct (parse_message (message_json m)) as [m'|]; [|done].
  unfold mbind, M_bind. destruct (ingest_sync J m' n) as [[taken|e|] n1]; [|done|done].
  apply IH; [|done]. replace (S k) with (k + 1)%nat by lia. by rewrite <- drop_drop, Hd.
Qed.

(** The batch with the messages [l], as send_missing builds it. *)
Definition batch (l : list ChatMessage) : J :=
  envelope "sync_messages" "messages" (array_of json_object_new_array l).

Lemma sync_messages_run request l n : posts W request "/api/v1/sync/messages" sync_messages →
  text_of (batch l) (req_input request) → size (req_input request) ≤ max_sync_request_bytes →
  (length l ≤ 50)%nat →
  process_request J cfg request n =
    (result ← ingest_items request l 0;
     match result with
     | None => mret tt
     | Some accepted => send_json request HTTP_OK "OK"
         (json_lit "{'status':'accepted','count':" +:+ to_string accepted +:+ "}")
     end) n.
Proof.
  intros Hp Ht Hsz Hl. rewrite (posts_run cfg _ _ _ n Hp). cbn [run_handler]. unfold handle_sync_messages.
  rewrite (bind_run _ _ _ _ _ (read_json_object_run request _ true _ (batch l) n (ps_json _ _ _ Hp) Hsz Ht
    (envelope_type _ _ _))).
  assert (json_object_get_type (array_of (J := J) json_object_new_array l) = json_type_array) as Hty
    by apply array_of_type, law_type_array.
  rewrite (bind_run _ _ _ _ _ (sync_member_run "sync_messages" "messages" _ _ n eq_refl
    ltac:(done) ltac:(done) Hty)).
  rewrite array_of_length by apply law_type_array. rewrite law_array_length_empty.
  rewrite (proj2 (Z.ltb_ge _ _)) by (unfold max_sync_batch_messages; lia). cbv zeta.
  replace (Z.to_nat (0 + Z.of_nat (length l))) with (length l) by lia.
  unfold mbind, M_bind. rewrite (sync_loop_items request l 0 l 0 n); [done|by rewrite drop_0|].
  unfold_ints. lia.
Qed.

Lemma replicate_value_run request (j : J) n : posts W request "/api/v1/replicate" replicate_message →
  text_of j (req_input request) → json_object_get_type j = json_type_object →
  size (req_input request) ≤ max_request_bytes →
  process_request J cfg request n =
    (match parse_message j with
     | None => send_json request HTTP_BADREQUEST "Bad Request" (json_lit "{'error':'invalid_message'}")
     | Some m =>
         accepted ← ingest_replica J m;
         send_json request HTTP_OK "OK"
           (if accepted : bool then json_lit "{'status':'accepted'}" else json_lit "{'status':'duplicate'}")
     end) n.
Proof.
  intros Hp Ht Hty Hsz. rewrite (posts_run cfg _ _ _ n Hp). cbn [run_handler]. unfold handle_replicate_message.
  by rewrite (bind_run _ _ _ _ _ (read_json_object_run request _ true _ j n (ps_json _ _ _ Hp) Hsz Ht Hty)).
Qed.

(** What a valid message that travels unchanged does. *)
Lemma replicate_accepts_run request m n : posts W request "/api/v1/replicate" replicate_message →
  valid_message m → nul_free m = true → has_text J m (req_input request) → size (req_input request) ≤ 4096 →
  process_request J cfg request n =
    (accepted ← ingest_replica J m;
     send_json request HTTP_OK "OK"
       (if accepted : bool then json_lit "{'status':'accepted'}" else json_lit "{'status':'duplicate'}")) n.
Proof.
  intros Hp Hv Hn Ht Hsz. rewrite (replicate_value_run request (message_json m) n Hp);
    [|apply message_text_of; [done..|]|apply message_json_type|done].
  - rewrite parse_message_json, (proj2 (truncated_fixed m) Hn) by done. by rewrite valid_acceptable.
  - unfold_ints. lia.
Qed.

(** A reply with status 200 and a body. *)
Definition replied request body n n' : Prop :=
  ∃ w, n' = with_world w (with_trace (trace n ++
    [Reply (req_id request) 200 "OK" (response_headers json_content_type) body]) n).

Lemma send_json_run request status reason body n : (evbuffer_new (world n)).1 = true →
  send_json request status reason body n =
    (Ok tt, with_world (evbuffer_new (world n)).2 (with_trace (trace n ++
      [Reply (req_id request) status reason (response_headers json_content_type) body]) n)).
Proof.
  intros Hb. unfold send_json, send_response. rewrite (bind_run _ _ _ _ _ (call_run _ n)).
  rewrite Hb. cbn [negb]. by rewrite emit_run.
Qed.

(** The list of messages is computed from the cached messages alone. *)
Lemma get_messages_run request n :
  handle_get_messages J request n =
    (body ← serialize_json (json_object_object_add (json_object_object_add json_object_new_object
       "messages" (array_of (J := J) json_object_new_array (sort_messages (messages_ (store_ n)))))
       "count" (json_object_new_int64 (cast_i64 (Z.of_nat (length (sort_messages (messages_ (store_ n))))))));
     send_json request HTTP_OK "OK" body) n.
Proof.
  unfold handle_get_messages. rewrite (bind_run _ _ _ _ _ (make_json_object_run n)).
  rewrite (bind_run _ _ _ _ _ (make_json_array_run n)).
  rewrite (bind_run _ _ n (messages_ (store_ n)) n) by (unfold service_messages; rewrite on_store_run; by destruct n).
  cbv zeta. by rewrite (bind_run _ _ _ _ _ (add_items_run _ _ n)).
Qed.
End handlers.

(** ** Creating a message over HTTP *)

Section creating.
Context `{JsonLaws J} `{Sqlite D} `{EnvLaws W} `{Unordered} (cfg : Config).
Implicit Types n : Node D W.

(** What create_message does with the text of an accepted body. *)
Definition create_and_reply (request : evhttp_request) (text : string) : M (Node D W) unit :=
  message ← create_local J cfg text;
  response ← (make_json_object : M _ J);
  message_json ← (message_to_json message : M _ J);
  let response := json_object_object_add response "message" message_json in
  text ← serialize_json response;
  send_json request HTTP_OK "OK" text.

(** A body that a message may have. *)
Definition acceptable_body (text : string) : Prop :=
  1 ≤ size text ≤ max_message_bytes ∧ is_valid_utf8 text = true.

#[global] Instance acceptable_body_dec text : Decision (acceptable_body text).
Proof. unfold acceptable_body. apply _. Defined.

Definition rejects request n (r : result unit * Node D W) : Prop :=
  ∃ status reason body, (status = 400 ∨ status = 413 ∨ status = 415) ∧
    r = send_json request status reason body n.

Lemma read_json_object_cases request limit complete invalid n :
  (∃ status reason body, (status = 400 ∨ status = 415) ∧
    read_json_object J request limit complete invalid n =
      (send_json request status reason body;; mret None) n) ∨
  limit < size (req_input request) ∧
    read_json_object J request limit complete invalid n = (Throw (LengthError "request_too_large"), n) ∨
  ∃ j : J, json_object_get_type j = json_type_object ∧
    read_json_object J request limit complete invalid n = (Ok (Some j), n).
Proof.
  unfold read_json_object. destruct (has_json_content_type request) eqn:Hct; cbn [negb].
  2: { left. by eexists 415, _, _; split; [right|]. }
  destruct (Z.ltb_spec limit (size (req_input request))) as [Hsz|Hsz].
  { right. left. split; [done|]. unfold mbind, M_bind. rewrite read_request_body_run.
    by rewrite (proj2 (Z.ltb_lt _ _) Hsz). }
  pose proof (read_request_body_run request limit n) as Hr. rewrite (proj2 (Z.ltb_ge _ _) Hsz) in Hr.
  rewrite (bind_run _ _ _ _ _ Hr).
  unfold parse_json. rewrite law_tokener_new. cbn [negb].
  destruct (json_tokener_parse_ex _ _) as [[j err] stop].
  rewrite (bind_run _ _ n (MkParse j err stop) n) by done. cbn [parsed_error parsed_object parse_end].
  destruct (_ || _) eqn:E.
  - left. eexists 400, _, _. by split; [left|].
  - right. right. exists j. split; [|done]. split_bools. by apply json_is_object_true.
Qed.

Lemma create_message_cases_run request n :
  rejects request n (handle_create_message J cfg request n) ∨
  max_request_bytes < size (req_input request) ∧
    handle_create_message J cfg request n = (Throw (LengthError "request_too_large"), n) ∨
  ∃ text, acceptable_body text ∧
    handle_create_message J cfg request n = create_and_reply request text n.
Proof.
  unfold handle_create_message.
  assert (∀ status reason text, status = 400 ∨ status = 413 ∨ status = 415 →
    rejects request n (send_json request status reason text n)) as Hrej by (intros; by eexists _, _, _).
  destruct (read_json_object_cases request max_request_bytes false (json_lit "{'error':'invalid_json'}") n)
    as [(status & reason & text & Hst & E)|[[Hsz E]|(j & Hj & E)]].
  - left. destruct (send_json_ok request status reason text n) as [n' Hn'].
    rewrite (bind_run _ _ _ _ _ Hn') in E. unfold mret, M_ret in E. rewrite (bind_run _ _ _ _ _ E).
    match goal with |- rejects _ _ ?x => change x with (Ok tt, n') end. rewrite <- Hn'. apply Hrej. lia.
  - right. left. by rewrite (bind_throw _ _ _ _ _ E).
  - rewrite (bind_run _ _ _ _ _ E).
    destruct (get_typed j "body" json_type_string) as [v|] eqn:Hv; [|left; apply Hrej; first [by left|by right; left]].
    apply get_typed_Some in Hv as [_ Hv]. destruct (law_string_view v Hv) as (data & -> & ->).
    destruct (Z.leb_spec (size data) 0); [left; apply Hrej; first [by left|by right; left]|]. rewrite assign_size. cbv zeta.
    destruct (Z.ltb_spec max_message_bytes (size data)); [left; apply Hrej; first [by left|by right; left]|].
    destruct (is_valid_utf8 data) eqn:Hu; cbn [negb]; [|left; apply Hrej; first [by left|by right; left]].
    right. right. exists data. split; [|done]. split; [lia|done].
Qed.

(** What the request asks for: the JSON object that json-c reads in its input, and
    the string member "body" of it. *)
Definition input_object (request : evhttp_request) : option J :=
  let '(j, error, _) := json_tokener_parse_ex (req_input request) (cast_i32 (size (req_input request))) in
  if (error =? json_tokener_success) && json_is_object j then Some j else None.
Definition body_text (request : evhttp_request) : option string :=
  j ← input_object request; json_get_string j "body".

(** The request was answered with an error and nothing else happened. *)
Definition refused (request : evhttp_request) (status : Z) n (r : result unit * Node D W) : Prop :=
  (∃ reason body, r = send_json request status reason body n) ∧
  ∃ w e, r = (Ok tt, with_world w (with_trace (trace n ++ [e]) n)).

Lemma send_json_refuses request status reason body n :
  refused request status n (send_json request status reason body n).
Proof.
  split; [by eexists _, _|]. unfold send_json, send_response. rewrite (bind_run _ _ _ _ _ (call_run _ n)).
  destruct (evbuffer_new (world n)) as [[] w]; cbn; by eexists _, _.
Qed.

(** A string member, and its absence. *)
Lemma get_body (j : J) : json_get_string j "body" =
  v ← get_typed j "body" json_type_string; json_object_get_string v.
Proof.
  unfold json_get_string, get_typed. destruct (json_object_object_get_ex j "body") as [v|]; [|done]. cbn.
  destruct (json_object_is_type v json_type_string) eqn:E; [|done]. cbn.
  destruct (law_string_view v (proj1 (is_type_true _ _) E)) as (t & -> & ->).
  destruct (Z.ltb_spec (size t) 0); [pose proof (size_nonneg t); lia|]. by rewrite assign_size.
Qed.

Lemma read_json_object_decided request limit invalid n : has_json_content_type request = true →
  size (req_input request) ≤ limit →
  read_json_object J request limit false invalid n =
    match input_object request with
    | Some j => (Ok (Some j), n)
    | None => (send_json request 400 "Bad Request" invalid;; mret None) n
    end.
Proof.
  intros Hct Hsz. unfold read_json_object, input_object. rewrite Hct. cbn [negb].
  pose proof (read_request_body_run request limit n) as Hr. rewrite (proj2 (Z.ltb_ge _ _) Hsz) in Hr.
  rewrite (bind_run _ _ _ _ _ Hr). unfold parse_json. rewrite law_tokener_new. cbn [negb].
  destruct (json_tokener_parse_ex _ _) as [[j err] stop].
  rewrite (bind_run _ _ n (MkParse j err stop) n) by done. cbn [parsed_error parsed_object parse_end andb].
  rewrite orb_false_r. by destruct (err =? _), (json_is_object j).
Qed.

(** create_message on a request of an admissible size. *)
Lemma create_message_decided request n : has_json_content_type request = true →
  size (req_input request) ≤ max_request_bytes →
  match body_text request with
  | Some text =>
      if decide (acceptable_body text)
      then handle_create_message J cfg request n = create_and_reply request text n
      else refused request (if max_message_bytes <? size text then 413 else 400) n
        (handle_create_message J cfg request n)
  | None => refused request 400 n (handle_create_message J cfg request n)
  end.
Proof.
  intros Hct Hsz. pose proof (read_json_object_decided request _ (json_lit "{'error':'invalid_json'}") n Hct Hsz) as Hr.
  unfold handle_create_message, body_text. destruct (input_object request) as [j|]; cbn [mbind option_bind].
  2: { destruct (send_json_ok request 400 "Bad Request" (json_lit "{'error':'invalid_json'}") n) as [n' Hn'].
    rewrite (bind_run _ _ _ _ _ Hn') in Hr. rewrite (bind_run _ _ n None n' Hr).
    change ((mret tt : M (Node D W) unit) n') with (Ok tt, n'). rewrite <- Hn'. apply send_json_refuses. }
  rewrite (bind_run _ _ _ _ _ Hr), get_body.
  destruct (get_typed j "body" json_type_string) as [v|] eqn:Hv; cbn [mbind option_bind]; [|apply send_json_refuses].
  apply get_typed_Some in Hv as [_ Hv]. destruct (law_string_view v Hv) as (text & -> & ->). rewrite assign_size.
  cbv zeta. destruct (Z.leb_spec (size text) 0).
  { rewrite decide_False by (intros [? _]; lia). rewrite (proj2 (Z.ltb_ge _ _)) by (unfold max_message_bytes; lia). apply send_json_refuses. }
  destruct (Z.ltb_spec max_message_bytes (size text));
    [rewrite decide_False by (intros [? _]; lia); apply send_json_refuses|].
  destruct (is_valid_utf8 text) eqn:Hu; cbn [negb].
  - by rewrite decide_True by (split; [lia|done]).
  - rewrite decide_False by (intros [_ ?]; congruence). apply send_json_refuses.
Qed.

(** The request a client sends to create a message. *)
Definition body_object (text : string) : J :=
  json_object_object_add json_object_new_object "body" (json_object_new_string_len text (size text)).

Lemma body_text_of request text : text_of (body_object text) (req_input request) →
  body_text request = Some text.
Proof.
  intros Ht. destruct (Ht unit tt) as [_ Hp]. unfold parse_json in Hp. rewrite law_tokener_new in Hp. cbn [negb] in Hp.
  unfold body_text, input_object. destruct (json_tokener_parse_ex _ _) as [[j err] stop].
  unfold mret, M_ret in Hp. simplify_eq.
  assert (json_object_get_type (body_object text) = json_type_object) as Hty by (apply law_type_add, law_type_object).
  rewrite Z.eqb_refl, (proj2 (json_is_object_true _) Hty). cbn [andb mbind option_bind]. rewrite get_body.
  assert (get_typed (body_object text) "body" json_type_string =
    Some (json_object_new_string_len text (size text))) as ->.
  { apply get_typed_Some. split; [|apply law_type_string_len]. unfold body_object.
    by rewrite law_get_ex_add, decide_True by (apply law_type_object || done). }
  cbn [mbind option_bind]. rewrite law_get_string_len by (pose proof (size_nonneg text); lia). by rewrite assign_size.
Qed.

Lemma create_message_accepts_run request text n : posts W request "/api/v1/messages" create_message →
  text_of (body_object text) (req_input request) → size (req_input request) ≤ max_request_bytes →
  acceptable_body text →
  process_request J cfg request n = create_and_reply request text n.
Proof.
  intros Hp Ht Hsz Hb. rewrite (posts_run cfg _ _ _ n Hp). cbn [run_handler].
  pose proof (create_message_decided request n (ps_json _ _ _ Hp) Hsz) as Hd.
  by rewrite (body_text_of _ _ Ht), decide_True in Hd.
Qed.
End creating.

(** ** Properties *)

Section properties.
Context `{JsonLaws J} `{Sqlite D} `{EnvLaws W} `{Unordered} (cfg : Config).
Implicit Types n : Node D W.

(** [handle_request] answer_count once, and no exception leaves it. *)
Lemma handle_request_answers (request : evhttp_request) n :
  let '(r, n') := handle_request J cfg request n in
  (∀ e, r ≠ Throw e) ∧
  (r = Ok tt → ∃ l, trace n' = trace n ++ l ∧ answer_count (req_id request) l = 1%nat).
Proof.
  destruct (process_request_once (J := J) cfg request n) as (l & Hl & Ha). unfold handle_request, try_catch.
  destruct (process_request J cfg request n) as [[[]|e|] n1]; cbn in Hl, Ha; [split; [done|by exists l]| |done].
  assert (∀ (n2 : Node D W) status reason body l2, trace n2 = trace n1 ++ l2 → answer_count (req_id request) l2 = 0%nat →
    let '(r, n') := send_json request status reason body n2 in (∀ e, r ≠ Throw e) ∧
    (r = Ok tt → ∃ l, trace n' = trace n ++ l ∧ answer_count (req_id request) l = 1%nat)) as Hsend.
  { intros n2 status reason text l2 Hl2 Ha2. destruct (send_json_ok request status reason text n2) as [n3 E].
    destruct (send_json_once request status reason text n2) as (l3 & Hl3 & Ha3). rewrite E in Hl3, Ha3 |- *.
    split; [done|]. intros _. exists (l ++ l2 ++ l3). cbn in Hl3. rewrite Hl3, Hl2, Hl, <- !app_assoc.
    split; [done|]. rewrite !answers_app. cbn in Ha3. lia. }
  assert (∀ e, let '(r, n') := (log ("Request handling error: " +:+ what e);;
      send_json request HTTP_INTERNAL "Internal Server Error" (json_lit "{'error':'internal_error'}")) n1 in
    (∀ e, r ≠ Throw e) ∧
    (r = Ok tt → ∃ l, trace n' = trace n ++ l ∧ answer_count (req_id request) l = 1%nat)) as Hlog.
  { intros e'. unfold log. rewrite (bind_run _ _ _ _ _ (emit_run _ n1)). by eapply Hsend. }
  destruct e; try apply Hlog. apply (Hsend n1 _ _ _ []); [by rewrite app_nil_r|done].
Qed.

(** C6: every HTTP request, whatever it holds and whatever the database, the
    environment and JSON answer, leaves handle_request without an exception,
    with exactly one answer to it: a reply, an error, or an open stream. *)
Theorem every_request_answered_once (request : evhttp_request) n :
  let '(r, n') := handle_request J cfg request n in
  (∀ e, r ≠ Throw e) ∧
  (r = Ok tt → ∃ l, trace n' = trace n ++ l ∧ answer_count (req_id request) l = 1%nat).
Proof. apply handle_request_answers. Qed.

(** C32: which handler runs.  A request whose path is empty gets 400; one whose
    method and path are in the table runs that handler; one whose path is in the
    table only with other methods gets 405; any other gets 404. *)
Theorem process_request_routes (request : evhttp_request) n :
  let m := req_command request in
  let p := request_path W request in
  (p = EmptyString → process_request J cfg request n =
     send_json request 400 "Bad Request" (json_lit "{'error':'invalid_uri'}") n) ∧
  (∀ h, p ≠ EmptyString → MkRoute m p h ∈ routes →
     process_request J cfg request n = run_handler J cfg h request n) ∧
  (p ≠ EmptyString → (∀ h, MkRoute m p h ∉ routes) → (∃ x, x ∈ routes ∧ path x = p) →
     process_request J cfg request n =
     send_json request 405 "Method Not Allowed" (json_lit "{'error':'method_not_allowed'}") n) ∧
  (p ≠ EmptyString → (∀ x, x ∈ routes → path x ≠ p) →
     process_request J cfg request n = send_json request 404 "Not Found" (json_lit "{'error':'not_found'}") n).
Proof.
  cbv zeta. unfold process_request. set (p := request_path W request).
  assert (p ≠ EmptyString → empty p = false) as Hne
    by (intros Hp; apply not_true_is_false; by rewrite empty_true).
  split_and!.
  - intros ->. done.
  - intros h Hp Hin. by rewrite (Hne Hp), (find_route_found _ _ _ Hin).
  - intros Hp Hno Hx. rewrite (Hne Hp). destruct (find_route false _ p routes) as [h|b] eqn:E.
    + apply find_route_inl in E. by destruct (Hno h).
    + apply find_route_inr in E as [_ Hb]. by rewrite (proj2 Hb (or_intror Hx)).
  - intros Hp Hno. rewrite (Hne Hp). destruct (find_route false _ p routes) as [h|b] eqn:E.
    + apply find_route_inl, Hno in E. done.
    + apply find_route_inr in E as [_ Hb]. destruct b; [|done].
      destruct (proj1 Hb eq_refl) as [?|(x & Hx & Hxp)]; [done|]. by destruct (Hno x Hx).
Qed.

(** C22: create_message, for every POST to /api/v1/messages.  [body_text] is the
    string member body of the JSON object that json-c reads in the input.  If the
    content type is not JSON the request is refused with 415, and with more
    than 4096 bytes with 413.  Otherwise a text of 1 .. 2048 bytes of valid UTF-8
    creates a message with that very text and is answered with the message; a
    longer text is refused with 413; an empty or ill-formed one, and an
    input without such a member, with 400.  A request that is refused gets that one
    answer and changes nothing: no message is created and no number used.  The JSON
    object a client sends for a text has that text. *)
Theorem create_message_exact (request : evhttp_request) n :
  request_path W request = "/api/v1/messages" → req_command request = EVHTTP_REQ_POST →
  let run := process_request J cfg request n in
  (has_json_content_type request = false → refused request 415 n run) ∧
  (has_json_content_type request = true → 4096 < size (req_input request) →
    refused request 413 n (handle_request J cfg request n)) ∧
  (has_json_content_type request = true → size (req_input request) ≤ 4096 →
    match body_text (J := J) request with
    | Some text =>
        if decide (acceptable_body text)
        then run = create_and_reply (J := J) cfg request text n
        else refused request (if 2048 <? size text then 413 else 400) n run
    | None => refused request 400 n run
    end) ∧
  (∀ text, text_of (body_object (J := J) text) (req_input request) → body_text (J := J) request = Some text).
Proof.
  intros Hpath Hm run.
  assert (run = handle_create_message J cfg request n) as Hrun.
  { unfold run. rewrite (process_route cfg request create_message n); [done|by rewrite Hpath|].
    rewrite Hpath, Hm. unfold routes. set_solver. }
  assert (∀ c, read_json_object J request max_request_bytes false (json_lit "{'error':'invalid_json'}") n = c →
    run = match c with (Ok (Some _), _) => run | (Ok None, n') => (Ok tt, n') | (Throw e, n') => (Throw e, n')
          | (Undefined, n') => (Undefined, n') end) as Hread.
  { intros c <-. rewrite Hrun. unfold handle_create_message, mbind, M_bind.
    by destruct (read_json_object _ _ _ _ _ _) as [[[j|]|e|] n']. }
  split_and!; [| | |intros text; apply body_text_of].
  - intros Hct. destruct (send_json_refuses request 415 "Unsupported Media Type"
      (json_lit "{'error':'content_type_must_be_application_json'}") n) as [[_ _] (w & e & Hs)].
    rewrite (Hread (Ok None, with_world w (with_trace (trace n ++ [e]) n))).
    + rewrite <- Hs. apply send_json_refuses.
    + unfold read_json_object. rewrite Hct. exact (bind_run _ _ _ _ _ Hs).
  - intros Hct Hsz. unfold handle_request, try_catch. fold run. erewrite Hread; [|by apply read_json_object_large].
    apply send_json_refuses.
  - intros Hct Hsz. rewrite Hrun. exact (create_message_decided cfg request n Hct Hsz).
Qed.

(** C15: replication end to end.  The text of a valid message without NUL bytes,
    POSTed to /api/v1/replicate of another node, makes that node ingest the very
    message, and answer whether it was new; a text of more than 4096 bytes is
    answered with 413 and changes nothing. *)
Theorem replicate_roundtrip (request : evhttp_request) m n :
  posts W request "/api/v1/replicate" replicate_message →
  valid_message m → nul_free m = true → has_text J m (req_input request) →
  (size (req_input request) ≤ 4096 →
    process_request J cfg request n =
      (accepted ← ingest_replica J m;
       send_json request 200 "OK" (if accepted : bool then json_lit "{'status':'accepted'}"
                                   else json_lit "{'status':'duplicate'}")) n) ∧
  (4096 < size (req_input request) →
    handle_request J cfg request n =
      send_json request 413 "Payload Too Large" (json_lit "{'error':'request_too_large'}") n).
Proof.
  intros Hp Hv Hn Ht. split; [by apply replicate_accepts_run|].
  intros Hsz. apply (posts_large cfg _ _ _ n Hp). by left.
Qed.

(** C23: GET /api/v1/messages does not depend on the order in which messages
    arrived: two nodes whose logs hold the same messages, in the same world,
    give the same answer. *)
Theorem get_messages_order_independent `{!SqliteLaws D} (request : evhttp_request) n1 n2 :
  store_ok (store_ n1) → store_ok (store_ n2) →
  entries (node_log n1) ≡ₚ entries (node_log n2) → world n1 = world n2 →
  ∃ r l w, handle_get_messages J request n1 = (r, with_world w (with_trace (trace n1 ++ l) n1)) ∧
    handle_get_messages J request n2 = (r, with_world w (with_trace (trace n2 ++ l) n2)).
Proof.
  intros [Hdb1 Hc1] [Hdb2 Hc2] Hp Hw. rewrite !get_messages_run, Hc1, Hc2.
  change (entries (abs (store_ n1))) with (entries (node_log n1)).
  change (entries (abs (store_ n2))) with (entries (node_log n2)).
  assert (sort_messages (entries (node_log n1)) = sort_messages (entries (node_log n2))) as ->
    by (apply sort_messages_log; [apply Hdb2|done]).
  set (j := json_object_object_add _ _ _). unfold mbind, M_bind, serialize_json.
  assert (∀ n : Node D W, n = with_world (world n) (with_trace (trace n ++ []) n)) as Hid
    by (intros n; rewrite app_nil_r; by destruct n).
  destruct (json_object_to_json_string_ext j) as [t|].
  - unfold mret, M_ret, send_json, send_response.
    exists (Ok tt), [if (evbuffer_new (world n1)).1
      then Reply (req_id request) HTTP_OK "OK" (response_headers json_content_type) (c_str t)
      else SendError (req_id request)], (evbuffer_new (world n1)).2.
    rewrite (bind_run _ _ _ _ _ (call_run _ n1)), (bind_run _ _ _ _ _ (call_run _ n2)), <- Hw.
    by destruct (evbuffer_new (world n1)).1.
  - exists (Throw (RuntimeError "Unable to serialize JSON")), [], (world n1).
    split; unfold throw; f_equal; [apply Hid|]. rewrite Hw. apply Hid.
Qed.
End properties.

(** ** Witnesses *)

Lemma model_text_of (j : jtree) : size (pos_text (encode j)) ≤ i32_max →
  text_of j (pos_text (encode j)).
Proof.
  intros Hsz S s. unfold serialize_json, parse_json. cbn.
  rewrite c_str_no_nul by apply no_nul_pos_text. split; [done|].
  pose proof (size_nonneg (pos_text (encode j))). rewrite cast_i32_small by (unfold_ints; lia).
  by rewrite assign_size, text_pos_text; cbn; rewrite decode_encode.
Qed.

Definition post_to (p input : string) : evhttp_request :=
  MkHttpRequest 7 17 (Some p) EVHTTP_REQ_POST (Some "application/json") input.

Definition hello_request : evhttp_request :=
  post_to "/api/v1/messages" (pos_text (encode (body_object (J := jtree) "hello"))).

(** A text is created; an empty one, and what is not JSON, are refused. *)
Definition empty_request : evhttp_request :=
  post_to "/api/v1/messages" (pos_text (encode (body_object (J := jtree) EmptyString))).
Definition garbled_request : evhttp_request := post_to "/api/v1/messages" "hello".

Lemma hello_acceptable : acceptable_body "hello".
Proof. by split; [split|vm_compute]. Qed.
Lemma empty_unacceptable : ¬ acceptable_body EmptyString.
Proof. intros [[Hsz _] _]. by apply Hsz. Qed.

Lemma create_message_exact_witness :
  let n := service_node store0 in
  process_request jtree plain_config hello_request n =
    create_and_reply (J := jtree) plain_config hello_request "hello" n ∧
  (process_request jtree plain_config hello_request n).1 = Ok tt ∧
  refused empty_request 400 n (process_request jtree plain_config empty_request n) ∧
  refused garbled_request 400 n (process_request jtree plain_config garbled_request n).
Proof.
  cbv zeta.
  destruct (create_message_exact (J := jtree) plain_config hello_request (service_node store0) ltac:(done) ltac:(done))
    as (_ & _ & Hhello & Htext).
  destruct (create_message_exact (J := jtree) plain_config empty_request (service_node store0) ltac:(done) ltac:(done))
    as (_ & _ & Hempty & Htext').
  destruct (create_message_exact (J := jtree) plain_config garbled_request (service_node store0) ltac:(done) ltac:(done))
    as (_ & _ & Hgarbled & _).
  rewrite (Htext "hello") in Hhello by (apply model_text_of; by vm_compute).
  rewrite (decide_True (P := acceptable_body "hello")) in Hhello by exact hello_acceptable.
  rewrite (Htext' EmptyString) in Hempty by (apply model_text_of; by vm_compute).
  rewrite (decide_False (P := acceptable_body EmptyString)) in Hempty by exact empty_unacceptable.
  assert (body_text (J := jtree) garbled_request = None) as Hnone by (by vm_compute). rewrite Hnone in Hgarbled.
  split; [apply Hhello; [done|by vm_compute]|]. split; [by vm_compute|].
  split; [apply Hempty; [done|by vm_compute]|]. apply Hgarbled; [done|by vm_compute].
Defined.

Definition replica_request : evhttp_request :=
  post_to "/api/v1/replicate" (pos_text (encode (message_json (J := jtree) sample_message))).

Lemma sample_has_text : has_text jtree sample_message (req_input replica_request).
Proof.
  intros S s. unfold message_text. rewrite (bind_run _ _ _ _ _ (message_to_json_run sample_message s)).
  by apply model_text_of.
Qed.

Lemma replicate_roundtrip_witness :
  process_request jtree plain_config replica_request (service_node store0) =
    (accepted ← ingest_replica jtree sample_message;
     send_json replica_request 200 "OK" (if accepted : bool then json_lit "{'status':'accepted'}"
                                         else json_lit "{'status':'duplicate'}")) (service_node store0) ∧
  entries (node_log (process_request jtree plain_config replica_request (service_node store0)).2) =
    [sample_message].
Proof.
  split; [|by vm_compute].
  destruct (replicate_roundtrip (J := jtree) plain_config replica_request sample_message
    (service_node store0)) as [Hfits _]; [|apply sample_valid|by vm_compute|apply sample_has_text|].
  - split; [done|done|]. cbn. set_solver.
  - apply Hfits. by vm_compute.
Defined.

(** Two nodes that got the same two messages in different orders. *)
Definition later_message : ChatMessage :=
  {| sequence := 1; message_id := "node-b:1"; origin := "node-b"; callsign := "Bravo";
     channel := default_channel; created_at_ms := 2; body := "later" |}.
Definition stored (l : list ChatMessage) : Store mdb :=
  foldl (λ s m, (add m s).2) store0 l.

Definition first_then_later : Store mdb := stored [first_message; later_message].
Definition later_then_first : Store mdb := stored [later_message; first_message].

Lemma stored_step s m : store_ok s → 1 ≤ sequence m → (add m s).1 = Ok true → store_ok (add m s).2.
Proof.
  intros [Hs Hc] Hm Hr. destruct (add_run s m (Ok true) (add m s).2 Hs Hm) as (_ & ? & _ & ?);
    [by rewrite <- Hr; destruct (add m s)|]. split; auto.
Qed.

Lemma get_messages_order_independent_witness :
  entries (node_log (service_node first_then_later)) = [first_message; later_message] ∧
  ∃ r l w, handle_get_messages jtree hello_request (service_node first_then_later) =
      (r, with_world w (with_trace (trace (service_node first_then_later) ++ l) (service_node first_then_later))) ∧
    handle_get_messages jtree hello_request (service_node later_then_first) =
      (r, with_world w (with_trace (trace (service_node later_then_first) ++ l) (service_node later_then_first))).
Proof.
  split; [by vm_compute|].
  apply (get_messages_order_independent (J := jtree) hello_request (service_node first_then_later)
    (service_node later_then_first)).
  - do 2 (apply stored_step; [|done|by vm_compute]). apply store0_ok.
  - do 2 (apply stored_step; [|done|by vm_compute]). apply store0_ok.
  - vm_compute. apply Permutation_swap.
  - done.
Defined.

(** A request with a wrong method, and one for an unknown path. *)
Definition get_request (p : string) : evhttp_request :=
  MkHttpRequest 9 19 (Some p) EVHTTP_REQ_GET None EmptyString.

Lemma every_request_answered_once_witness :
  let '(r, n') := handle_request jtree plain_config (get_request "/api/v1/events") (service_node store0) in
  (∀ e, r ≠ Throw e) ∧
  (r = Ok tt → ∃ l, trace n' = trace (service_node store0) ++ l ∧ answer_count 9 l = 1%nat).
Proof.
  exact (every_request_answered_once (J := jtree) plain_config (get_request "/api/v1/events")
    (service_node store0)).
Defined.

Lemma process_request_routes_witness :
  process_request jtree plain_config (get_request "/api/v1/replicate") (service_node store0) =
    send_json (get_request "/api/v1/replicate") 405 "Method Not Allowed"
      (json_lit "{'error':'method_not_allowed'}") (service_node store0).
Proof.
  destruct (process_request_routes (J := jtree) plain_config (get_request "/api/v1/replicate")
    (service_node store0)) as (_ & _ & H405 & _).
  apply H405; [done| |].
  - intros h Hin. cbn in Hin. repeat (apply elem_of_cons in Hin as [Hin|Hin]; [discriminate Hin|]).
    by apply not_elem_of_nil in Hin.
  - exists (MkRoute EVHTTP_REQ_POST "/api/v1/replicate" replicate_message). split; [|done]. unfold routes. set_solver.
Defined.
