(* ===== verification/Specification.v ===== *)
(** * What the daemon promises about messages

    Seen from the chat, a daemon is a log of messages and the number of its next
    message.  It takes valid messages of others that do not clash with the log,
    gives its own the next number, may lose a number, and may forget the hundred
    oldest messages; nothing else.  Application.v shows that the events of the
    daemon implement these steps. *)

From S2P Require Import Prelude Cxx Protocol Utf8 Json MessageCodec Sqlite MessageStore StoreProperties.
From S2P Require Import Env Node Discovery Replication MessageService Http HttpApi HttpApiProperties.
Open Scope Z_scope.

Record chat := MkChat { chat_log : alog; chat_next : Z }.

Inductive chat_step (cfg : Config) : chat → chat → Prop :=
  | chat_received a q m a' :
      valid_message m → put_message a m = (true, a') → chat_step cfg (MkChat a q) (MkChat a' q)
  | chat_written a q now text a' :
      1 ≤ q ≤ i64_max → in_i64 now → acceptable_body text →
      put_message a (local_message cfg q now text) = (true, a') →
      chat_step cfg (MkChat a q) (MkChat a' (u64 (q + 1)))
  | chat_number_lost a q : 1 ≤ q → chat_step cfg (MkChat a q) (MkChat a (u64 (q + 1)))
  | chat_forgot a q : chat_step cfg (MkChat a q) (MkChat (forget 100 a) q).

Definition chat_steps (cfg : Config) : chat → chat → Prop := rtc (chat_step cfg).

(** ** The laws of the specification *)

Section laws.
Context (cfg : Config).

(** The order of the log is an invariant. *)
Lemma chat_step_ok c c' : chat_step cfg c c' → log_ok (chat_log c) → log_ok (chat_log c').
Proof.
  destruct 1 as [a q m a' Hv Hp|a q now text a' Hq _ _ Hp|a q|a q]; cbn; intros Ha; [..|done|by apply forget_ok].
  - apply (put_message_ok a m true a'); [done|by apply vm_sequence|done].
  - by apply (put_message_ok a (local_message cfg q now text) true a').
Qed.

(** The last sequence of an origin never goes down. *)
Lemma chat_step_lasts c c' : chat_step cfg c c' → lasts_le (chat_log c) (chat_log c').
Proof.
  destruct 1 as [a q m a' _ Hp|a q now text a' _ _ _ Hp|a q|a q]; cbn; [by eapply put_lasts_le..| |];
    by intros o n ?; exists n.
Qed.

Lemma chat_steps_lasts c c' : chat_steps cfg c c' → lasts_le (chat_log c) (chat_log c').
Proof.
  induction 1 as [c|c1 c2 c3 H12 _ IH]; [by intros o n ?; exists n|].
  intros o n Hn. destruct (chat_step_lasts _ _ H12 o n Hn) as (n2 & Hn2 & ?).
  destruct (IH o n2 Hn2) as (n3 & ? & ?). exists n3. split; [done|lia].
Qed.

(** Every message in the log was there before, was valid when it came, or was
    written here. *)
Definition admissible (m : ChatMessage) : Prop :=
  valid_message m ∨ ∃ q now text, m = local_message cfg q now text ∧
    1 ≤ q ≤ i64_max ∧ in_i64 now ∧ acceptable_body text.

Lemma chat_steps_entries c c' : chat_steps cfg c c' →
  Forall admissible (entries (chat_log c)) → Forall admissible (entries (chat_log c')).
Proof.
  induction 1 as [c|c1 c2 c3 H12 _ IH]; [done|]. intros Hc. apply IH. clear IH.
  destruct H12 as [a q m a' Hv Hp|a q now text a' Hq Hnow Ht Hp|a q|a q]; cbn in *; [..|done|by apply Forall_drop].
  - apply entries_put in Hp as ->. apply Forall_app. split; [done|]. constructor; [by left|constructor].
  - apply entries_put in Hp as ->. apply Forall_app. split; [done|]. constructor; [|constructor].
    right. by eexists _, _, _.
Qed.

Lemma chat_steps_from c c' : chat_steps cfg c c' →
  ∀ x, x ∈ entries (chat_log c') → x ∈ entries (chat_log c) ∨ admissible x.
Proof.
  intros Hs x Hx. assert (Forall (λ x, x ∈ entries (chat_log c) ∨ admissible x) (entries (chat_log c'))) as Hall.
  { clear x Hx. induction Hs as [c|c1 c2 c3 H12 _ IH]; [apply Forall_forall; by left|].
    rewrite Forall_forall in IH |- *. intros x [Hx|?]%IH; [|by right].
    destruct H12 as [a q m a' Hv Hp|a q now text a' Hq Hnow Ht Hp|a q|a q]; cbn in *; [| |by left|].
    - apply entries_put in Hp. rewrite Hp in Hx. apply elem_of_app in Hx as [?|Hx1%list_elem_of_singleton]; [by left|].
      subst x. right. by left.
    - apply entries_put in Hp. rewrite Hp in Hx. apply elem_of_app in Hx as [?|Hx1%list_elem_of_singleton]; [by left|].
      subst x. right. right. by eexists _, _, _.
    - left. rewrite <- (take_drop 100 (entries a)). apply elem_of_app. by right. }
  rewrite Forall_forall in Hall. by apply Hall.
Qed.
End laws.
