(* ===== verification/Sync.v ===== *)
(** * Synchronisation (sync_service.cpp)

    Every five seconds the node sends its last sequences to the active peers;
    each answers with its own, and the node sends it the messages above them, at
    most fifty.  *)

From S2P Require Import Prelude Cxx Protocol Json ModelJson MessageCodec Sqlite ModelDb MessageStore.
From S2P Require Import Env Node Ledger Clock PeerRegistry Discovery EventStream Replication.
From S2P Require Import MessageService Http HttpApi.
Open Scope Z_scope.

(** SyncService::RequestContext; the service pointer is the node itself. *)
Record RequestContext := MkContext { connection : Z; address : string; port : Z }.


Section sync.
Context (J : Type) `{JsonC J} `{Sqlite D} `{Env W} `{Unordered} (cfg : Config).

Definition sync_headers : list (string * string) := [("Content-Type", "application/json")].

(** The body of the loop over the peers. *)
Definition summary_to (payload : string) (peer : Peer) : M (Node D W) unit :=
  post_request cfg (mret tt) sync_headers (peer_address peer) (peer_http_port peer) "/api/v1/sync/summary" payload.

Definition synchronize : M (Node D W) unit :=
  summary ← on_store sequence_summary;
  origins ← origins_json J summary;
  root ← sync_envelope J "sync_summary" "origins" origins;
  payload ← serialize_json root;
  now ← current_time_ms;
  peers ← active_peers now;
  iterM (summary_to payload) peers.

(** The constructor and the destructor. *)
Definition SyncService : M (Node D W) unit :=
  timer ← new_handle NewSyncTimer SyncTimerEvent;
  (if negb timer then throw (RuntimeError "Unable to create sync timer") else mret tt);;
  added ← all_succeed [AddSyncTimer];
  if negb added then
    release SyncTimerEvent;;
    throw (RuntimeError "Unable to activate sync timer")
  else mret tt.

Definition destroy_sync : M (Node D W) unit := release SyncTimerEvent.

Definition timer_callback : M (Node D W) unit :=
  try_catch synchronize (λ e, log ("Sync error: " +:+ what e)).

Definition send_batch (address : string) (port : Z) (payload : string) : M (Node D W) unit :=
  post_request cfg (mret tt) sync_headers address port "/api/v1/sync/messages" payload.

(** The last sequence the peer gave for an origin, 0 if it gave none. *)
Definition remote_last (origins : J) (origin : string) : Z :=
  match get_typed origins (c_str origin) json_type_int with
  | None => 0
  | Some last_value =>
      let parsed_last := json_object_get_int64 last_value in
      if 0 <? parsed_last then u64 parsed_last else 0
  end.

(** The body of the loop over the stored messages. *)
Definition collect (origins : J) (acc : J * Z) (message : ChatMessage) : M (Node D W) (J * Z) :=
  let '(messages, count) := acc in
  let last := remote_last origins (origin message) in
  if (last <? sequence message) && (count <? max_sync_batch_messages) then
    item ← (message_to_json message : M _ J);
    mret (json_object_array_add messages item, count + 1)
  else mret (messages, count).

Definition send_missing (context : RequestContext) (summary_json : string) : M (Node D W) unit :=
  parsed ← parse_json summary_json;
  if negb (parsed_error parsed =? json_tokener_success) ||
     negb (json_is_object (parsed_object parsed))
  then throw (RuntimeError "Invalid sync summary response")
  else
    match get_typed (parsed_object parsed) "origins" json_type_object with
    | None => throw (RuntimeError "Sync summary has no origins")
    | Some origins =>
        messages ← (make_json_array : M _ J);
        stored ← on_store MessageStore.messages;
        '(messages, count) ← foldM (collect origins) (messages, 0) stored;
        if count =? 0 then mret tt
        else
          batch ← sync_envelope J "sync_messages" "messages" messages;
          payload ← serialize_json batch;
          send_batch (address context) (port context) payload
    end.

Definition handle_summary_response (request : evhttp_request) (context : RequestContext) : M (Node D W) unit :=
  body ← read_request_body request max_sync_request_bytes;
  send_missing context body.

(** The callback of a summary request; [request] is [None] for a null one. *)
Definition summary_response_callback (request : option (evhttp_request * Z)) (context : RequestContext) :
    M (Node D W) unit :=
  try_catch
    (match request with
     | Some (request, code) =>
         if code =? HTTP_OK then handle_summary_response request context
         else throw (RuntimeError "sync summary request failed")
     | None => throw (RuntimeError "sync summary request failed")
     end)
    (λ e, log ("Sync summary error: " +:+ what e));;
  drop_connection (connection context).

Definition send_response_callback (context : RequestContext) : M (Node D W) unit :=
  drop_connection (connection context).
End sync.
