(* ===== verification/SyncProperties.v ===== *)
(** * Properties of synchronisation

    What a summary says, which messages a node sends for it, and what the
    receiver makes of them. *)

From S2P Require Import Prelude Cxx Protocol Utf8 Json ModelJson MessageCodec Sqlite ModelDb.
From S2P Require Import MessageStore StoreProperties Env Node Ledger Clock PeerRegistry Discovery.
From S2P Require Import EventStream Replication MessageService Http HttpApi HttpApiProperties Sync.
Open Scope Z_scope.

(** ** The summary on the wire *)

(** Last sequences that survive the wire: origins without NUL, int64 values. *)
Definition summary_ok (summary : gmap string Z) : Prop :=
  map_Forall (λ k n, no_nul k = true ∧ 1 ≤ n ≤ i64_max) summary.

Section summaries.
Context `{JsonLaws J} `{Unordered}.

Definition add_origin (o : J) (x : string * Z) : J :=
  json_object_object_add o (c_str x.1) (json_object_new_int64 (cast_i64 x.2)).
Definition origins_object (summary : gmap string Z) : J :=
  foldl add_origin json_object_new_object (iterate summary).

Lemma origins_json_run `{Sqlite D} `{Env W} summary (n : Node D W) :
  origins_json J summary n = (Ok (origins_object summary), n).
Proof.
  unfold origins_json, origins_object. rewrite (bind_run _ _ _ _ _ (make_json_object_run n)).
  generalize json_object_new_object as o. induction (iterate summary) as [|[k v] l IH]; intros o; [done|].
  cbn. apply IH.
Qed.

Lemma add_origins_type l o : json_object_get_type o = json_type_object →
  json_object_get_type (foldl add_origin o l) = json_type_object.
Proof. revert o. induction l as [|x l IH]; intros o Ho; cbn; [done|]. by apply IH, law_type_add. Qed.

Lemma add_origins_built d l o : json_object_get_type o = json_type_object → built (S d) o →
  built (S d) (foldl add_origin o l).
Proof.
  revert o. induction l as [|x l IH]; intros o Ho Hb; cbn; [done|].
  apply IH; [by apply law_type_add|]. apply built_object_add; [done|apply no_nul_c_str|done|].
  constructor. apply cast_i64_range.
Qed.

Lemma add_origins_get l o k : json_object_get_type o = json_type_object →
  Forall (λ x, no_nul x.1 = true) l → NoDup l.*1 →
  json_object_object_get_ex (foldl add_origin o l) k =
    match (list_to_map l : gmap string Z) !! k with
    | Some n => Some (json_object_new_int64 (cast_i64 n))
    | None => json_object_object_get_ex o k
    end.
Proof.
  revert o. induction l as [|[k' v] l IH]; intros o Ho Hn Hnd; cbn; [done|].
  apply Forall_cons in Hn as [Hk Hn]. cbn in Hnd. apply NoDup_cons in Hnd as [Hnot Hnd].
  rewrite IH by (done || by apply law_type_add). unfold add_origin; cbn in Hk |- *.
  rewrite law_get_ex_add, c_str_no_nul by done. destruct (decide (k' = k)) as [->|Hne].
  - rewrite lookup_insert_eq. by rewrite (not_elem_of_list_to_map_1 _ _ Hnot).
  - by rewrite lookup_insert_ne.
Qed.

(** What a peer reads in it: the last sequence of each origin, 0 for no origin. *)
Lemma remote_last_origins summary o : summary_ok summary → no_nul o = true →
  remote_last J (origins_object summary) o = default 0 (summary !! o).
Proof.
  intros Hs Ho. unfold remote_last, get_typed. rewrite c_str_no_nul by done.
  assert (summary = list_to_map (iterate summary)) as Hl.
  { rewrite <- (list_to_map_to_list summary) at 1. apply list_to_map_proper.
    - apply NoDup_fst_map_to_list.
    - symmetry. apply iterate_perm. }
  unfold origins_object. rewrite add_origins_get; [|apply law_type_object| |].
  - rewrite <- Hl, law_get_ex_empty. destruct (summary !! o) as [n|] eqn:E; [|done].
    destruct (Hs o n E) as [_ Hn]. rewrite is_type_eq by apply law_type_int64.
    rewrite cast_i64_small by (unfold_ints; lia). rewrite law_get_int64 by (unfold_ints; lia).
    cbn. rewrite (proj2 (Z.ltb_lt 0 n)) by lia. by rewrite u64_small by (unfold_ints; lia).
  - apply Forall_forall. intros [k n] Hin. rewrite iterate_perm in Hin.
    apply elem_of_map_to_list in Hin. by apply (Hs k n).
  - rewrite iterate_perm. apply NoDup_fst_map_to_list.
Qed.

Definition summary_object (summary : gmap string Z) : J :=
  envelope "sync_summary" "origins" (origins_object summary).

Lemma origins_object_type summary : json_object_get_type (origins_object summary) = json_type_object.
Proof. apply add_origins_type, law_type_object. Qed.

Lemma summary_object_type summary : json_object_get_type (summary_object summary) = json_type_object.
Proof. unfold summary_object, envelope. repeat (apply law_type_add); apply law_type_object. Qed.

Lemma summary_object_built summary : built 2 (summary_object summary).
Proof.
  apply envelope_built; [done|done|]. apply add_origins_built; [apply law_type_object|constructor].
Qed.

Lemma summary_object_origins summary :
  get_typed (summary_object summary) "origins" json_type_object = Some (origins_object summary).
Proof.
  apply get_typed_Some. split; [|apply origins_object_type]. unfold summary_object, envelope.
  rewrite law_get_ex_add; [by rewrite decide_True|].
  repeat (apply law_type_add); apply law_type_object.
Qed.
End summaries.

(** ** The batch a node sends *)

Lemma filter_bool_ext {A} (f g : A → bool) l : Forall (λ x, f x = g x) l →
  filter (λ x, f x = true) l = filter (λ x, g x = true) l.
Proof.
  induction 1 as [|x l Hx _ IH]; [done|]. rewrite !filter_cons, IH.
  destruct (g x); rewrite Hx; [by rewrite !decide_True|by rewrite !decide_False].
Qed.

(** The messages above the peer's last sequences, in storage order, at most 50. *)
Definition missing (summary : gmap string Z) (l : list ChatMessage) : list ChatMessage :=
  take 50 (filter (λ m, (default 0 (summary !! origin m) <? sequence m) = true) l).

Section sending.
Context `{JsonLaws J} `{Sqlite D} `{Env W} `{Unordered} (cfg : Config).
Implicit Types n : Node D W.

Lemma collect_step (origins : J) l0 m n :
  collect J origins (array_of json_object_new_array l0, Z.of_nat (length l0)) m n =
    let l1 := if (remote_last J origins (origin m) <? sequence m) && (Z.of_nat (length l0) <? 50)
              then l0 ++ [m] else l0 in
    (Ok (array_of json_object_new_array l1, Z.of_nat (length l1)), n).
Proof.
  unfold collect, max_sync_batch_messages. destruct (_ && _); [|done].
  rewrite (bind_run _ _ _ _ _ (message_to_json_run m n)). unfold mret, M_ret, array_of.
  rewrite foldl_snoc, length_app. cbn [length]. by rewrite Nat2Z.inj_add.
Qed.

Lemma collect_run (origins : J) l0 l n : (length l0 ≤ 50)%nat →
  foldM (collect J origins) (array_of json_object_new_array l0, Z.of_nat (length l0)) l n =
    let l1 := l0 ++ take (50 - length l0)
      (filter (λ m, (remote_last J origins (origin m) <? sequence m) = true) l) in
    (Ok (array_of json_object_new_array l1, Z.of_nat (length l1)), n).
Proof.
  revert l0. induction l as [|m l IH]; intros l0 Hl; cbn [foldM].
  { cbv zeta. unfold filter, list_filter. by rewrite take_nil, app_nil_r. }
  rewrite (bind_run _ _ _ _ _ (collect_step origins l0 m n)). cbv zeta.
  destruct (remote_last J origins (origin m) <? sequence m) eqn:E; cbn [andb].
  - rewrite filter_cons, decide_True by done. destruct (Z.ltb_spec (Z.of_nat (length l0)) 50).
    + rewrite IH by (rewrite length_app; cbn; lia). cbv zeta. rewrite length_app. cbn [length].
      replace (50 - length l0)%nat with (S (50 - (length l0 + 1))) by lia. cbn [take].
      by rewrite <- app_assoc.
    + rewrite IH by done. cbv zeta. by replace (50 - length l0)%nat with 0%nat by lia.
  - rewrite filter_cons, decide_False by (rewrite E; done). by rewrite IH.
Qed.

Lemma send_missing_run context summary text n :
  summary_ok summary → Forall (λ m, no_nul (origin m) = true) (messages_ (store_ n)) →
  text_of (summary_object (J := J) summary) text →
  send_missing J cfg context text n =
    (if decide (missing summary (messages_ (store_ n)) = []) then mret tt
     else payload ← serialize_json (batch (J := J) (missing summary (messages_ (store_ n))));
          send_batch cfg (address context) (port context) payload) n.
Proof.
  intros Hs Ho Ht. unfold send_missing. rewrite (bind_run _ _ _ _ _ (proj2 (Ht _ n))).
  cbn [parsed_error parsed_object].
  rewrite Z.eqb_refl, (proj2 (json_is_object_true _) (summary_object_type summary)). cbn [negb orb].
  rewrite summary_object_origins. rewrite (bind_run _ _ _ _ _ (make_json_array_run n)).
  rewrite (bind_run _ _ n (messages_ (store_ n)) n) by (rewrite on_store_run; by destruct n).
  assert (filter (λ m, (remote_last J (origins_object summary) (origin m) <? sequence m) = true)
    (messages_ (store_ n)) =
    filter (λ m, (default 0 (summary !! origin m) <? sequence m) = true) (messages_ (store_ n))) as Hf.
  { apply filter_bool_ext. eapply Forall_impl; [exact Ho|]. intros m Hm. by rewrite remote_last_origins. }
  pose proof (collect_run (origins_object summary) [] (messages_ (store_ n)) n ltac:(cbn; lia)) as Hc.
  cbn [app length Nat.sub] in Hc. rewrite Hf in Hc. fold (missing summary (messages_ (store_ n))) in Hc.
  cbn [array_of foldl] in Hc. cbv zeta in Hc. rewrite (bind_run _ _ _ _ _ Hc).
  destruct (decide (missing summary (messages_ (store_ n)) = [])) as [->|Hne]; [done|].
  rewrite (proj2 (Z.eqb_neq _ 0)) by (destruct (missing _ _); [done|cbn; lia]).
  by rewrite (bind_run _ _ _ _ _ (sync_envelope_run _ _ _ n)).
Qed.
(** Whatever the peer answered, only stored messages are sent, at most fifty. *)
Lemma send_missing_cases context text n :
  (∃ r, send_missing J cfg context text n = (r, n)) ∨
  ∃ l, (∀ m, m ∈ l → m ∈ messages_ (store_ n)) ∧ (length l ≤ 50)%nat ∧
    send_missing J cfg context text n =
      (payload ← serialize_json (batch (J := J) l); send_batch cfg (address context) (port context) payload) n.
Proof.
  unfold send_missing. pose proof (parse_json_reads (J := J) text n) as Hread.
  destruct (parse_json text n) as [[parsed|e|] n1] eqn:E; cbn in Hread; subst n1.
  2, 3: left; unfold mbind, M_bind; rewrite E; by eexists.
  rewrite (bind_run _ _ _ _ _ E). destruct (_ || _); [left; by eexists|].
  destruct (get_typed _ _ _) as [origins|]; [|left; by eexists].
  rewrite (bind_run _ _ _ _ _ (make_json_array_run n)).
  rewrite (bind_run _ _ n (messages_ (store_ n)) n) by (rewrite on_store_run; by destruct n).
  pose proof (collect_run origins [] (messages_ (store_ n)) n ltac:(cbn; lia)) as Hc.
  cbn [app length Nat.sub array_of foldl] in Hc. cbv zeta in Hc. rewrite (bind_run _ _ _ _ _ Hc).
  set (l := take 50 _). destruct (_ =? 0); [left; by eexists|]. right. exists l. split_and!.
  - intros m Hm. unfold l in Hm. apply elem_of_take in Hm as (i & Hi & _).
    apply list_elem_of_lookup_2 in Hi. by apply list_elem_of_filter in Hi as [_ ?].
  - unfold l. rewrite length_take. lia.
  - by rewrite (bind_run _ _ _ _ _ (sync_envelope_run _ _ _ n)).
Qed.

(** A batch of valid messages has a text. *)
Lemma batch_text l : Forall valid_message l → ∃ t,
  (∀ S (s : S), serialize_json (batch (J := J) l) s = (Ok t, s)) ∧ (size t ≤ i32_max → text_of (batch (J := J) l) t).
Proof.
  intros Hl. assert (built 3 (batch (J := J) l)) as Hb.
  { apply envelope_built; [done|done|]. apply array_of_built; [apply law_type_array|constructor|].
    eapply Forall_impl; [exact Hl|]. intros m Hv. apply valid_ranges in Hv. naive_solver. }
  exact (built_text 3 _ Hb ltac:(lia)).
Qed.

(** The messages it sends are stored and above the peer's last sequences. *)
Lemma missing_above summary l :
  Forall (λ m, m ∈ l ∧ default 0 (summary !! origin m) < sequence m) (missing summary l).
Proof.
  apply Forall_forall. intros m Hin. unfold missing in Hin. apply elem_of_take in Hin as (i & Hi & _).
  apply list_elem_of_lookup_2, list_elem_of_filter in Hi as [Hlt Hin]. by rewrite Z.ltb_lt in Hlt.
Qed.

(** They are posted in one batch. *)
Lemma send_missing_posts context summary text n :
  summary_ok summary → text_of (summary_object (J := J) summary) text →
  Forall (λ m, valid_message m ∧ no_nul (origin m) = true) (messages_ (store_ n)) →
  let l := missing summary (messages_ (store_ n)) in
  l ≠ [] → ∃ t w effects,
    send_missing J cfg context text n = (Ok tt, with_world w (with_trace (trace n ++ effects) n)) ∧
    attempt (local_address_ cfg) [] sync_headers (address context) (port context) "/api/v1/sync/messages" t effects ∧
    (accepting W → made effects) ∧
    (∀ S (s : S), serialize_json (batch (J := J) l) s = (Ok t, s)) ∧
    (size t ≤ i32_max → text_of (batch (J := J) l) t).
Proof.
  intros Hs Ht Hm l Hne. pose proof (send_missing_run context summary text n Hs
    ltac:(by eapply Forall_impl; [exact Hm|intros ? [_ ?]]) Ht) as Hr. fold l in Hr.
  pose proof (missing_above summary (messages_ (store_ n))) as Hl. fold l in Hl.
  rewrite Hr, decide_False by done. destruct (batch_text l) as (t & Htext & Hparsed).
  { apply Forall_forall. intros m Hin. rewrite Forall_forall in Hl, Hm. destruct (Hl m Hin) as [Hin' _]. by apply Hm. }
  rewrite (bind_run _ _ _ _ _ (Htext _ n)). unfold send_batch.
  destruct (post_request_alone cfg sync_headers (address context) (port context) "/api/v1/sync/messages" t n)
    as (w & ef & Hrun & Ha & Hmade).
  by exists t, w, ef.
Qed.
End sending.

(** ** What the receiver makes of a batch *)

(** The store after the messages [l] were given to add in order, [k] of them
    taken.  What each call does to the log is [add_result]: the oldest hundred
    are dropped where SQLite reports that it is full, and nowhere else. *)
Inductive ingested `{Sqlite D} `{!SqliteLaws D} : Store D → list ChatMessage → Z → Store D → Prop :=
  | ingested_nil s : ingested s [] 0 s
  | ingested_cons s m b s1 l k s2 :
      add m s = (Ok b, s1) → db_ok s1 →
      (b, abs s1) = add_result (insertion_full (database s) m) (abs s) m → ingested s1 l k s2 →
      ingested s (m :: l) ((if b : bool then 1 else 0) + k) s2.

(** The store after add threw for a message in the middle of the list: the
    messages before it were taken, and the rest was not offered. *)
Definition ingestion_stops `{SqliteLaws D} (s : Store D) (l : list ChatMessage) (e : exn) (s' : Store D) : Prop :=
  ∃ taken m rest k s1, l = taken ++ m :: rest ∧ ingested s taken k s1 ∧ add m s1 = (Throw e, s') ∧
    (abs s' = abs s1 ∨ insertion_full (database s1) m = true ∧ abs s' = forget 100 (abs s1)).

Section receiving.
Context `{JsonLaws J} `{SqliteLaws D} `{EnvLaws W} `{Unordered} (cfg : Config).
Implicit Types n : Node D W.

Lemma ingest_items_run request l accepted n :
  Forall (λ m, valid_message m ∧ nul_free m = true) l → db_ok (store_ n) →
  ∃ r n', ingest_items (J := J) request l accepted n = (r, n') ∧ db_ok (store_ n') ∧
    match r with
    | Ok (Some a) => ∃ k, a = accepted + k ∧ ingested (store_ n) l k (store_ n')
    | Ok None => False
    | Throw e => ingestion_stops (store_ n) l e (store_ n')
    | Undefined => False
    end.
Proof.
  intros Hl. revert accepted n. induction Hl as [|m l [Hv Hn] Hl IH]; intros accepted n Hdb; cbn [ingest_items].
  { exists (Ok (Some accepted)), n. split; [done|]. split; [done|]. exists 0. split; [lia|constructor]. }
  rewrite parse_message_json, (proj2 (truncated_fixed m) Hn), valid_acceptable by done.
  destruct (ingest_sync_adds m n Hdb Hv) as (r & s' & tr & Hr & Ha & Hdb' & Hres).
  set (n1 := with_trace (trace n ++ tr) (with_store s' n)) in Hr.
  destruct r as [b|e|]; [| |done].
  - rewrite (bind_run _ _ _ _ _ Hr).
    destruct (IH (if b : bool then accepted + 1 else accepted) n1 Hdb') as (r2 & n2 & Hr2 & Hdb2 & Hres2).
    exists r2, n2. split; [done|]. split; [done|]. destruct r2 as [[a|]|e|]; [|done| |done].
    + destruct Hres2 as (k & -> & Hk). exists ((if b : bool then 1 else 0) + k).
      split; [destruct b; lia|]. by econstructor.
    + destruct Hres2 as (taken & m' & rest & k & s1 & -> & Hk & Hthrow & Hlog).
      exists (m :: taken), m', rest, ((if b : bool then 1 else 0) + k), s1. split; [done|].
      split; [by econstructor|]. by split.
  - rewrite (bind_throw _ _ _ _ _ Hr). exists (Throw e), n1. split; [done|]. split; [done|].
    exists [], m, l, 0, (store_ n). split; [done|]. split; [constructor|]. by split.
Qed.

(** Dropping to the reply leaves the log alone. *)
Lemma send_json_log request status reason text n n' r :
  send_json request status reason text n = (r, n') → store_ n' = store_ n ∧ r = Ok tt.
Proof.
  unfold send_json, send_response. rewrite (bind_run _ _ _ _ _ (call_run _ n)).
  destruct (evbuffer_new (world n)).1; cbn [negb]; rewrite emit_run; intros; by simplify_eq.
Qed.

Lemma sync_summary_run request peer_summary n : posts W request "/api/v1/sync/summary" sync_summary →
  text_of (summary_object (J := J) peer_summary) (req_input request) →
  size (req_input request) ≤ max_request_bytes →
  process_request J cfg request n =
    (summary ← service_summary;
     body ← serialize_json (summary_object (J := J) summary);
     send_json request HTTP_OK "OK" body) n.
Proof.
  intros Hp Ht Hsz. rewrite (posts_run cfg _ _ _ n Hp). cbn [run_handler]. unfold handle_sync_summary.
  rewrite (bind_run _ _ _ _ _ (read_json_object_run request _ true _ (summary_object peer_summary) n
    (ps_json _ _ _ Hp) Hsz Ht (summary_object_type _))).
  unfold summary_object at 1.
  rewrite (bind_run _ _ _ _ _ (sync_member_run "sync_summary" "origins" _ _ n eq_refl ltac:(done) ltac:(done)
    (origins_object_type peer_summary))).
  unfold mbind, M_bind. destruct (service_summary n) as [[s|e|] n1]; [|done|done].
  rewrite origins_json_run. rewrite sync_envelope_run. done.
Qed.
(** A batch of valid messages is offered to the log. *)
Lemma sync_messages_ingest request l n :
  posts W request "/api/v1/sync/messages" sync_messages →
  Forall (λ m, valid_message m ∧ nul_free m = true) l → (length l ≤ 50)%nat →
  text_of (batch (J := J) l) (req_input request) → db_ok (store_ n) →
  size (req_input request) ≤ max_sync_request_bytes →
  ∃ r n', process_request J cfg request n = (r, n') ∧ db_ok (store_ n') ∧
  match r with
  | Ok _ => ∃ k n1, ingested (store_ n) l k (store_ n') ∧
      (Ok tt, n') = send_json request 200 "OK"
        (json_lit "{'status':'accepted','count':" +:+ to_string k +:+ "}") n1
  | Throw e => ingestion_stops (store_ n) l e (store_ n')
  | Undefined => False
  end.
Proof.
  intros Hp Hl Hlen Ht Hdb Hsz.
  rewrite (sync_messages_run cfg request l n Hp Ht Hsz Hlen).
  destruct (ingest_items_run request l 0 n Hl Hdb) as (r & n1 & Hr & Hdb1 & Hres).
  destruct r as [[a|]|e|]; [|done| |done].
  - rewrite (bind_run _ _ _ _ _ Hr). destruct Hres as (k & -> & Hk). change (0 + k) with k.
    destruct (send_json request HTTP_OK "OK" (json_lit "{'status':'accepted','count':" +:+ to_string k +:+ "}") n1)
      as [r2 n2] eqn:E. pose proof (send_json_log _ _ _ _ _ _ _ E) as [Hst ->].
    exists (Ok tt), n2. split; [done|]. rewrite Hst. split; [done|]. by exists k, n1.
  - rewrite (bind_throw _ _ _ _ _ Hr). by exists (Throw e), n1.
Qed.
End receiving.

(** ** Properties *)

Section properties.
Context `{JsonLaws J} `{SqliteLaws D} `{EnvLaws W} `{Unordered} (cfg : Config).
Implicit Types n : Node D W.

(** C27: the answer to a summary, at a node where no recorded origin has a NUL byte
    (the keys are C strings: "a" and "a" with NUL and more would be one).  A
    well-formed sync summary of at most 4096
    bytes is answered, when the database can be read, with this node's own
    summary: a text from which a peer reads, for every origin without NUL bytes,
    exactly the last sequence recorded here, and 0 for an unknown origin.  A
    larger summary, though the answers may have 128 KiB, is answered with 413:
    a node that has heard of enough origins can no longer synchronise. *)
Theorem sync_summary_exact (request : evhttp_request) peer_summary n :
  posts W request "/api/v1/sync/summary" sync_summary →
  text_of (summary_object (J := J) peer_summary) (req_input request) →
  db_ok (store_ n) → summary_ok (lasts (node_log n)) →
  (size (req_input request) ≤ 4096 → ∀ summary n1 t,
   service_summary n = (Ok summary, n1) →
   serialize_json (summary_object (J := J) summary) n1 = (Ok t, n1) → size t ≤ i32_max →
   process_request J cfg request n = send_json request 200 "OK" t n1 ∧
   text_of (summary_object (J := J) summary) t ∧
   summary = lasts (node_log n) ∧ node_log n1 = node_log n ∧
   ∀ o, no_nul o = true → remote_last J (origins_object summary) o = default 0 (lasts (node_log n) !! o)) ∧
  (4096 < size (req_input request) →
   handle_request J cfg request n =
     send_json request 413 "Payload Too Large" (json_lit "{'error':'request_too_large'}") n).
Proof.
  intros Hp Hin Hdb Hok. split; [|intros Hsz; apply (posts_large cfg _ _ _ n Hp); right; by left].
  intros Hsz summary n1 t Hs Ht Hlen.
  assert (summary = lasts (node_log n) ∧ node_log n1 = node_log n) as [-> Hlog].
  { unfold service_summary in Hs. rewrite on_store_run in Hs.
    destruct (sequence_summary (store_ n)) as [r s1] eqn:E. cbn in Hs. simplify_eq.
    eapply (spec_run _ _ _ _ _ _ _ (sequence_summary_spec (view (database (store_ n))) (messages_ (store_ n))
      (lo_range _ (db_log _ Hdb)))) in E; [|done].
    destruct E as [[Hv _] ->]. split; [done|]. unfold node_log, abs. cbn. by rewrite Hv. }
  split_and!; [| |done|done|].
  - rewrite (sync_summary_run cfg request peer_summary n Hp Hin Hsz).
    by rewrite (bind_run _ _ _ _ _ Hs), (bind_run _ _ _ _ _ Ht).
  - refine (serialized_text_of 2 _ _ n1 _ _ Ht Hlen); [apply summary_object_built|lia].
  - intros o Ho. by apply remote_last_origins.
Qed.

(** C11: what a node sends for a peer's summary, when all its stored messages are
    valid and neither their origins nor those of the summary have NUL bytes (origins
    are looked up as C strings): nothing when it has no message
    above the peer's last sequences; otherwise it makes one attempt to POST to /api/v1/sync/messages
    of the peer the summary came from, which is a request when libevent refuses
    nothing, holding exactly the first fifty such messages in storage order.  A message at or below the last sequence of its
    origin is never sent, whether or not the peer has it. *)
Theorem send_missing_exact context summary text n :
  summary_ok summary → text_of (summary_object (J := J) summary) text →
  Forall (λ m, valid_message m ∧ no_nul (origin m) = true) (messages_ (store_ n)) →
  let l := missing summary (messages_ (store_ n)) in
  (l = [] → send_missing J cfg context text n = (Ok tt, n)) ∧
  (l ≠ [] → ∃ t w effects,
    send_missing J cfg context text n = (Ok tt, with_world w (with_trace (trace n ++ effects) n)) ∧
    attempt (local_address_ cfg) [] sync_headers (address context) (port context) "/api/v1/sync/messages" t effects ∧
    (accepting W → made effects) ∧
    (size t ≤ i32_max → text_of (batch (J := J) l) t)) ∧
  Forall (λ m, m ∈ messages_ (store_ n) ∧ default 0 (summary !! origin m) < sequence m) l.
Proof.
  intros Hs Ht Hm l. split_and!.
  - intros Hnil. rewrite (send_missing_run cfg context summary text n Hs
      ltac:(by eapply Forall_impl; [exact Hm|intros ? [_ ?]]) Ht). fold l. by rewrite decide_True.
  - intros Hne. destruct (send_missing_posts cfg context summary text n Hs Ht Hm Hne) as (t & w & ef & ? & ? & ? & _ & ?).
    by exists t, w, ef.
  - apply missing_above.
Qed.

End properties.

(** ** Witnesses *)

Definition model_text (j : jtree) : string := pos_text (encode j).

Lemma model_serialize (j : jtree) S (s : S) : serialize_json j s = (Ok (model_text j), s).
Proof. unfold serialize_json. cbn. by rewrite c_str_no_nul by apply no_nul_pos_text. Qed.

Definition summary_request : evhttp_request :=
  post_to "/api/v1/sync/summary" (model_text (summary_object (J := jtree) ∅)).

Lemma sync_summary_exact_witness :
  let n := service_node store1 in
  process_request jtree plain_config summary_request n =
    send_json summary_request 200 "OK" (model_text (summary_object (J := jtree) {["node-a" := 1]})) n ∧
  remote_last jtree (origins_object {["node-a" := 1]}) "node-a" = 1.
Proof.
  destruct (sync_summary_exact (J := jtree) plain_config summary_request ∅ (service_node store1)) as [Hfits _].
  - split; [done|done|]. cbn. set_solver.
  - by apply model_text_of; vm_compute.
  - apply store1_ok.
  - apply (map_Forall_insert_2 _ ∅ "node-a" 1); [by split; [|split]|apply map_Forall_empty].
  - destruct (Hfits ltac:(by vm_compute) {["node-a" := 1]} (service_node store1)
      (model_text (summary_object (J := jtree) {["node-a" := 1]}))) as (Hr & _ & _ & _ & Hl).
    + by vm_compute.
    + apply model_serialize.
    + by vm_compute.
    + split; [exact Hr|]. by rewrite Hl.
Defined.

(** A peer at 10.0.0.2 that has nothing from node-a. *)
Definition peer_context : RequestContext := MkContext 5 "10.0.0.2" 7777.

Lemma send_missing_exact_witness :
  let n := service_node store1 in
  missing ∅ (messages_ (store_ n)) = [first_message] ∧
  ∃ t w effects, send_missing jtree plain_config peer_context (model_text (summary_object (J := jtree) ∅)) n =
      (Ok tt, with_world w (with_trace (trace n ++ effects) n)) ∧
    attempt EmptyString [] sync_headers "10.0.0.2" 7777 "/api/v1/sync/messages" t effects ∧ made effects ∧
    (size t ≤ i32_max → text_of (batch (J := jtree) [first_message]) t).
Proof.
  cbv zeta. assert (missing ∅ (messages_ (store_ (service_node store1))) = [first_message]) as Hm
    by (by vm_compute).
  split; [exact Hm|].
  destruct (send_missing_exact (J := jtree) plain_config peer_context ∅
    (model_text (summary_object (J := jtree) ∅)) (service_node store1)) as (_ & Hsend & _).
  - apply map_Forall_empty.
  - by apply model_text_of; vm_compute.
  - assert (messages_ (store_ (service_node store1)) = [first_message]) as -> by (by vm_compute).
    constructor; [|constructor]. split; [apply first_message_valid|by vm_compute].
  - rewrite Hm in Hsend. destruct (Hsend ltac:(done)) as (t & w & ef & Hr & Ha & Hmade & Ht).
    exists t, w, ef. split; [exact Hr|]. split; [exact Ha|]. split; [|exact Ht].
    apply Hmade, reliable_accepting.
Defined.

Definition batch_request (l : list ChatMessage) : evhttp_request :=
  post_to "/api/v1/sync/messages" (model_text (batch (J := jtree) l)).

Lemma batch_posts l : posts reliable (batch_request l) "/api/v1/sync/messages" sync_messages.
Proof. split; [done|done|]. cbn. set_solver. Qed.

