(* ===== verification/Convergence.v ===== *)
(** * A round of synchronisation between two nodes

    Node a gets the summary of node b, sends what b lacks, and b ingests the
    batch (sync_service.cpp on one side, sync_messages of http_api.cpp on the
    other).  When ids name messages, b takes the whole batch, and when the batch
    held all that b lacked, a has nothing to send in the next round. *)

From S2P Require Import Prelude Cxx Protocol Utf8 Json ModelJson MessageCodec Sqlite ModelDb.
From S2P Require Import MessageStore StoreProperties Env Node Ledger Clock PeerRegistry Discovery.
From S2P Require Import EventStream Replication MessageService Http HttpApi HttpApiProperties Sync.
From S2P Require Import SyncProperties.
Open Scope Z_scope.

(** ** Messages that do not clash with the log *)

(** The last sequences after [m] was appended. *)
Definition raise (lasts : gmap string Z) (m : ChatMessage) : gmap string Z :=
  <[origin m := match lasts !! origin m with Some last => Z.max last (sequence m) | None => sequence m end]> lasts.

Lemma clashes_drop d (l : list ChatMessage) m :
  existsb (conflicts m) l = false → existsb (conflicts m) (drop d l) = false.
Proof.
  intros Hl. rewrite <- (take_drop d l), existsb_app in Hl. by apply orb_false_iff in Hl as [_ ?].
Qed.

(** A message without a clash is taken; the full database may have lost its
    oldest messages before. *)
Lemma add_result_free full a m b a1 : clashes a m = false → (b, a1) = add_result full a m →
  b = true ∧ lasts a1 = raise (lasts a) m ∧
  ∃ d, (d ≤ length (entries a))%nat ∧ entries a1 = drop d (entries a ++ [m]).
Proof.
  unfold add_result, put_message. intros Hc Hr. destruct full; cycle 1.
  - rewrite Hc in Hr. simplify_eq. split_and!; [done..|]. exists 0%nat. split; [lia|done].
  - assert (clashes (forget 100 a) m = false) as Hc' by (by apply clashes_drop).
    rewrite Hc' in Hr. simplify_eq. split_and!; [done..|].
    exists (100 `min` length (entries a))%nat. split; [lia|]. cbn [forget append entries].
    rewrite drop_app_le by lia. f_equal. destruct (decide (100 ≤ length (entries a))%nat).
    + by rewrite Nat.min_l by done.
    + by rewrite Nat.min_r, drop_all, drop_ge by lia.
Qed.

Lemma pairwise_free_cons x l :
  pairwise_free (x :: l) ↔ Forall (λ y, conflicts x y = false) l ∧ pairwise_free l.
Proof.
  rewrite Forall_lookup. split.
  - intros Hp. split; [intros i y Hi; exact (Hp 0%nat (S i) x y eq_refl Hi ltac:(done))|].
    intros i j m1 m2 Hi Hj Hij. exact (Hp (S i) (S j) m1 m2 Hi Hj ltac:(congruence)).
  - intros [Hx Hp] [|i] [|j] m1 m2 Hi Hj Hij; cbn in *; simplify_eq; eauto.
    rewrite conflicts_sym. eauto.
Qed.

Lemma pairwise_free_sublist l l' : sublist l' l → pairwise_free l → pairwise_free l'.
Proof.
  induction 1 as [|x l1 l2 Hs IH|x l1 l2 Hs IH]; rewrite ?pairwise_free_cons; [done| |naive_solver].
  intros [Hx Hp]. split; [|by apply IH]. rewrite Forall_forall in Hx. apply Forall_forall.
  intros y Hy. by apply Hx, (elem_of_sublist _ _ _ Hy).
Qed.

Lemma ingested_free `{SqliteLaws D} (s s' : Store D) l k :
  Forall (λ m, clashes (abs s) m = false) l → pairwise_free l → ingested s l k s' →
  k = Z.of_nat (length l) ∧ lasts (abs s') = foldl raise (lasts (abs s)) l ∧
  ∃ d, entries (abs s') = drop d (entries (abs s) ++ l).
Proof.
  intros Hfree Hp Hi. induction Hi as [s|s m b s1 l k s2 _ _ Hadd _ IH].
  { split_and!; [done..|]. exists 0%nat. by rewrite app_nil_r. }
  apply Forall_cons in Hfree as [Hm Hfree].
  apply add_result_free in Hadd as (-> & Hl1 & d & Hd & He1); [|done].
  destruct IH as (-> & Hl2 & d2 & He2).
  - apply Forall_forall. intros m2 Hin. unfold clashes. rewrite He1. apply clashes_drop.
    rewrite existsb_app, orb_false_iff. rewrite Forall_forall in Hfree. split; [by apply Hfree|].
    cbn. rewrite orb_false_r, conflicts_sym. apply pairwise_free_cons in Hp as [Hp _].
    rewrite Forall_forall in Hp. by apply Hp.
  - by apply pairwise_free_cons in Hp as [_ ?].
  - split_and!; [cbn [length]; lia|by rewrite Hl2, Hl1|]. exists (d + d2)%nat.
    rewrite He2, He1, <- drop_drop. f_equal. set (e := entries (abs s)) in *.
    rewrite (cons_middle m e l), (assoc_L (++)), (drop_app_le (e ++ [m]) l); [done|].
    rewrite length_app. lia.
Qed.

(** ** The last sequences after a batch *)

Lemma raise_lookup lasts m o : default 0 (raise lasts m !! o) =
  if decide (o = origin m) then
    match lasts !! o with Some last => Z.max last (sequence m) | None => sequence m end
  else default 0 (lasts !! o).
Proof.
  unfold raise. case_decide as E; [subst; by rewrite lookup_insert_eq|]. by rewrite lookup_insert_ne.
Qed.

Lemma raise_all_le l lasts o : Forall (λ m, 1 ≤ sequence m) l → 
  default 0 (lasts !! o) ≤ default 0 (foldl raise lasts l !! o).
Proof.
  intros Hl. revert lasts. induction Hl as [|m l Hm Hl IH]; intros lasts; cbn; [done|].
  etransitivity; [|apply IH]. rewrite raise_lookup. case_decide; [|done].
  destruct (lasts !! o); cbn; lia.
Qed.

Lemma raise_all_covers l lasts m : Forall (λ m, 1 ≤ sequence m) l → m ∈ l →
  sequence m ≤ default 0 (foldl raise lasts l !! origin m).
Proof.
  intros Hl. revert lasts. induction Hl as [|m' l Hm Hl IH]; intros lasts Hin; [by apply not_elem_of_nil in Hin|].
  apply elem_of_cons in Hin as [->|Hin]; cbn; [|by apply IH].
  etransitivity; [|by apply raise_all_le]. rewrite raise_lookup, decide_True by done.
  destruct (lasts !! origin m'); lia.
Qed.

Lemma raise_all_ok l lasts : summary_ok lasts →
  Forall (λ m, no_nul (origin m) = true ∧ 1 ≤ sequence m ≤ i64_max) l → summary_ok (foldl raise lasts l).
Proof.
  intros Hs Hl. revert lasts Hs. induction Hl as [|m l [Hn Hm] Hl IH]; intros lasts Hs; cbn; [done|].
  apply IH, map_Forall_insert_2; [|done]. split; [done|].
  destruct (lasts !! origin m) as [last|] eqn:E; [|done]. apply Hs in E. lia.
Qed.

Lemma nul_free_origin m : nul_free m = true → no_nul (origin m) = true.
Proof. unfold nul_free. rewrite !andb_true_iff. by intros [[_ ?] _]. Qed.

(** ** The round *)

(** All that is above the given last sequences. *)
Definition above (summary : gmap string Z) (l : list ChatMessage) : list ChatMessage :=
  filter (λ m, (default 0 (summary !! origin m) <? sequence m) = true) l.

(** Two messages with one id have one origin and sequence. *)
Definition ids_name (l l' : list ChatMessage) : Prop :=
  ∀ m m', m ∈ l → m' ∈ l' → message_id m = message_id m' → origin m = origin m' ∧ sequence m = sequence m'.

(** What is above the last sequences of a log does not clash with it. *)
Lemma missing_free a l m : log_ok a → ids_name l (entries a) → m ∈ l →
  default 0 (lasts a !! origin m) < sequence m → clashes a m = false.
Proof.
  intros Ha Hids Hin Hm. apply not_true_is_false. intros (r & Hr & Hc)%existsb_exists.
  apply list_elem_of_In in Hr. pose proof (lo_last _ Ha) as Hlast. rewrite Forall_forall in Hlast.
  destruct (Hlast r Hr) as (last & Hl & Hle).
  assert (origin m = origin r ∧ sequence m = sequence r) as [Ho Hs].
  { unfold conflicts in Hc. apply orb_true_iff in Hc as [Hc|Hc].
    - apply str_eqb_true in Hc. by apply Hids.
    - apply andb_true_iff in Hc as [Ho%str_eqb_true Hs%Z.eqb_eq]. by rewrite Ho, Hs. }
  rewrite Ho, Hl in Hm. cbn in Hm. lia.
Qed.

Lemma missing_sublist summary l : sublist (missing summary l) l.
Proof. unfold missing. etransitivity; [apply sublist_take|apply sublist_filter]. Qed.

Section round.
Context `{JsonLaws J} `{SqliteLaws D} `{EnvLaws W} `{Unordered} (cfg_a cfg_b : Config).
Implicit Types a b n : Node D W.

(** Nothing is sent to a node that lacks nothing. *)
Lemma send_nothing context summary text n :
  summary_ok summary → text_of (summary_object (J := J) summary) text →
  Forall (λ m, no_nul (origin m) = true) (messages_ (store_ n)) →
  above summary (messages_ (store_ n)) = [] →
  send_missing J cfg_a context text n = (Ok tt, n).
Proof.
  intros Hs Ht Ho Hnil. rewrite (send_missing_run cfg_a context summary text n Hs Ho Ht).
  rewrite decide_True; [done|]. unfold missing. fold (above summary (messages_ (store_ n))).
  by rewrite Hnil.
Qed.

(** A batch that was ingested leaves nothing above the new last sequences. *)
Lemma nothing_above summary l : Forall (λ m, 1 ≤ sequence m) l → (length (above summary l) ≤ 50)%nat →
  above (foldl raise summary (missing summary l)) l = [].
Proof.
  intros Hl Hlen. assert (missing summary l = above summary l) as Hm by (unfold missing; by rewrite take_ge).
  assert (Forall (λ m, 1 ≤ sequence m) (above summary l)) as Hpos.
  { rewrite Forall_forall in Hl. apply Forall_forall. intros m [_ Hin]%list_elem_of_filter. by apply Hl. }
  destruct (above (foldl raise summary (missing summary l)) l) as [|m rest] eqn:E; [done|exfalso].
  assert (m ∈ above (foldl raise summary (missing summary l)) l) as Hm' by (rewrite E; apply list_elem_of_here).
  apply list_elem_of_filter in Hm' as [Hlt%Z.ltb_lt Hin]. rewrite Hm in Hlt. pose proof (raise_all_le (above summary l) summary (origin m) Hpos) as Hle.
  assert (m ∈ above summary l) as Habove by (apply list_elem_of_filter; split; [apply Z.ltb_lt; lia|done]).
  pose proof (raise_all_covers (above summary l) summary m Hpos Habove). lia.
Qed.

(** What a sends when something is above b's last sequences, and what b makes of
    it: its log is extended by the batch. *)
Lemma round_runs context text a b :
  store_ok (store_ a) → db_ok (store_ b) →
  Forall (λ m, valid_message m ∧ nul_free m = true) (messages_ (store_ a)) →
  summary_ok (lasts (node_log b)) → ids_name (messages_ (store_ a)) (entries (node_log b)) →
  text_of (summary_object (J := J) (lasts (node_log b))) text →
  let l := missing (lasts (node_log b)) (messages_ (store_ a)) in
  l ≠ [] →
  ∃ t w effects, send_missing J cfg_a context text a = (Ok tt, with_world w (with_trace (trace a ++ effects) a)) ∧
    attempt (local_address_ cfg_a) [] sync_headers (address context) (port context) "/api/v1/sync/messages" t effects ∧
    serialize_json (batch (J := J) l) tt = (Ok t, tt) ∧
    ∀ request b', posts W request "/api/v1/sync/messages" sync_messages → req_input request = t →
      size t ≤ max_sync_request_bytes → process_request J cfg_b request b = (Ok tt, b') →
      db_ok (store_ b') ∧ lasts (node_log b') = foldl raise (lasts (node_log b)) l ∧
      (∃ d, entries (node_log b') = drop d (entries (node_log b) ++ l)) ∧
      ∃ n1, send_json request 200 "OK" (json_lit "{'status':'accepted','count':" +:+
         to_string (Z.of_nat (length l)) +:+ "}") n1 = (Ok tt, b').
Proof.
  intros [Ha Hcache] Hb Hval Hsum Hids Ht l Hne.
  assert (Forall (λ m, valid_message m ∧ no_nul (origin m) = true) (messages_ (store_ a))) as Hval'.
  { eapply Forall_impl; [exact Hval|]. intros m [Hv Hn]. split; [done|by apply nul_free_origin]. }
  destruct (send_missing_posts cfg_a context _ text a Hsum Ht Hval' Hne) as (t & w & ef & Hsend & Hatt & _ & Hser & Htext).
  exists t, w, ef. split; [done|]. split; [done|]. split; [exact (Hser _ tt)|]. fold l in Htext.
  intros request b' Hp Hin Hsz Hrun.
  pose proof (missing_sublist (lasts (node_log b)) (messages_ (store_ a))) as Hsub. fold l in Hsub.
  assert (Forall (λ m, valid_message m ∧ nul_free m = true) l) as Hl.
  { rewrite Forall_forall in Hval. apply Forall_forall. intros m Hm. by apply Hval, (elem_of_sublist _ _ _ Hm). }
  rewrite <- Hin in Hsz, Htext. unfold max_sync_request_bytes in Hsz.
  assert (length l ≤ 50)%nat as Hlen by (unfold l, missing; rewrite length_take; lia).
  destruct (sync_messages_ingest cfg_b request l b Hp Hl Hlen (Htext ltac:(unfold_ints; lia)) Hb Hsz)
    as (r & n' & Hr & Hdb' & Hres).
  rewrite Hrun in Hr. simplify_eq. destruct Hres as (k & n1 & Hing & Hreply).
  apply ingested_free in Hing as (-> & Hlasts & Hent).
  - split_and!; [done..|by exists n1].
  - pose proof (missing_above (lasts (node_log b)) (messages_ (store_ a))) as Habove. fold l in Habove.
    eapply Forall_impl; [exact Habove|]. intros m [Hm Hlt]. by eapply missing_free, Hlt; [apply Hb|..].
  - apply (pairwise_free_sublist _ _ Hsub). rewrite Hcache. exact (lo_unique _ (db_log _ Ha)).
Qed.

Lemma valid_range m : valid_message m ∧ nul_free m = true → no_nul (origin m) = true ∧ 1 ≤ sequence m ≤ i64_max.
Proof. intros [Hv Hn]. split; [by apply nul_free_origin|by destruct Hv]. Qed.

(** A round of synchronisation.  When node a gets the summary of node b and has
    something above it, it posts one batch; when b takes that request without an
    error, b's log is extended by exactly the first fifty messages of a that b
    lacked (a full database drops its oldest messages), the answer counts them
    all, and b's last sequences cover them.  If there were at most fifty, then a
    sends nothing for b's next summary.  The stored messages have no NUL bytes in
    their strings, and an id stands for one origin and sequence. *)
Theorem sync_round_converges context text a b :
  store_ok (store_ a) → db_ok (store_ b) →
  Forall (λ m, valid_message m ∧ nul_free m = true) (messages_ (store_ a)) →
  summary_ok (lasts (node_log b)) → ids_name (messages_ (store_ a)) (entries (node_log b)) →
  text_of (summary_object (J := J) (lasts (node_log b))) text →
  let l := missing (lasts (node_log b)) (messages_ (store_ a)) in
  l ≠ [] →
  ∃ t w effects, let a' := with_world w (with_trace (trace a ++ effects) a) in
    send_missing J cfg_a context text a = (Ok tt, a') ∧
    attempt (local_address_ cfg_a) [] sync_headers (address context) (port context) "/api/v1/sync/messages" t effects ∧
    serialize_json (batch (J := J) l) tt = (Ok t, tt) ∧
    ∀ request b', posts W request "/api/v1/sync/messages" sync_messages → req_input request = t →
      size t ≤ max_sync_request_bytes → process_request J cfg_b request b = (Ok tt, b') →
      (∃ d, entries (node_log b') = drop d (entries (node_log b) ++ l)) ∧
      (∃ n1, send_json request 200 "OK" (json_lit "{'status':'accepted','count':" +:+
         to_string (Z.of_nat (length l)) +:+ "}") n1 = (Ok tt, b')) ∧
      Forall (λ m, sequence m ≤ default 0 (lasts (node_log b') !! origin m)) l ∧
      ((length (above (lasts (node_log b)) (messages_ (store_ a))) ≤ 50)%nat → ∀ context' text',
         text_of (summary_object (J := J) (lasts (node_log b'))) text' →
         send_missing J cfg_a context' text' a' = (Ok tt, a')).
Proof.
  intros Ha Hb Hval Hsum Hids Ht l Hne.
  destruct (round_runs context text a b Ha Hb Hval Hsum Hids Ht Hne) as (t & w & ef & Hsend & Hatt & Hser & Hround).
  exists t, w, ef. cbv zeta. split_and!; [done..|]. intros request b' Hp Hin Hsz Hrun.
  destruct (Hround request b' Hp Hin Hsz Hrun) as (_ & Hlasts & Hent & Hreply). fold l in Hlasts, Hent, Hreply.
  assert (Forall (λ m, no_nul (origin m) = true ∧ 1 ≤ sequence m ≤ i64_max) (messages_ (store_ a))) as Hrange
    by (eapply Forall_impl; [exact Hval|apply valid_range]).
  assert (Forall (λ m, no_nul (origin m) = true ∧ 1 ≤ sequence m ≤ i64_max) l) as Hl.
  { rewrite Forall_forall in Hrange. apply Forall_forall. intros m Hm.
    by apply Hrange, (elem_of_sublist _ _ _ Hm (missing_sublist _ _)). }
  split_and!; [done..| |].
  - apply Forall_forall. intros m Hm. rewrite Hlasts. apply raise_all_covers; [|done].
    eapply Forall_impl; [exact Hl|]. cbn. lia.
  - intros Hall context' text' Ht'. apply (send_nothing context' (lasts (node_log b')) text'); [|done| |].
    + rewrite Hlasts. by apply raise_all_ok.
    + cbn. eapply Forall_impl; [exact Hrange|]. by intros m [? _].
    + rewrite Hlasts. apply nothing_above; [|done]. eapply Forall_impl; [exact Hrange|]. cbn. lia.
Qed.
End round.

(** ** Witness *)

(** node-a has one message, its peer has none. *)
Definition full_node : Node mdb reliable := service_node store1.
Definition empty_node : Node mdb reliable := service_node store0.

Lemma sync_round_converges_witness :
  let b' := (process_request jtree plain_config (batch_request [first_message]) empty_node).2 in
  let a' := (send_missing jtree plain_config peer_context (model_text (summary_object (J := jtree) ∅)) full_node).2 in
  (∃ d, entries (node_log b') = drop d [first_message]) ∧
  sequence first_message ≤ default 0 (lasts (node_log b') !! "node-a") ∧
  send_missing jtree plain_config peer_context (model_text (summary_object (J := jtree) (lasts (node_log b')))) a' =
    (Ok tt, a').
Proof.
  cbv zeta.
  assert (messages_ (store_ full_node) = [first_message]) as Hm by (by vm_compute).
  assert (lasts (node_log empty_node) = ∅) as Hlasts by (by vm_compute).
  assert (entries (node_log empty_node) = []) as Hent by (by vm_compute).
  assert (missing ∅ [first_message] = [first_message]) as Hmiss by (by vm_compute).
  destruct (sync_round_converges (J := jtree) plain_config plain_config peer_context
    (model_text (summary_object (J := jtree) ∅)) full_node empty_node) as (t & w & ef & Hsend & _ & Hser & Hround).
  - split; [apply store1_ok|by vm_compute].
  - apply store0_ok.
  - rewrite Hm. constructor; [|constructor]. split; [apply first_message_valid|by vm_compute].
  - rewrite Hlasts. apply map_Forall_empty.
  - rewrite Hent. intros m m' _ Hin. by apply not_elem_of_nil in Hin.
  - rewrite Hlasts. by apply model_text_of; vm_compute.
  - rewrite Hlasts, Hm, Hmiss. done.
  - cbv zeta in Hsend, Hround. rewrite Hlasts, Hm, Hmiss in Hser. rewrite model_serialize in Hser.
    injection Hser as <-. rewrite Hsend. cbn [snd].
    destruct (Hround (batch_request [first_message])
      (process_request jtree plain_config (batch_request [first_message]) empty_node).2) as (Hd & _ & Hl & Hnext).
    + apply batch_posts.
    + done.
    + by vm_compute.
    + by vm_compute.
    + rewrite Hlasts, Hm, Hmiss, Hent in *. cbn [app] in Hd.
      apply Forall_cons in Hl as [Hl _].
      split; [exact Hd|]. split; [exact Hl|]. apply Hnext; [vm_compute; lia|]. apply model_text_of; by vm_compute.
Defined.
