(* ===== verification/Rounds.v ===== *)
(** * Synchronisation by rounds

    A round brings at most fifty messages.  Round after round a node sends its
    peer what it lacks; after as many rounds as there are batches in what was
    missing, nothing is left to send. *)

From S2P Require Import Prelude Cxx Protocol Utf8 Json ModelJson MessageCodec Sqlite ModelDb.
From S2P Require Import MessageStore StoreProperties Env Node Ledger Clock PeerRegistry Discovery.
From S2P Require Import EventStream Replication MessageService Http HttpApi HttpApiProperties Sync.
From S2P Require Import SyncProperties Convergence.
Open Scope Z_scope.

(** ** What is left after a batch *)

Lemma filter_all {A} (P : A → Prop) `{∀ x, Decision (P x)} l : Forall P l → filter P l = l.
Proof. induction 1 as [|x l Hx _ IH]; [done|]. by rewrite filter_cons_True, IH. Qed.

Lemma StronglySorted_filter {A} (R : relation A) (P : A → Prop) `{∀ x, Decision (P x)} l :
  StronglySorted R l → StronglySorted R (filter P l).
Proof.
  induction 1 as [|x l Hl IH Hx]; [constructor|]. rewrite filter_cons. case_decide; [|done]. constructor; [done|].
  rewrite Forall_forall in Hx. apply Forall_forall. intros y [_ Hy]%list_elem_of_filter. by apply Hx.
Qed.

Definition known_less (s s' : gmap string Z) : Prop := ∀ o, default 0 (s !! o) ≤ default 0 (s' !! o).

Lemma above_above s s' l : known_less s s' → above s' (above s l) = above s' l.
Proof.
  intros Hs. unfold above. rewrite list_filter_filter. apply list_filter_iff. intros m.
  specialize (Hs (origin m)). rewrite !Z.ltb_lt. lia.
Qed.

(** The messages of an origin come in the order of their numbers. *)
Definition in_sequence (l : list ChatMessage) : Prop :=
  StronglySorted (λ m1 m2, origin m1 = origin m2 → sequence m1 < sequence m2) l.

Lemma raise_all_below l s o x : default 0 (s !! o) < x → (∀ m, m ∈ l → origin m = o → sequence m < x) →
  default 0 (foldl raise s l !! o) < x.
Proof.
  revert s. induction l as [|m l IH]; intros s Hs Hl; cbn; [done|]. apply IH; [|intros; apply Hl; [by right|done]].
  rewrite raise_lookup. case_decide as Ho; [|done]. specialize (Hl m ltac:(left) (eq_sym Ho)). subst o.
  destruct (s !! origin m); cbn in *; lia.
Qed.

(** The summary after [k] batches from the list [l], and what they held. *)
Fixpoint batches (k : nat) (s : gmap string Z) (l : list ChatMessage) : list ChatMessage :=
  match k with
  | O => []
  | S k' => missing s l ++ batches k' (foldl raise s (missing s l)) l
  end.

Section lists.
Context (l : list ChatMessage) (Hpos : Forall (λ m, 1 ≤ sequence m) l).

Lemma sublist_positive l' : sublist l' l → Forall (λ m, 1 ≤ sequence m) l'.
Proof.
  intros Hs. rewrite Forall_forall in Hpos. apply Forall_forall. intros m Hm. by apply Hpos, (elem_of_sublist _ _ _ Hm).
Qed.

Lemma raise_known_less s l' : sublist l' l → known_less s (foldl raise s l').
Proof. intros Hs o. by apply raise_all_le, sublist_positive. Qed.

Lemma above_next s :
  above (foldl raise s (missing s l)) l = above (foldl raise s (missing s l)) (drop 50 (above s l)).
Proof.
  pose proof (missing_sublist s l) as Hsub.
  rewrite <- (above_above s) by by apply raise_known_less.
  rewrite <- (take_drop 50 (above s l)) at 1. change (take 50 (above s l)) with (missing s l).
  unfold above at 1. rewrite filter_app.
  match goal with |- ?x ++ _ = _ => assert (x = []) as -> end; [|done].
  destruct (filter _ (missing s l)) as [|m rest] eqn:E; [done|exfalso].
  assert (m ∈ m :: rest) as Hm by left. rewrite <- E in Hm. apply list_elem_of_filter in Hm as [Hlt%Z.ltb_lt Hm].
  pose proof (raise_all_covers _ s m (sublist_positive _ Hsub) Hm). lia.
Qed.

(** A batch shortens what is missing by fifty. *)
Lemma above_shrinks s : (length (above (foldl raise s (missing s l)) l) ≤ length (above s l) - 50)%nat.
Proof.
  rewrite above_next. etransitivity; [apply sublist_length, sublist_filter|]. by rewrite length_drop.
Qed.

(** It is exactly the rest when the messages come in order. *)
Lemma above_rest s : in_sequence l → above (foldl raise s (missing s l)) l = drop 50 (above s l).
Proof.
  intros Hseq. rewrite above_next. unfold above at 1. apply filter_all, Forall_forall.
  assert (in_sequence (above s l)) as Ha by (by apply StronglySorted_filter).
  unfold in_sequence in Ha. rewrite <- (take_drop 50 (above s l)) in Ha. apply StronglySorted_app in Ha as (Hcross & _).
  intros m Hm. apply Z.ltb_lt, raise_all_below.
  - assert (m ∈ above s l) as Hm' by (rewrite <- (take_drop 50 (above s l)); apply elem_of_app; by right).
    by apply list_elem_of_filter in Hm' as [?%Z.ltb_lt _].
  - intros m' Hm' Ho. by apply (Hcross m' m).
Qed.

Lemma batches_length k s : (length (above (foldl raise s (batches k s l)) l) ≤ length (above s l) - 50 * k)%nat.
Proof.
  revert s. induction k as [|k IH]; intros s; cbn [batches foldl]; [lia|]. rewrite foldl_app.
  pose proof (above_shrinks s). specialize (IH (foldl raise s (missing s l))). lia.
Qed.

Lemma batches_sequence k s : in_sequence l → batches k s l = take (50 * k) (above s l).
Proof.
  intros Hseq. revert s. induction k as [|k IH]; intros s; [done|]. cbn [batches]. rewrite IH, above_rest by done.
  replace (50 * S k)%nat with (50 + 50 * k)%nat by lia.
  change (missing s l) with (take 50 (above s l)). by rewrite take_take_drop.
Qed.

Lemma batches_missing k s : batches k s l ⊆ above s l.
Proof.
  revert s. induction k as [|k IH]; intros s; cbn [batches]; [set_solver|].
  intros m [Hm|Hm]%elem_of_app; [by apply (elem_of_sublist _ _ _ Hm), sublist_take|].
  apply IH, list_elem_of_filter in Hm as [Hlt%Z.ltb_lt Hm]. apply list_elem_of_filter. split; [|done].
  pose proof (raise_known_less s _ (missing_sublist s l) (origin m)). apply Z.ltb_lt. lia.
Qed.
End lists.

(** ** The rounds *)

Section rounds.
Context (J : Type) `{JsonC J} `{Sqlite D} `{SqliteLaws D} `{Env W} `{Unordered} (cfg_a cfg_b : Config).
Implicit Types a b : Node D W.

(** Node a gets b's summary and posts a batch, which b takes without an error. *)
Inductive sync_round : Node D W * Node D W → Node D W * Node D W → Prop :=
  | a_round context text effects request a b a' b' :
      text_of (summary_object (J := J) (lasts (node_log b))) text →
      send_missing J cfg_a context text a = (Ok tt, a') → trace a' = trace a ++ effects →
      ("/api/v1/sync/messages", req_input request) ∈ posted effects →
      posts W request "/api/v1/sync/messages" sync_messages →
      size (req_input request) ≤ max_sync_request_bytes →
      process_request J cfg_b request b = (Ok tt, b') →
      sync_round (a, b) (a', b').
End rounds.

Lemma attempt_posts local on_null headers address port path payload l r : posted on_null = [] →
  attempt local on_null headers address port path payload l → r ∈ posted l → r = (path, payload).
Proof.
  intros Hn Ha. destruct Ha as [|c|c q|c q]; [by rewrite Hn; intros ?%not_elem_of_nil|..];
    unfold posted; destruct (empty local); cbn; set_solver.
Qed.

Section properties.
Context `{JsonLaws J} `{SqliteLaws D} `{EnvLaws W} `{Unordered} (cfg_a cfg_b : Config).
Implicit Types a b : Node D W.

(** What two nodes satisfy that synchronise: both databases are in order, the
    sender's cached list is its table, its messages are valid and have no NUL bytes in
    their strings, the origins recorded at the receiver have none, and an id stands for one origin
    and sequence at both. *)
Record synchronisable a b : Prop := {
  sy_sender : store_ok (store_ a);
  sy_receiver : db_ok (store_ b);
  sy_valid : Forall (λ m, valid_message m ∧ nul_free m = true) (messages_ (store_ a));
  sy_summary : summary_ok (lasts (node_log b));
  sy_ids : ids_name (messages_ (store_ a)) (entries (node_log b));
}.

Lemma positive_valid a b : synchronisable a b → Forall (λ m, 1 ≤ sequence m) (messages_ (store_ a)).
Proof. intros Hs. eapply Forall_impl; [apply (sy_valid _ _ Hs)|]. intros m [Hv _]. by apply Hv. Qed.

(** The ids of the sender's own list name messages. *)
Lemma own_ids a : store_ok (store_ a) → ids_name (messages_ (store_ a)) (messages_ (store_ a)).
Proof.
  intros [Hdb ->] m m' [i Hi]%list_elem_of_lookup [j Hj]%list_elem_of_lookup Hid.
  destruct (decide (i = j)) as [->|Hij]; [by simplify_eq|].
  pose proof (lo_unique _ (db_log _ Hdb) i j m m' Hi Hj Hij) as Hc. unfold conflicts in Hc.
  by rewrite Hid, (proj2 (str_eqb_true _ _) eq_refl) in Hc.
Qed.

(** What an exchange between a and b does: b's log grows by the next batch. *)
Definition takes_batch a b a' b' : Prop :=
  let l := missing (lasts (node_log b)) (messages_ (store_ a)) in
  l ≠ [] ∧ messages_ (store_ a') = messages_ (store_ a) ∧
  lasts (node_log b') = foldl raise (lasts (node_log b)) l ∧
  (∃ d, entries (node_log b') = drop d (entries (node_log b) ++ l)) ∧ synchronisable a' b'.

Lemma round_keeps a b a' b' : synchronisable a b → sync_round J cfg_a cfg_b (a, b) (a', b') →
  store_ a' = store_ a ∧ takes_batch a b a' b'.
Proof.
  intros Hs Hr. unfold takes_batch. set (l := missing _ _). inversion Hr as [context text effects request ? ? ? ? Ht Hsend Htr Hpost Hp Hsz Hrun]; subst.
  pose proof Hs as [Ha Hb Hval Hsum Hids].
  assert (l ≠ []) as Hne.
  { intros Hnil. rewrite (send_nothing cfg_a context _ text a Hsum Ht) in Hsend.
    - injection Hsend as <-. rewrite <- (app_nil_r (trace a)) in Htr at 1. apply app_inv_head in Htr as <-.
      by apply not_elem_of_nil in Hpost.
    - eapply Forall_impl; [exact Hval|]. by intros m [? _]%valid_range.
    - unfold l, missing in Hnil. unfold above. by destruct (filter _ _). }
  destruct (round_runs cfg_a cfg_b context text a b Ha Hb Hval Hsum Hids Ht Hne)
    as (t & w & ef & Hsend' & Hatt & _ & Hround).
  rewrite Hsend in Hsend'. injection Hsend' as ->. cbn in Htr. apply app_inv_head in Htr as <-.
  pose proof (attempt_posts _ [] _ _ _ _ _ _ _ eq_refl Hatt Hpost) as Heq. injection Heq as Hin.
  destruct (Hround request b' Hp Hin ltac:(by rewrite <- Hin) Hrun) as (Hdb' & Hl & [d Hd] & _). fold l in Hl, Hd.
  split_and!; [done..|by exists d|]. split; try done.
  - rewrite Hl. apply raise_all_ok; [done|]. rewrite Forall_forall in Hval. apply Forall_forall. intros m Hm.
    by apply valid_range, Hval, (elem_of_sublist _ _ _ Hm), missing_sublist.
  - intros m m' Hm Hm'. rewrite Hd in Hm'. assert (m' ∈ entries (node_log b) ++ l) as [Hm2|Hm2]%elem_of_app
      by (rewrite <- (take_drop d (entries (node_log b) ++ l)); apply elem_of_app; by right); [by apply Hids|].
    apply (own_ids a Ha m m' Hm). by apply (elem_of_sublist _ _ _ Hm2), missing_sublist.
Qed.

(** What k rounds bring; enough of them leave nothing to send. *)
Definition converges (k : nat) a b a' b' : Prop :=
  let lacking := above (lasts (node_log b)) (messages_ (store_ a)) in
  (50 * (k - 1) < length lacking ∨ k = 0)%nat ∧
  (length (above (lasts (node_log b')) (messages_ (store_ a))) ≤ length lacking - 50 * k)%nat ∧
  (∃ sent d, sent ⊆ lacking ∧ entries (node_log b') = drop d (entries (node_log b) ++ sent) ∧
    (in_sequence (messages_ (store_ a)) → sent = take (50 * k) lacking)) ∧
  ((length lacking ≤ 50 * k)%nat →
    Forall (λ m, sequence m ≤ default 0 (lasts (node_log b') !! origin m)) (messages_ (store_ a)) ∧
    ∀ context text, text_of (summary_object (J := J) (lasts (node_log b'))) text →
      send_missing J cfg_a context text a' = (Ok tt, a')).

(** Exchanges of any kind, as long as each takes a batch. *)
Section rounds_of.
Context (R : relation (Node D W * Node D W)).
Hypothesis HR : ∀ a b a' b', synchronisable a b → R (a, b) (a', b') → takes_batch a b a' b'.

(** Every round starts with something missing, and moves [batches]. *)
Lemma rounds_run k a b a' b' : synchronisable a b → nsteps R k (a, b) (a', b') →
  let l := messages_ (store_ a) in let s := lasts (node_log b) in
  synchronisable a' b' ∧ messages_ (store_ a') = l ∧ lasts (node_log b') = foldl raise s (batches k s l) ∧
  (∃ d, entries (node_log b') = drop d (entries (node_log b) ++ batches k s l)) ∧
  (50 * (k - 1) < length (above s l) ∨ k = 0)%nat.
Proof.
  revert a b. induction k as [|k IH]; intros a b Hs Hr; cbv zeta.
  - inversion Hr; subst. split_and!; [done..| |by right]. exists 0%nat. by rewrite app_nil_r.
  - inversion Hr as [|? ? [a1 b1] ? Hr1 Hr2]; subst.
    destruct (HR a b a1 b1 Hs Hr1) as (Hne & Ha1 & Hl1 & [d1 Hd1] & Hs1).
    destruct (IH a1 b1 Hs1 Hr2) as (Hs' & Ha' & Hl' & [d Hd] & Hk). rewrite Ha1, Hl1 in *.
    split_and!; [done|done| | |].
    + cbn [batches]. by rewrite foldl_app.
    + cbn [batches]. rewrite (assoc_L (++)). set (e := entries (node_log b) ++ missing _ _) in *.
      exists (d1 `min` length e + d)%nat. rewrite Hd, Hd1, <- drop_drop. f_equal.
      destruct (decide (d1 ≤ length e)%nat).
      * by rewrite Nat.min_l, drop_app_le by done.
      * rewrite Nat.min_r by lia. by rewrite drop_app_length, drop_ge by lia.
    + left. pose proof (above_shrinks _ (positive_valid a b Hs) (lasts (node_log b))).
      assert (0 < length (above (lasts (node_log b)) (messages_ (store_ a))))%nat; [|lia].
      apply Nat.neq_0_lt_0. intros E%length_zero_iff_nil. apply Hne. unfold missing.
      fold (above (lasts (node_log b)) (messages_ (store_ a))). by rewrite E.
Qed.

Lemma rounds_converge k a b a' b' : synchronisable a b → nsteps R k (a, b) (a', b') → converges k a b a' b'.
Proof.
  intros Hs Hr. unfold converges. set (lacking := above _ _). pose proof (positive_valid a b Hs) as Hpos.
  destruct (rounds_run k a b a' b' Hs Hr) as (Hs' & Ha' & Hl' & [d Hd] & Hk).
  pose proof (batches_length _ Hpos k (lasts (node_log b))) as Hlen. rewrite <- Hl' in Hlen.
  split_and!; [done|done| |].
  - eexists _, d. split; [by apply batches_missing|]. split; [exact Hd|]. intros Hseq. by apply batches_sequence.
  - intros Hall. fold lacking in Hlen.
    assert (above (lasts (node_log b')) (messages_ (store_ a)) = []) as Hnil by (apply nil_length_inv; lia).
    split.
    + apply Forall_forall. intros m Hm. apply Z.nlt_ge. intros Hlt.
      apply (filter_nil_not_elem_of _ _ m Hnil); [by apply Z.ltb_lt|done].
    + intros context text Ht. apply (send_nothing cfg_a context (lasts (node_log b')) text); [apply Hs'|done| |].
      * eapply Forall_impl; [apply (sy_valid _ _ Hs')|]. by intros m [? _]%valid_range.
      * by rewrite Ha'.
Qed.
End rounds_of.

(** C10: synchronisation converges.  Suppose that the databases of nodes a and b are
    in order and a's cached list equals its table; that a's messages are valid and
    have no NUL bytes in id, origin and callsign, and the origins recorded at b have
    none; and that messages of a and b with the same id have the same origin and
    number.  As long as node b takes the batches without an error, each round shortens the list of what node a has above b's last
    sequences by fifty: there are no more rounds than batches needed, and after
    so many b's last sequences cover every message of a, and a answers b's next
    summary with nothing.  b's log is extended by the batches, all messages of a
    that b lacked (a full database drops its oldest); when a has the messages of
    each origin in the order of their numbers, by exactly the first fifty for
    each round. *)
Theorem sync_rounds_converge k a b a' b' :
  synchronisable a b → nsteps (sync_round J cfg_a cfg_b) k (a, b) (a', b') →
  let lacking := above (lasts (node_log b)) (messages_ (store_ a)) in
  (50 * (k - 1) < length lacking ∨ k = 0)%nat ∧
  (length (above (lasts (node_log b')) (messages_ (store_ a))) ≤ length lacking - 50 * k)%nat ∧
  (∃ sent d, sent ⊆ lacking ∧ entries (node_log b') = drop d (entries (node_log b) ++ sent) ∧
    (in_sequence (messages_ (store_ a)) → sent = take (50 * k) lacking)) ∧
  ((length lacking ≤ 50 * k)%nat →
    Forall (λ m, sequence m ≤ default 0 (lasts (node_log b') !! origin m)) (messages_ (store_ a)) ∧
    ∀ context text, text_of (summary_object (J := J) (lasts (node_log b'))) text →
      send_missing J cfg_a context text a' = (Ok tt, a')).
Proof.
  intros Hs Hr. apply (rounds_converge (sync_round J cfg_a cfg_b)); [|done..].
  intros a1 b1 a2 b2 Hs1 Hr1. by apply round_keeps.
Qed.
End properties.

(** ** Witness *)

(** One round between a node with one message and an empty one. *)
Definition first_round : Node mdb reliable * Node mdb reliable :=
  ((send_missing jtree plain_config peer_context (model_text (summary_object (J := jtree) ∅)) full_node).2,
   (process_request jtree plain_config (batch_request [first_message]) empty_node).2).

Lemma first_synchronisable : synchronisable full_node empty_node.
Proof.
  split.
  - split; [apply store1_ok|by vm_compute].
  - apply store0_ok.
  - assert (messages_ (store_ full_node) = [first_message]) as -> by (by vm_compute).
    constructor; [|constructor]. split; [apply first_message_valid|by vm_compute].
  - assert (lasts (node_log empty_node) = ∅) as -> by (by vm_compute). apply map_Forall_empty.
  - assert (entries (node_log empty_node) = []) as -> by (by vm_compute).
    intros m m' _ Hin. by apply not_elem_of_nil in Hin.
Qed.

Lemma first_round_runs :
  sync_round jtree plain_config plain_config (full_node, empty_node) (first_round.1, first_round.2).
Proof.
  apply (a_round jtree plain_config plain_config peer_context (model_text (summary_object (J := jtree) ∅))
    (drop (length (trace full_node)) (trace first_round.1)) (batch_request [first_message])).
  - assert (lasts (node_log empty_node) = ∅) as -> by (by vm_compute). by apply model_text_of; vm_compute.
  - by vm_compute.
  - by vm_compute.
  - apply (bool_decide_eq_true (_ ∈ _)). by vm_compute.
  - apply batch_posts.
  - by vm_compute.
  - by vm_compute.
Qed.

Lemma sync_rounds_converge_witness :
  above (lasts (node_log empty_node)) (messages_ (store_ full_node)) = [first_message] ∧
  Forall (λ m, sequence m ≤ default 0 (lasts (node_log first_round.2) !! origin m)) (messages_ (store_ full_node)).
Proof.
  assert (above (lasts (node_log empty_node)) (messages_ (store_ full_node)) = [first_message]) as Ha by (by vm_compute).
  split; [exact Ha|].
  destruct (sync_rounds_converge (J := jtree) plain_config plain_config 1 full_node empty_node first_round.1 first_round.2)
    as (_ & _ & _ & Hall).
  - apply first_synchronisable.
  - apply nsteps_once, first_round_runs.
  - cbv zeta in Hall. rewrite Ha in Hall. apply Hall. cbn. lia.
Defined.
