(* ===== verification/Main.v ===== *)
(** * The command line (main.cpp)

    The arguments are checked before anything starts; what passes gives a node
    whose announcements and messages other nodes accept. *)

From S2P Require Import Prelude Cxx Protocol Utf8 Json MessageCodec Sqlite MessageStore Env Node.
From S2P Require Import Clock PeerRegistry Discovery DiscoveryProperties EventStream Replication.
From S2P Require Import MessageService HttpApi HttpApiProperties.
From Stdlib Require Import Ascii.
Open Scope Z_scope.

(** ** std::stoul, base 10 *)

Definition is_space (c : ascii) : bool :=
  let b := byte_of c in (b =? 32) || ((9 <=? b) && (b <=? 13)).
Definition is_digit (c : ascii) : bool := let b := byte_of c in (48 <=? b) && (b <=? 57).

Fixpoint skip_spaces (s : string) : string * Z :=
  match s with
  | String c s' => if is_space c then let (r, n) := skip_spaces s' in (r, n + 1) else (s, 0)
  | EmptyString => (s, 0)
  end.

(** The digits at the head: their value from [acc] on, and their count. *)
Fixpoint read_digits (s : string) (acc : Z) : Z * Z :=
  match s with
  | String c s' =>
      if is_digit c then let (v, n) := read_digits s' (10 * acc + (byte_of c - 48)) in (v, n + 1)
      else (acc, 0)
  | EmptyString => (acc, 0)
  end.

Definition read_sign (s : string) : bool * string * Z :=
  match s with
  | String c s' =>
      if decide (c = "-"%char) then (true, s', 1)
      else if decide (c = "+"%char) then (false, s', 1) else (false, s, 0)
  | EmptyString => (false, s, 0)
  end.

(** The value and the count of characters consumed; a minus sign negates modulo
    2^64. *)
Definition stoul (value : string) : result (Z * Z) :=
  let '(rest, spaces) := skip_spaces value in
  let '(negative, rest, sign) := read_sign rest in
  let '(parsed, digits) := read_digits rest 0 in
  if digits =? 0 then Throw (InvalidArgument "stoul")
  else if u64_max <? parsed then Throw (OutOfRange "stoul")
  else Ok (if negative : bool then u64 (- parsed) else parsed, spaces + sign + digits).

(** ** The helpers of main.cpp *)

Definition parse_port (value : string) : result Z :=
  match stoul value with
  | Ok (parsed, consumed) =>
      if negb (consumed =? size value) || (parsed =? 0) || (u16_max <? parsed)
      then Throw (RuntimeError "Port must be between 1 and 65535")
      else Ok (u16 parsed)
  | Throw e => Throw e
  | Undefined => Undefined
  end.

(** std::isalnum in the C locale, or one of the three marks. *)
Definition node_id_char (c : ascii) : bool :=
  let b := byte_of c in
  ((48 <=? b) && (b <=? 57)) || ((65 <=? b) && (b <=? 90)) || ((97 <=? b) && (b <=? 122)) ||
  bool_decide (c = "-"%char) || bool_decide (c = "_"%char) || bool_decide (c = "."%char).

Fixpoint all_chars (f : ascii → bool) (s : string) : bool :=
  match s with
  | EmptyString => true
  | String c s' => f c && all_chars f s'
  end.

Definition is_valid_node_id (value : string) : bool :=
  if empty value || (64 <? size value) then false else all_chars node_id_char value.

Definition validate_callsign (callsign : string) : result unit :=
  if empty callsign then Throw (RuntimeError "Callsign cannot be empty")
  else if 64 <? size callsign then Throw (RuntimeError "Callsign cannot exceed 64 UTF-8 bytes")
  else Ok tt.

Definition parse_time_sync_mode (value : string) : result TimeSyncMode :=
  if str_eqb value "off" then Ok Off
  else if str_eqb value "authority" then Ok Authority
  else if str_eqb value "client" then Ok Client
  else Throw (RuntimeError "Time sync mode must be off, authority or client").

(** ** main *)

(** What print_help writes, line by line. *)
Definition help_lines (program : string) : list string :=
  ["Usage: " +:+ program +:+ " [options]";
   EmptyString;
   "Options:";
   "  --node-id ID      Stable node identifier";
   "                    Default: node-local";
   "  --callsign NAME   Display callsign";
   "                    Default: Local";
   "  --bind ADDRESS    Address to listen on";
   "                    Default: 127.0.0.1";
   "  --port PORT       TCP port";
   "                    Default: 7777";
   "  --discovery-address ADDRESS";
   "                    UDP announce destination";
   "                    Default: 255.255.255.255";
   "  --discovery-interface NAME";
   "                    UDP announce egress interface";
   "                    Default: automatic routing";
   "  --discovery-port PORT";
   "                    UDP discovery port";
   "                    Default: 7777";
   "  --time-sync-mode MODE";
   "                    off, authority or client";
   "                    Default: off";
   "  --time-authority-id ID";
   "                    Optional trusted MeshGate node ID";
   "  --database PATH  SQLite message database";
   "                    Default: les-chat-<node-id>.db";
   "  --help            Show this help"].

Definition print_help (program : string) : string :=
  foldr (λ line rest, line +:+ LF +:+ rest) EmptyString (help_lines program).

(** The local variables of main. *)
Record Options := MkOptions {
  node_id : string;
  opt_callsign : string;
  bind_address : string;
  opt_port : Z;
  discovery_address : string;
  discovery_interface : string;
  discovery_port : Z;
  time_sync_mode : TimeSyncMode;
  time_authority_id : string;
  database_path : string;
}.

Definition default_options : Options :=
  MkOptions "node-local" "Local" "127.0.0.1" 7777 "255.255.255.255" EmptyString 7777 Off EmptyString
    EmptyString.

(** The options that take a value. *)
Inductive option_name :=
  | opt_node_id | opt_callsign_ | opt_bind | opt_port_ | opt_discovery_address | opt_discovery_port
  | opt_discovery_interface | opt_time_sync_mode | opt_time_authority_id | opt_database.

(** The comparisons of the loop, in order. *)
Definition option_of (argument : string) : option option_name :=
  if str_eqb argument "--node-id" then Some opt_node_id
  else if str_eqb argument "--callsign" then Some opt_callsign_
  else if str_eqb argument "--bind" then Some opt_bind
  else if str_eqb argument "--port" then Some opt_port_
  else if str_eqb argument "--discovery-address" then Some opt_discovery_address
  else if str_eqb argument "--discovery-port" then Some opt_discovery_port
  else if str_eqb argument "--discovery-interface" then Some opt_discovery_interface
  else if str_eqb argument "--time-sync-mode" then Some opt_time_sync_mode
  else if str_eqb argument "--time-authority-id" then Some opt_time_authority_id
  else if str_eqb argument "--database" then Some opt_database
  else None.

Definition map_result {A B} (f : A → B) (r : result A) : result B :=
  match r with Ok a => Ok (f a) | Throw e => Throw e | Undefined => Undefined end.

(** The assignment an option makes, with its checks. *)
Definition set_option (name : option_name) (v : string) (o : Options) : result Options :=
  let '(MkOptions n c b p da di dp m t d) := o in
  match name with
  | opt_node_id => Ok (MkOptions v c b p da di dp m t d)
  | opt_callsign_ => Ok (MkOptions n v b p da di dp m t d)
  | opt_bind => Ok (MkOptions n c v p da di dp m t d)
  | opt_port_ => map_result (λ p, MkOptions n c b p da di dp m t d) (parse_port v)
  | opt_discovery_address => Ok (MkOptions n c b p v di dp m t d)
  | opt_discovery_port => map_result (λ dp, MkOptions n c b p da di dp m t d) (parse_port v)
  | opt_discovery_interface =>
      if empty v then Throw (RuntimeError "Discovery interface cannot be empty")
      else Ok (MkOptions n c b p da v dp m t d)
  | opt_time_sync_mode => map_result (λ m, MkOptions n c b p da di dp m t d) (parse_time_sync_mode v)
  | opt_time_authority_id =>
      if is_valid_node_id v then Ok (MkOptions n c b p da di dp m v d)
      else Throw (RuntimeError "Time authority ID is invalid")
  | opt_database => Ok (MkOptions n c b p da di dp m t v)
  end.

(** [argv[index]]; the list holds what follows the program's name, [argv[0]]. *)
Definition argument_at (argv : list string) (index : Z) : option string := argv !! Z.to_nat (index - 1).
Definition argc (argv : list string) : Z := 1 + Z.of_nat (length argv).

(** The value after the option at [index], with the new index. *)
Definition read_argument_value (index : Z) (argv : list string) (option : string) : result (string * Z) :=
  if argc argv <=? index + 1 then Throw (RuntimeError (option +:+ " requires a value"))
  else
    let index := index + 1 in
    match argument_at argv index with Some value => Ok (value, index) | None => Undefined end.

(** The loop over the arguments, from [index]: [Ok None] for --help; no outcome
    when the fuel is too small. *)
Fixpoint argument_loop (fuel : nat) (index : Z) (argv : list string) (o : Options) :
    option (result (option Options)) :=
  match fuel with
  | O => None
  | S fuel =>
      if negb (index <? argc argv) then Some (Ok (Some o))
      else match argument_at argv index with
      | None => Some Undefined
      | Some argument =>
          if str_eqb argument "--help" then Some (Ok None)
          else match option_of argument with
          | None => Some (Throw (RuntimeError ("Unknown argument: " +:+ argument)))
          | Some name =>
              match read_argument_value index argv argument with
              | Ok (value, index) =>
                  match set_option name value o with
                  | Ok o => argument_loop fuel (index + 1) argv o
                  | Throw e => Some (Throw e)
                  | Undefined => Some Undefined
                  end
              | Throw e => Some (Throw e)
              | Undefined => Some Undefined
              end
          end
      end
  end.

Definition read_arguments (argv : list string) (o : Options) : result (option Options) :=
  default Undefined (argument_loop (S (length argv)) 1 argv o).

(** The checks after the loop. *)
Definition check_options (o : Options) : result Options :=
  if negb (is_valid_node_id (node_id o)) then
    Throw (RuntimeError ("Node ID must contain only letters, " +:+ "numbers, period, underscore or hyphen"))
  else
    match validate_callsign (opt_callsign o) with
    | Throw e => Throw e
    | Undefined => Undefined
    | Ok _ =>
        let path := if empty (database_path o) then "les-chat-" +:+ node_id o +:+ ".db"
                    else database_path o in
        Ok (MkOptions (node_id o) (opt_callsign o) (bind_address o) (opt_port o) (discovery_address o)
              (discovery_interface o) (discovery_port o) (time_sync_mode o) (time_authority_id o) path)
    end.

(** What main does before it builds the application. *)
Definition main_options (argv : list string) : result (option Options) :=
  match read_arguments argv default_options with
  | Ok None => Ok None
  | Ok (Some o) => map_result Some (check_options o)
  | Throw e => Throw e
  | Undefined => Undefined
  end.

(** The exit code, after what was written; [application] builds, runs and
    destroys the Application, and [program] is argv[0]. *)
Definition main (application : Options → result unit * list effect) (program : string) (argv : list string) :
    result Z * list effect :=
  match main_options argv with
  | Ok None => (Ok 0, [Print (print_help program)])
  | Ok (Some o) =>
      match application o with
      | (Ok _, effects) => (Ok 0, effects)
      | (Throw e, effects) => (Ok 1, effects ++ [Log ("les-chatd: " +:+ what e)])
      | (Undefined, effects) => (Undefined, effects)
      end
  | Throw e => (Ok 1, [Log ("les-chatd: " +:+ what e)])
  | Undefined => (Undefined, [])
  end.

(** The configuration the options give the services. *)
Definition config_of (o : Options) (local_address web_root : string) : Config :=
  MkConfig (MkIdentity (node_id o) (opt_callsign o)) (bind_address o) (opt_port o) (discovery_address o)
    (discovery_interface o) (discovery_port o) (time_sync_mode o) (time_authority_id o) local_address
    web_root.

(** ** Decimal numbers *)

Lemma all_chars_impl (f g : ascii → bool) s : (∀ c, f c = true → g c = true) →
  all_chars f s = true → all_chars g s = true.
Proof.
  intros Hfg. induction s as [|c s IH]; cbn; [done|]. rewrite !andb_true_iff. naive_solver.
Qed.

Lemma all_chars_app f a b : all_chars f (a +:+ b) = all_chars f a && all_chars f b.
Proof. induction a as [|c a IH]; [done|]. rewrite sapp_cons. cbn. by rewrite IH, andb_assoc. Qed.

Lemma all_chars_no_nul f s : f NUL = false → all_chars f s = true → no_nul s = true.
Proof.
  intros Hf. induction s as [|c s IH]; cbn; [done|]. rewrite andb_true_iff. intros [Hc Hs].
  apply no_nul_cons. split; [intros ->; congruence|by apply IH].
Qed.

Lemma digit_of_N x : (x < 10)%N →
  is_digit (pretty_N_char x) = true ∧ byte_of (pretty_N_char x) - 48 = Z.of_N x.
Proof.
  intros Hx. assert (x = 0 ∨ x = 1 ∨ x = 2 ∨ x = 3 ∨ x = 4 ∨ x = 5 ∨ x = 6 ∨ x = 7 ∨ x = 8 ∨ x = 9)%N
    as Hcases by lia.
  by repeat (destruct Hcases as [->|Hcases]; [done|]); subst.
Qed.

Lemma size_cons c s : size (String c s) = size s + 1.
Proof. unfold size. cbn. lia. Qed.
Lemma size_app a b : size (a +:+ b) = size a + size b.
Proof. induction a as [|c a IH]; [done|]. rewrite sapp_cons, !size_cons, IH. lia. Qed.

(** The digits of [x] in front of [s]: how many, and what reading them gives. *)
Lemma pretty_digits x s : ∃ k, 0 ≤ k ∧ size (pretty_N_go x s) = k + size s ∧
  read_digits (pretty_N_go x s) 0 = (let (v, n) := read_digits s (Z.of_N x) in (v, n + k)) ∧
  (all_chars is_digit s = true → all_chars is_digit (pretty_N_go x s) = true) ∧
  ∀ j, 0 ≤ j → Z.of_N x < 10 ^ j → k ≤ j.
Proof.
  revert s. induction (N.lt_wf_0 x) as [x _ IH]; intros s.
  destruct (decide (x = 0)%N) as [->|Hx].
  { exists 0. rewrite pretty_N_go_0. split_and!; [done|done| |done|lia].
    change (Z.of_N 0) with 0. destruct (read_digits s 0) as [v n]. by rewrite Z.add_0_r. }
  destruct (digit_of_N (x `mod` 10)) as [Hd Hb]; [by apply N.mod_upper_bound|].
  destruct (IH (x `div` 10)%N ltac:(apply N.div_lt; lia) (String (pretty_N_char (x `mod` 10)) s))
    as (k & Hk & Hs & Hr & Ha & Hj).
  rewrite pretty_N_go_step by lia. exists (k + 1). split; [lia|]. split; [rewrite Hs, size_cons; lia|].
  split; [|split].
  - rewrite Hr. cbn [read_digits]. rewrite Hd, Hb, N2Z.inj_div, N2Z.inj_mod.
    replace (10 * (Z.of_N x `div` Z.of_N 10) + Z.of_N x `mod` Z.of_N 10) with (Z.of_N x)
      by (change (Z.of_N 10) with 10; pose proof (Z.div_mod (Z.of_N x) 10); lia).
    destruct (read_digits s (Z.of_N x)) as [v n]. f_equal. lia.
  - intros Hall. apply Ha. cbn. by rewrite Hd, Hall.
  - intros j Hj0 Hlt. destruct (decide (j = 0)) as [->|Hjne]; [change (10 ^ 0) with 1 in Hlt; lia|].
    assert (k ≤ j - 1); [|lia]. apply Hj; [lia|]. rewrite N2Z.inj_div. change (Z.of_N 10) with 10.
    apply Z.div_lt_upper_bound; [lia|]. rewrite <- Z.pow_succ_r by lia. by replace (Z.succ (j - 1)) with j by lia.
Qed.

(** The decimal text of a positive number: its size, and what stoul makes of it. *)
Lemma to_string_digits z : 1 ≤ z →
  all_chars is_digit (to_string z) = true ∧ 1 ≤ size (to_string z) ∧
  read_digits (to_string z) 0 = (z, size (to_string z)) ∧
  ∀ j, 0 ≤ j → z < 10 ^ j → size (to_string z) ≤ j.
Proof.
  intros Hz. destruct z as [|p|p]; [lia| |lia].
  destruct (pretty_digits (N.pos p) EmptyString) as (k & Hk & Hs & Hr & Ha & Hj).
  assert (to_string (Zpos p) = pretty_N_go (N.pos p) EmptyString) as -> by done.
  change (size EmptyString) with 0 in Hs. rewrite Z.add_0_r in Hs. cbn [read_digits] in Hr. rewrite Hs.
  split_and!; [by apply Ha| |done|done].
  destruct (Z.le_gt_cases k 0) as [Hk0|]; [|lia].
  assert (pretty_N_go (N.pos p) EmptyString = EmptyString) as E by (apply size_empty; lia).
  rewrite E in Hr. cbn in Hr. congruence.
Qed.

Lemma skip_no_spaces c s : is_digit c = true → skip_spaces (String c s) = (String c s, 0) ∧
  read_sign (String c s) = (false, String c s, 0).
Proof.
  intros Hd. pose proof Hd as Hd'. unfold is_digit in Hd. split_bools. split; cbn.
  - assert (is_space c = false) as ->; [|done]. unfold is_space.
    rewrite (proj2 (Z.eqb_neq _ 32)), (proj2 (Z.leb_gt (byte_of c) 13)) by lia. apply andb_false_r.
  - by rewrite !decide_False by (intros ->; vm_compute in Hd'; congruence).
Qed.

Lemma stoul_digits s v : all_chars is_digit s = true → 1 ≤ size s → read_digits s 0 = (v, size s) →
  v ≤ u64_max → stoul s = Ok (v, size s).
Proof.
  intros Ha Hs Hr Hv. destruct s as [|c s]; [done|]. cbn in Ha. apply andb_true_iff in Ha as [Hc _].
  unfold stoul. destruct (skip_no_spaces c s Hc) as [-> ->]. rewrite Hr.
  rewrite (proj2 (Z.eqb_neq _ 0)), (proj2 (Z.ltb_ge _ _)) by lia. done.
Qed.

(** ** What the checks ensure *)

Lemma map_result_Ok {A B} (f : A → B) r b : map_result f r = Ok b ↔ ∃ a, r = Ok a ∧ b = f a.
Proof. destruct r; cbn; naive_solver. Qed.

Lemma parse_port_range v p : parse_port v = Ok p → 1 ≤ p ≤ 65535.
Proof.
  unfold parse_port. destruct (stoul v) as [[parsed consumed]|e|] eqn:E; [|done|done].
  destruct (_ || _) eqn:Hg; [done|]. intros [= <-]. split_bools.
  assert (0 ≤ u16 parsed < 65536) by (unfold u16; apply Z.mod_pos_bound; lia).
  assert (0 ≤ parsed) as Hpos; [|unfold u16_max in *; rewrite u16_small by lia; lia].
  unfold stoul in E. destruct (skip_spaces v) as [s1 n1]. destruct (read_sign s1) as [[neg s2] n2].
  assert (∀ s acc, 0 ≤ acc → 0 ≤ (read_digits s acc).1) as Hd.
  { induction s as [|c s IH]; intros acc Hacc; cbn; [done|]. destruct (is_digit c) eqn:Hc; [|done].
    unfold is_digit in Hc. split_bools. specialize (IH (10 * acc + (byte_of c - 48)) ltac:(lia)).
    by destruct (read_digits s _). }
  specialize (Hd s2 0 ltac:(lia)). destruct (read_digits s2 0) as [d n3]; cbn in Hd.
  destruct (_ =? _); [done|]. destruct (_ <? _); [done|]. simplify_eq.
  destruct neg; [apply Z.mod_pos_bound; lia|done].
Qed.

Lemma node_id_no_nul s : all_chars node_id_char s = true → no_nul s = true.
Proof. by apply all_chars_no_nul. Qed.

Lemma is_valid_node_id_true s : is_valid_node_id s = true ↔
  1 ≤ size s ≤ 64 ∧ all_chars node_id_char s = true.
Proof.
  unfold is_valid_node_id. destruct (_ || _) eqn:E.
  - split; [done|]. intros [[H1 H2] _]. apply orb_true_iff in E as [E|E].
    + apply empty_true, size_empty in E. lia.
    + apply Z.ltb_lt in E. lia.
  - split_bools. match goal with H : empty s = false |- _ => apply empty_false in H end.
    split; [intros; split; [lia|done]|by intros [_ ?]].
Qed.

(** The ports of the options stay in range, the values without NUL. *)
Record options_ok (o : Options) : Prop := {
  oo_port : 1 ≤ opt_port o ≤ 65535;
  oo_discovery_port : 1 ≤ discovery_port o ≤ 65535;
  oo_callsign : no_nul (opt_callsign o) = true;
  oo_authority : time_authority_id o = EmptyString ∨ is_valid_node_id (time_authority_id o) = true;
}.

Lemma set_option_defined name v o : set_option name v o ≠ Undefined.
Proof.
  assert (∀ A (f : Z → A), map_result f (parse_port v) ≠ Undefined) as Hp.
  { intros A f. unfold parse_port, stoul. repeat case_match; simplify_eq; done. }
  destruct o as [n c b p da di dp m t d]. destruct name; cbn; try done; try apply Hp.
  - by destruct (empty v).
  - unfold parse_time_sync_mode. by repeat case_match.
  - by destruct (is_valid_node_id v).
Qed.

Lemma set_option_ok name v o o' : no_nul v = true → options_ok o → set_option name v o = Ok o' → options_ok o'.
Proof.
  intros Hv [H1 H2 H3 H4] Hs. destruct o as [n c b p da di dp m t d]. destruct name; cbn in Hs, H1, H2, H3, H4.
  - by simplify_eq.
  - by simplify_eq.
  - by simplify_eq.
  - apply map_result_Ok in Hs as (q & Hq & ->). split; try done. by eapply parse_port_range.
  - by simplify_eq.
  - apply map_result_Ok in Hs as (q & Hq & ->). split; try done. by eapply parse_port_range.
  - destruct (empty v); by simplify_eq.
  - apply map_result_Ok in Hs as (q & Hq & ->). by split.
  - destruct (is_valid_node_id v) eqn:E; simplify_eq. split; try done. by right.
  - by simplify_eq.
Qed.

(** *** The loop over the arguments *)

(** What the loop computes, by recursion on the arguments: options and their
    values in pairs. *)
Fixpoint arguments_spec (argv : list string) (o : Options) : result (option Options) :=
  match argv with
  | [] => Ok (Some o)
  | argument :: argv' =>
      if str_eqb argument "--help" then Ok None
      else match option_of argument with
      | None => Throw (RuntimeError ("Unknown argument: " +:+ argument))
      | Some name =>
          match argv' with
          | [] => Throw (RuntimeError (argument +:+ " requires a value"))
          | value :: argv'' =>
              match set_option name value o with
              | Ok o => arguments_spec argv'' o
              | Throw e => Throw e
              | Undefined => Undefined
              end
          end
      end
  end.

Lemma argument_at_middle pre x rest : argument_at (pre ++ x :: rest) (1 + Z.of_nat (length pre)) = Some x.
Proof.
  unfold argument_at. replace (Z.to_nat (1 + Z.of_nat (length pre) - 1)) with (length pre) by lia.
  by apply list_lookup_middle.
Qed.

Lemma argument_loop_spec fuel pre rest o : (length rest < fuel)%nat →
  argument_loop fuel (1 + Z.of_nat (length pre)) (pre ++ rest) o = Some (arguments_spec rest o).
Proof.
  revert pre rest o. induction fuel as [|fuel IH]; intros pre rest o Hf; [lia|]. cbn [argument_loop].
  unfold argc. rewrite length_app. destruct rest as [|x rest]; cbn [length arguments_spec] in *.
  { by rewrite (proj2 (Z.ltb_ge _ _)) by lia. }
  rewrite (proj2 (Z.ltb_lt _ _)) by lia. cbn [negb]. rewrite argument_at_middle.
  destruct (str_eqb x "--help"); [done|]. destruct (option_of x) as [name|]; [|done].
  unfold read_argument_value, argc. rewrite length_app. destruct rest as [|v rest]; cbn [length] in *.
  { by rewrite (proj2 (Z.leb_le _ _)) by lia. }
  rewrite (proj2 (Z.leb_gt _ _)) by lia. cbv zeta.
  pose proof (argument_at_middle (pre ++ [x]) v rest) as Hv. rewrite <- app_assoc, length_app in Hv. cbn [app length] in Hv.
  replace (1 + Z.of_nat (length pre) + 1) with (1 + Z.of_nat (length pre + 1)) by lia. rewrite Hv.
  destruct (set_option name v o) as [o'|e|]; [|done..].
  specialize (IH (pre ++ [x; v]) rest o' ltac:(lia)). rewrite <- app_assoc, length_app in IH. cbn [app length] in IH.
  by replace (1 + Z.of_nat (length pre + 1) + 1) with (1 + Z.of_nat (length pre + 2)) by lia.
Qed.

Lemma read_arguments_spec argv o : read_arguments argv o = arguments_spec argv o.
Proof.
  pose proof (argument_loop_spec (S (length argv)) [] argv o ltac:(lia)) as Hr. cbn [app length] in Hr.
  unfold read_arguments. change 1 with (1 + Z.of_nat 0). by rewrite Hr.
Qed.

Lemma read_arguments_ok argv o o' : Forall (λ s, no_nul s = true) argv → options_ok o →
  read_arguments argv o = Ok (Some o') → options_ok o'.
Proof.
  rewrite read_arguments_spec. remember (length argv) as len eqn:Hlen. revert argv o Hlen.
  induction (lt_wf len) as [len _ IH]. intros [|argument [|v argv]] o -> Hn Ho; cbn.
  - intros [= <-]. done.
  - destruct (str_eqb _ _); [done|]. by destruct (option_of argument).
  - destruct (str_eqb _ _); [done|]. destruct (option_of argument) as [name|]; [|done].
    apply Forall_cons in Hn as [_ Hn]. apply Forall_cons in Hn as [Hv Hn].
    destruct (set_option name v o) as [o1|e|] eqn:E; [|done|done].
    apply (IH (length argv) ltac:(cbn; lia) argv o1 eq_refl Hn). by eapply set_option_ok.
Qed.

(** An identity whose messages others accept. *)
Record usable (cfg : Config) : Prop := {
  us_node_id : is_valid_node_id (id_node_id (identity_ cfg)) = true;
  us_callsign : 1 ≤ size (id_callsign (identity_ cfg)) ≤ 64;
  us_callsign_nul : no_nul (id_callsign (identity_ cfg)) = true;
}.

Lemma usable_message cfg seq now text : usable cfg →
  1 ≤ seq ≤ i64_max → in_i64 now → acceptable_body text →
  valid_message (local_message cfg seq now text) ∧ nul_free (local_message cfg seq now text) = true.
Proof.
  intros [Hid Hcs Hcn] Hseq Hnow [Hsz Hu]. apply is_valid_node_id_true in Hid as [Hids Hidc].
  pose proof (node_id_no_nul _ Hidc) as Hidn. destruct (to_string_digits seq) as (Ha & Hs1 & _ & Hj); [lia|].
  assert (size (to_string seq) ≤ 19) as Hs2 by (apply Hj; [lia|]; unfold_ints; lia).
  assert (no_nul (to_string seq) = true) as Hsn by (by apply (all_chars_no_nul is_digit)).
  split.
  - split; cbn; try done; try lia. rewrite !size_app. change (size ":") with 1. lia.
  - unfold nul_free. cbn. rewrite !no_nul_app, Hidn, Hsn, Hcn. done.
Qed.

(** ** Properties *)

(** Every port in 1 .. 65535, written in decimal, is accepted as itself. *)
Theorem parse_port_decimal p : 1 ≤ p ≤ 65535 → parse_port (to_string p) = Ok p.
Proof.
  intros Hp. destruct (to_string_digits p) as (Ha & Hs & Hr & _); [lia|]. unfold parse_port.
  rewrite (stoul_digits _ p Ha Hs Hr) by (unfold u64_max; lia).
  rewrite Z.eqb_refl, (proj2 (Z.eqb_neq p 0)), (proj2 (Z.ltb_ge _ _)) by (unfold u16_max; lia).
  cbn [negb orb]. by rewrite u16_small by lia.
Qed.

(** parse_port accepts more than decimal ports: leading spaces and signs,
    and a minus sign negates modulo 2^64, so a huge negative number is a port. *)
Theorem parse_port_accepts_signs :
  parse_port " +80" = Ok 80 ∧ parse_port "-18446744073709551615" = Ok 1 ∧
  parse_port "-1" = Throw (RuntimeError "Port must be between 1 and 65535") ∧
  parse_port "80 " = Throw (RuntimeError "Port must be between 1 and 65535").
Proof. by vm_compute. Qed.

(** C31: the command line makes a usable node.  When the arguments (C strings) are
    accepted, the node id is 1 .. 64 letters, digits or one of - _ . , the
    callsign has 1 .. 64 bytes, the ports are in 1 .. 65535 and there is a
    database path; other nodes accept the announcements of such a node, and every
    message it creates from an acceptable body is valid and travels unchanged. *)
Theorem main_options_valid argv o local_address web_root :
  Forall (λ s, no_nul s = true) argv → main_options argv = Ok (Some o) →
  let cfg := config_of o local_address web_root in
  is_valid_node_id (node_id o) = true ∧ 1 ≤ size (opt_callsign o) ≤ 64 ∧
  1 ≤ opt_port o ≤ 65535 ∧ 1 ≤ discovery_port o ≤ 65535 ∧ empty (database_path o) = false ∧
  announces cfg ∧
  ∀ seq now text, 1 ≤ seq ≤ i64_max → in_i64 now → acceptable_body text →
    valid_message (local_message cfg seq now text) ∧ nul_free (local_message cfg seq now text) = true.
Proof.
  intros Hn Hm cfg. unfold main_options in Hm.
  destruct (read_arguments argv default_options) as [[o1|]|e|] eqn:E; [|done..].
  apply (read_arguments_ok argv default_options o1 Hn) in E; [|split; try done; by left].
  apply map_result_Ok in Hm as (o2 & Hc & [= <-]). unfold check_options in Hc.
  destruct (is_valid_node_id (node_id o1)) eqn:Hid; cbn [negb] in Hc; [|done].
  unfold validate_callsign in Hc. destruct (empty (opt_callsign o1)) eqn:Hcs; [done|].
  destruct (Z.ltb_spec 64 (size (opt_callsign o1))); [done|]. apply empty_false in Hcs.
  destruct E as [Hp Hdp Hcn _]. pose proof Hid as Hid'.
  apply is_valid_node_id_true in Hid' as [Hids Hidc]. pose proof (node_id_no_nul _ Hidc) as Hidn.
  injection Hc as <-. cbn [node_id opt_callsign opt_port discovery_port database_path] in *.
  split_and!; try done; try lia.
  - destruct (empty (database_path o1)) eqn:Hd; [|done]. apply empty_false. rewrite size_app.
    pose proof (size_nonneg (node_id o1 +:+ ".db")). change (size "les-chat-") with 9. lia.
  - split; cbn; [apply empty_false; lia|done|done|lia].
  - intros seq now text. apply usable_message. split; cbn; done || lia.
Qed.

(** C30: the loop over the arguments.  It ends within one round per argument, never
    reads outside argv, and its outcome is that of reading the arguments as a
    list of options with their values: --help ends it, an unknown argument or a
    missing value throws, and so does the first value that is refused. *)
Theorem read_arguments_exact argv o :
  (∀ fuel, (length argv < fuel)%nat → argument_loop fuel 1 argv o = Some (read_arguments argv o)) ∧
  read_arguments argv o = arguments_spec argv o ∧
  (read_arguments argv o ≠ Undefined).
Proof.
  rewrite read_arguments_spec. split_and!; [|done|].
  - intros fuel Hf. by apply (argument_loop_spec fuel [] argv o).
  - remember (length argv) as len eqn:Hlen. revert argv o Hlen. induction (lt_wf len) as [len _ IH].
    intros [|x [|v argv]] o ->; cbn [arguments_spec]; [done|..];
      (destruct (str_eqb _ _); [done|]); (destruct (option_of x) as [name|]; [|done]); [done|].
    pose proof (set_option_defined name v o). destruct (set_option name v o) as [o1|e|]; [|done..].
    apply (IH (length argv)); [cbn; lia|done].
Qed.

(** The options the help describes: the first word of the lines that begin with
    two hyphens, after two blanks. *)
Definition blank : ascii := ascii_of_nat 32.
Fixpoint first_word (line : string) : string :=
  match line with
  | String c rest => if Ascii.eqb c blank then EmptyString else String c (first_word rest)
  | EmptyString => EmptyString
  end.
Definition described (line : string) : option string :=
  match line with
  | String c1 (String c2 rest) =>
      if Ascii.eqb c1 blank && Ascii.eqb c2 blank && String.prefix "--" rest then Some (first_word rest) else None
  | _ => None
  end.

(** The help describes exactly the options the loop accepts. *)
Theorem help_describes_options program option :
  option ∈ omap described (help_lines program) ↔ option = "--help" ∨ is_Some (option_of option).
Proof.
  assert (omap described (help_lines program) = ["--node-id"; "--callsign"; "--bind"; "--port"; "--discovery-address";
    "--discovery-interface"; "--discovery-port"; "--time-sync-mode"; "--time-authority-id"; "--database"; "--help"])
    as -> by reflexivity.
  split.
  - intros Ho. repeat (apply elem_of_cons in Ho as [->|Ho]; [by (left + (right; eexists))|]). by apply not_elem_of_nil in Ho.
  - unfold option_of. intros [->|[name Hn]]; [set_solver|].
    repeat match type of Hn with (if str_eqb _ ?s then _ else _) = _ =>
      destruct (str_eqb option s) eqn:E; [apply str_eqb_true in E as ->; set_solver|clear E] end. done.
Qed.

(** ** Witnesses *)

Lemma parse_port_decimal_witness : parse_port "7777" = Ok 7777.
Proof. apply (parse_port_decimal 7777). lia. Defined.

Definition sample_arguments : list string :=
  ["--node-id"; "gate-1"; "--callsign"; "Gate"; "--port"; "8080"; "--time-sync-mode"; "authority"].

Lemma main_options_valid_witness :
  ∃ o, main_options sample_arguments = Ok (Some o) ∧ database_path o = "les-chat-gate-1.db" ∧
    announces (config_of o EmptyString "web").
Proof.
  destruct (main_options sample_arguments) as [[o|]|e|] eqn:E; [|by vm_compute in E..].
  exists o. split; [done|]. split; [by vm_compute in E; simplify_eq|].
  by apply (main_options_valid sample_arguments o EmptyString "web"); [repeat constructor|].
Defined.
