(* ===== verification/Delivery.v ===== *)
(** * A message from one browser to the others

    From the POST of a text at one node to the event streams of that node and of
    its active peers: http_api.cpp, message_service.cpp, event_stream.cpp and
    replication_service.cpp on both sides. *)

From S2P Require Import Prelude Cxx Protocol Utf8 Json ModelJson MessageCodec Sqlite ModelDb MessageStore.
From S2P Require Import StoreProperties Env Node Ledger Clock PeerRegistry Discovery DiscoveryProperties.
From S2P Require Import EventStream Replication MessageService Http HttpApi HttpApiProperties Main Convergence.
Open Scope Z_scope.

(** Every open stream got the event of the message with the text [t]. *)
Definition shown {D W} (t : string) (n n' : Node D W) : Prop :=
  ∀ s, s ∈ requests_ n → ∃ l, trace n' = trace n ++ l ∧ Chunk (sub_request s) (event_payload "message" t) ∈ l.

(** The peer was sent the text [t] as a replica. *)
Definition sent_to {D W} (t : string) (peer : Peer) (n n' : Node D W) : Prop :=
  ∃ l c r, trace n' = trace n ++ l ∧
    OpenConnection c (c_str (peer_address peer)) (peer_http_port peer) ∈ l ∧
    MakeRequest c r "/api/v1/replicate" replication_headers t ∈ l.

(** One attempt was made to send it; libevent may have refused. *)
Definition offered_to {D} `{Env W} (cfg : Config) (t : string) (peer : Peer) (n n' : Node D W) : Prop :=
  ∃ l1 l l2, trace n' = trace n ++ l1 ++ l ++ l2 ∧
    attempt (local_address_ cfg)
      [Log ("Unable to create replication connection for peer " +:+ peer_node_id peer)]
      replication_headers (peer_address peer) (peer_http_port peer) "/api/v1/replicate" t l ∧
    (accepting W → sent_to t peer n n').

(** The trace only grows. *)
Definition grows {D W} (n n' : Node D W) : Prop := ∃ l, trace n' = trace n ++ l.

#[export] Instance grows_preorder {D W} : PreOrder (@grows D W).
Proof.
  split; [intros n; exists []; by rewrite app_nil_r|].
  intros n1 n2 n3 [l1 H1] [l2 H2]. exists (l1 ++ l2). by rewrite H2, H1, app_assoc.
Qed.

Lemma send_json_grows `{Env W} {D} request status reason text :
  keeps grows (send_json request status reason text : M (Node D W) unit).
Proof.
  intros n. unfold send_json, send_response. rewrite (bind_run _ _ _ _ _ (call_run _ n)).
  destruct (evbuffer_new (world n)) as [[] w]; cbn; by eexists.
Qed.

Lemma shown_grows {D W} t (n n1 n2 : Node D W) : shown t n n1 → grows n1 n2 → shown t n n2.
Proof.
  intros Hs [l2 H2] s Hin. destruct (Hs s Hin) as (l1 & H1 & Hc). exists (l1 ++ l2).
  rewrite H2, H1, app_assoc. split; [done|]. apply elem_of_app. by left.
Qed.

Lemma sent_grows {D W} t peer (n n1 n2 : Node D W) : sent_to t peer n n1 → grows n1 n2 → sent_to t peer n n2.
Proof.
  intros (l1 & c & r & H1 & Ho & Hm) [l2 H2]. exists (l1 ++ l2), c, r. rewrite H2, H1, app_assoc.
  split_and!; [done|apply elem_of_app; by left..].
Qed.

Lemma offered_grows {D} `{Env W} cfg t peer (n n1 n2 : Node D W) :
  offered_to cfg t peer n n1 → grows n1 n2 → offered_to cfg t peer n n2.
Proof.
  intros (l1 & l & l2 & H1 & Ha & Hs) Hg. pose proof Hg as [l3 H2]. exists l1, l, (l2 ++ l3).
  rewrite H2, H1, <- !app_assoc. split_and!; [done|done|]. intros Hacc. eapply sent_grows; [by apply Hs|done].
Qed.

Section sides.
Context `{JsonLaws J} `{SqliteLaws D} `{EnvLaws W} `{Unordered}.
Implicit Types n : Node D W.

Lemma chunk_in t n s : s ∈ requests_ n → Chunk (sub_request s) (event_payload "message" t) ∈ chunks t n.
Proof. intros Hs. apply list_elem_of_fmap. by exists s. Qed.

(** The writer's side. *)
Lemma create_shows cfg text n n' m : sane_clock W → times_ok n → registry_ok (peers_ n) →
  db_ok (store_ n) → 1 ≤ next_sequence_ n < u64_max → size text ≤ max_message_bytes →
  create_local J cfg text n = (Ok m, n') →
  ∃ now t, m = local_message cfg (next_sequence_ n) now text ∧ in_i64 now ∧ clock_time n now ∧ next_sequence_ n ≤ i64_max ∧
    has_text J m t ∧ shown t n n' ∧
    ∃ now', clock_time n now' ∧ ∀ peer, peer ∈ active_list now' (peers_ n) → offered_to cfg t peer n n'.
Proof.
  intros Hc Ht Hreg Hdb Hq Hsz Hr.
  destruct (create_local_runs (J := J) cfg text n Hc Ht Hreg Hdb Hq Hsz) as (r & n1 & now & Hr' & _ & _ & _ & Hres).
  rewrite Hr in Hr'. injection Hr' as <- <-. cbv zeta in Hres.
  destruct Hres as (-> & Hnow & Hclk & Hmax & _ & _ & t & now' & ls & Htext & Htr & Hatt & Hclock).
  exists now, t. split_and!; [done|unfold_ints; lia|done|unfold_ints; lia|done| |].
  - intros s Hs. eexists. split; [exact Htr|]. apply elem_of_app. left. by apply chunk_in.
  - exists now'. split; [done|]. intros peer Hpeer. apply list_elem_of_lookup in Hpeer as [i Hi].
    destruct (Forall2_lookup_l _ _ _ _ _ Hatt Hi) as (l & Hl & Ha & Hm).
    assert (∃ l1 l2, concat ls = l1 ++ l ++ l2) as (l1 & l2 & Hls).
    { apply list_elem_of_lookup_2, list_elem_of_split in Hl as (k1 & k2 & ->). exists (concat k1), (concat k2).
      by rewrite concat_app. }
    rewrite Hls in Htr. exists (chunks t n ++ l1), l, l2. split; [by rewrite Htr, <- app_assoc|]. split; [done|].
    intros Hacc. destruct (attempt_made_sends _ _ _ _ _ _ _ _ Ha (Hm Hacc) eq_refl) as (c & q & Ho & Hmk).
    eexists _, c, q. split; [exact Htr|]. split; do 2 (apply elem_of_app; right); apply elem_of_app; by left.
Qed.

(** The peer's side. *)
Lemma replica_shows m t n : db_ok (store_ n) → reliable_reads (D := D) → valid_message m → has_text J m t →
  (∀ m', m' ∈ entries (node_log n) → message_id m' ≠ message_id m) →
  ∃ r n', ingest_replica J m n = (r, n') ∧
    match r with
    | Ok taken => taken = true ∧ trace n' = trace n ++ chunks t n ∧
        (clashes (node_log n) m = false → m ∈ entries (node_log n'))
    | Throw _ => trace n' = trace n
    | Undefined => False
    end.
Proof.
  intros Hdb Hrel Hv Htext Hnew.
  destruct (contains_runs (message_id m) n Hdb) as (r & s' & Hr & Hdb' & Habs & _ & Hres).
  unfold ingest_replica. destruct r as [b|e|]; [|by rewrite (bind_throw _ _ _ _ _ Hr); eexists _, _|done].
  rewrite (bind_run _ _ _ _ _ Hr). destruct Hres as [Hyes _]. destruct b.
  { destruct (Hyes eq_refl) as (m' & Hin & Hid). by destruct (Hnew m' Hin). }
  destruct (add_runs m (with_store s' n) Hdb') as (r & s'' & Ha & _ & Hadd); [apply (vm_sequence _ Hv)|].
  destruct r as [b|e|]; [|by rewrite (bind_throw _ _ _ _ _ Ha); eexists _, _|done].
  rewrite (bind_run _ _ _ _ _ Ha). destruct Hadd as (_ & Hadd & _).
  rewrite (bind_run _ _ _ _ _ (publish_runs m t _ Htext)). eexists _, _. split; [done|].
  split_and!; [done|done|]. intros Hfree. unfold node_log at 1 in Hadd. cbn in Hadd. rewrite Habs in Hadd.
  destruct (add_result_free _ _ _ _ _ Hfree Hadd) as (_ & _ & d & Hd & He). change (m ∈ entries (abs s'')). rewrite He, drop_app_le by done.
  apply elem_of_app. right. left.
Qed.
End sides.

Section delivery.
Context `{JsonLaws J} `{SqliteLaws D} `{EnvLaws W} `{Unordered}.

(** C5: from one browser to the others.  At a node whose identity passed the
    command line, whose registry, store, counter and times are in order and whose
    clock is within 0 .. 2^61 ms: a text of 1 .. 2048 bytes of UTF-8 that is POSTed in at
    most 4096 bytes of JSON, when the request succeeds, is a message with the time of the clock whose serialization is
    shown on every stream open at the node; for every peer active at a time of the clock one
    attempt is made to send it, which succeeds when libevent refuses no connection
    and no request.  POSTed as it was sent to a peer with working
    queries that does not know its id, if it fits 4096 bytes, it is shown with the
    same text on every stream open there, and is in the peer's log unless it
    clashes; or the peer's store throws and nothing is shown. *)
Theorem message_delivered cfg_a (request_a : evhttp_request) text (a a' : Node D W) :
  usable cfg_a → sane_clock W → times_ok a → registry_ok (peers_ a) → db_ok (store_ a) →
  1 ≤ next_sequence_ a < u64_max → acceptable_body text →
  posts W request_a "/api/v1/messages" create_message →
  text_of (body_object (J := J) text) (req_input request_a) → size (req_input request_a) ≤ 4096 →
  process_request J cfg_a request_a a = (Ok tt, a') →
  ∃ now t, let m := local_message cfg_a (next_sequence_ a) now text in
    has_text J m t ∧ clock_time a now ∧ shown t a a' ∧
    (∃ now', clock_time a now' ∧ ∀ peer, peer ∈ active_list now' (peers_ a) → offered_to cfg_a t peer a a') ∧
    ∀ cfg_b (request_b : evhttp_request) (b : Node D W),
      posts W request_b "/api/v1/replicate" replicate_message → req_input request_b = t → size t ≤ 4096 →
      db_ok (store_ b) → reliable_reads (D := D) →
      (∀ m', m' ∈ entries (node_log b) → message_id m' ≠ message_id m) →
      ∃ r b', process_request J cfg_b request_b b = (r, b') ∧
        match r with
        | Ok _ => shown t b b' ∧ (clashes (node_log b) m = false → m ∈ entries (node_log b'))
        | Throw _ => trace b' = trace b
        | Undefined => False
        end.
Proof.
  intros Hus Hc Ht Hreg Hdb Hq Hbody Hp Htext Hsz Hr.
  rewrite (create_message_accepts_run cfg_a request_a text a Hp Htext Hsz Hbody) in Hr.
  apply bind_Ok in Hr as (m & n1 & Hcreate & Hrest). destruct Hbody as [Hbs Hbu].
  destruct (create_shows cfg_a text a n1 m Hc Ht Hreg Hdb Hq) as (now & t & -> & Hnow & Hclk & Hmax & Hmt & Hshow & now' & Hclock & Hsent);
    [lia|done|].
  destruct (usable_message cfg_a (next_sequence_ a) now text Hus) as [Hv Hn]; [lia|done|by split|].
  assert (grows n1 a') as Hgrows.
  { assert (∀ m : M (Node D W) unit, m n1 = (Ok tt, a') → keeps grows m → grows n1 a') as Hk
      by (intros m Hm Hk; specialize (Hk n1); by rewrite Hm in Hk).
    apply (Hk _ Hrest). solve_keeps; first [apply send_json_grows|apply keeps_reads; [apply _|eauto with leschat]]. }
  exists now, t. cbv zeta. split_and!; [done|done|by eapply shown_grows|exists now'; split; [done|]; intros; eapply offered_grows; eauto|].
  intros cfg_b request_b b Hpb Hin Hszb Hdbb Hrel Hnew.
  rewrite (replicate_accepts_run cfg_b request_b _ b Hpb Hv Hn) by (rewrite ?Hin; done).
  destruct (replica_shows _ t b Hdbb Hrel Hv Hmt Hnew) as (r & n2 & Hi & Hres).
  destruct r as [taken|e|]; [|exists (Throw e), n2; split; [by apply bind_throw|done]|done].
  destruct Hres as (-> & Htr & Hin2). rewrite (bind_run _ _ _ _ _ Hi).
  match goal with |- context [send_json ?q ?st ?re ?te _] =>
    destruct (send_json_ok q st re te n2) as [b' Hb']; pose proof (send_json_grows q st re te n2) as Hg;
    assert (keeps (same (@store_ D W)) (send_json q st re te)) as Hst
      by (unfold send_json, send_response; solve_keeps) end.
  specialize (Hst n2). rewrite Hb' in Hg, Hst |- *. exists (Ok tt), b'. split; [done|]. split.
  - eapply shown_grows; [|exact Hg]. intros s Hs. eexists. split; [exact Htr|]. by apply chunk_in.
  - intros Hfree. unfold node_log in *. unfold same in Hst. cbn in Hst. rewrite Hst. by apply Hin2.
Qed.
End delivery.

(** ** Witness *)

Definition writer : Node mdb reliable := service_node store0.
Definition written_node : Node mdb reliable := (process_request jtree plain_config hello_request writer).2.

(** The text it sends, and the node that gets it. *)
Definition sent_text : string := match posted (trace written_node) with [(_, t)] => t | _ => EmptyString end.
Definition replica_of (t : string) : evhttp_request := post_to "/api/v1/replicate" t.
Lemma replica_posts t : posts reliable (replica_of t) "/api/v1/replicate" replicate_message.
Proof. split; [done|done|]. cbn. set_solver. Qed.

Definition reader : Node mdb reliable := service_node store0.
Definition reading_node : Node mdb reliable :=
  (process_request jtree config_b (replica_of sent_text) reader).2.

Lemma sapp_inj_l a b c : a +:+ b = a +:+ c → b = c.
Proof. induction a as [|x a IH]; [done|]. rewrite !sapp_cons. intros [= E]. by apply IH. Qed.

Lemma sapp_length a b : String.length (a +:+ b) = (String.length a + String.length b)%nat.
Proof. induction a as [|x a IH]; [done|]. rewrite sapp_cons. cbn. by rewrite IH. Qed.

Lemma sapp_inj_r a b c : a +:+ c = b +:+ c → a = b.
Proof.
  revert b. induction a as [|x a IH]; intros [|y b]; rewrite ?sapp_cons; [done|..|intros [= -> E]; f_equal; by apply IH];
    intros E; apply (f_equal String.length) in E; cbn in E; rewrite !sapp_length in E; cbn in E; lia.
Qed.

Lemma event_payload_inj name t t' : event_payload name t = event_payload name t' → t = t'.
Proof. unfold event_payload. intros E. do 4 apply sapp_inj_l in E. by apply sapp_inj_r in E. Qed.

(** What is shown on the writer's stream has that text. *)
Lemma shown_text t : shown t writer written_node → t = sent_text.
Proof.
  intros Hs. assert (MkSubscriber 1 11 ∈ requests_ writer) as Hsub by (by apply list_elem_of_singleton).
  destruct (Hs _ Hsub) as (l & Htr & Hin).
  assert (forallb (λ e, match e with Chunk _ p => str_eqb p (event_payload "message" sent_text) | _ => true end)
    (trace written_node) = true) as Hall by (by vm_compute).
  change (trace writer) with (@nil effect) in Htr. rewrite Htr, forallb_forall in Hall.
  apply list_elem_of_In, Hall, str_eqb_true in Hin. by apply (event_payload_inj "message").
Qed.

Lemma message_delivered_witness :
  requests_ writer = [MkSubscriber 1 11] ∧
  (shown sent_text writer written_node ∧ ∃ now', clock_time writer now' ∧
    ∀ peer, peer ∈ active_list now' (peers_ writer) → sent_to sent_text peer writer written_node) ∧
  requests_ reader = [MkSubscriber 1 11] ∧ shown sent_text reader reading_node ∧
  ∃ now, local_message plain_config 1 now "hello" ∈ entries (node_log reading_node).
Proof.
  destruct (message_delivered (J := jtree) plain_config hello_request "hello" writer written_node)
    as (now & t & _ & _ & Hs & (now' & Hclock & Hp) & Hb).
  - split; [by vm_compute|done|by vm_compute].
  - apply reliable_sane.
  - apply service_node_times.
  - apply two_peers_ok.
  - apply store0_ok.
  - done.
  - by split; [split|vm_compute].
  - split; [done|done|]. cbn. set_solver.
  - apply model_text_of. by vm_compute.
  - by vm_compute.
  - by vm_compute.
  - pose proof (shown_text t Hs) as ->. split; [done|]. split.
    { split; [exact Hs|]. exists now'. split; [exact Hclock|]. intros peer Hpeer.
      destruct (Hp peer Hpeer) as (l1 & l & l2 & _ & _ & Hsent). apply Hsent, reliable_accepting. }
    split; [done|]. assert (entries (node_log reader) = []) as Hnone by (by vm_compute).
    destruct (Hb config_b (replica_of sent_text) reader) as (r & b' & Hr & Hres);
      [apply replica_posts|exact eq_refl|by vm_compute|apply store0_ok|apply mdb_reads| |].
    { rewrite Hnone. by intros m' ?%not_elem_of_nil. }
    assert ((process_request jtree config_b (replica_of sent_text) reader).1 = Ok tt) as Hok by (by vm_compute).
    unfold reading_node. rewrite Hr in Hok |- *. cbn in Hok |- *. subst r. destruct Hres as [Hshow Hin].
    split; [exact Hshow|]. exists now. apply Hin. unfold clashes. by rewrite Hnone.
Defined.
