(* ===== verification/Poison.v ===== *)
(** * A message that blocks synchronisation

    message_codec.cpp accepts an id that starts with a NUL byte and writes it as
    an empty one.  This file follows such a message from a peer into the store of
    a node and from there into every batch the node sends. *)

From S2P Require Import Prelude Cxx Protocol Utf8 Json ModelJson MessageCodec Sqlite ModelDb MessageStore.
From S2P Require Import StoreProperties Env Node Ledger Clock PeerRegistry Discovery DiscoveryProperties.
From S2P Require Import EventStream Replication MessageService Http HttpApi HttpApiProperties Sync SyncProperties.
From S2P Require Import Convergence Rounds Delivery.
Open Scope Z_scope.

Section poison.
Context `{JsonLaws J} `{SqliteLaws D} `{EnvLaws W} `{Unordered}.
Implicit Types n a b : Node D W.

(** *** Its way in *)

(** A message that reached the handler of replicas. *)
Lemma replicate_takes cfg request (j : J) m n :
  posts W request "/api/v1/replicate" replicate_message → text_of j (req_input request) →
  size (req_input request) ≤ 4096 → parse_message j = Some m →
  db_ok (store_ n) → reliable_reads (D := D) → clashes (node_log n) m = false →
  ∃ r n', process_request J cfg request n = (r, n') ∧
    match r with
    | Ok _ => m ∈ entries (node_log n') ∧
        ∃ n1, (r, n') = send_json request 200 "OK" (json_lit "{'status':'accepted'}") n1
    | Throw _ => trace n' = trace n
    | Undefined => False
    end.
Proof.
  intros Hp Ht Hsz Hj Hdb Hrel Hfree.
  assert (json_object_get_type j = json_type_object) as Hty.
  { unfold parse_message in Hj. destruct (json_object_is_type j json_type_object) eqn:E; [|done]. by apply is_type_true. }
  rewrite (replicate_value_run cfg request j n Hp Ht Hty Hsz), Hj.
  pose proof (parse_message_valid j m Hj) as Hv. destruct (valid_has_text (J := J) m Hv) as (t & Htext).
  destruct (replica_shows m t n Hdb Hrel Hv Htext) as (r & n1 & Hi & Hres).
  { intros m' Hin Hid. rewrite (clash_with _ m m') in Hfree; [done|done|]. unfold conflicts.
    by rewrite Hid, (proj2 (str_eqb_true _ _) eq_refl). }
  destruct r as [taken|e|]; [|by rewrite (bind_throw _ _ _ _ _ Hi); eexists (Throw e), n1|done].
  destruct Hres as (-> & _ & Hin). rewrite (bind_run _ _ _ _ _ Hi).
  destruct (send_json request 200 "OK" (json_lit "{'status':'accepted'}") n1) as [r2 n2] eqn:E.
  pose proof (send_json_log _ _ _ _ _ _ _ E) as [Hst ->]. exists (Ok tt), n2. split; [exact E|].
  unfold node_log in *. rewrite Hst. split; [by apply Hin|]. by exists n1.
Qed.

(** *** Its way out *)

(** A batch that starts with it. *)
Lemma poison_refused cfg request m l n :
  posts W request "/api/v1/sync/messages" sync_messages → valid_message m → c_str (message_id m) = EmptyString →
  (length (m :: l) ≤ 50)%nat → text_of (batch (J := J) (m :: l)) (req_input request) →
  size (req_input request) ≤ 131072 →
  process_request J cfg request n =
    send_json request 400 "Bad Request" (json_lit "{'error':'invalid_sync_message'}") n.
Proof.
  intros Hp Hv Hid Hlen Ht Hsz. rewrite (sync_messages_run cfg request (m :: l) n Hp Ht Hsz Hlen).
  cbn [ingest_items]. rewrite parse_message_json, truncated_acceptable, Hid by done. cbn [negb orb].
  destruct (send_json_refuses request 400 "Bad Request" (json_lit "{'error':'invalid_sync_message'}") n)
    as [Hrej (w & e & Hs)].
  assert ((send_json request HTTP_BADREQUEST "Bad Request" (json_lit "{'error':'invalid_sync_message'}");;
    mret (None : option Z)) n = (Ok None, with_world w (with_trace (trace n ++ [e]) n))) as Hnone
    by (exact (bind_run _ _ _ _ _ Hs)).
  rewrite (bind_run _ _ _ _ _ Hnone). change ((mret tt : M (Node D W) unit) ?x) with (Ok tt, x).
  by rewrite <- Hs.
Qed.

(** Node a has it as the first message that b lacks. *)
Record blocked m a b : Prop := {
  bl_stored : Forall (λ m, valid_message m ∧ no_nul (origin m) = true) (messages_ (store_ a));
  bl_summary : summary_ok (lasts (node_log b));
  bl_first : ∃ l, missing (lasts (node_log b)) (messages_ (store_ a)) = m :: l;
}.

Lemma blocked_stores m a b a' b' : store_ a' = store_ a → store_ b' = store_ b → blocked m a b → blocked m a' b'.
Proof. intros Ha Hb []. unfold node_log in *. split; unfold node_log; by rewrite ?Ha, ?Hb. Qed.

(** One round between them: a's batch starts with it, b refuses the batch. *)
Lemma blocked_round cfg_a cfg_b m a b a' b' : c_str (message_id m) = EmptyString → blocked m a b →
  sync_round J cfg_a cfg_b (a, b) (a', b') → store_ a' = store_ a ∧ store_ b' = store_ b.
Proof.
  intros Hid [Hval Hsum [l Hl]] Hr.
  inversion Hr as [context text effects request ? ? ? ? Ht Hsend Htr Hpost Hp Hsz Hrun]; subst.
  destruct (send_missing_posts cfg_a context _ text a Hsum Ht Hval) as (t & w & ef & Hsend' & Hatt & _ & _ & Htext);
    [by rewrite Hl|]. rewrite Hl in Htext. rewrite Hsend in Hsend'. injection Hsend' as ->. split; [done|].
  cbn in Htr. apply app_inv_head in Htr as <-.
  pose proof (attempt_posts _ [] _ _ _ _ _ _ _ eq_refl Hatt Hpost) as Heq. injection Heq as Hin.
  unfold max_sync_request_bytes in Hsz.
  enough (process_request J cfg_b request b = send_json request 400 "Bad Request" (json_lit "{'error':'invalid_sync_message'}") b)
    as Hrej by (rewrite Hrun in Hrej; symmetry in Hrej; by apply send_json_log in Hrej as [-> _]).
  apply (poison_refused cfg_b request m l b Hp); [|done|..].
  - assert (m ∈ m :: l) as Hm by left. rewrite <- Hl in Hm. rewrite Forall_forall in Hval.
    by apply Hval, (elem_of_sublist _ _ _ Hm), missing_sublist.
  - rewrite <- Hl. unfold missing. rewrite length_take. lia.
  - rewrite Hin. apply Htext. rewrite <- Hin. unfold_ints. lia.
  - done.
Qed.

(** C37: a poisoned batch.  A valid message whose id starts with a NUL byte (1) is
    taken by every node with working queries that receives it as a replica, in a JSON text of at
    most 4096 bytes, and does not hold a message that clashes with it: the node
    stores it and answers that it was accepted, unless its database fails.  (2) A
    batch that starts with it is answered with 400, and nothing of it is
    taken.  (3) As long as it is the first message of a node that a peer lacks
    (the node's messages being valid, and origins free of NUL bytes), what the node sends
    for the peer's summary is such a batch, and however many rounds of
    synchronisation the two go through, both stores, and with them the peer's log and
    summary, stay as they are: the peer gets nothing. *)
Theorem poison_blocks_sync m : valid_message m → c_str (message_id m) = EmptyString →
  (∀ cfg request (j : J) n,
    posts W request "/api/v1/replicate" replicate_message → text_of j (req_input request) →
    size (req_input request) ≤ 4096 → parse_message j = Some m →
    db_ok (store_ n) → reliable_reads (D := D) → clashes (node_log n) m = false →
    ∃ r n', process_request J cfg request n = (r, n') ∧
      match r with
      | Ok _ => m ∈ entries (node_log n') ∧
          ∃ n1, (r, n') = send_json request 200 "OK" (json_lit "{'status':'accepted'}") n1
      | Throw _ => trace n' = trace n
      | Undefined => False
      end) ∧
  (∀ cfg request l n,
    posts W request "/api/v1/sync/messages" sync_messages → (length (m :: l) ≤ 50)%nat →
    text_of (batch (J := J) (m :: l)) (req_input request) → size (req_input request) ≤ 131072 →
    process_request J cfg request n =
      send_json request 400 "Bad Request" (json_lit "{'error':'invalid_sync_message'}") n ∧
    refused request 400 n (process_request J cfg request n)) ∧
  (∀ cfg_a a b, blocked m a b →
    (∀ context text, text_of (summary_object (J := J) (lasts (node_log b))) text →
      ∃ l t w effects, send_missing J cfg_a context text a = (Ok tt, with_world w (with_trace (trace a ++ effects) a)) ∧
        attempt (local_address_ cfg_a) [] sync_headers (address context) (port context) "/api/v1/sync/messages" t effects ∧
        (size t ≤ i32_max → text_of (batch (J := J) (m :: l)) t)) ∧
    ∀ cfg_b a' b', rtc (sync_round J cfg_a cfg_b) (a, b) (a', b') → store_ a' = store_ a ∧ store_ b' = store_ b).
Proof.
  intros Hv Hid. split_and!.
  - intros. by eapply replicate_takes.
  - intros cfg request l n Hp Hlen Ht Hsz. pose proof (poison_refused cfg request m l n Hp Hv Hid Hlen Ht Hsz) as Hr.
    split; [exact Hr|]. rewrite Hr. apply send_json_refuses.
  - intros cfg_a a b Hb. split.
    + intros context text Ht. destruct Hb as [Hval Hsum [l Hl]].
      destruct (send_missing_posts cfg_a context _ text a Hsum Ht Hval) as (t & w & ef & Hsend & Hatt & _ & _ & Htext);
        [by rewrite Hl|]. rewrite Hl in Htext. by exists l, t, w, ef.
    + intros cfg_b a' b' Hr. remember (a, b) as x eqn:Hx. remember (a', b') as y eqn:Hy. revert a b Hx Hb.
      induction Hr as [x|x [a1 b1] z Hstep _ IH]; intros a b -> Hb; [by simplify_eq|].
      destruct (blocked_round cfg_a cfg_b m a b a1 b1 Hid Hb Hstep) as [Ha1 Hb1].
      destruct (IH Hy a1 b1 eq_refl) as [Ha' Hb']; [by eapply blocked_stores|]. by rewrite Ha', Hb'.
Qed.
End poison.

(** ** Witness *)

(** A valid message whose id starts with a NUL byte, as a peer can write it. *)
Definition poison_message : ChatMessage :=
  {| sequence := 1; message_id := String NUL "x"; origin := "node-p"; callsign := "Papa";
     channel := default_channel; created_at_ms := 1; body := "poison" |}.

Definition poison_json : jtree :=
  json_object_object_add (message_json poison_message) "id"
    (json_object_new_string_len (message_id poison_message) (size (message_id poison_message))).
Definition poison_request : evhttp_request := post_to "/api/v1/replicate" (model_text poison_json).

Lemma poison_valid : valid_message poison_message.
Proof. apply acceptable_valid; [by unfold_ints|by unfold_ints|by vm_compute]. Qed.

(** The node that received it, and one that lacks it. *)
Definition poisoned_node : Node mdb reliable :=
  (process_request jtree plain_config poison_request empty_node).2.

Definition poison_request_out : evhttp_request := batch_request [poison_message].
Definition refused_round : Node mdb reliable * Node mdb reliable :=
  ((send_missing jtree plain_config peer_context (model_text (summary_object (J := jtree) ∅)) poisoned_node).2,
   (process_request jtree plain_config poison_request_out empty_node).2).

Lemma poison_blocked : blocked poison_message poisoned_node empty_node.
Proof.
  assert (messages_ (store_ poisoned_node) = [poison_message]) as Hm by (by vm_compute).
  assert (lasts (node_log empty_node) = ∅) as Hl by (by vm_compute). split; rewrite ?Hm, ?Hl.
  - constructor; [|constructor]. split; [apply poison_valid|by vm_compute].
  - apply map_Forall_empty.
  - exists []. by vm_compute.
Qed.

Lemma refused_round_runs :
  sync_round jtree plain_config plain_config (poisoned_node, empty_node) (refused_round.1, refused_round.2).
Proof.
  apply (a_round jtree plain_config plain_config peer_context (model_text (summary_object (J := jtree) ∅))
    (drop (length (trace poisoned_node)) (trace refused_round.1)) poison_request_out).
  - assert (lasts (node_log empty_node) = ∅) as -> by (by vm_compute). by apply model_text_of; vm_compute.
  - by vm_compute.
  - by vm_compute.
  - apply (bool_decide_eq_true (_ ∈ _)). by vm_compute.
  - apply batch_posts.
  - by vm_compute.
  - by vm_compute.
Qed.

Lemma poison_blocks_sync_witness :
  poison_message ∈ entries (node_log poisoned_node) ∧
  refused poison_request_out 400 empty_node (process_request jtree plain_config poison_request_out empty_node) ∧
  store_ refused_round.2 = store_ empty_node.
Proof.
  destruct (poison_blocks_sync (J := jtree) (D := mdb) (W := reliable) poison_message poison_valid eq_refl)
    as (Hin & Hbatch & Hrounds).
  split_and!.
  - destruct (Hin plain_config poison_request poison_json empty_node) as (r & n' & Hr & Hres);
      [split; [done|done|cbn; set_solver]|by apply model_text_of; vm_compute|by vm_compute|by vm_compute|
       apply store0_ok|apply mdb_reads|by vm_compute|].
    assert ((process_request jtree plain_config poison_request empty_node).1 = Ok tt) as Hok by (by vm_compute).
    unfold poisoned_node. rewrite Hr in Hok |- *. cbn in Hok |- *. subst r. by destruct Hres.
  - apply (Hbatch plain_config poison_request_out []);
      [apply batch_posts|cbn; lia|by apply model_text_of; vm_compute|by vm_compute].
  - destruct (Hrounds plain_config poisoned_node empty_node poison_blocked) as [_ Hstay].
    by destruct (Hstay plain_config refused_round.1 refused_round.2 (rtc_once _ _ refused_round_runs)).
Defined.
