(* ===== verification/Daemon.v ===== *)
(** * The daemon (application.cpp)

    The constructor puts the services together, in order; the daemon then handles
    the events libevent reports, one at a time; the destructor takes it apart.
    [launch] is the life of an Application in main. *)

From S2P Require Import Prelude Cxx Protocol Json Sqlite MessageStore Env Node Clock PeerRegistry.
From S2P Require Import Discovery EventStream Replication MessageService Http HttpApi Sync Main.
Open Scope Z_scope.

Section application.
Context (J : Type) `{JsonC J} `{Sqlite D} `{Env W} `{Unordered}.

(** The first entry with the name and an IPv4 address decides. *)
Fixpoint first_ipv4 (interface_name : string) (l : list (option string * option Z)) : string :=
  match l with
  | [] => EmptyString
  | (ifa_name, ifa_addr) :: l' =>
      match ifa_name, ifa_addr with
      | Some name, Some addr =>
          if negb (str_eqb interface_name (c_str name)) then first_ipv4 interface_name l'
          else match inet_ntop (W := W) addr with Some text => c_str text | None => EmptyString end
      | _, _ => first_ipv4 interface_name l'
      end
  end.

Definition interface_ipv4_address (w : W) (interface_name : string) : string :=
  if empty interface_name then EmptyString
  else match getifaddrs w with
       | None => EmptyString
       | Some interfaces => first_ipv4 interface_name interfaces
       end.

Definition with_local_address (a : string) (c : Config) : Config :=
  MkConfig (identity_ c) (bind_address_ c) (port_ c) (discovery_address_ c) (discovery_interface_ c)
    (discovery_port_ c) (time_sync_mode_ c) (time_authority_id_ c) a (web_root_ c).

(** The services in the order of their construction; ReplicationService and
    EventStream take nothing that can fail. *)
Definition services (cfg : Config) : M (Node D W) unit :=
  DiscoveryService J cfg;;
  SyncService;;
  MessageService cfg;;
  HttpApi cfg.

(** MessageStore::~MessageStore; sqlite3_close gives the handle back when it
    answers SQLITE_OK, and the code does not look at the answer. *)
Definition destroy_store : M (Node D W) unit :=
  result ← gets (λ n, sqlite3_close (database (store_ n)));
  if result =? SQLITE_OK then release Database else mret tt.

(** What a constructor of MessageStore that throws does with the handle it got:
    sqlite3_open_v2 may give one even when it fails. *)
Definition failed_store (database_path : string) (max_bytes : Z) : list effect :=
  if empty database_path || (max_bytes =? 0) then []
  else
    let '(rc, handle) := sqlite3_open_v2 database_path in
    match handle with
    | None => []
    | Some d =>
        let d := if negb (rc =? SQLITE_OK) then d
                 else database ((initialize_schema max_bytes;; load_messages) (MkStore d [])).2 in
        Acquired Database :: (if sqlite3_close d =? SQLITE_OK then [Released Database] else [])
    end.

(** When the constructor throws, its members are destroyed in the reverse of the
    order application.hpp declares them. *)
Definition destroy_members : M (Node D W) unit :=
  destroy_http;;
  destroy_stream;;
  destroy_sync;;
  destroy_discovery;;
  destroy_store;;
  release EventBase.

(** Application::Application: the event base, the store, then the services; with
    the effects it had. *)
Definition Application (cfg : Config) (database_path : string) (w : W) :
    result (Config * Node D W) * list effect :=
  let (event_base, w) := setup_ok w EventBaseNew in
  if negb event_base then (Throw (RuntimeError "Failed to create libevent event base"), [])
  else
    match MessageStore.MessageStore database_path max_database_bytes with
    | Throw e => (Throw e, Acquired EventBase :: failed_store database_path max_database_bytes ++ [Released EventBase])
    | Undefined => (Undefined, [Acquired EventBase])
    | Ok s =>
        let cfg := with_local_address (interface_ipv4_address w (discovery_interface_ cfg)) cfg in
        let n := MkNode s ∅ 0 false [] 0 [EventBase; Database] w [Acquired EventBase; Acquired Database] in
        match try_catch (services cfg) (λ e, destroy_members;; throw e) n with
        | (Ok _, n) => (Ok (cfg, n), trace n)
        | (Throw e, n) => (Throw e, trace n)
        | (Undefined, n) => (Undefined, trace n)
        end
    end.

(** Application::~Application *)
Definition destroy_application : M (Node D W) unit :=
  destroy_discovery;;
  destroy_sync;;
  destroy_stream;;
  destroy_http;;
  destroy_store;;
  release EventBase.

(** What libevent calls: the HTTP server, the discovery socket and timer, the
    synchronisation timer, and the completion of the requests sent. *)
Inductive event :=
  | HttpRequest (request : evhttp_request)
  | DatagramsReady (fuel : nat)
  | AnnounceTimer
  | SyncTimer
  | ConnectionClosed (connection : Z)
  | ReplicationDone (status : option Z) (connection : Z)
  | SummaryDone (request : option (evhttp_request * Z)) (context : RequestContext)
  | BatchDone (context : RequestContext).

Definition on_event (cfg : Config) (e : event) : M (Node D W) unit :=
  match e with
  | HttpRequest request => handle_request J cfg request
  | DatagramsReady fuel => receive_callback J cfg fuel;; mret tt
  | AnnounceTimer => announce_callback J cfg
  | SyncTimer => timer_callback J cfg
  | ConnectionClosed connection => handle_close connection
  | ReplicationDone status connection => replication_response status connection
  | SummaryDone request context => summary_response_callback J cfg request context
  | BatchDone context => send_response_callback context
  end.

(** Application::run: one event handled. *)
Definition step (cfg : Config) (n n' : Node D W) : Prop := ∃ e, on_event cfg e n = (Ok tt, n').

(** What run writes first. *)
Definition banner (cfg : Config) : string :=
  "LES Mesh Chat " +:+ app_version +:+ LF +:+
  "Node ID: " +:+ id_node_id (identity_ cfg) +:+ LF +:+
  "Callsign: " +:+ id_callsign (identity_ cfg) +:+ LF +:+
  "Listening on http://" +:+ bind_address_ cfg +:+ ":" +:+ to_string (port_ cfg) +:+ LF.

(** Application::run: event_base_dispatch handles [events] and returns
    [dispatched]. *)
Definition run (cfg : Config) (events : list event) (dispatched : Z) : M (Node D W) unit :=
  emit (Print (banner cfg));;
  iterM (on_event cfg) events;;
  if dispatched <? 0 then throw (RuntimeError "libevent dispatch failed") else mret tt.

(** The Application of main: constructed, run, and destroyed on both ways out. *)
Definition launch (web_root : string) (w : W) (events : list event) (dispatched : Z) (o : Options) :
    result unit * list effect :=
  match Application (config_of o EmptyString web_root) (database_path o) w with
  | (Ok (cfg, n), _) =>
      let (r, n) := run cfg events dispatched n in
      match r with
      | Undefined => (Undefined, trace n)
      | _ => (r, trace (destroy_application n).2)
      end
  | (Throw e, effects) => (Throw e, effects)
  | (Undefined, effects) => (Undefined, effects)
  end.
End application.
