(* ===== verification/Frame.v ===== *)
(** * What the events may write

    The handlers write the state of the node through few operations of the
    components: reading the clock and the store, logging, publishing ([Ops]),
    sending a request with a given path and payload ([Sends]), answering the
    request at hand ([Responds]), storing a message received ([Takes]).  A preorder
    on states that these respect is respected by every handler, given what it does
    in the places that write more: create_local (the counter), subscribe (the
    streams), the receive callback (registry and clock), the announcement (its
    failure flag).

    Most relations also respect the elementary writes underneath, to the world,
    the trace and the list of streams ([Calls], and [Makes] for the requests sent),
    and so all of these operations; [Frame] is both with [Takes]. *)

From S2P Require Import Prelude Cxx Protocol Json MessageCodec Sqlite MessageStore Env Node Clock.
From S2P Require Import PeerRegistry Discovery DiscoveryProperties EventStream Replication.
From S2P Require Import MessageService Http HttpApi Sync Main Daemon.
Open Scope Z_scope.

(** The effects of the events: no handle is taken or given back.  Those but the
    sending of a request are the [ordinary] ones. *)
Definition takes_nothing (e : effect) : bool :=
  match e with Acquired _ | Released _ => false | _ => true end.
Definition ordinary (e : effect) : bool :=
  match e with MakeRequest _ _ _ _ _ => false | _ => takes_nothing e end.

(** What the handlers ask of the components. *)
Class Ops `{Sqlite D} `{Env W} (R : Node D W → Node D W → Prop) := {
  ops_preorder :: PreOrder R;
  ops_clock : keeps R current_time_ms;
  ops_log line : keeps R (log line);
  ops_publish name data : keeps R (publish_event name data);
  ops_contains i : keeps R (on_store (contains i));
  ops_summary : keeps R (on_store sequence_summary);
}.

Class Sends `{Env W} {D : Type} (path payload : string) (R : Node D W → Node D W → Prop) :=
  sends cfg on_null headers address port :
    keeps R on_null → keeps R (post_request cfg on_null headers address port path payload).

Class Responds `{Env W} {D : Type} (request : evhttp_request) (R : Node D W → Node D W → Prop) :=
  responds status reason content_type body : keeps R (send_response request status reason content_type body).

Class Takes (J : Type) `{JsonC J} `{Sqlite D} {W : Type} (R : Node D W → Node D W → Prop) :=
  takes (j : J) m : parse_message j = Some m → keeps R (on_store (add m)).

(** The elementary writes. *)
Class Calls `{Sqlite D} {W : Type} (R : Node D W → Node D W → Prop) := {
  calls_preorder :: PreOrder R;
  calls_world n w : R n (with_world w n);
  calls_emit n e : ordinary e = true → R n (with_trace (trace n ++ [e]) n);
  calls_requests n l : R n (with_requests l n);
  calls_contains i : keeps R (on_store (contains i));
  calls_summary : keeps R (on_store sequence_summary);
}.

Class Makes {D W : Type} (path payload : string) (R : Node D W → Node D W → Prop) :=
  makes n c r headers : R n (with_trace (trace n ++ [MakeRequest c r path headers payload]) n).

Class Frame (J : Type) `{JsonC J} `{Sqlite D} {W : Type} (R : Node D W → Node D W → Prop) := {
  frame_calls :: Calls R;
  frame_makes path payload :: Makes path payload R;
  frame_takes :: Takes J R;
}.

(** A part of the state that none of these operations writes. *)
Lemma same_frame `{JsonC J} `{Sqlite D} {W B : Type} (f : Node D W → B) :
  (∀ n s, f (with_store s n) = f n) → (∀ n w, f (with_world w n) = f n) →
  (∀ n t, f (with_trace t n) = f n) → (∀ n r, f (with_requests r n) = f n) → Frame J (same f).
Proof.
  intros Hs Hw Ht Hr. split.
  - split; [apply _|intros ? ?; apply Hw|intros ? ? _; apply Ht|intros ? ?; apply Hr|..]; intros; by apply on_store_keeps.
  - intros path payload n c r headers. apply Ht.
  - intros j m _. by apply on_store_keeps.
Qed.

(** ** The handlers over the operations of the components *)

Section handlers.
Context (J : Type) `{JsonC J} `{Sqlite D} `{Env W} `{Unordered} (cfg : Config).
Context (R : Node D W → Node D W → Prop) `{!Ops R}.

Lemma kept_reads {A} (m : M (Node D W) A) : reads m → keeps R m.
Proof. apply keeps_reads, _. Qed.
Lemma kept_clock : keeps R current_time_ms.
Proof. apply ops_clock. Qed.
Lemma kept_log line : keeps R (log line).
Proof. apply ops_log. Qed.
Lemma kept_publish_event name data : keeps R (publish_event name data).
Proof. apply ops_publish. Qed.
Lemma kept_contains i : keeps R (on_store (contains i)).
Proof. apply ops_contains. Qed.
Lemma kept_summary : keeps R (on_store sequence_summary).
Proof. apply ops_summary. Qed.
Lemma kept_messages : keeps R (on_store messages).
Proof. intros n. rewrite on_store_run. cbn. replace (with_store _ n) with n by (by destruct n). reflexivity. Qed.

#[local] Hint Resolve kept_clock kept_log kept_publish_event kept_contains kept_summary kept_messages : leschat.
#[local] Hint Extern 2 (keeps R _) => (apply kept_reads; solve [eauto 2 with leschat nocore]) : leschat.

Lemma kept_publish m : keeps R (publish J m).
Proof. unfold publish. solve_keeps. Qed.
#[local] Hint Resolve kept_publish : leschat.

Lemma kept_active now : keeps R (active_peers now).
Proof. unfold active_peers, keep_active. solve_keeps. Qed.
#[local] Hint Resolve kept_active : leschat.

Lemma kept_broadcast t `{!Sends "/api/v1/replicate" t R} : keeps R (broadcast cfg t).
Proof. unfold broadcast, replicate_to. solve_keeps. Qed.

Lemma kept_member (o : J) s k t : keeps R (sync_member J o s k t).
Proof. unfold sync_member, string_view_is. solve_keeps. Qed.
Lemma kept_origins s : keeps R (origins_json J s).
Proof. unfold origins_json. solve_keeps. Qed.
Lemma kept_envelope s k (v : J) : keeps R (sync_envelope J s k v).
Proof. unfold sync_envelope. solve_keeps. Qed.
#[local] Hint Resolve kept_member kept_origins kept_envelope : leschat.

Lemma kept_timer `{Hs : !∀ t, Sends "/api/v1/sync/summary" t R} : keeps R (timer_callback J cfg).
Proof.
  unfold timer_callback, synchronize, summary_to. solve_keeps. apply Hs, keeps_ret, _.
Qed.

Lemma kept_replication_done status c : keeps R (drop_connection c) → keeps R (replication_response status c).
Proof. intros Hc. unfold replication_response. solve_keeps. Qed.

Lemma kept_summary_done `{Hs : !∀ t, Sends "/api/v1/sync/messages" t R} request context : keeps R (drop_connection (connection context)) →
  keeps R (summary_response_callback J cfg request context).
Proof.
  intros Hc. unfold summary_response_callback, handle_summary_response, send_missing, send_batch, collect.
  solve_keeps. apply Hs, keeps_ret, _.
Qed.

(** *** Requests *)

Context (request : evhttp_request) `{!Responds request R}.

Lemma kept_respond status reason content_type body : keeps R (send_response request status reason content_type body).
Proof. apply responds. Qed.
#[local] Hint Resolve kept_respond : leschat.

Lemma kept_send_json status reason text : keeps R (send_json request status reason text).
Proof. unfold send_json. solve_keeps. Qed.
#[local] Hint Resolve kept_send_json : leschat.

Lemma kept_read limit complete invalid : keeps R (read_json_object J request limit complete invalid).
Proof. unfold read_json_object, send_unsupported_media_type. solve_keeps. Qed.
#[local] Hint Resolve kept_read : leschat.

Lemma kept_ingest_replica m : keeps R (on_store (add m)) → keeps R (ingest_replica J m).
Proof. intros Hm. unfold ingest_replica. solve_keeps. Qed.
Lemma kept_ingest_sync m : keeps R (on_store (add m)) → keeps R (ingest_sync J m).
Proof. intros Hm. unfold ingest_sync. solve_keeps. Qed.

Lemma kept_sync_loop (arr : J) ixs acc :
  (∀ i m, parse_message (json_object_array_get_idx arr i) = Some m → keeps R (on_store (add m))) →
  keeps R (sync_loop J request arr ixs acc).
Proof.
  intros Hm. revert acc. induction ixs as [|i ixs IH]; intros acc; cbn; [solve_keeps|].
  destruct (parse_message _) as [m|] eqn:E; [|solve_keeps].
  apply keeps_bind; [apply _|by eapply kept_ingest_sync, Hm|intros b; apply IH].
Qed.

(** The handlers that neither store nor subscribe. *)
Definition reads_only (h : handler) : bool :=
  match h with create_message | replicate_message | sync_messages | open_event_stream => false | _ => true end.

Lemma kept_reader h : reads_only h = true → keeps R (run_handler J cfg h request).
Proof.
  intros Hh. destruct h; try done; cbn [run_handler];
    unfold send_web_asset, load_web_asset, handle_healthz, handle_status, make_status_json,
      current_time_offset_ms, handle_get_messages, service_messages, add_items, handle_get_peers, peer_item,
      handle_sync_summary, service_summary; solve_keeps.
Qed.

(** What the storing handlers do when no exception or reply ends them before. *)
Lemma kept_replicate `{!Takes J R} : keeps R (handle_replicate_message J request).
Proof.
  unfold handle_replicate_message. apply keeps_bind; [apply _|apply kept_read|intros [j|]]; [|solve_keeps].
  destruct (parse_message j) eqn:?; [|solve_keeps].
  apply keeps_bind; [apply _|by eapply kept_ingest_replica, takes|intros b; solve_keeps].
Qed.

Lemma kept_batch `{!Takes J R} : keeps R (handle_sync_messages J request).
Proof.
  unfold handle_sync_messages. solve_keeps. apply kept_sync_loop. intros i m. apply takes.
Qed.

(** Every handler, given what creating a message and subscribing do. *)
Lemma kept_handler h `{!Takes J R} :
  (h = create_message → ∀ text, keeps R (create_local J cfg text)) →
  (h = open_event_stream → keeps R (subscribe (MkSubscriber (req_id request) (req_connection request)))) →
  keeps R (run_handler J cfg h request).
Proof.
  intros Hc Hs. destruct (reads_only h) eqn:Hh; [by apply kept_reader|].
  destruct h; try done; cbn [run_handler]; [|apply kept_replicate|apply kept_batch|by apply Hs].
  unfold handle_create_message. solve_keeps.
Qed.

(** A local message, given its number and its storage. *)
Lemma kept_create_local text `{!∀ t, Sends "/api/v1/replicate" t R} :
  (∀ n q, R n (with_next_sequence (u64 q) n)) → (∀ q now, keeps R (on_store (add (local_message cfg q now text)))) →
  keeps R (create_local J cfg text).
Proof.
  intros Hn Ha. unfold create_local, replicate_local, set_next_sequence. solve_keeps;
    first [by apply kept_broadcast|intros n; apply Hn].
Qed.

(** The handler the route table gives, and a request. *)
Lemma kept_process : 
  (∀ h, keeps R (run_handler J cfg h request)) → keeps R (process_request J cfg request).
Proof.
  intros Hh. unfold process_request. destruct (empty _); [solve_keeps|].
  destruct (find_route _ _ _ _) as [h|[|]]; [apply Hh|solve_keeps..].
Qed.

Lemma kept_request : keeps R (process_request J cfg request) → keeps R (handle_request J cfg request).
Proof. intros Hp. unfold handle_request. apply keeps_try; [apply _|exact Hp|intros e; destruct e; solve_keeps]. Qed.
End handlers.

#[export] Hint Extern 4 (keeps _ (log _)) => (eapply kept_log; typeclasses eauto) : leschat.
#[export] Hint Extern 4 (keeps _ (send_json _ _ _ _)) => (eapply kept_send_json; typeclasses eauto) : leschat.
#[export] Hint Extern 4 (keeps _ (send_response _ _ _ _ _)) => (eapply kept_respond; typeclasses eauto) : leschat.
#[export] Hint Extern 4 (keeps _ (publish _ _)) => (eapply kept_publish; typeclasses eauto) : leschat.
#[export] Hint Extern 4 (keeps _ (broadcast _ _)) => (apply kept_broadcast; typeclasses eauto) : leschat.
#[export] Hint Extern 4 (keeps _ current_time_ms) => (eapply kept_clock; typeclasses eauto) : leschat.

(** ** The operations over the elementary writes *)

Section calls.
Context (J : Type) `{JsonC J} `{Sqlite D} `{Env W} `{Unordered} (cfg : Config).
Context (R : Node D W → Node D W → Prop) `{!Calls R}.

Lemma kept_call {A} (g : W → A * W) : keeps R (call g).
Proof. intros n. rewrite call_run. apply calls_world. Qed.
Lemma kept_emit e : ordinary e = true → keeps R (emit e).
Proof. intros He n. by apply calls_emit. Qed.
Lemma kept_drop c : keeps R (drop_connection c).
Proof. unfold drop_connection. apply keeps_bind; [apply _|by apply kept_emit|intros _; by apply kept_emit]. Qed.
Lemma kept_requests l : keeps R (set_requests l).
Proof. intros n. apply calls_requests. Qed.
Lemma kept_system_time : keeps R system_time_ms.
Proof. apply kept_call. Qed.

#[local] Hint Resolve kept_call kept_drop kept_requests kept_system_time : leschat.
#[local] Hint Extern 1 (keeps R (emit _)) => (apply kept_emit; reflexivity) : leschat.
#[local] Hint Extern 2 (keeps R _) => (apply keeps_reads; [apply _|solve [eauto 2 with leschat nocore]]) : leschat.

#[export] Instance calls_ops : Ops R.
Proof.
  split; [apply _|..|apply calls_contains|apply calls_summary]; intros.
  - unfold current_time_ms. solve_keeps.
  - unfold log. solve_keeps.
  - unfold publish_event. solve_keeps.
Qed.

#[export] Instance calls_sends path payload `{!Makes path payload R} : Sends path payload R.
Proof. intros c on_null headers address port Hn. unfold post_request. solve_keeps. intros n. apply makes. Qed.

#[export] Instance calls_responds request : Responds request R.
Proof. intros status reason content_type body. unfold send_response. solve_keeps. Qed.

Lemma kept_all_succeed l : keeps R (all_succeed l).
Proof. induction l as [|s l IH]; cbn; solve_keeps. Qed.

Lemma kept_subscribe r : keeps R (subscribe r).
Proof. unfold subscribe. solve_keeps. Qed.

#[local] Hint Resolve kept_subscribe : leschat.

Lemma kept_announce : (∀ n b, R n (with_announce_failed b n)) → keeps R (announce J cfg).
Proof.
  intros Hb. unfold announce, send_announce, announcement_json, set_announce_failed. solve_keeps;
    intros n; apply Hb.
Qed.

Lemma kept_set_time t : (∀ n o, R n (with_offset o n)) → keeps R (set_system_time_ms t).
Proof. intros Ho. unfold set_system_time_ms, set_time_offset_ms. solve_keeps. intros n; apply Ho. Qed.

Lemma kept_datagram payload sender : (∀ n o, R n (with_offset o n)) → (∀ p, keeps R (update p)) →
  keeps R (handle_datagram J cfg payload sender).
Proof.
  intros Ho Hp. unfold handle_datagram, synchronize_time, set_time_offset_ms, current_time_offset_ms.
  solve_keeps; first [by apply kept_set_time|intros n; apply Ho|apply Hp].
Qed.

Lemma kept_receive fuel : (∀ payload sender, keeps R (handle_datagram J cfg payload sender)) →
  keeps R (receive_callback J cfg fuel).
Proof.
  intros Hd. unfold receive_callback, receive_announcements. solve_keeps.
  apply receive_loop_keeps; [apply _|apply kept_call|apply Hd].
Qed.

(** Every event but a request. *)
Lemma kept_other e `{!∀ t, Sends "/api/v1/sync/summary" t R} :
  (∀ request, e ≠ HttpRequest request) →
  (∀ request context, e = SummaryDone request context → keeps R (summary_response_callback J cfg request context)) →
  (∀ fuel, keeps R (receive_callback J cfg fuel)) →
  keeps R (announce J cfg) → keeps R (on_event J cfg e).
Proof.
  intros He Hb Hr Ha. destruct e as [request|fuel| | |c|status c|request context|context]; cbn [on_event].
  - by destruct (He request).
  - apply keeps_bind; [apply _|apply Hr|intros b; apply keeps_ret, _].
  - exact Ha.
  - apply kept_timer; apply _.
  - unfold handle_close. solve_keeps.
  - eapply kept_replication_done; [apply _|apply kept_drop].
  - by apply Hb.
  - apply kept_drop.
Qed.

(** Every event. *)
Lemma kept_completion request context `{!∀ t, Sends "/api/v1/sync/messages" t R} :
  keeps R (summary_response_callback J cfg request context).
Proof. eapply kept_summary_done; [apply _..|apply kept_drop]. Qed.

Lemma kept_event e `{!Takes J R} `{!∀ path t, Makes path t R} :
  (∀ text, keeps R (create_local J cfg text)) → (∀ fuel, keeps R (receive_callback J cfg fuel)) →
  keeps R (announce J cfg) → keeps R (on_event J cfg e).
Proof.
  intros Hc Hr Ha. destruct e as [request|fuel| | |c|status c|request context|context]; 
    [|by apply kept_other; [apply _|done|intros; apply kept_completion, _|done..]..].
  apply kept_request; [apply _..|]. apply kept_process; [apply _..|]. intros h.
  apply kept_handler; [apply _..|intros _; exact Hc|intros _; apply kept_subscribe].
Qed.
End calls.

#[export] Hint Extern 4 (keeps _ (call _)) => (eapply kept_call; typeclasses eauto) : leschat.
#[export] Hint Extern 4 (keeps _ (emit _)) => (eapply kept_emit; [typeclasses eauto|reflexivity]) : leschat.
#[export] Hint Extern 4 (keeps _ (drop_connection _)) => (eapply kept_drop; typeclasses eauto) : leschat.
#[export] Hint Extern 4 (keeps _ system_time_ms) => (eapply kept_system_time; typeclasses eauto) : leschat.
#[export] Hint Extern 4 (keeps _ (set_requests _)) => (eapply kept_requests; typeclasses eauto) : leschat.
#[export] Hint Extern 4 (keeps _ (all_succeed _)) => (eapply kept_all_succeed; typeclasses eauto) : leschat.
#[export] Hint Extern 5 (keeps _ _) =>
  (apply keeps_reads; [typeclasses eauto|solve [eauto 2 with leschat nocore]]) : leschat.
