(* ===== verification/Application.v ===== *)
(** * Properties of the running daemon

    The abstraction function to the chat of Specification.v and the simulation of
    its steps by every event, the invariant of every state reached from the
    constructor of Daemon.v, the absence of escaping exceptions, and what a
    restart does. *)

From S2P Require Import Prelude Cxx Protocol Utf8 Json ModelJson MessageCodec Sqlite ModelDb.
From S2P Require Import MessageStore StoreProperties Env Node Ledger Clock PeerRegistry Discovery.
From S2P Require Import DiscoveryProperties EventStream Replication MessageService Http HttpApi.
From S2P Require Import HttpApiProperties Specification Sync SyncProperties Main Daemon Frame.
Open Scope Z_scope.

(** ** The chat the daemon implements *)

(** The abstraction function of Specification.v. *)
Definition node_chat {D W} `{SqliteLaws D} (n : Node D W) : chat := MkChat (node_log n) (next_sequence_ n).

(** The database stays in order; the log, the cached list and the counter are the
    same. *)
Definition silent {D W} `{SqliteLaws D} (n n' : Node D W) : Prop :=
  db_ok (store_ n) → db_ok (store_ n') ∧ node_chat n' = node_chat n ∧ messages_ (store_ n') = messages_ (store_ n).

(** What is cached was cached or stored before, or is a message the chat may take. *)
Definition caches {D W} `{SqliteLaws D} (cfg : Config) (n n' : Node D W) : Prop :=
  ∀ x, x ∈ messages_ (store_ n') → x ∈ messages_ (store_ n) ∨ x ∈ entries (node_log n) ∨ admissible cfg x.

(** The database stays in order; the log and the counter move as specified. *)
Definition moves {D W} `{SqliteLaws D} (cfg : Config) (n n' : Node D W) : Prop :=
  db_ok (store_ n) → db_ok (store_ n') ∧ chat_steps cfg (node_chat n) (node_chat n') ∧ caches cfg n n'.

Section chat.
Context `{JsonLaws J} `{SqliteLaws D} {W : Type} (cfg : Config).
Implicit Types n : Node D W.

Lemma silent_moves n n' : silent n n' → moves cfg n n'.
Proof.
  intros Hs Hn. destruct (Hs Hn) as (? & -> & Hm). split; [done|]. split; [apply rtc_refl|].
  intros x Hx. left. by rewrite <- Hm.
Qed.

#[export] Instance silent_preorder : PreOrder (silent (D := D) (W := W)).
Proof.
  split; [by intros n Hn|]. intros n1 n2 n3 H12 H23 Hn. destruct (H12 Hn) as (Hn2 & <- & <-). by apply H23.
Qed.

Lemma caches_trans n1 n2 n3 : chat_steps cfg (node_chat n1) (node_chat n2) →
  caches cfg n1 n2 → caches cfg n2 n3 → caches cfg n1 n3.
Proof.
  intros Hs H12 H23 x [Hx|[Hx|Hx]]%H23; [by apply H12| |by auto].
  apply (chat_steps_from _ _ _ Hs) in Hx as [?|?]; auto.
Qed.

#[export] Instance moves_preorder : PreOrder (moves (D := D) (W := W) cfg).
Proof.
  split; [intros n; by apply silent_moves|]. intros n1 n2 n3 H12 H23 Hn.
  destruct (H12 Hn) as (Hn2 & Hs & Hc). destruct (H23 Hn2) as (Hn3 & Hs' & Hc').
  split; [done|]. split; [by etransitivity|by eapply caches_trans].
Qed.

Lemma view_silent n s' l : db_ok (store_ n) → at_view (view (database (store_ n))) l s' →
  db_ok s' ∧ abs s' = node_log n ∧ messages_ s' = l.
Proof.
  intros Hs Hv. split; [|by destruct Hv as [Hv Hm]; unfold abs, node_log, abs; rewrite Hv].
  rewrite (db_ok_view _ Hs) in Hv. by apply at_view_ok in Hv as [? _]; [|apply Hs..].
Qed.

#[export] Instance silent_calls : Calls (silent (D := D) (W := W)).
Proof.
  split; [apply _|by intros n w Hn|by intros n e _ Hn|by intros n l Hn|intros i n Hn|intros n Hn].
  - destruct (contains_runs i n Hn) as (r & s' & -> & ? & Ha & Hm & _). split; [done|].
    unfold node_chat, node_log in *. cbn. by rewrite Ha.
  - rewrite on_store_run. destruct (sequence_summary (store_ n)) as [r s'] eqn:E.
    eapply (spec_run _ _ _ _ _ _ _ (sequence_summary_spec (view (database (store_ n))) (messages_ (store_ n))
      (lo_range _ (db_log _ Hn)))) in E; [|done].
    assert (db_ok s' ∧ abs s' = node_log n ∧ messages_ s' = messages_ (store_ n)) as (Hs' & Ha & Hm).
    { destruct r as [s|e|]; [destruct E as [E _]|..]; [by eapply view_silent..|done]. }
    split; [done|]. unfold node_chat, node_log in *. cbn. by rewrite Ha.
Qed.

#[export] Instance silent_makes path payload : Makes path payload (silent (D := D) (W := W)).
Proof. by intros n c r headers Hn. Qed.

(** What add does to the log: whatever putting a message is called, it comes
    after a loss of the oldest or not. *)
Lemma add_steps full m q q' a a' b : (b, a') = add_result full a m →
  (∀ a a', put_message a m = (true, a') → chat_step cfg (MkChat a q) (MkChat a' q')) →
  (∀ a, chat_steps cfg (MkChat a q) (MkChat a q')) → chat_steps cfg (MkChat a q) (MkChat a' q').
Proof.
  intros Hr Hput Hnot.
  assert (∀ a, (b, a') = put_message a m → chat_steps cfg (MkChat a q) (MkChat a' q')) as Hp.
  { intros a0 Hp. destruct b; [by apply rtc_once, Hput|]. unfold put_message in Hp.
    destruct (clashes a0 m); simplify_eq. apply Hnot. }
  unfold add_result in Hr. destruct full; [|by apply Hp]. eapply rtc_l; [apply chat_forgot|by apply Hp].
Qed.

Lemma throw_steps m (n : Node D W) a' q : log_recovers m n a' → chat_steps cfg (MkChat (node_log n) q) (MkChat a' q).
Proof. intros [->|[_ ->]]; [apply rtc_refl|apply rtc_once, chat_forgot]. Qed.

(** What add leaves in the cached list. *)
Lemma add_caches m n r s' : db_ok (store_ n) → 1 ≤ sequence m →
  on_store (W := W) (add m) n = (r, with_store s' n) → (∀ b, r = Ok b → admissible cfg m) →
  caches cfg n (with_store s' n).
Proof.
  intros Hdb Hm E Hadm. rewrite on_store_run in E. destruct (add m (store_ n)) as [r0 s0] eqn:Ea. injection E as -> ->.
  pose proof (add_run _ _ _ _ Hdb Hm Ea) as Hr. intros x Hx. cbn in Hx.
  destruct r as [b|e|]; [| |done].
  - destruct (add_cache _ _ _ _ Hdb Hm Ea x Hx) as [?|[?| ->]]; [by left|by right; left|].
    right. right. by apply (Hadm b).
  - destruct Hr as [_ [[_ Hs]|(_ & Hs & [k Hk])]]; [left; by rewrite <- Hs|].
    right. left. change (node_log n) with (abs (store_ n)).
    rewrite <- (take_drop 100 (entries (abs (store_ n)))). apply elem_of_app. right.
    change (x ∈ entries (forget 100 (abs (store_ n)))). rewrite <- Hs, Hk. apply elem_of_app. by left.
Qed.

Lemma received_moves m : valid_message m → keeps (moves cfg) (on_store (W := W) (add m)).
Proof.
  intros Hv n Hn. destruct (vm_sequence _ Hv) as [Hm _]. destruct (add_runs m n Hn Hm) as (r & s' & E & Hdb & Hr).
  rewrite E. split; [done|]. split; [|by eapply add_caches; [..|intros; left]].
  change (chat_steps cfg (MkChat (node_log n) (next_sequence_ n)) (MkChat (abs s') (next_sequence_ n))).
  destruct r as [b|e|]; [|by eapply throw_steps|done]. destruct Hr as (_ & Hr & _).
  eapply add_steps; [exact Hr| |intros; apply rtc_refl]. intros. by eapply chat_received.
Qed.

#[export] Instance moves_frame : Frame J (moves (D := D) (W := W) cfg).
Proof.
  split; [split; [apply _|..]|..].
  - intros n w. by apply silent_moves, calls_world.
  - intros n e He. by apply silent_moves, calls_emit.
  - intros n l. by apply silent_moves, calls_requests.
  - intros i n. by apply silent_moves, calls_contains.
  - intros n. by apply silent_moves, calls_summary.
  - intros path payload n c r headers. by apply silent_moves, makes.
  - intros j m Hm. by apply received_moves, (parse_message_valid j).
Qed.
End chat.

(** ** The counter *)

Section counter.
Context `{JsonLaws J} `{SqliteLaws D} `{EnvLaws W} `{Unordered} (cfg : Config).
Implicit Types n : Node D W.

(** A step leaves the counter or takes one number. *)
Definition counts n n' : Prop :=
  next_sequence_ n' = next_sequence_ n ∨ next_sequence_ n' = u64 (next_sequence_ n + 1).

(** A run that ends moves as specified and takes at most one number. *)
Definition ends_well {A} (m : M (Node D W) A) n : Prop :=
  1 ≤ next_sequence_ n → (m n).1 ≠ Undefined → moves cfg n (m n).2 ∧ counts n (m n).2.

#[local] Instance counter_frame : Frame J (same (@next_sequence_ D W)).
Proof. by apply same_frame. Qed.

Lemma same_ends_well {A} (m : M (Node D W) A) n : keeps (moves cfg) m → keeps (same next_sequence_) m →
  ends_well m n.
Proof. intros Hd Hk _ _. split; [by apply Hd|left; apply Hk]. Qed.

(** First something that counts, then something that does not. *)
Lemma ends_well_bind {A B} (m : M (Node D W) A) (k : A → M (Node D W) B) n :
  ends_well m n → (∀ a, keeps (moves cfg) (k a)) → (∀ a, keeps (same next_sequence_) (k a)) →
  ends_well (m ≫= k) n.
Proof.
  intros Hm Hd Hk Hn. unfold mbind, M_bind. specialize (Hm Hn).
  destruct (m n) as [[a|e|] n1]; cbn in *; [|intros _; by apply Hm|done].
  destruct (Hm ltac:(done)) as [Hdb1 Hc]. intros _. split; [by etransitivity; [|apply Hd]|].
  specialize (Hk a n1). unfold counts, same in *. by rewrite Hk.
Qed.

(** What comes after a local message has its number. *)
Lemma numbered_moves now text n w : acceptable_body text → in_i64 now → 1 ≤ next_sequence_ n →
  let m := local_message cfg (next_sequence_ n) now text in
  moves cfg n ((on_store (add m);; publish J m;; replicate_local J cfg m;; mret m)
    (with_next_sequence (u64 (next_sequence_ n + 1)) (with_world w n))).2.
Proof.
  intros Ht Hnow Hn m Hdb. set (n1 := with_next_sequence _ _).
  destruct (add_runs m n1 Hdb Hn) as (r & s' & Hr & Hdb' & Hres). cbn in Hres.
  set (n2 := with_store s' n1).
  assert (caches cfg n n2) as Hcached.
  { apply (add_caches cfg m n1 r s' Hdb Hn Hr). intros b ->. destruct Hres as [Hmax _]. right. by eexists _, _, _. }
  assert (chat_steps cfg (node_chat n) (node_chat n2) ∧ r ≠ Undefined) as [Hs Hu].
  { change (node_chat n) with (MkChat (node_log n) (next_sequence_ n)).
    change (node_chat n2) with (MkChat (abs s') (u64 (next_sequence_ n + 1))).
    assert (∀ a, chat_steps cfg (MkChat a (next_sequence_ n)) (MkChat a (u64 (next_sequence_ n + 1)))) as Hlost
      by (intros; by apply rtc_once, chat_number_lost).
    destruct r as [b|e|]; [|split; [|done]|done].
    - destruct Hres as (Hmax & Hres & _). split; [|done]. eapply add_steps; [exact Hres| |exact Hlost].
      intros a a' Hput. eapply chat_written; [split; [exact Hn|exact Hmax]|exact Hnow|exact Ht|exact Hput].
    - etransitivity; [apply Hlost|by eapply throw_steps]. }
  assert (keeps silent (publish J m;; replicate_local J cfg m;; mret m)) as Hrest
    by (unfold replicate_local; solve_keeps).
  destruct r as [b|e|]; [rewrite (bind_run _ _ _ _ _ Hr)|rewrite (bind_throw _ _ _ _ _ Hr)|done].
  - destruct (Hrest n2 Hdb') as (Hdb2 & E & Hm). rewrite <- E in Hs. split; [exact Hdb2|]. split; [exact Hs|].
    intros x Hx. apply Hcached. rewrite <- Hm. exact Hx.
  - by split.
Qed.

Lemma create_local_ends_well text n : acceptable_body text → ends_well (create_local J cfg text) n.
Proof.
  intros Ht Hn Hu. split.
  - pose proof (current_time_run n) as Hnow. cbv zeta in Hnow. case_decide as Hin.
    + assert (∀ rest, create_local J cfg text n = rest → moves cfg n rest.2) as Hm; [intros rest|by eapply Hm].
      unfold create_local. rewrite (bind_run _ _ n (next_sequence_ n) n) by done.
      rewrite (bind_run _ _ _ _ _ Hnow). cbv zeta. set (n1 := with_world _ n).
      rewrite (bind_run _ _ n1 tt (with_next_sequence (u64 (next_sequence_ n + 1)) n1)) by done.
      intros <-. by apply numbered_moves.
    + destruct Hu. unfold create_local. rewrite (bind_run _ _ n (next_sequence_ n) n) by done.
      unfold mbind, M_bind. by rewrite Hnow.
  - destruct (create_local J cfg text n) as [r n'] eqn:E. right.
    by apply (create_local_numbers cfg text n r n' E).
Qed.

Lemma create_message_ends_well request n : ends_well (handle_create_message J cfg request) n.
Proof.
  intros Hn. destruct (create_message_cases_run (J := J) cfg request n)
    as [(status & reason & text & _ & ->)|[[_ ->]|(text & Ht & ->)]].
  - apply same_ends_well; [solve_keeps..|done].
  - intros _. split; [done|by left].
  - apply (ends_well_bind (create_local J cfg text)); [by apply create_local_ends_well| | |done]; intros m; cbv zeta;
      solve_keeps.
Qed.

Lemma process_request_ends_well request n : ends_well (process_request J cfg request) n.
Proof.
  unfold process_request.
  assert (∀ status reason text, ends_well (send_json request status reason text) n) as Hsend
    by (intros; apply same_ends_well; solve_keeps).
  destruct (empty _); [apply Hsend|]. destruct (find_route _ _ _ _) as [h|[|]]; [|apply Hsend..].
  destruct (decide (h = create_message)) as [->|Hh]; [apply create_message_ends_well|].
  apply same_ends_well; (apply kept_handler; [apply _..|done|intros _; by eapply kept_subscribe, _]).
Qed.

Lemma handle_request_ends_well request n : ends_well (handle_request J cfg request) n.
Proof.
  intros Hn. pose proof (process_request_ends_well request n Hn) as Hp.
  unfold handle_request, try_catch. destruct (process_request J cfg request n) as [[[]|e|] n1]; cbn in Hp |- *;
    [by intros _; apply Hp| |done].
  destruct (Hp ltac:(done)) as [Hdb1 Hc]. intros _.
  assert (∀ m : M (Node D W) unit, keeps (moves cfg) m → keeps (same next_sequence_) m →
    moves cfg n (m n1).2 ∧ counts n (m n1).2) as Hk.
  { intros m Hd Hs. split; [by etransitivity; [|apply Hd]|].
    specialize (Hs n1). unfold counts, same in *. by rewrite Hs. }
  destruct e; apply Hk; solve_keeps.
Qed.

(** Only requests write the log and the counter. *)
Lemma other_silent e : (∀ request, e ≠ HttpRequest request) → keeps silent (on_event J cfg e : M (Node D W) unit).
Proof.
  intros He. apply kept_other; [apply _..|exact He|intros request context _; eapply kept_completion; apply _|intros fuel|].
  - eapply kept_receive; [apply _|intros payload sender]. eapply kept_datagram; [apply _|..]; by intros ? ? ?.
  - eapply kept_announce; [apply _|]. by intros ? ? ?.
Qed.

#[local] Instance registry_frame : Frame J (keeps_valid (D := D) (W := W) cfg).
Proof.
  split; [split; [apply _|by intros n ? Hn|by intros n ? ? Hn|by intros n ? Hn|..]|by intros path payload n ? ? ? Hn|intros j m _];
    intros; apply same_valid; solve_keeps.
Qed.

Lemma event_registry e : keeps (keeps_valid cfg) (on_event J cfg e : M (Node D W) unit).
Proof.
  apply kept_event; [apply _..|intros text|intros fuel|by eapply kept_announce; [apply _|intros n b Hn]].
  - apply kept_create_local; [apply _..|by intros n q Hn|]. intros q now. apply same_valid. solve_keeps.
  - eapply kept_receive; [apply _|]. intros. apply handle_datagram_valid.
Qed.
End counter.

(** ** Every event *)

Section events.
Context `{JsonLaws J} `{SqliteLaws D} `{EnvLaws W} `{Unordered} (cfg : Config).
Implicit Types n : Node D W.

(** What holds between two events. *)
Record daemon_ok n : Prop := {
  do_db : db_ok (store_ n);
  do_registry : registry_valid cfg (peers_ n);
}.

(** One event, handled to its end. *)
Lemma event_moves e n : 1 ≤ next_sequence_ n → (on_event J cfg e n).1 ≠ Undefined → daemon_ok n →
  let n' := (on_event J cfg e n).2 in
  daemon_ok n' ∧ counts n n' ∧
  match e with
  | HttpRequest _ => chat_steps cfg (node_chat n) (node_chat n')
  | _ => node_chat n' = node_chat n
  end ∧ caches cfg n n'.
Proof.
  intros Hn Hu [Hdb Hreg] n'. pose proof (event_registry cfg e n Hreg : registry_valid cfg (peers_ n')) as Hreg'.
  assert ((∀ request, e ≠ HttpRequest request) →
    db_ok (store_ n') ∧ node_chat n' = node_chat n ∧ caches cfg n n') as Hother.
  { intros He. destruct (other_silent cfg e He n Hdb) as (? & ? & Hm). split_and!; [done..|].
    intros x Hx. left. by rewrite <- Hm. }
  assert (∀ c : chat, node_chat n' = c → next_sequence_ n' = chat_next c) as Hnext by by intros ? <-.
  destruct e as [request| | | | | | |];
    [|destruct Hother as (Hdb' & Hs & Hca); [done|];
      (split; [done|]; split; [left; exact (Hnext _ Hs)|exact (conj Hs Hca)])..].
  destruct (handle_request_ends_well cfg request n Hn Hu) as [Hm Hc]. by destruct (Hm Hdb) as (? & ? & ?).
Qed.

Lemma steps_moves k n n' : nsteps (step J cfg) k n n' → daemon_ok n → 1 ≤ next_sequence_ n →
  next_sequence_ n + Z.of_nat k ≤ u64_max →
  daemon_ok n' ∧ next_sequence_ n ≤ next_sequence_ n' ≤ next_sequence_ n + Z.of_nat k ∧
  chat_steps cfg (node_chat n) (node_chat n') ∧ caches cfg n n'.
Proof.
  intros Hs. induction Hs as [n|k n n1 n' [e He] _ IH]; intros Hok Hn Hmax;
    [split_and!; [done|lia|lia|apply rtc_refl|intros x; by left]|].
  destruct (event_moves e n Hn) as (Hok1 & Hc & Hm & Hca); [by rewrite He|done|]. rewrite He in Hok1, Hc, Hm, Hca.
  cbn in Hok1, Hc, Hm, Hca.
  assert (next_sequence_ n ≤ next_sequence_ n1 ≤ next_sequence_ n + 1) as Hn1.
  { destruct Hc as [-> | ->]; [lia|]. rewrite u64_small by (unfold_ints; lia). lia. }
  destruct IH as (Hok' & Hn' & Hsteps & Hca'); [exact Hok1|lia|lia|].
  assert (chat_steps cfg (node_chat n) (node_chat n1)) as Hstep by (destruct e; [exact Hm|rewrite Hm; apply rtc_refl..]).
  split_and!; [done|lia|lia|by etransitivity|by eapply caches_trans].
Qed.

(** *** The start *)

Lemma announce_no_throw n e n' : announce J cfg n ≠ (Throw e, n').
Proof. rewrite announce_run. by destruct (send_announce J cfg n) as [[[]|e'|] n1]. Qed.

Lemma try_log_no_throw {A} (m : M (Node D W) A) (k : exn → M (Node D W) A) n :
  (∀ e n, ∃ a n', k e n = (Ok a, n')) → ∀ e n', try_catch m k n ≠ (Throw e, n').
Proof.
  intros Hk e n'. unfold try_catch. destruct (m n) as [[a|e'|] n1]; [done| |done].
  by destruct (Hk e' n1) as (a & n2 & ->).
Qed.

Lemma event_no_throw ev n e n' : on_event J cfg ev n ≠ (Throw e, n').
Proof.
  destruct ev as [request|fuel| | |c|status c|request context|context]; cbn [on_event].
  - pose proof (handle_request_answers (J := J) cfg request n) as Ha.
    destruct (handle_request J cfg request n) as [r n1]. destruct Ha as [Ha _]. intros [= -> _]. by apply (Ha e).
  - unfold mbind, M_bind. destruct (receive_callback J cfg fuel n) as [[b|e'|] n1] eqn:E; [done| |done].
    exfalso. revert E. apply try_log_no_throw. intros e2 n2. by eexists _, _.
  - apply announce_no_throw.
  - apply try_log_no_throw. intros e2 n2. by eexists _, _.
  - unfold handle_close, gets, mbind, M_bind. by destruct (find_request _ _) as [[]|].
  - unfold replication_response. by case_bool_decide.
  - unfold summary_response_callback. unfold mbind at 1, M_bind at 1.
    destruct (try_catch _ _ n) as [[[]|e'|] n1] eqn:E; [done| |done].
    exfalso. revert E. apply try_log_no_throw. intros e2 n2. by eexists _, _.
  - done.
Qed.
End events.

(** ** The start of the daemon *)

Section start.
Context `{JsonLaws J} `{SqliteLaws D} `{EnvLaws W} `{Unordered} (cfg : Config).

Lemma next_sequence_runs o (n : Node D W) : db_ok (store_ n) →
  ∃ r s', on_store (next_sequence o) n = (r, with_store s' n) ∧ db_ok s' ∧
    match r with
    | Ok q => 1 ≤ q ≤ i64_max ∧ abs s' = abs (store_ n) ∧ messages_ s' = messages_ (store_ n) ∧
        (reliable_reads (D := D) → q = 1 + default 0 (lasts (abs (store_ n)) !! o))
    | Throw _ => True
    | Undefined => False
    end.
Proof.
  intros Hdb. rewrite on_store_run. destruct (next_sequence o (store_ n)) as [r s'] eqn:E. cbn.
  eapply (spec_run _ _ _ _ _ _ _ (next_sequence_spec (view (database (store_ n))) (messages_ (store_ n)) o
    (lo_range _ (db_log _ Hdb)))) in E; [|done].
  exists r, s'. split; [done|]. destruct r as [q|e|]; [|by split; [eapply view_silent|]|done].
  destruct E as (Hv & Hq & _ & Hrel). split; [by eapply view_silent|]. destruct Hv as [Hv Hm].
  split_and!; [lia|lia|unfold abs; by rewrite Hv|done|exact Hrel].
Qed.

Lemma application_ok path d w cfg' n :
  sqlite3_open_v2 path = (SQLITE_OK, Some d) → log_ok (abs_tables (current (view d))) →
  (Application J cfg path w).1 = Ok (cfg', n) →
  daemon_ok (D := D) (W := W) cfg' n ∧ 1 ≤ next_sequence_ n ≤ i64_max ∧ identity_ cfg' = identity_ cfg ∧
  abs (store_ n) = abs_tables (current (view d)) ∧ cache_ok (store_ n) ∧
  (reliable_reads (D := D) → next_sequence_ n =
    1 + default 0 (t_sequences (current (view d)) !! id_node_id (identity_ cfg))).
Proof.
  intros Hd Hlog Ha. unfold Application in Ha.
  destruct (setup_ok w EventBaseNew) as [[] w0]; [|done]. cbn [negb] in Ha.
  destruct (MessageStore.MessageStore path max_database_bytes) as [s|e|] eqn:Es; [|done|done].
  apply construct_ok in Es as (d' & Hd' & Hok). assert (d' = d) as -> by congruence.
  destruct (Hok Hlog) as [[Hdb Hcache] Habs]. cbv zeta in Ha.
  set (c := with_local_address _ cfg) in Ha. set (n0 := MkNode s ∅ 0 false [] 0 _ w0 _) in Ha.
  destruct (try_catch (services J c) (λ e, destroy_members;; throw e) n0) as [[[]|e|] n1] eqn:E; [|done|done].
  injection Ha as <- <-. apply catch_rethrow_Ok in E.
  unfold services in E. apply bind_Ok in E as (? & n2 & E1 & E2).
  assert (keeps (same (λ n : Node D W, (store_ n, peers_ n))) (DiscoveryService J c)) as Hk2
    by (unfold DiscoveryService, close_resources, announce, send_announce, announcement_json, set_announce_failed, log;
      solve_keeps).
  specialize (Hk2 n0). rewrite E1 in Hk2. injection Hk2 as Hs2 Hp2.
  apply bind_Ok in E2 as (? & n3 & E2 & E3).
  assert (keeps (same (λ n : Node D W, (store_ n, peers_ n))) SyncService) as Hk3
    by (unfold SyncService; solve_keeps).
  specialize (Hk3 n2). rewrite E2 in Hk3. injection Hk3 as Hs3 Hp3.
  apply bind_Ok in E3 as (? & n4 & E3 & E4).
  assert (keeps (same (λ n : Node D W, (store_ n, peers_ n, next_sequence_ n))) (HttpApi c)) as Hk4
    by (unfold HttpApi; solve_keeps).
  specialize (Hk4 n4). rewrite E4 in Hk4. injection Hk4 as Hs4 Hp4 Hn4.
  unfold MessageService in E3. apply bind_Ok in E3 as (q & n5 & Hq & Hset).
  destruct (next_sequence_runs (id_node_id (identity_ c)) n3) as (r & s' & Hr & Hs' & Hrange).
  { by rewrite Hs3, Hs2. }
  rewrite Hr in Hq. destruct r as [q'|e|]; [|done|done].
  destruct Hrange as (Hrange & Habs' & Hm' & Hrel). rewrite Hs3, Hs2 in Habs', Hm', Hrel.
  unfold set_next_sequence, modify in Hset. injection Hq as -> <-. injection Hset as _ <-. cbn in *.
  rewrite Hs4, Hn4. split; [split; rewrite ?Hs4, ?Hp4, ?Hp3, ?Hp2; [done|apply map_Forall_empty]|].
  split_and!; [lia|lia|done|by rewrite Habs'| |].
  - unfold cache_ok. rewrite Hm', Habs'. exact Hcache.
  - intros Hreads. rewrite (Hrel Hreads). apply (f_equal lasts) in Habs. cbn in Habs.
    by rewrite Habs.
Qed.
End start.

(** ** Properties *)

Section properties.
Context `{JsonLaws J} `{SqliteLaws D} `{EnvLaws W} `{Unordered} (cfg : Config).

(** C2: the invariant of the running daemon.  From a database whose contents are
    in order, the application starts, and after any number of events up to 2^62,
    in any order and with any answers of SQLite, the network and the clock: no
    transaction is open, the stored messages do not clash and are below the last
    sequences of their origins, every peer in the registry is another node with a
    usable port under its own id, and the number of the next message is at least
    1 and never decreased. *)
Theorem daemon_invariant path d w cfg' n0 k n :
  sqlite3_open_v2 path = (SQLITE_OK, Some d) → log_ok (abs_tables (current (view d))) →
  (Application J cfg path w).1 = Ok (cfg', n0) →
  nsteps (step (D := D) (W := W) J cfg') k n0 n → Z.of_nat k ≤ 2 ^ 62 →
  db_ok (store_ n) ∧ registry_valid cfg (peers_ n) ∧
  1 ≤ next_sequence_ n0 ≤ next_sequence_ n ∧ next_sequence_ n ≤ u64_max.
Proof.
  intros Hd Hlog Ha Hs Hk. destruct (application_ok cfg path d w cfg' n0 Hd Hlog Ha) as (Hok & Hq & Hid & _).
  destruct (steps_moves cfg' k n0 n Hs Hok) as ([Hdb Hreg] & Hn & _); [lia|unfold_ints; lia|].
  split_and!; [done| |lia|lia|unfold_ints; lia].
  intros key p Hp. destruct (Hreg key p Hp) as [? ? Ho ?]. split; try done. by rewrite <- Hid.
Qed.

(** C3: the daemon refines the chat of Specification.v.  From a database whose
    contents are in order, the log and the counter of a running daemon have only
    moved by the steps of the specification: valid messages of others taken,
    messages written here under the next number, numbers lost, the oldest
    forgotten.  An HTTP request makes such steps; no other event touches log or
    counter.  So no last sequence ever goes down, and every stored message was
    there at the start, was valid on arrival or was written here. *)
Theorem daemon_refines_chat path d w cfg' n0 k n e n' :
  sqlite3_open_v2 path = (SQLITE_OK, Some d) → log_ok (abs_tables (current (view d))) →
  (Application J cfg path w).1 = Ok (cfg', n0) →
  nsteps (step (D := D) (W := W) J cfg') k n0 n → Z.of_nat k < 2 ^ 62 → on_event J cfg' e n = (Ok tt, n') →
  let start := MkChat (abs_tables (current (view d))) (next_sequence_ n0) in
  chat_steps cfg' start (node_chat n) ∧
  match e with
  | HttpRequest _ => chat_steps cfg' (node_chat n) (node_chat n')
  | _ => node_chat n' = node_chat n
  end ∧
  lasts_le (chat_log start) (node_log n') ∧
  (Forall (admissible cfg') (entries (chat_log start)) → Forall (admissible cfg') (entries (node_log n'))).
Proof.
  intros Hd Hlog Ha Hs Hk He start.
  destruct (application_ok cfg path d w cfg' n0 Hd Hlog Ha) as (Hok & Hq & _ & Habs & _).
  destruct (steps_moves cfg' k n0 n Hs Hok) as (Hok1 & Hn & Hsteps & _); [lia|unfold_ints; lia|].
  destruct (event_moves cfg' e n) as (_ & _ & Hm & _); [lia|by rewrite He|done|]. rewrite He in Hm. cbn [snd] in Hm.
  assert (node_chat n0 = start) as Hstart by (unfold node_chat, node_log, start; by rewrite Habs).
  rewrite Hstart in Hsteps. assert (chat_steps cfg' start (node_chat n')) as Hall.
  { etransitivity; [exact Hsteps|]. destruct e; [exact Hm|rewrite Hm; apply rtc_refl..]. }
  split_and!; [exact Hsteps|exact Hm|exact (chat_steps_lasts _ _ _ Hall)|exact (chat_steps_entries _ _ _ Hall)].
Qed.

(** C24: a restart resumes where the last run stopped.  From a database whose
    contents are in order, with queries that do not fail, a daemon that starts
    shows exactly the stored messages, in storage order, and gives its next
    message the number after the last one recorded for its own id. *)
Theorem restart_resumes path d w cfg' n :
  sqlite3_open_v2 path = (SQLITE_OK, Some d) → log_ok (abs_tables (current (view d))) →
  reliable_reads (D := D) → (Application (W := W) J cfg path w).1 = Ok (cfg', n) →
  messages_ (store_ n) = (t_messages (current (view d))).*2 ∧
  next_sequence_ n = 1 + default 0 (t_sequences (current (view d)) !! id_node_id (identity_ cfg)) ∧
  Forall (λ m, origin m = id_node_id (identity_ cfg) → sequence m < next_sequence_ n) (messages_ (store_ n)).
Proof.
  intros Hd Hlog Hrel Ha. destruct (application_ok cfg path d w cfg' n Hd Hlog Ha)
    as (_ & _ & _ & Habs & Hcache & Hnext). specialize (Hnext Hrel).
  unfold cache_ok in Hcache. rewrite Habs in Hcache. split; [exact Hcache|]. split; [exact Hnext|].
  rewrite Hcache, Hnext. eapply Forall_impl; [apply (lo_last _ Hlog)|].
  intros m (last & Hl & Hle) Ho. cbn in Hl. rewrite Ho in Hl. rewrite Hl. cbn. lia.
Qed.

(** C36: a peer can keep a node from starting again.  A valid message under the
    node's own id with the sequence 2^63-1 is taken by ingest_sync like any other;
    afterwards no daemon with that id starts on that database, as its next number
    would not fit, as long as queries do not fail. *)
Theorem forged_sequence_blocks_restart m (n n' : Node D W) path d w cfg' n0 :
  db_ok (store_ n) → valid_message m → origin m = id_node_id (identity_ cfg) → sequence m = i64_max →
  ingest_sync J m n = (Ok true, n') →
  sqlite3_open_v2 path = (SQLITE_OK, Some d) → current (view d) = current (view (database (store_ n'))) →
  reliable_reads (D := D) → (Application (W := W) J cfg path w).1 ≠ Ok (cfg', n0).
Proof.
  intros Hdb Hv Ho Hseq Hing Hd Hcur Hrel Ha.
  destruct (ingest_sync_runs m n Hdb Hv) as (r & s' & l & Hr & Hdb' & Hres). rewrite Hing in Hr.
  injection Hr as <- ->. destruct Hres as [Hadd _]. cbn in Hcur.
  assert (abs_tables (current (view d)) = abs s') as Habs by (unfold abs; by rewrite Hcur).
  destruct (application_ok cfg path d w cfg' n0 Hd ltac:(rewrite Habs; apply (db_log _ Hdb')) Ha)
    as (_ & Hrange & _ & _ & _ & Hnext).
  rewrite (Hnext Hrel) in Hrange. change (t_sequences (current (view d))) with (lasts (abs_tables (current (view d)))) in Hrange.
  rewrite Habs, <- Ho in Hrange. apply add_result_last in Hadd. rewrite Hseq in Hadd. lia.
Qed.

(** C29: no exception leaves an event handler: libevent's C code is never
    unwound and the noexcept callbacks never terminate the daemon. *)
Theorem no_exception_escapes ev (n : Node D W) e n' : on_event J cfg ev n ≠ (Throw e, n').
Proof. apply event_no_throw. Qed.
End properties.

(** ** Witness *)

Definition start_world : reliable := Reliable quiet_world.
Definition started : Config * Node mdb reliable :=
  match (Application jtree plain_config "les-chat-node-a.db" start_world).1 with
  | Ok p => p
  | _ => (plain_config, service_node store0)
  end.
Definition after_post : Node mdb reliable :=
  (on_event jtree started.1 (HttpRequest hello_request) started.2).2.

Lemma daemon_invariant_witness :
  length (entries (node_log after_post)) = 1%nat ∧ next_sequence_ after_post = 2 ∧
  db_ok (store_ after_post) ∧ registry_valid plain_config (peers_ after_post).
Proof.
  split; [by vm_compute|]. split; [by vm_compute|].
  destruct (daemon_invariant (J := jtree) plain_config "les-chat-node-a.db" (fresh_db 1000) start_world
    started.1 started.2 1 after_post) as (Hdb & Hreg & _).
  - by vm_compute.
  - apply empty_log_ok.
  - by vm_compute.
  - apply nsteps_once. exists (HttpRequest hello_request). by vm_compute.
  - lia.
  - split; [exact Hdb|exact Hreg].
Defined.

Lemma daemon_refines_chat_witness :
  length (entries (node_log after_post)) = 1%nat ∧
  chat_steps started.1 (node_chat started.2) (node_chat after_post) ∧
  Forall (admissible started.1) (entries (node_log after_post)).
Proof.
  destruct (daemon_refines_chat (J := jtree) plain_config "les-chat-node-a.db" (fresh_db 1000) start_world
    started.1 started.2 0 started.2 (HttpRequest hello_request) after_post) as (_ & Hm & _ & Ha).
  - by vm_compute.
  - apply empty_log_ok.
  - by vm_compute.
  - constructor.
  - done.
  - by vm_compute.
  - split; [by vm_compute|]. split; [exact Hm|]. apply Ha. constructor.
Defined.

Lemma no_exception_escapes_witness :
  on_event jtree started.1 SyncTimer started.2 ≠ (Throw DatabaseFull, started.2).
Proof. exact (no_exception_escapes (J := jtree) started.1 SyncTimer started.2 DatabaseFull started.2). Defined.

Lemma one_message_log_ok q : 1 ≤ q ≤ i64_max → log_ok (abs_tables (one_message q)).
Proof.
  intros Hq. split; cbn.
  - by constructor.
  - intros i j m1 m2 Hi Hj Hij. apply list_lookup_singleton_Some in Hi as [-> _], Hj as [-> _]. done.
  - constructor; [|constructor]. exists q. rewrite lookup_insert_eq. by split.
  - apply map_Forall_insert_2; [done|apply map_Forall_empty].
Qed.

(** A daemon started on the database of 41 messages. *)
Definition resumed : Config * Node mdb reliable :=
  match (Application jtree plain_config "used.db" start_world).1 with
  | Ok p => p
  | _ => (plain_config, service_node store0)
  end.

Lemma restart_resumes_witness :
  messages_ (store_ resumed.2) = [written 41] ∧ next_sequence_ resumed.2 = 42.
Proof.
  destruct (restart_resumes (J := jtree) plain_config "used.db" (m_disk "used.db") start_world
    resumed.1 resumed.2) as (Hm & Hn & _).
  - done.
  - apply one_message_log_ok. by unfold_ints.
  - apply mdb_reads.
  - by vm_compute.
  - split; [exact Hm|exact Hn].
Defined.

Lemma forged_sequence_blocks_restart_witness :
  (ingest_sync jtree (written i64_max) (service_node store0)).1 = Ok true ∧
  ∀ cfg' n0, (Application (D := mdb) (W := reliable) jtree plain_config "forged.db" start_world).1 ≠ Ok (cfg', n0).
Proof.
  split; [by vm_compute|]. intros cfg' n0.
  apply (forged_sequence_blocks_restart (J := jtree) plain_config (written i64_max) (service_node store0)
    (ingest_sync jtree (written i64_max) (service_node store0)).2 "forged.db" (m_disk "forged.db")).
  - apply store0_ok.
  - apply acceptable_valid; [by unfold_ints|by unfold_ints|by vm_compute].
  - done.
  - done.
  - by vm_compute.
  - done.
  - by vm_compute.
  - apply mdb_reads.
Defined.
