(* ===== verification/Typing.v ===== *)
(** * What a node holds is well formed

    The counter is an unsigned 64-bit integer, the clock offset a signed one, the
    port and the time of a peer of 16 and 64 bits: every event keeps this so
    ([fields_typed]), whatever a datagram, a request or the clock gives.  With the
    invariant and the refinement of Application.v, every message and every peer a
    running daemon holds is one its checks accept. *)

From S2P Require Import Prelude Cxx Protocol Utf8 Json ModelJson MessageCodec Sqlite ModelDb MessageStore.
From S2P Require Import StoreProperties Env Node Ledger Clock PeerRegistry Discovery DiscoveryProperties.
From S2P Require Import EventStream Replication MessageService Http HttpApi HttpApiProperties Specification.
From S2P Require Import Sync SyncProperties Main Daemon Frame Application.
Open Scope Z_scope.

(** uint16_t http_port, int64_t last_seen_ms *)
Definition peer_typed (p : Peer) : Prop :=
  0 ≤ peer_http_port p ≤ u16_max ∧ in_i64 (peer_last_seen_ms p).

(** The fields no request, reply or database writes. *)
Record fields_typed {D W} (n : Node D W) : Prop := {
  ft_offset : in_i64 (time_offset_ms n);
  ft_next : in_u64 (next_sequence_ n);
  ft_peers : map_Forall (λ _, peer_typed) (peers_ n);
}.

Definition keeps_typed {D W} (n n' : Node D W) : Prop := fields_typed n → fields_typed n'.

Section fields.
Context `{JsonC J} `{Sqlite D} `{Env W} `{Unordered} (cfg : Config).
Implicit Types n : Node D W.

#[export] Instance keeps_typed_preorder : PreOrder (keeps_typed (D := D) (W := W)).
Proof. split; [by intros n Hn|]. intros n1 n2 n3 H12 H23 Hn. by apply H23, H12. Qed.

Lemma same_typed {A} (m : M (Node D W) A) :
  keeps (same (λ n, (time_offset_ms n, next_sequence_ n, peers_ n))) m → keeps keeps_typed m.
Proof.
  intros Hm n [Ho Hn Hp]. specialize (Hm n). injection Hm as E1 E2 E3. split; by rewrite ?E1, ?E2, ?E3.
Qed.

#[export] Instance typed_frame : Frame J (keeps_typed (D := D) (W := W)).
Proof.
  split; [split; [apply _|..]|intros path payload n c r headers; by intros []|intros j m _]; intros.
  - by intros [].
  - by intros [].
  - by intros [].
  - apply same_typed; solve_keeps.
  - apply same_typed; solve_keeps.
  - apply same_typed; solve_keeps.
Qed.

(** A computation whose value is a signed 64-bit integer. *)
Definition gives_i64 (m : M (Node D W) Z) : Prop := ∀ n z n', m n = (Ok z, n') → in_i64 z.

Lemma checked_i64 z : gives_i64 (i64_checked z).
Proof. intros n r n' Hr. by apply i64_checked_inv in Hr as (-> & _ & ?). Qed.

Lemma current_time_i64 : gives_i64 current_time_ms.
Proof.
  intros n z n'. unfold current_time_ms. intros (now & n1 & _ & Hr)%bind_Ok.
  apply bind_Ok in Hr as (offset & n2 & _ & Hr). by apply (checked_i64 (now + offset) n2 z n').
Qed.

Lemma keeps_bind_i64 {A} (m : M (Node D W) Z) (k : Z → M (Node D W) A) :
  keeps keeps_typed m → gives_i64 m → (∀ z, in_i64 z → keeps keeps_typed (k z)) → keeps keeps_typed (m ≫= k).
Proof.
  intros Hm Hg Hk n. specialize (Hm n). specialize (Hg n). unfold mbind, M_bind.
  destruct (m n) as [[z|e|] n1]; [|done|done]. etransitivity; [exact Hm|]. by apply Hk, (Hg z n1).
Qed.

Lemma set_offset_typed o : in_i64 o → keeps keeps_typed (set_time_offset_ms (D := D) (W := W) o).
Proof. intros Ho n []. by split. Qed.

Lemma set_system_time_typed t : keeps keeps_typed (set_system_time_ms (D := D) (W := W) t).
Proof. unfold set_system_time_ms. solve_keeps. by apply set_offset_typed. Qed.

Lemma update_typed p : peer_typed p → keeps keeps_typed (update (D := D) (W := W) p).
Proof. intros Hp n []. split; [done|done|]. by apply map_Forall_insert_2. Qed.

Lemma synchronize_typed id t : keeps keeps_typed (synchronize_time (D := D) (W := W) id t).
Proof.
  unfold synchronize_time, current_time_offset_ms. destruct (_ <=? _); [solve_keeps|].
  apply keeps_bind; [apply _|solve_keeps|intros system].
  apply keeps_bind_i64; [solve_keeps|apply checked_i64|intros measured Hm].
  solve_keeps; [apply set_system_time_typed|by apply set_offset_typed].
Qed.

Lemma datagram_typed payload sender : keeps keeps_typed (handle_datagram (D := D) (W := W) J cfg payload sender).
Proof.
  unfold handle_datagram. destruct (_ <? _); [solve_keeps|].
  apply keeps_bind; [apply _|solve_keeps|intros parsed]. destruct (_ || _); [solve_keeps|].
  destruct (decode_announcement _ _) as [[[[id c] v] port]|]; [|solve_keeps].
  destruct (_ || _); [solve_keeps|]. destruct (time_claim _ _) as [claim|]; [|solve_keeps].
  apply keeps_bind; [apply _|solve_keeps; apply synchronize_typed|intros _].
  destruct (inet_ntop sender) as [a|]; [|solve_keeps].
  apply keeps_bind_i64; [solve_keeps|apply current_time_i64|intros now Hnow].
  apply update_typed. split; [|done]. cbn. unfold u16. unfold_ints.
  pose proof (Z.mod_pos_bound port 65536). lia.
Qed.

Lemma event_typed e : keeps keeps_typed (on_event (D := D) (W := W) J cfg e).
Proof.
  apply kept_event; [apply _..|intros text|intros fuel|].
  - apply kept_create_local; [apply _..| |intros; apply same_typed; solve_keeps].
    intros n q []. split; [done| |done]. cbn. unfold u64. unfold_ints.
    pose proof (Z.mod_pos_bound q 18446744073709551616). lia.
  - eapply kept_receive; [apply _|]. intros. apply datagram_typed.
  - eapply kept_announce; [apply _|]. by intros n b [].
Qed.
End fields.

(** ** Properties *)

Section properties.
Context `{JsonLaws J} `{SqliteLaws D} `{EnvLaws W} `{Unordered} (cfg : Config).

(** What the constructor leaves. *)
Lemma application_fields path w cfg' (n : Node D W) : (Application J cfg path w).1 = Ok (cfg', n) →
  in_u64 (next_sequence_ n) → fields_typed n.
Proof.
  unfold Application. destruct (setup_ok w EventBaseNew) as [[] w0]; [|done]. cbn [negb].
  destruct (MessageStore.MessageStore path max_database_bytes) as [s|e|]; [|done..]. cbv zeta.
  set (c := with_local_address _ cfg). set (n0 := MkNode s ∅ 0 false [] 0 _ w0 _).
  assert (keeps (same (λ n : Node D W, (time_offset_ms n, peers_ n))) (services J c)) as Hs.
  { unfold services, DiscoveryService, close_resources, announce, send_announce, announcement_json,
      set_announce_failed, log, SyncService, MessageService, set_next_sequence, HttpApi. solve_keeps. }
  specialize (Hs n0). destruct (try_catch _ _ n0) as [[[]|e|] n1] eqn:E; [|done..].
  apply catch_rethrow_Ok in E. rewrite E in Hs. injection Hs as Ho Hp. intros [= <- <-] Hn.
  split; [by rewrite Ho|done|rewrite Hp; apply map_Forall_empty].
Qed.

(** A message the chat may take at a node whose identity passed the command line is
    valid. *)
Lemma admissible_valid c m : usable c → admissible c m → valid_message m.
Proof. intros Hus [?|(q & now & text & -> & ? & ? & ?)]; [done|]. by apply usable_message. Qed.

(** C17: what a running daemon holds is well formed.  At a node whose identity passed
    the command line, from a database in order whose messages are valid, after any
    number of events up to 2^62, whatever was announced, posted or read: every
    message in the log, and every message in the cached list that GET
    /api/v1/messages shows and synchronisation sends, is one parse_message would
    accept, with a number in 1 .. 2^63-1, an id of 1 .. 160 bytes, an origin and
    a callsign of 1 .. 64, the default channel, a 64-bit time and a body of 1 .. 2048
    bytes of valid UTF-8; every peer in the registry is filed under its own id, which
    is not this node's, with a port in 1 .. 65535; and the clock offset, the times of the
    peers and the counter fit their C++ types. *)
Theorem daemon_well_formed path d w cfg' n0 k n : usable cfg →
  sqlite3_open_v2 path = (SQLITE_OK, Some d) → log_ok (abs_tables (current (view d))) →
  Forall valid_message (entries (abs_tables (current (view d)))) →
  (Application J cfg path w).1 = Ok (cfg', n0) →
  nsteps (step (D := D) (W := W) J cfg') k n0 n → Z.of_nat k ≤ 2 ^ 62 →
  Forall valid_message (entries (node_log n)) ∧ Forall valid_message (messages_ (store_ n)) ∧
  map_Forall (λ id p, peer_ok cfg id p ∧ in_i64 (peer_last_seen_ms p)) (peers_ n) ∧
  in_i64 (time_offset_ms n) ∧ in_u64 (next_sequence_ n).
Proof.
  intros Hus Hd Hlog Hvalid Ha Hs Hk.
  destruct (application_ok cfg path d w cfg' n0 Hd Hlog Ha) as (Hok & Hq & Hid & Habs & Hcache & _).
  assert (usable cfg') as Hus' by (destruct Hus; by split; rewrite Hid).
  assert (fields_typed n0) as Hf by (apply (application_fields path w cfg'); [done|unfold_ints; lia]).
  destruct (steps_moves cfg' k n0 n Hs Hok) as ([_ Hreg] & _ & Hsteps & Hca); [lia|unfold_ints; lia|].
  assert (fields_typed n) as [Ho Hn Hp].
  { clear -Hs Hf H H1 H3 H5. induction Hs as [n|k n n1 n' [e He] _ IH]; [done|].
    apply IH. pose proof (event_typed cfg' e n Hf) as Ht. by rewrite He in Ht. }
  assert (Forall valid_message (entries (node_log n0))) as Hlog0 by (unfold node_log; by rewrite Habs).
  rewrite Forall_forall in Hlog0. split_and!; [..|done|done].
  - apply Forall_forall. intros m [Hm|Hm]%(chat_steps_from cfg' _ _ Hsteps); [by apply Hlog0|by eapply admissible_valid].
  - apply Forall_forall. intros m [Hm|[Hm|Hm]]%Hca; [|by apply Hlog0|by eapply admissible_valid].
    apply Hlog0. unfold cache_ok in Hcache. unfold node_log. by rewrite <- Hcache.
  - intros id p Hip. split; [|by apply (Hp id p Hip)].
    destruct (Hreg id p Hip) as [? ? Hother ?]. split; try done. by rewrite <- Hid.
Qed.
End properties.

(** ** Witness *)

Lemma daemon_well_formed_witness :
  length (messages_ (store_ after_post)) = 1%nat ∧
  Forall valid_message (entries (node_log after_post)) ∧ Forall valid_message (messages_ (store_ after_post)).
Proof.
  split; [by vm_compute|].
  destruct (daemon_well_formed (J := jtree) plain_config "les-chat-node-a.db" (fresh_db 1000) start_world
    started.1 started.2 1 after_post) as (Hlog & Hcache & _); [..|by split].
  - split; [by vm_compute|done|by vm_compute].
  - by vm_compute.
  - apply empty_log_ok.
  - constructor.
  - by vm_compute.
  - apply nsteps_once. exists (HttpRequest hello_request). by vm_compute.
  - lia.
Defined.
