(* ===== verification/Lifecycle.v ===== *)
(** * What the daemon holds

    The daemon takes its handles (the event base, the database, the socket, the
    events, the HTTP server) one after the other, each while those it rests on
    are held, uses them only in between, and gives every one back, whether a
    constructor throws, the event loop fails or it ends.  The database can be
    closed because no statement is left open. *)

From S2P Require Import Prelude Cxx Protocol Json ModelJson MessageCodec Sqlite ModelDb MessageStore.
From S2P Require Import Env Node Clock PeerRegistry Discovery DiscoveryProperties EventStream.
From S2P Require Import Replication MessageService Http HttpApi HttpApiProperties Sync Main Daemon Frame.
From S2P Require Import Statements Application.
Open Scope Z_scope.

(** ** The discipline *)

(** What a handle rests on: an event is registered with the base, the receive
    event watches the socket, the server listens through the base. *)
Definition under (h : handle) : list handle :=
  match h with
  | EventBase | Database | DiscoverySocket => []
  | ReceiveEvent => [EventBase; DiscoverySocket]
  | AnnounceEvent | SyncTimerEvent | HttpServer => [EventBase]
  end.

(** What an effect needs: replies and streams the server, announcements the
    socket, outgoing requests the base.  A request that is freed may be of
    either kind: what is incoming is freed after its close callback is gone. *)
Definition needs (e : effect) : list handle :=
  match e with
  | Log _ | Print _ | Acquired _ | Released _ => []
  | SendDatagram _ _ _ _ => [DiscoverySocket]
  | Reply _ _ _ _ _ | SendError _ | SetCloseCallback _ _ | OwnRequest _ | StartStream _ _ | Chunk _ _ =>
      [HttpServer]
  | OpenConnection _ _ _ | SetLocalAddress _ _ | NewRequest _ | MakeRequest _ _ _ _ _
  | RefusedRequest _ _ | FreeRequest _ | FreeConnection _ => [EventBase]
  | NewContext _ | DeleteContext _ => []
  end.

Definition all_in (l held : list handle) : bool := forallb (λ h, bool_decide (h ∈ held)) l.

(** What is held after an effect; [None] for a handle taken twice, given back
    twice or without being held, given back under another that rests on it, or
    used while it is not held. *)
Definition hold (held : list handle) (e : effect) : option (list handle) :=
  match e with
  | Acquired h =>
      if negb (bool_decide (h ∈ held)) && all_in (under h) held then Some (held ++ [h]) else None
  | Released h =>
      if bool_decide (h ∈ held) && negb (existsb (λ x, bool_decide (h ∈ under x)) held)
      then Some (filter (λ x, x ≠ h) held) else None
  | _ => if all_in (needs e) held then Some held else None
  end.

Fixpoint lifecycle (held : list handle) (l : list effect) : option (list handle) :=
  match l with
  | [] => Some held
  | e :: l' => held' ← hold held e; lifecycle held' l'
  end.

Lemma lifecycle_app held l1 l2 :
  lifecycle held (l1 ++ l2) = held' ← lifecycle held l1; lifecycle held' l2.
Proof.
  revert held. induction l1 as [|e l1 IH]; intros held; [done|]. cbn.
  destruct (hold held e) as [held'|]; [apply IH|done].
Qed.

Lemma lifecycle_snoc l held e : lifecycle [] l = Some held → lifecycle [] (l ++ [e]) = hold held e.
Proof. intros Hl. rewrite lifecycle_app, Hl. cbn. by destruct (hold held e). Qed.

(** Effects that use what is held. *)
Definition fits (held : list handle) (e : effect) : Prop := takes_nothing e = true ∧ all_in (needs e) held = true.

Lemma hold_fits held e : fits held e → hold held e = Some held.
Proof. intros [Ho Hn]. destruct e; try done; unfold hold; by rewrite Hn. Qed.

Lemma lifecycle_fits held l : Forall (fits held) l → lifecycle held l = Some held.
Proof. induction 1 as [|e l He _ IH]; [done|]. cbn. by rewrite hold_fits. Qed.

(** ** The states of the daemon *)

Section holding.
Context `{SqliteStatements D} {W : Type}.
Implicit Types n : Node D W.

(** The trace so far is in order and leaves [held], which is what the members
    say; [streams] tells whether event streams may be open; no statement is. *)
Record holding (streams : bool) (held : list handle) n : Prop := {
  ho_members : handles_ n = held;
  ho_trace : lifecycle [] (trace n) = Some held;
  ho_streams : streams = false → requests_ n = [];
  ho_opened : opened (store_ n) = 0%nat;
}.

(** Something was done with what [held] has, and nothing taken or given back. *)
Record acts (streams : bool) (held : list handle) n n' : Prop := {
  ac_members : handles_ n' = handles_ n;
  ac_trace : ∃ l, trace n' = trace n ++ l ∧ Forall (fits held) l;
  ac_streams : streams = false → requests_ n' = requests_ n;
  ac_opened : opened (store_ n') = opened (store_ n);
}.

#[export] Instance acts_preorder streams held : PreOrder (acts streams held).
Proof.
  split.
  - intros n. split; [done| |done..]. exists []. by rewrite app_nil_r.
  - intros n1 n2 n3 [Hm (l1 & Ht1 & Hl1) Hs1 Ho1] [Hm' (l2 & Ht2 & Hl2) Hs2 Ho2]. split; [congruence| | |congruence].
    + exists (l1 ++ l2). rewrite Ht2, Ht1, <- app_assoc. split; [done|by apply Forall_app].
    + intros Hs. by rewrite Hs2, Hs1.
Qed.

Lemma acts_holding streams held n n' : acts streams held n n' → holding streams held n → holding streams held n'.
Proof.
  intros [Hm (l & Ht & Hl) Hs Ho] [Hm' Ht' Hs' Ho']. split; [congruence| |intros E; rewrite Hs; auto|congruence].
  rewrite Ht, lifecycle_app, Ht'. by apply lifecycle_fits.
Qed.

Lemma acts_emit streams held e : fits held e → keeps (acts streams held) (emit (D := D) (W := W) e).
Proof. intros He n. split; [done| |done..]. exists [e]. split; [done|by constructor]. Qed.

(** What does not write members, streams, the trace or the store. *)
Lemma same_acts {A} streams held (m : M (Node D W) A) :
  keeps (same (λ n, (handles_ n, requests_ n, trace n, store_ n))) m → keeps (acts streams held) m.
Proof.
  intros Hm n. specialize (Hm n). injection Hm as Hh Hr Ht Hs. split; [done| |done|by rewrite Hs].
  exists []. by rewrite app_nil_r.
Qed.

(** The methods of the store. *)
Lemma store_acts {A} streams held (m : M (Store D) A) :
  keeps (same opened) m → keeps (acts streams held) (on_store (W := W) m).
Proof.
  intros Hm n. specialize (Hm (store_ n)). unfold same in Hm. rewrite on_store_run.
  destruct (m (store_ n)) as [r s]. split; [done| |done|done]. exists []. by rewrite app_nil_r.
Qed.

(** ** Triples

    [Q] after a return, [E] after a throw; undefined behaviour ends the program
    and its trace. *)
Definition runs {A} (P : Node D W → Prop) (m : M (Node D W) A) (Q : A → Node D W → Prop) (E : Node D W → Prop) : Prop :=
  ∀ n, P n → match m n with
             | (Ok a, n') => Q a n'
             | (Throw _, n') => E n'
             | (Undefined, _) => True
             end.

Lemma runs_ret {A} (a : A) (P : Node D W → Prop) (Q : A → Node D W → Prop) E :
  (∀ n, P n → Q a n) → runs P (mret a) Q E.
Proof. intros Ha n Hn. by apply Ha. Qed.
Lemma runs_throw {A} e (P : Node D W → Prop) (Q : A → Node D W → Prop) (E : Node D W → Prop) :
  (∀ n, P n → E n) → runs P (throw e) Q E.
Proof. intros Ha n Hn. by apply Ha. Qed.
Lemma runs_bind {A B} (m : M (Node D W) A) (k : A → M (Node D W) B) P Q R E :
  runs P m Q E → (∀ a, runs (Q a) (k a) R E) → runs P (m ≫= k) R E.
Proof.
  intros Hm Hk n Hn. specialize (Hm n Hn). unfold mbind, M_bind.
  destruct (m n) as [[a|e|] n1]; [by apply Hk|done|done].
Qed.
Lemma runs_bind_ret {A B} (a : A) (k : A → M (Node D W) B) P R E :
  runs P (k a) R E → runs P (mret a ≫= k) R E.
Proof. done. Qed.
Lemma runs_try {A} (m : M (Node D W) A) h P Q E F :
  runs P m Q F → (∀ e, runs F (h e) Q E) → runs P (try_catch m h) Q E.
Proof.
  intros Hm Hh n Hn. specialize (Hm n Hn). unfold try_catch.
  destruct (m n) as [[a|e|] n1]; [done|by apply Hh|done].
Qed.
Lemma runs_weaken {A} (m : M (Node D W) A) (P P' : Node D W → Prop) (Q Q' : A → Node D W → Prop) (E E' : Node D W → Prop) :
  runs P m Q E → (∀ n, P' n → P n) → (∀ a n, Q a n → Q' a n) → (∀ n, E n → E' n) → runs P' m Q' E'.
Proof.
  intros Hm HP HQ HE n Hn. specialize (Hm n (HP n Hn)). destruct (m n) as [[a|e|] n1]; auto.
Qed.

(** One of several sets of handles is held. *)
Definition among (stages : list (list handle)) n : Prop := ∃ held, held ∈ stages ∧ holding false held n.

Lemma runs_among {A} (m : M (Node D W) A) stages Q E :
  Forall (λ held, runs (holding false held) m Q E) stages → runs (among stages) m Q E.
Proof. rewrite Forall_forall. intros Hm n (held & Hin & Hn). by apply (Hm held). Qed.

Lemma runs_acts {A} streams held (m : M (Node D W) A) (E : Node D W → Prop) :
  keeps (acts streams held) m → (∀ n, holding streams held n → E n) →
  runs (holding streams held) m (λ _, holding streams held) E.
Proof.
  intros Hm HE n Hn. specialize (Hm n). destruct (m n) as [[a|e|] n1]; cbn in Hm; [|apply HE|done];
    by eapply acts_holding.
Qed.

Lemma runs_new_handle `{Env W} streams held held' s h E : hold held (Acquired h) = Some held' →
  runs (holding streams held) (new_handle s h) (λ ok, holding streams (if ok : bool then held' else held)) E.
Proof.
  intros Hh n [Hm Ht Hs Hop]. unfold new_handle. rewrite (bind_run _ _ _ _ _ (call_run _ n)).
  destruct (setup_ok (world n) s) as [[] w]; cbn; [|by split].
  assert (held' = held ++ [h]) as -> by (cbn in Hh; by case_match; simplify_eq).
  split; [cbn; by rewrite Hm|cbn; by rewrite (lifecycle_snoc _ held)|exact Hs|exact Hop].
Qed.

(** A set-up that fails is reported, not thrown. *)
Lemma runs_set_up `{Env W} streams held l E :
  runs (holding streams held) (all_succeed l) (λ _, holding streams held) E.
Proof.
  induction l as [|s l IH]; cbn; [by apply runs_ret|].
  intros n [Hm Ht Hs Hop]. rewrite (bind_run _ _ _ _ _ (call_run _ n)).
  destruct (setup_ok (world n) s) as [[] w]; [by apply IH|by split].
Qed.

(** What is left of [held] without [h], if [h] can be given back or is not held. *)
Definition without (h : handle) (held : list handle) : option (list handle) :=
  if bool_decide (h ∈ held) then hold held (Released h) else Some held.

Lemma runs_release streams held held' h E : without h held = Some held' →
  runs (holding streams held) (release h) (λ _, holding streams held') E.
Proof.
  intros Hh n [Hm Ht Hs Hop]. unfold release, gets, mbind, M_bind. rewrite Hm. unfold without in Hh.
  case_bool_decide as Hin; [|by simplify_eq; split].
  assert (held' = filter (λ x, x ≠ h) held) as -> by (cbn in Hh; by case_match; simplify_eq).
  cbn. split; [cbn; by rewrite Hm|cbn; by rewrite (lifecycle_snoc _ held)|exact Hs|exact Hop].
Qed.

(** The destructor of the event stream. *)
Lemma runs_destroy_stream streams held E : streams = false ∨ all_in [EventBase; HttpServer] held = true →
  runs (holding streams held) destroy_stream (λ _, holding false held) E.
Proof.
  intros Ho n [Hm Ht Hs Hop]. rewrite destroy_stream_run. split; [done| |done|done]. cbn.
  rewrite lifecycle_app, Ht. cbn. apply lifecycle_fits, Forall_bind, Forall_forall. intros r Hr.
  destruct Ho as [Ho|Ho]; [rewrite Hs in Hr by done; by apply not_elem_of_nil in Hr|].
  cbn in Ho. rewrite !andb_true_iff in Ho. destruct Ho as (Hb & Hh & _).
  repeat constructor; cbn; by rewrite ?Hb, ?Hh.
Qed.

(** The destructor of the store: the database is closed. *)
Lemma runs_destroy_store streams held held' E : without Database held = Some held' →
  runs (holding streams held) destroy_store (λ _, holding streams held') E.
Proof.
  intros Hh n Hn. unfold destroy_store, gets, mbind, M_bind.
  rewrite (st_close _ (ho_opened _ _ _ Hn)). by apply (runs_release streams held).
Qed.
End holding.

#[export] Hint Extern 1 (keeps (acts _ _) (emit _)) => (apply acts_emit; split; reflexivity) : leschat.
#[export] Hint Extern 1 (keeps (acts _ _) (on_store _)) => (apply store_acts; eauto 2 with leschat nocore) : leschat.
#[export] Hint Extern 3 (keeps (acts _ _) _) => (apply same_acts; solve [eauto 2 with leschat nocore]) : leschat.

(** Walk through a constructor or a destructor from concrete handles. *)
Ltac in_stages := intros ? ?; eexists; split; [|eassumption]; set_solver.
Ltac runs_step :=
  cbn [negb orb]; cbn beta iota;
  match goal with
  | |- runs _ (mbind _ (new_handle _ _)) _ _ => eapply runs_bind; [eapply runs_new_handle; reflexivity|intros []]
  | |- runs _ (mbind _ (mret _)) _ _ => apply runs_bind_ret
  | |- runs _ (mbind _ (all_succeed _)) _ _ => eapply runs_bind; [apply runs_set_up|intros []]
  | |- runs _ (mbind _ destroy_store) _ _ => eapply runs_bind; [eapply runs_destroy_store; reflexivity|intros []]
  | |- runs _ (mbind _ (release _)) _ _ => eapply runs_bind; [eapply runs_release; reflexivity|intros []]
  | |- runs _ (mbind _ (throw _)) _ _ => eapply runs_bind; [by apply (runs_throw _ _ (λ _ _, False)); in_stages|intros ? ? []]
  | |- runs _ (mbind _ _) _ _ => eapply runs_bind; [apply runs_acts; [solve_keeps|in_stages]|intros ?]
  | |- runs _ (release _) _ _ => eapply runs_release; reflexivity
  | |- runs _ (throw _) _ _ => apply runs_throw; in_stages
  | |- runs _ (mret _) _ _ => by apply runs_ret
  end.

(** ** The constructors and the destructors *)

Section services.
Context (J : Type) `{JsonC J} `{SqliteStatements D} `{Env W} `{Unordered} (cfg : Config).

Definition based : list handle := [EventBase; Database].
Definition discovering : list handle := based ++ [DiscoverySocket; ReceiveEvent; AnnounceEvent].
Definition syncing : list handle := discovering ++ [SyncTimerEvent].
Definition serving : list handle := syncing ++ [HttpServer].

(** What the discovery service may hold when its constructor throws. *)
Definition discovery_stages : list (list handle) :=
  [based; based ++ [DiscoverySocket]; based ++ [DiscoverySocket; ReceiveEvent];
   based ++ [DiscoverySocket; AnnounceEvent]; discovering].

Lemma announce_acts held : all_in [DiscoverySocket] held = true →
  keeps (acts (D := D) (W := W) false held) (announce J cfg).
Proof.
  intros Hs. unfold announce, send_announce, announcement_json, set_announce_failed, log.
  solve_keeps; first [by apply acts_emit|by apply same_acts, keeps_modify].
Qed.

Lemma close_resources_runs streams held E : held ∈ discovery_stages →
  runs (D := D) (W := W) (holding streams held) close_resources (λ _, holding streams based) E.
Proof.
  intros Hheld. unfold close_resources.
  repeat (apply elem_of_cons in Hheld as [->|Hheld]; [repeat runs_step|]). by apply not_elem_of_nil in Hheld.
Qed.

Lemma discovery_runs :
  runs (holding false based) (DiscoveryService J cfg : M (Node D W) unit) (λ _, holding false discovering)
    (holding false based).
Proof.
  unfold DiscoveryService. eapply (runs_try _ _ _ _ _ (among discovery_stages)).
  - repeat runs_step. cbn beta. apply runs_acts; [apply announce_acts; reflexivity|in_stages].
  - intros e. eapply (runs_bind _ _ _ (λ _, holding false based)); [|intros ?; by apply runs_throw].
    apply runs_among, Forall_forall. intros held Hheld. by apply close_resources_runs.
Qed.

Lemma sync_runs :
  runs (holding false discovering) (SyncService : M (Node D W) unit) (λ _, holding false syncing)
    (holding false discovering).
Proof.
  unfold SyncService. apply (runs_weaken _ (holding false discovering) _ (λ _, holding false syncing) _ (among [discovering])); [|done..|].
  - repeat runs_step.
  - intros n (held & ->%list_elem_of_singleton & Hn). exact Hn.
Qed.

Lemma http_runs :
  runs (holding false syncing) (HttpApi cfg : M (Node D W) unit) (λ _, holding false serving)
    (holding false syncing).
Proof.
  unfold HttpApi. eapply (runs_try _ _ _ _ _ (among [syncing; serving])).
  - repeat runs_step. apply runs_acts; [solve_keeps|in_stages].
  - intros e. eapply (runs_bind _ _ _ (λ _, holding false syncing)); [|intros ?; by apply runs_throw].
    apply runs_among. repeat constructor; runs_step.
Qed.

Lemma service_runs : 
  runs (holding false syncing) (MessageService cfg : M (Node D W) unit) (λ _, holding false syncing)
    (holding false syncing).
Proof.
  apply runs_acts; [unfold MessageService, set_next_sequence; solve_keeps|done].
  by apply same_acts, keeps_modify.
Qed.

Lemma destroy_members_runs held E : held ∈ [based; discovering; syncing] →
  runs (D := D) (W := W) (holding false held) destroy_members (λ _, holding false []) E.
Proof.
  intros Hheld. unfold destroy_members, destroy_http, destroy_sync, destroy_discovery.
  do 3 (apply elem_of_cons in Hheld as [->|Hheld]; [
    runs_step; (eapply runs_bind; [apply runs_destroy_stream; by left|intros ?]); runs_step;
    (eapply runs_bind; [apply close_resources_runs; unfold discovery_stages; set_solver|intros ?]);
    repeat runs_step|]).
  by apply not_elem_of_nil in Hheld.
Qed.

(** The constructor gives everything back when it throws. *)
Lemma services_runs :
  runs (holding false based) (try_catch (services J cfg) (λ e, destroy_members;; throw e) : M (Node D W) unit)
    (λ _, holding false serving) (holding false []).
Proof.
  apply (runs_try _ _ _ _ _ (among [based; discovering; syncing])).
  - unfold services. eapply runs_bind; [eapply runs_weaken; [apply discovery_runs|done|done|in_stages]|intros ?].
    eapply runs_bind; [eapply runs_weaken; [apply sync_runs|done|done|in_stages]|intros ?].
    eapply runs_bind; [eapply runs_weaken; [apply service_runs|done|done|in_stages]|intros ?].
    eapply runs_weaken; [apply http_runs|done|done|in_stages].
  - intros e. eapply (runs_bind _ _ _ (λ _, holding false [])); [|intros ?; by apply runs_throw].
    apply runs_among. repeat constructor; apply destroy_members_runs; set_solver.
Qed.
End services.

Section daemon.
Context (J : Type) `{JsonC J} `{SqliteStatements D} `{Env W} `{Unordered} (cfg : Config).

(** A store that was not constructed holds no handle. *)
Lemma failed_store_closes path max_bytes :
  lifecycle [] (Acquired EventBase :: failed_store path max_bytes ++ [Released EventBase]) = Some [].
Proof.
  unfold failed_store. destruct (_ || _); [done|].
  destruct (sqlite3_open_v2 path) as [rc [d|]] eqn:Hopen; [|done]. cbv zeta.
  rewrite st_close; [done|]. destruct (negb _); [by eapply st_open|by eapply constructor_opened].
Qed.

(** The whole constructor. *)
Lemma application_runs path w :
  match Application (D := D) J cfg path w with
  | (Ok (_, n), l) => l = trace n ∧ holding false serving n
  | (Throw _, l) => lifecycle [] l = Some []
  | (Undefined, _) => True
  end.
Proof.
  unfold Application. destruct (setup_ok w EventBaseNew) as [[] w0]; [|done]. cbn [negb].
  destruct (MessageStore.MessageStore path max_database_bytes) as [s|e|] eqn:Hstore; [|apply failed_store_closes|done]. cbv zeta.
  set (c := with_local_address _ cfg). set (n0 := MkNode s ∅ 0 false [] 0 _ w0 _).
  pose proof (services_runs J c n0) as Hs.
  assert (holding false based n0) as Hn0 by (split; [done..|by eapply constructed_opened]).
  specialize (Hs Hn0). destruct (try_catch (services J c) _ n0) as [[[]|e|] n1]; [|apply Hs|done].
  split; [done|exact Hs].
Qed.

(** ** The events *)

#[local] Instance acts_frame : Frame J (acts (D := D) (W := W) true serving).
Proof.
  split; [split; [apply _|..]|intros path payload|intros j m _]; intros n; intros.
  - apply (same_acts (D := D) _ _ (modify (with_world w))). by apply keeps_modify.
  - apply (acts_emit (D := D) (W := W)). by destruct e; split.
  - split; [done| |done..]. exists []. by rewrite app_nil_r.
  - apply store_acts, contains_opened.
  - apply store_acts, sequence_summary_opened.
  - by apply (acts_emit (D := D) (W := W) true serving (MakeRequest c r path headers payload)).
  - apply store_acts, add_opened.
Qed.

(** What writes neither members nor the trace nor the streams. *)
Lemma written_acts (f : Node D W → Node D W) n : handles_ (f n) = handles_ n → requests_ (f n) = requests_ n →
  trace (f n) = trace n → store_ (f n) = store_ n → acts true serving n (f n).
Proof. intros Hh Hr Ht Hs. split; [done| |done|by rewrite Hs]. exists []. by rewrite app_nil_r. Qed.

Lemma event_acts e : keeps (acts (D := D) (W := W) true serving) (on_event J cfg e).
Proof.
  apply kept_event; [apply _..|intros text|intros fuel|eapply kept_announce; [apply _|]].
  - apply kept_create_local; [apply _..| |]; intros; [by apply (written_acts (with_next_sequence (u64 q)))|].
    by apply store_acts, add_opened.
  - eapply kept_receive; [apply _|]. intros. eapply kept_datagram; [apply _|..]; intros.
    + by apply (written_acts (with_offset o)).
    + intros n. by apply (written_acts (λ n, with_peers _ n)).
  - intros n b. by apply (written_acts (with_announce_failed b)).
Qed.

Lemma run_runs events dispatched :
  runs (holding (D := D) (W := W) true serving) (run J cfg events dispatched) (λ _, holding true serving)
    (holding true serving).
Proof.
  apply runs_acts; [|done]. unfold run. apply keeps_bind; [apply _|by apply acts_emit|intros _].
  apply keeps_bind; [apply _|apply keeps_iterM; [apply _|intros e _; apply event_acts]|intros _]. solve_keeps.
Qed.

(** The destructor of Application: it always comes to its end. *)
Lemma destroy_application_runs E :
  runs (D := D) (W := W) (holding true serving) destroy_application (λ _, holding false []) E.
Proof.
  unfold destroy_application, destroy_http, destroy_sync, destroy_discovery.
  eapply runs_bind; [unfold close_resources; repeat runs_step|intros ?].
  runs_step. eapply runs_bind; [apply runs_destroy_stream; by right|intros ?]. repeat runs_step.
Qed.


(** It always returns. *)
Definition returns (m : M (Node D W) unit) : Prop := ∀ n, (m n).1 = Ok tt.

Lemma returns_bind (m : M (Node D W) unit) (k : unit → M (Node D W) unit) :
  returns m → returns (k tt) → returns (m ≫= k).
Proof.
  intros Hm Hk n. specialize (Hm n). unfold mbind, M_bind. destruct (m n) as [r n1]. cbn in Hm.
  rewrite Hm. apply Hk.
Qed.

Lemma release_returns h : returns (release h).
Proof. intros n. unfold release, gets, mbind, M_bind. by destruct (bool_decide _). Qed.

Lemma stream_returns : returns destroy_stream.
Proof. intros n. by rewrite destroy_stream_run. Qed.

Lemma store_returns : returns destroy_store.
Proof. intros n. unfold destroy_store, gets, mbind, M_bind. destruct (_ =? _); [apply release_returns|done]. Qed.

Lemma destroy_application_returns : returns destroy_application.
Proof.
  unfold destroy_application, destroy_http, destroy_sync, destroy_discovery, close_resources.
  repeat first [apply release_returns|apply store_returns|apply stream_returns|apply returns_bind].
Qed.
End daemon.

(** ** Properties *)

Section properties.
Context (J : Type) `{JsonC J} `{SqliteStatements D} `{Env W} `{Unordered}.

(** C16: everything is given back.  Whatever set-up call fails, whatever the events
    and however the event loop ends, the effects of the Application of main, as
    long as its behaviour is defined, take each handle while those it rests on
    are held, use a handle only while it is held, give each back exactly once and
    before what it rests on, and in the end leave none.  No statement is open
    when the database is closed, so sqlite3_close succeeds. *)
Theorem launch_releases web_root (w : W) events dispatched o r effects :
  launch (D := D) J web_root w events dispatched o = (r, effects) → r ≠ Undefined →
  lifecycle [] effects = Some [].
Proof.
  unfold launch. pose proof (application_runs (D := D) J (config_of o EmptyString web_root) (database_path o) w) as Ha.
  destruct (Application J _ _ w) as [[[cfg n]|e|] l]; [|by intros [= <- <-]|by intros [= <- _]].
  destruct Ha as [_ [Hm Ht _]]. pose proof (run_runs J cfg events dispatched n) as Hrun.
  destruct (run J cfg events dispatched n) as [r' n1]. intros Hl Hr.
  assert (holding true serving n1) as Hn1.
  { destruct r'; [by apply Hrun..|]. by injection Hl as <- _. }
  pose proof (destroy_application_runs (λ _, False) n1 Hn1) as Hd.
  pose proof (destroy_application_returns n1) as Hret.
  destruct (destroy_application n1) as [rd n2]. cbn in Hret, Hl. subst rd.
  destruct r'; injection Hl as <- <-; [apply Hd..|done].
Qed.
End properties.

(** ** Witness *)

(** A browser opens the stream, another posts, the timer fires; the loop fails. *)
Definition stream_request : evhttp_request :=
  MkHttpRequest 3 30 (Some "/api/v1/events") EVHTTP_REQ_GET None EmptyString.
Definition a_run : result unit * list effect :=
  launch (D := mdb) jtree "web" start_world [HttpRequest stream_request; HttpRequest hello_request; SyncTimer] (-1)
    (MkOptions "node-a" "Alpha" "127.0.0.1" 7777 "255.255.255.255" EmptyString 7777 Off EmptyString "les-chat-node-a.db").

Lemma launch_releases_witness :
  a_run.1 = Throw (RuntimeError "libevent dispatch failed") ∧ SetCloseCallback 30 false ∈ a_run.2 ∧
  lifecycle [] a_run.2 = Some [].
Proof.
  split; [by vm_compute|]. split; [apply (bool_decide_eq_true (_ ∈ _)); by vm_compute|].
  apply (launch_releases (D := mdb) jtree "web" start_world
    [HttpRequest stream_request; HttpRequest hello_request; SyncTimer] (-1)
    (MkOptions "node-a" "Alpha" "127.0.0.1" 7777 "255.255.255.255" EmptyString 7777 Off EmptyString "les-chat-node-a.db")
    a_run.1 a_run.2); by vm_compute.
Defined.
