(* ===== verification/Ownership.v ===== *)
(** * Requests, connections and contexts over the life of the daemon

    libevent and the daemon hand requests and connections to each other.  A
    [history] is a run of events in an order libevent can produce, with the
    effects of the daemon and what libevent frees itself.  No request, connection
    or context is used or freed after it was freed, by either side. *)

From S2P Require Import Prelude Cxx Protocol Json ModelJson MessageCodec Sqlite ModelDb MessageStore.
From S2P Require Import Env Node Ledger Clock PeerRegistry Discovery DiscoveryProperties EventStream.
From S2P Require Import Replication MessageService Http HttpApi HttpApiProperties Sync Main Daemon Frame.
From S2P Require Import StoreProperties Application Lifecycle.
Open Scope Z_scope.

(** ** Names

    A pointer is named by a number; what libevent allocates gets a name that was
    never given before.  [names] is above every name given so far. *)
Class FreshNames (W : Type) `{Env W} := {
  names : W → Z;
  fresh_connection w a p : names w ≤ names (evhttp_connection_base_new w a p).2 ∧
    (∀ c, (evhttp_connection_base_new w a p).1 = Some c → names w ≤ c < names (evhttp_connection_base_new w a p).2);
  fresh_request w : names w ≤ names (evhttp_request_new w).2 ∧
    (∀ r, (evhttp_request_new w).1 = Some r → names w ≤ r < names (evhttp_request_new w).2);
  names_clock w : names w ≤ names (system_clock_now w).2;
  names_settime w sec nsec : names w ≤ names (clock_settime w sec nsec).2;
  names_recv w : names w ≤ names (recvfrom w).2;
  names_index w i : names w ≤ names (if_nametoindex w i).2;
  names_sendto w a p t : names w ≤ names (sendto w a p t).2;
  names_sendmsg w i a p t : names w ≤ names (sendmsg w i a p t).2;
  names_make w c r t : names w ≤ names (evhttp_make_request w c r t).2;
  names_buffer w : names w ≤ names (evbuffer_new w).2;
}.

#[global] Instance reliable_names : FreshNames reliable.
Proof.
  refine {| names := λ w, w_next (underlying w) |}; cbn; intros; try lia.
  - split; [lia|]. intros c [= <-]. lia.
  - split; [lia|]. intros c [= <-]. lia.
  - destruct (w_queue (underlying w)) as [|[p a] q]; cbn; lia.
Defined.

(** evhttp_make_request never fails: when it does, the request is freed twice
    ([post_request_ownership]). *)
Definition never_refuses (W : Type) `{Env W} : Prop :=
  ∀ (w : W) c r path, (evhttp_make_request w c r path).1 = 0.

Definition name (x : resource) : Z := match x with Request r => r | Connection c | Context c => c end.

(** ** What a handler does with them *)

(** Effects that use [S] and names from [N] on, and kill only the latter. *)
Record ok (S : list resource) (N N' : Z) (l : list effect) : Prop := {
  ok_safe dead : (∀ x, x ∈ dead → (x ∉ S) ∧ name x < N) → safe dead l = true;
  ok_killed x : x ∈ killed l → N ≤ name x < N';
  ok_opened c a p : OpenConnection c a p ∈ l → N ≤ c < N';
  ok_owned r : OwnRequest r ∉ l;
  ok_context c : Context c ∈ killed l ↔ Connection c ∈ killed l;
}.

Lemma ok_nil S N N' : ok S N N' [].
Proof. split; [done|set_solver..]. Qed.

Lemma ok_app S N N1 N2 l1 l2 : N ≤ N1 ≤ N2 → (∀ x, x ∈ S → name x < N) →
  ok S N N1 l1 → ok S N1 N2 l2 → ok S N N2 (l1 ++ l2).
Proof.
  intros HN HS [Hs1 Hk1 Ho1 Hw1 Hx1] [Hs2 Hk2 Ho2 Hw2 Hx2]. split.
  - intros dead Hd. apply safe_app. split; [by apply Hs1|]. apply Hs2. intros x [Hx|Hx]%elem_of_app.
    + specialize (Hk1 x Hx). split; [|lia]. intros HxS%HS. lia.
    + destruct (Hd x Hx). split; [done|lia].
  - intros x. rewrite killed_app. intros [Hx|Hx]%elem_of_app; [apply Hk1 in Hx|apply Hk2 in Hx]; lia.
  - intros c a p [Hx|Hx]%elem_of_app; [apply Ho1 in Hx|apply Ho2 in Hx]; lia.
  - intros r [Hx|Hx]%elem_of_app; [by apply Hw1 in Hx|by apply Hw2 in Hx].
  - intros c. by rewrite killed_app, !elem_of_app, Hx1, Hx2.
Qed.

(** Effects that neither free, open nor own. *)
Definition plain (e : effect) : bool :=
  match e with
  | FreeRequest _ | FreeConnection _ | DeleteContext _ | RefusedRequest _ _ | OpenConnection _ _ _ | OwnRequest _ => false
  | _ => true
  end.

Lemma ok_plain S N N' l : Forall (λ e, plain e = true ∧ ∀ x, x ∈ uses e → x ∈ S ∨ N ≤ name x) l → ok S N N' l.
Proof.
  intros Hl. assert (killed l = []) as Hk.
  { unfold killed. induction Hl as [|e l [He _] _ IH]; [done|]. cbn. rewrite IH. by destruct e. }
  rewrite Forall_forall in Hl. split.
  - intros dead Hd. apply safe_uses_alive; [done|]. apply Forall_forall. intros e He. apply Forall_forall.
    intros x Hx Hdx. destruct (Hl e He) as [_ Hu]. destruct (Hd x Hdx) as [? ?]. destruct (Hu x Hx); [done|lia].
  - rewrite Hk. by intros x ?%not_elem_of_nil.
  - intros c a p Hc. by destruct (Hl _ Hc).
  - intros r Hr. by destruct (Hl _ Hr).
  - rewrite Hk. set_solver.
Qed.

(** The effects of an outgoing request that was made, and of one that was not. *)
Lemma ok_opened_plain S N N' c a p l : N ≤ c < N' →
  Forall (λ e, plain e = true ∧ ∀ x, x ∈ uses e → N ≤ name x) l → ok S N N' (OpenConnection c a p :: l).
Proof.
  intros Hc Hl. destruct (ok_plain S N N' l) as [Hs Hk Ho Hw Hx].
  { eapply Forall_impl; [exact Hl|]. intros e [? Hu]. split; [done|]. intros x Hx. right. by apply Hu. }
  split.
  - intros dead Hd. apply safe_cons. split; [constructor|by apply Hs].
  - exact Hk.
  - intros c' a' p' [E|Hin]%elem_of_cons; [by simplify_eq|by eapply Ho].
  - intros r [E|Hin]%elem_of_cons; [done|by eapply Hw].
  - exact Hx.
Qed.

Lemma ok_sent S N N' c r a p path headers payload local : N ≤ c < N' → N ≤ r →
  local = [] ∨ (∃ t, local = [SetLocalAddress c t]) →
  ok S N N' ((OpenConnection c a p :: local) ++ [NewContext c; NewRequest r; MakeRequest c r path headers payload]).
Proof.
  intros Hc Hr Hl. apply ok_opened_plain; [done|]. apply Forall_app. split.
  - destruct Hl as [->|(t & ->)]; [constructor|]. constructor; [|constructor]. split; [done|].
    intros x ->%list_elem_of_singleton. cbn. lia.
  - repeat constructor; intros x Hx; cbn in Hx; [by apply not_elem_of_nil in Hx..|].
    repeat (apply elem_of_cons in Hx as [->|Hx]; [cbn; lia|]). by apply not_elem_of_nil in Hx.
Qed.

Lemma ok_dropped S N N' c a p local : N ≤ c < N' → local = [] ∨ (∃ t, local = [SetLocalAddress c t]) →
  ok S N N' ((OpenConnection c a p :: local) ++ [NewContext c; FreeConnection c; DeleteContext c]).
Proof.
  intros Hc Hl. destruct (ok_opened_plain S N N' c a p local Hc) as [Hs Hk Ho Hw _].
  { destruct Hl as [->|(t & ->)]; [constructor|]. constructor; [|constructor]. split; [done|].
    intros x ->%list_elem_of_singleton. cbn. lia. }
  assert (killed (OpenConnection c a p :: local) = []) as Hk0 by (by destruct Hl as [->|(t & ->)]).
  split.
  - intros dead Hd. apply safe_app. split; [by apply Hs|]. rewrite Hk0, !safe_cons. cbn.
    assert (∀ x, name x = c → x ∉ dead) as Hn by (intros x Hx Hin; destruct (Hd _ Hin); lia).
    split_and!; repeat constructor; [by apply Hn|]. intros [E|Hin]%elem_of_cons; [done|].
    by apply (Hn (Context c)).
  - intros x. rewrite killed_app, Hk0. cbn. intros [->|[->|?%not_elem_of_nil]%elem_of_cons]%elem_of_cons; cbn; [lia..|done].
  - intros c' a' p' [Hin|E]%elem_of_app; [by eapply Ho|set_solver].
  - intros r [Hin|E]%elem_of_app; [by eapply Hw|set_solver].
  - intros c'. rewrite killed_app, Hk0. cbn. set_solver.
Qed.

Section works.
Context `{Sqlite D} `{FreshNames W} (S : list resource).
Implicit Types n : Node D W.

(** The open streams are among [S], which holds no future name. *)
Definition prepared n : Prop :=
  (∀ s, s ∈ requests_ n → Request (sub_request s) ∈ S) ∧ ∀ x, x ∈ S → name x < names (world n).

Record works_with n n' : Prop := {
  ww_streams : requests_ n' = requests_ n;
  ww_names : names (world n) ≤ names (world n');
  ww_trace : ∃ l, trace n' = trace n ++ l ∧ (prepared n → ok S (names (world n)) (names (world n')) l);
}.

#[export] Instance works_preorder : PreOrder works_with.
Proof.
  split.
  - intros n. split; [done|lia|]. exists []. rewrite app_nil_r. split; [done|]. intros _. apply ok_nil.
  - intros n1 n2 n3 [Hs Hn (l & Ht & Hl)] [Hs' Hn' (l' & Ht' & Hl')]. split; [congruence|lia|].
    exists (l ++ l'). rewrite Ht', Ht, <- app_assoc. split; [done|]. intros Hr.
    eapply ok_app; [|apply Hr|by apply Hl|apply Hl']; [lia|].
    destruct Hr as [Hr1 Hr2]. split; [by rewrite Hs|]. intros x Hx%Hr2. lia.
Qed.

(** What writes neither the trace, the streams nor the world. *)
Lemma works_same {A} (m : M (Node D W) A) :
  keeps (same (λ n, (requests_ n, world n, trace n))) m → keeps works_with m.
Proof.
  intros Hm n. specialize (Hm n). injection Hm as Hr Hw Ht. split; [done|rewrite Hw; lia|].
  exists []. rewrite app_nil_r. split; [done|]. intros _. apply ok_nil.
Qed.

Lemma works_emit e : plain e = true → (∀ x, x ∈ uses e → x ∈ S) → keeps works_with (emit (D := D) (W := W) e).
Proof.
  intros He Hu n. split; [done|cbn; lia|]. exists [e]. split; [done|]. intros _. apply ok_plain.
  constructor; [|constructor]. auto.
Qed.

Lemma works_call {A} (g : W → A * W) : (∀ w, names w ≤ names (g w).2) → keeps works_with (call (D := D) g).
Proof.
  intros Hg n. rewrite call_run. split; [done|apply Hg|]. exists []. rewrite app_nil_r. split; [done|].
  intros _. apply ok_nil.
Qed.

Lemma works_publish event data : keeps works_with (publish_event (D := D) (W := W) event data).
Proof.
  intros n. rewrite publish_run. split; [done|cbn; lia|]. eexists. split; [done|]. intros [Hr _].
  apply ok_plain, Forall_fmap, Forall_forall. intros s Hs. split; [done|]. cbn.
  intros x ->%list_elem_of_singleton. left. by apply Hr.
Qed.

(** An outgoing request, while none is refused. *)
Lemma works_post cfg on_null headers address port path payload : never_refuses W →
  keeps works_with on_null → keeps works_with (post_request cfg on_null headers address port path payload).
Proof.
  intros Hnever Hnull n. unfold post_request. rewrite (bind_run _ _ _ _ _ (call_run _ n)).
  destruct (fresh_connection (world n) (c_str address) port) as [Hw Hc].
  destruct (evhttp_connection_base_new (world n) (c_str address) port) as [[c|] w1]; cbn [fst snd] in *.
  2: { etransitivity; [|apply Hnull]. split; [done|done|]. exists []. rewrite app_nil_r. split; [done|].
    intros _. apply ok_nil. }
  specialize (Hc c eq_refl). rewrite (bind_run _ _ _ _ _ (emit_run _ _)). cbn [trace with_world with_trace].
  set (local := if empty (local_address_ cfg) then [] else [SetLocalAddress c (c_str (local_address_ cfg))]).
  rewrite (bind_run _ _ _ tt (with_trace (trace n ++ OpenConnection c (c_str address) port :: local) (with_world w1 n))).
  2: { unfold local. destruct (empty _); [done|]. rewrite emit_run. cbn. by rewrite <- app_assoc. }
  rewrite (bind_run _ _ _ _ _ (emit_run _ _)), (bind_run _ _ _ _ _ (call_run _ _)).
  cbn [world trace with_world with_trace].
  destruct (fresh_request w1) as [Hw2 Hr].
  destruct (evhttp_request_new w1) as [[r|] w2]; cbn [fst snd] in *.
  - specialize (Hr r eq_refl). rewrite (bind_run _ _ _ _ _ (emit_run _ _)), (bind_run _ _ _ _ _ (emit_run _ _)).
    rewrite (bind_run _ _ _ _ _ (call_run _ _)). cbn [world trace with_world with_trace].
    rewrite Hnever. cbn [Z.eqb negb]. pose proof (names_make w2 c r path) as Hw3.
    split; [done|cbn; lia|]. cbn. exists ((OpenConnection c (c_str address) port :: local) ++
      [NewContext c; NewRequest r; MakeRequest c r path headers payload]).
    split; [by rewrite <- !app_assoc|]. intros _. apply ok_sent; [lia|lia|unfold local; destruct (empty _); eauto].
  - rewrite drop_run. split; [done|cbn; lia|]. cbn.
    exists ((OpenConnection c (c_str address) port :: local) ++ [NewContext c; FreeConnection c; DeleteContext c]).
    split; [by rewrite <- !app_assoc|]. intros _. apply ok_dropped; [lia|unfold local; destruct (empty _); eauto].
Qed.

Lemma works_system_time : keeps works_with (system_time_ms (D := D) (W := W)).
Proof. apply works_call, names_clock. Qed.

Lemma works_clock : keeps works_with (current_time_ms (D := D) (W := W)).
Proof. unfold current_time_ms. solve_keeps. apply works_system_time. Qed.

Lemma works_ops : Ops works_with.
Proof.
  split; [apply _|apply works_clock| |apply works_publish| |].
  - intros line. unfold log. apply works_emit; [done|]. by intros x ?%not_elem_of_nil.
  - intros i. by apply works_same, on_store_keeps.
  - by apply works_same, on_store_keeps.
Qed.

Lemma works_sends path payload : never_refuses W → Sends path payload works_with.
Proof. intros Hnever cfg on_null headers address port. by apply works_post. Qed.

Lemma works_takes `{JsonC J} : Takes J works_with.
Proof. intros j m _. by apply works_same, on_store_keeps. Qed.

Lemma works_responds request : Request (req_id request) ∈ S → Responds request works_with.
Proof.
  intros Hr status reason content_type body. unfold send_response.
  apply keeps_bind; [apply _|apply works_call, names_buffer|intros b].
  destruct (negb b); (apply works_emit; [done|]); by intros x ->%list_elem_of_singleton.
Qed.
End works.

(** ** The events *)

Section events.
Context `{JsonC J} `{Sqlite D} `{FreshNames W} `{Unordered} (cfg : Config) (S : list resource).
Hypothesis Hnever : never_refuses W.
Implicit Types n : Node D W.

#[local] Instance ops_works : Ops (works_with (D := D) (W := W) S).
Proof. apply works_ops. Qed.
#[local] Instance sends_works path payload : Sends path payload (works_with (D := D) (W := W) S).
Proof. by apply works_sends. Qed.
#[local] Instance takes_works : Takes J (works_with (D := D) (W := W) S).
Proof. apply works_takes. Qed.

#[local] Hint Extern 1 (keeps (works_with S) (emit _)) =>
  (apply works_emit; [reflexivity|by intros ? ?%not_elem_of_nil]) : leschat.
#[local] Hint Extern 3 (keeps (works_with S) _) => (apply works_same; solve [eauto 2 with leschat nocore]) : leschat.

Lemma same_works_modify f : (∀ n, requests_ (f n) = requests_ n ∧ world (f n) = world n ∧ trace (f n) = trace n) →
  keeps (works_with S) (modify f : M (Node D W) unit).
Proof. intros Hf. apply works_same, keeps_modify. intros n. by destruct (Hf n) as (-> & -> & ->). Qed.

Lemma create_works text : keeps (works_with S) (create_local J cfg text : M (Node D W) _).
Proof.
  apply kept_create_local; [apply _..| |].
  - intros n q. by apply (same_works_modify (with_next_sequence (u64 q))).
  - intros. by apply works_same, on_store_keeps.
Qed.

Lemma receive_works fuel : keeps (works_with S) (receive_callback J cfg fuel : M (Node D W) bool).
Proof.
  unfold receive_callback, receive_announcements. apply keeps_try; [apply _| |intros e; solve_keeps].
  apply receive_loop_keeps; [apply _|apply works_call, names_recv|]. intros payload sender.
  unfold handle_datagram, synchronize_time, set_system_time_ms, set_time_offset_ms, current_time_offset_ms, update.
  solve_keeps;
    first [by apply same_works_modify|apply works_system_time|apply works_call; intros; apply names_settime].
Qed.

Lemma announce_works : keeps (works_with S) (announce J cfg : M (Node D W) unit).
Proof.
  unfold announce, send_announce, announcement_json, set_announce_failed.
  solve_keeps; first [by apply same_works_modify|apply works_call; intros;
    first [apply names_sendto|apply names_sendmsg|apply names_index]].
Qed.

(** The completion of a summary request, up to the freeing of its connection. *)
Lemma summary_works request context : keeps (works_with S)
  (try_catch
    (match request with
     | Some (request, code) =>
         if code =? HTTP_OK then handle_summary_response J cfg request context
         else throw (RuntimeError "sync summary request failed")
     | None => throw (RuntimeError "sync summary request failed")
     end)
    (λ e, log ("Sync summary error: " +:+ what e)) : M (Node D W) unit).
Proof.
  unfold handle_summary_response, send_missing, send_batch, collect, sync_envelope.
  solve_keeps. by apply works_post, keeps_ret, _.
Qed.

(** Every request but one that opens a stream. *)
Lemma request_works request h : Request (req_id request) ∈ S → h ≠ open_event_stream →
  keeps (works_with S) (run_handler J cfg h request : M (Node D W) unit).
Proof.
  intros Hr Hh. pose proof (works_responds (D := D) S request Hr).
  apply kept_handler; [apply _..|intros _; apply create_works|done].
Qed.
End events.

(** ** Histories *)

Section history.
Context (J : Type) `{JsonC J} `{Sqlite D} `{FreshNames W} `{Unordered} (cfg : Config).
Implicit Types n : Node D W.

(** The connection was opened by the daemon. *)
Definition outgoing (l : list effect) (c : Z) : Prop := ∃ a p, OpenConnection c a p ∈ l.

(** The events libevent can deliver after the effects [l]: a request that is not
    freed nor open, on an incoming connection that is neither freed nor streaming;
    the end of an incoming connection, the completion of a request on an outgoing
    one, not freed before; a timer or the socket at any time. *)
Definition enabled (l : list effect) n (e : event) : Prop :=
  match e with
  | HttpRequest r =>
      (Request (req_id r) ∉ killed l) ∧ (req_id r ∉ (sub_request <$> requests_ n)) ∧ req_id r < names (world n) ∧
      (Connection (req_connection r) ∉ killed l) ∧ (req_connection r ∉ (sub_connection <$> requests_ n)) ∧
      req_connection r < names (world n) ∧ ¬ outgoing l (req_connection r)
  | ConnectionClosed c => (Connection c ∉ killed l) ∧ c < names (world n) ∧ ¬ outgoing l c
  | ReplicationDone _ c => outgoing l c ∧ Connection c ∉ killed l
  | SummaryDone _ context | BatchDone context =>
      outgoing l (connection context) ∧ Connection (connection context) ∉ killed l
  | DatagramsReady _ | AnnounceTimer | SyncTimer => True
  end.

(** What libevent frees after the callback: a request, unless the daemon owns it
    now, and a connection that ended. *)
Definition aftermath (e : event) (effects : list effect) : list effect :=
  match e with
  | HttpRequest r => if bool_decide (OwnRequest (req_id r) ∈ effects) then [] else [FreeRequest (req_id r)]
  | ConnectionClosed c => [FreeConnection c]
  | _ => []
  end.

Inductive history : Node D W → list effect → Node D W → Prop :=
  | history_start n : history n [] n
  | history_event n l n1 e effects n2 :
      history n l n1 → enabled l n1 e → on_event J cfg e n1 = (Ok tt, n2) → trace n2 = trace n1 ++ effects →
      history n (l ++ effects ++ aftermath e effects) n2.

(** ** The invariant *)

Record books (l : list effect) n : Prop := {
  bk_safe : safe [] l = true;
  bk_dead x : x ∈ killed l → name x < names (world n);
  bk_streams s : s ∈ requests_ n →
    (Request (sub_request s) ∉ killed l) ∧ sub_request s < names (world n) ∧
    (Connection (sub_connection s) ∉ killed l) ∧ sub_connection s < names (world n) ∧ ¬ outgoing l (sub_connection s);
  bk_requests : NoDup (sub_request <$> requests_ n);
  bk_connections : NoDup (sub_connection <$> requests_ n);
  bk_outgoing c : outgoing l c → c < names (world n);
  bk_owned r : OwnRequest r ∈ l → Request r ∈ killed l ∨ r ∈ (sub_request <$> requests_ n);
  bk_context c : outgoing l c → Context c ∈ killed l ↔ Connection c ∈ killed l;
}.

Lemma outgoing_app l1 l2 c : outgoing (l1 ++ l2) c ↔ outgoing l1 c ∨ outgoing l2 c.
Proof. unfold outgoing. setoid_rewrite elem_of_app. naive_solver. Qed.

(** A handler that works with what is alive keeps the books. *)
Lemma books_works S l n n' effects : books l n → (∀ x, x ∈ S → x ∉ killed l) → prepared S n →
  works_with S n n' → trace n' = trace n ++ effects →
  books (l ++ effects) n' ∧ requests_ n' = requests_ n ∧ names (world n) ≤ names (world n') ∧
  ok S (names (world n)) (names (world n')) effects.
Proof.
  intros [Hsafe Hdead Hstr Hnr Hnc Hout Hown Hctx] HS Hready [Hr Hn (l' & Ht & Hok)] Ht'.
  rewrite Ht in Ht'. apply app_inv_head in Ht' as ->. specialize (Hok Hready). split; [|done].
  destruct Hok as [Hs Hk Ho Hw Hox]. split; rewrite ?Hr; try done.
  - apply safe_app. split; [done|]. apply Hs. intros x Hx. rewrite app_nil_r in Hx.
    split; [intros HxS; by apply (HS x)|by apply Hdead].
  - intros x. rewrite killed_app. intros [Hx%Hdead|Hx%Hk]%elem_of_app; lia.
  - intros s Hs'. destruct (Hstr s Hs') as (H1' & H2' & H3' & H4' & H5'). rewrite killed_app, !not_elem_of_app, outgoing_app.
    split_and!; try done; try lia.
    + intros Hx%Hk. cbn in Hx. lia.
    + intros Hx%Hk. cbn in Hx. lia.
    + intros [?|(a & p & Hx%Ho)]; [done|lia].
  - intros c. rewrite outgoing_app. intros [Hc%Hout|(a & p & Hc%Ho)]; lia.
  - intros r. rewrite elem_of_app, killed_app, elem_of_app. intros [Hr'|Hr']; [|by apply Hw in Hr'].
    destruct (Hown r Hr'); auto.
  - intros c Hc. rewrite killed_app, !elem_of_app, Hox.
    assert (∀ x, name x = c → outgoing l c → x ∉ killed effects) as Hold.
    { intros x <- Hoc Hin%Hk. apply Hout in Hoc. lia. }
    apply outgoing_app in Hc as [Hc|(a & p & Hc%Ho)].
    + by rewrite (Hctx c Hc).
    + split; (intros [Hin%Hdead|?]; [cbn in Hin; lia|by right]).
Qed.

(** Effects that free the resources [xs] and do nothing else. *)
Record frees (es : list effect) (xs : list resource) : Prop := {
  fr_safe dead : (∀ x, x ∈ xs → x ∉ dead) → safe dead es = true;
  fr_killed : killed es = xs;
  fr_outgoing c : ¬ outgoing es c;
  fr_owned r : OwnRequest r ∉ es;
}.

Lemma frees_one e x : uses e = [x] → kills e = [x] → frees [e] [x].
Proof.
  intros Hu Hk. split.
  - intros dead Hd. apply safe_cons. split; [|done]. unfold alive. rewrite Hu. constructor; [|constructor].
    apply Hd. by left.
  - unfold killed. cbn. by rewrite app_nil_r.
  - by intros c (a & p & Ho%list_elem_of_singleton); subst e.
  - by intros r Hr%list_elem_of_singleton; subst e.
Qed.

Lemma frees_connection c : frees [FreeConnection c; DeleteContext c] [Connection c; Context c].
Proof.
  split; [|done| |].
  - intros dead Hd. rewrite !safe_cons. split_and!; repeat constructor; [apply Hd; by left|]. cbn.
    intros [E|Hin]%elem_of_cons; [done|]. apply (Hd (Context c)); [by right; left|done].
  - intros c' (a & p & Ho). set_solver.
  - set_solver.
Qed.

(** Freeing what is alive and, from now on, not in use; a connection of the
    daemon with its context. *)
Lemma books_free l n n' es xs : books l n → frees es xs →
  (∀ x, x ∈ xs → (x ∉ killed l) ∧ name x < names (world n)) →
  (∀ c, outgoing l c → Context c ∈ xs ↔ Connection c ∈ xs) →
  world n' = world n → NoDup (sub_request <$> requests_ n') → NoDup (sub_connection <$> requests_ n') →
  (∀ s, s ∈ requests_ n' → s ∈ requests_ n ∧ (Request (sub_request s) ∉ xs) ∧ Connection (sub_connection s) ∉ xs) →
  (∀ s, s ∈ requests_ n → s ∈ requests_ n' ∨ Request (sub_request s) ∈ xs) →
  books (l ++ es) n'.
Proof.
  intros [Hsafe Hdead Hstr _ _ Hout Hown Hctx] [Hfs Hfk Hfo Hfw] Hx Hc Hw Hnr Hnc Hfree Hleft.
  assert (∀ c, outgoing (l ++ es) c → outgoing l c) as Hno.
  { intros c. rewrite outgoing_app. intros [?|Ho]; [done|by apply Hfo in Ho]. }
  split; rewrite ?Hw; try done.
  - apply safe_app. split; [done|]. rewrite app_nil_r. apply Hfs. intros x Hxs. by apply Hx.
  - intros y. rewrite killed_app, Hfk. intros [Hy%Hdead|Hy]%elem_of_app; [done|by apply Hx].
  - intros s Hs. destruct (Hfree s Hs) as (Hs' & Hf1 & Hf2). destruct (Hstr s Hs') as (H1' & H2' & H3' & H4' & H5').
    rewrite killed_app, Hfk, !not_elem_of_app. split_and!; try done. intros Ho. by apply H5', Hno.
  - intros c Ho. by apply Hout, Hno.
  - intros r [Hr|Hr]%elem_of_app; [|by apply Hfw in Hr]. rewrite killed_app, elem_of_app, Hfk.
    destruct (Hown r Hr) as [?|(s & -> & Hs)%list_elem_of_fmap]; [auto|].
    destruct (Hleft s Hs) as [?|?]; [right|by left; right]. apply list_elem_of_fmap. by exists s.
  - intros c Ho%Hno. by rewrite killed_app, Hfk, !elem_of_app, (Hctx c Ho), (Hc c Ho).
Qed.

(** The streams stay as they are. *)
Lemma books_free_same l n n' es xs : books l n → frees es xs →
  (∀ x, x ∈ xs → (x ∉ killed l) ∧ name x < names (world n)) →
  (∀ c, outgoing l c → Context c ∈ xs ↔ Connection c ∈ xs) →
  world n' = world n → requests_ n' = requests_ n →
  (∀ s, s ∈ requests_ n → (Request (sub_request s) ∉ xs) ∧ Connection (sub_connection s) ∉ xs) →
  books (l ++ es) n'.
Proof.
  intros Hb Hf Hx Hc Hw Hr Hs. apply (books_free l n n' es xs); rewrite ?Hr; eauto; apply Hb.
Qed.

(** A request, or a connection that is not one of the daemon's. *)
Lemma books_free_one l n n' e x : books l n → uses e = [x] → kills e = [x] → x ∉ killed l →
  name x < names (world n) → (∀ c, outgoing l c → x ≠ Context c ∧ x ≠ Connection c) →
  world n' = world n → requests_ n' = requests_ n →
  (∀ s, s ∈ requests_ n → x ≠ Request (sub_request s) ∧ x ≠ Connection (sub_connection s)) →
  books (l ++ [e]) n'.
Proof.
  intros Hb Hu Hk Hx Hn Hc Hw Hr Hs. apply (books_free_same l n n' _ [x] Hb (frees_one e x Hu Hk)); try done.
  - by intros y ->%list_elem_of_singleton.
  - intros c Ho%Hc. rewrite !list_elem_of_singleton. naive_solver.
  - intros s Hs'%Hs. rewrite !list_elem_of_singleton. naive_solver.
Qed.

(** ** Each event *)

Hypothesis Hnever : never_refuses W.

(** The requests of the open streams. *)
Definition streams n : list resource := owned (requests_ n).

Lemma elem_of_streams x n : x ∈ streams n ↔ ∃ s, s ∈ requests_ n ∧ x = Request (sub_request s).
Proof. unfold streams, owned. rewrite list_elem_of_fmap. naive_solver. Qed.

Lemma streams_prepared l n : books l n →
  prepared (streams n) n ∧ ∀ x, x ∈ streams n → x ∉ killed l.
Proof.
  intros Hb. split; [split|].
  - intros s Hs. apply elem_of_streams. by exists s.
  - intros x (s & Hs & ->)%elem_of_streams. by destruct (bk_streams _ _ Hb s Hs) as (_ & ? & _).
  - intros x (s & Hs & ->)%elem_of_streams. by destruct (bk_streams _ _ Hb s Hs) as (? & _).
Qed.

(** Something done for the streams, then a connection of the daemon freed with
    its context. *)
Lemma books_done (m : M (Node D W) unit) l n n' c effects : books l n → (∀ S, keeps (works_with S) m) →
  (m;; drop_connection c) n = (Ok tt, n') → trace n' = trace n ++ effects →
  outgoing l c → Connection c ∉ killed l → books (l ++ effects) n'.
Proof.
  intros Hb Hm Hr Ht Hc Hk. apply bind_Ok in Hr as ([] & n1 & Hr & He).
  rewrite drop_run in He. injection He as <-. cbn in Ht.
  specialize (Hm (streams n) n). rewrite Hr in Hm. cbn in Hm.
  destruct (streams_prepared l n Hb) as [Hready Halive]. destruct (ww_trace _ _ _ Hm) as (l' & Ht' & _).
  destruct (books_works _ l n n1 l' Hb Halive Hready Hm Ht') as (Hb1 & Hr1 & Hn1 & Hok).
  rewrite Ht', <- app_assoc in Ht. apply app_inv_head in Ht as <-. rewrite app_assoc.
  pose proof (bk_outgoing _ _ Hb c Hc) as Hcn.
  assert (∀ x, x ∈ [Connection c; Context c] → name x = c ∧ x ∉ killed l) as Hx.
  { intros x [->|[->|?%not_elem_of_nil]%elem_of_cons]%elem_of_cons; [done| |done].
    split; [done|]. by rewrite (bk_context _ _ Hb c Hc). }
  apply (books_free_same _ n1 _ _ _ Hb1 (frees_connection c)); [| |done|done|].
  - intros x Hin%Hx. destruct Hin as [Hin Hxl]. rewrite killed_app, not_elem_of_app, Hin. split; [|lia].
    split; [done|]. intros Hxk%(ok_killed _ _ _ _ Hok). lia.
  - intros c' _. split; (intros [E|[E|?%not_elem_of_nil]%elem_of_cons]%elem_of_cons; [..|done]); by simplify_eq; set_solver.
  - rewrite Hr1. intros s Hs. destruct (bk_streams _ _ Hb s Hs) as (_ & _ & _ & _ & Hso).
    split; [set_solver|]. intros [E|?]%elem_of_cons; [by simplify_eq|set_solver].
Qed.

(** The end of an incoming connection. *)
Lemma books_close l n c n' effects : books l n → enabled l n (ConnectionClosed c) →
  handle_close c n = (Ok tt, n') → trace n' = trace n ++ effects → books (l ++ effects ++ [FreeConnection c]) n'.
Proof.
  intros Hb (Hc & Hcn & Hout) Hr Ht. rewrite app_assoc. unfold handle_close, gets, mbind at 1, M_bind at 1 in Hr.
  assert (∀ l' c', (outgoing l' c' → outgoing l c') → outgoing l' c' →
    Connection c ≠ Context c' ∧ Connection c ≠ Connection c') as Hdistinct.
  { intros l' c' Hl Ho%Hl. split; [done|]. by intros [= ->]. }
  destruct (find_request c (requests_ n)) as [[s rest]|] eqn:Hf.
  - apply find_request_Some in Hf as [Hp Hs].
    rewrite (bind_run _ _ _ _ _ (emit_run _ n)) in Hr. injection Hr as <-. cbn in Ht.
    apply app_inv_head in Ht as <-.
    assert (s ∈ requests_ n) as Hin by (rewrite Hp; left).
    destruct (bk_streams _ _ Hb s Hin) as (Hsk & Hsn & _).
    pose proof (bk_requests _ _ Hb) as Hnr. pose proof (bk_connections _ _ Hb) as Hnc. rewrite Hp in Hnr, Hnc.
    cbn in Hnr, Hnc. apply NoDup_cons in Hnr as [Hr' Hnr], Hnc as [Hc' Hnc].
    set (n' := with_requests rest _).
    assert (∀ x, x ∈ rest → sub_request x ≠ sub_request s ∧ sub_connection x ≠ c) as Hother.
    { intros x Hx. split; intros E; [apply Hr'|apply Hc']; apply list_elem_of_fmap; exists x; split; congruence. }
    assert (books (l ++ [FreeRequest (sub_request s)]) n') as Hb1.
    { apply (books_free l n n' _ _ Hb (frees_one (FreeRequest (sub_request s)) _ eq_refl eq_refl)); try done; cbn.
      - by intros x ->%list_elem_of_singleton.
      - intros c' _. set_solver.
      - intros x Hx. split; [rewrite Hp; by right|]. destruct (Hother x Hx). set_solver.
      - intros x. rewrite Hp. intros [->|Hx]%elem_of_cons; [right; by left|auto]. }
    apply (books_free_one _ n' n' _ (Connection c) Hb1); try done; cbn.
    + rewrite killed_app, not_elem_of_app. split; [done|]. by intros ?%list_elem_of_singleton.
    + intros c'. apply Hdistinct. rewrite outgoing_app. intros [?|(a & p & Ho)]; [done|set_solver].
    + intros x Hx. split; [done|]. intros [= E]. by destruct (Hother x Hx).
  - injection Hr as <-. rewrite <- (app_nil_r (trace n)) in Ht at 1. apply app_inv_head in Ht as <-.
    rewrite app_nil_r. apply (books_free_one l n n _ (Connection c) Hb); try done.
    + intros c'. by apply (Hdistinct l).
    + intros s Hs. split; [done|]. intros [= ->]. apply find_request_None in Hf. apply Hf, list_elem_of_fmap.
      by exists s.
Qed.

(** A request either opens a stream or works with the streams and itself. *)
Lemma request_runs request n :
  handle_request J cfg request n = subscribe (MkSubscriber (req_id request) (req_connection request)) n ∨
  ∀ S, Request (req_id request) ∈ S → works_with S n (handle_request J cfg request n).2.
Proof.
  assert (∀ S, Request (req_id request) ∈ S → keeps (works_with S) (process_request J cfg request : M (Node D W) unit) →
    works_with S n (handle_request J cfg request n).2) as Hcatch.
  { intros S HS Hp. pose proof (works_responds (D := D) (W := W) S request HS) as Hresp.
    pose proof (works_ops (D := D) S) as Hops. by apply (kept_request J cfg _ request). }
  unfold process_request in Hcatch.
  assert (∀ S status reason text, Request (req_id request) ∈ S →
    keeps (works_with S) (send_json request status reason text : M (Node D W) unit)) as Hsend.
  { intros S status reason text HS. pose proof (works_responds (D := D) (W := W) S request HS) as Hresp.
    pose proof (works_ops (D := D) S) as Hops. by apply (kept_send_json _ request). }
  destruct (empty (request_path W request)) eqn:He; [right; intros S HS; by apply Hcatch, Hsend|].
  destruct (find_route _ _ _ _) as [h|[|]] eqn:Hf; [|right; intros S HS; by apply Hcatch, Hsend..].
  destruct (decide (h = open_event_stream)) as [->|Hh].
  - left. unfold handle_request, try_catch, process_request. by rewrite He, Hf.
  - right. intros S HS. apply Hcatch; [done|]. by apply request_works.
Qed.

(** A stream that is opened. *)
Lemma books_subscribe l n n' r : books l n → enabled l n (HttpRequest r) →
  requests_ n' = requests_ n ++ [MkSubscriber (req_id r) (req_connection r)] → world n' = world n →
  books (l ++ [OwnRequest (req_id r); SetCloseCallback (req_connection r) true;
    StartStream (req_id r) stream_headers; Chunk (req_id r) ready]) n'.
Proof.
  intros [Hsafe Hdead Hstr Hnr Hnc Hout Hown Hctx] (Hrk & Hrs & Hrn & Hck & Hcs & Hcn & Hco) Hr Hw.
  set (effects := [_; _; _; _]). assert (killed effects = []) as Hk by done.
  assert (∀ c, ¬ outgoing effects c) as Hno by (intros c (a & p & Ho); unfold effects in Ho; set_solver).
  split; rewrite ?Hr, ?Hw, ?fmap_app; try done.
  - apply safe_app. split; [done|]. rewrite app_nil_r. apply safe_uses_alive; [done|].
    repeat constructor; done.
  - intros x. rewrite killed_app, Hk, app_nil_r. apply Hdead.
  - intros s Hs. rewrite killed_app, Hk, app_nil_r, outgoing_app.
    apply elem_of_app in Hs as [Hs| ->%list_elem_of_singleton].
    + destruct (Hstr s Hs) as (H1' & H2' & H3' & H4' & H5'). split_and!; try done.
      intros [?|?]; [done|by eapply Hno].
    + split_and!; try done. intros [?|?]; [done|by eapply Hno].
  - apply NoDup_app. split; [done|]. split; [|apply NoDup_singleton]. by intros x Hx ->%list_elem_of_singleton.
  - apply NoDup_app. split; [done|]. split; [|apply NoDup_singleton]. by intros x Hx ->%list_elem_of_singleton.
  - intros c. rewrite outgoing_app. intros [Hc|Hc]; [by apply Hout|by apply Hno in Hc].
  - intros x Hx. rewrite killed_app, Hk, app_nil_r, elem_of_app.
    apply elem_of_app in Hx as [Hx|Hx]; [destruct (Hown x Hx); auto|]. right. right.
    assert (x = req_id r) as -> by (unfold effects in Hx; set_solver). by left.
  - intros c. rewrite killed_app, Hk, app_nil_r, outgoing_app. intros [Hc|Hc]; [by apply Hctx|by apply Hno in Hc].
Qed.

Lemma books_request l n request n' effects : books l n → enabled l n (HttpRequest request) →
  handle_request J cfg request n = (Ok tt, n') → trace n' = trace n ++ effects →
  books (l ++ effects ++ aftermath (HttpRequest request) effects) n'.
Proof.
  intros Hb He Hr Ht. cbn [aftermath]. destruct (request_runs request n) as [E|Hw]; rewrite ?E in Hr.
  - injection Hr as <-. cbn in Ht. rewrite <- !app_assoc in Ht. apply app_inv_head in Ht as <-.
    rewrite bool_decide_true by left. rewrite app_nil_r. by apply (books_subscribe l n).
  - destruct He as (Hrk & Hrs & Hrn & _). destruct (streams_prepared l n Hb) as [[Hready1 Hready2] Halive].
    specialize (Hw (Request (req_id request) :: streams n) ltac:(left)). rewrite Hr in Hw.
    destruct (books_works (Request (req_id request) :: streams n) l n n' effects Hb)
      as (Hb1 & Hr1 & Hn1 & Hok); [| |done|done|].
    { by intros x [->|Hx]%elem_of_cons; [|apply Halive]. }
    { split; [intros s Hs; right; by apply Hready1|]. by intros x [->|Hx]%elem_of_cons; [|apply Hready2]. }
    rewrite bool_decide_false by apply (ok_owned _ _ _ _ Hok). rewrite app_assoc.
    apply (books_free_one _ n' n' _ (Request (req_id request)) Hb1); [done|done| |cbn; lia|done|done|done|].
    + rewrite killed_app, not_elem_of_app. split; [done|]. intros Hx%(ok_killed _ _ _ _ Hok). cbn in Hx. lia.
    + rewrite Hr1. intros s Hs. split; [|done]. intros [= E]. apply Hrs, list_elem_of_fmap. by exists s.
Qed.

(** Every event. *)
Lemma books_event l n e n' effects : books l n → enabled l n e → on_event J cfg e n = (Ok tt, n') →
  trace n' = trace n ++ effects → books (l ++ effects ++ aftermath e effects) n'.
Proof.
  intros Hb He Hr Ht.
  assert (∀ S, Ops (works_with (D := D) (W := W) S)) as Hops by (intros; apply works_ops).
  assert (∀ S path t, Sends path t (works_with (D := D) (W := W) S)) as Hsends by (intros; by apply works_sends).
  assert ((∀ S, works_with S n n') → books (l ++ effects) n') as Hworks.
  { intros Hw. destruct (streams_prepared l n Hb) as [Hready Halive].
    by destruct (books_works _ l n n' effects Hb Halive Hready (Hw _) Ht). }
  assert (∀ m : M (Node D W) unit, m n = (Ok tt, n') → (∀ S, keeps (works_with S) m) → books (l ++ effects) n') as Hm.
  { intros m Hmr Hk. apply Hworks. intros S. specialize (Hk S n). by rewrite Hmr in Hk. }
  destruct e as [request|fuel| | |c|status c|request context|context]; cbn [aftermath]; rewrite ?app_nil_r.
  - by apply (books_request l n).
  - apply (Hm _ Hr). intros S. cbn [on_event].
    apply keeps_bind; [apply _|by apply receive_works|intros b; apply keeps_ret, _].
  - apply (Hm _ Hr). intros S. by apply announce_works.
  - apply (Hm _ Hr). intros S. apply kept_timer; apply _.
  - by apply (books_close l n).
  - destruct He. eapply books_done; [exact Hb| |exact Hr|exact Ht|done|done]. intros S. solve_keeps.
  - destruct He. eapply books_done; [exact Hb| |exact Hr|exact Ht|done|done]. intros S.
    by apply summary_works.
  - destruct He. eapply (books_done (mret tt)); [exact Hb| |exact Hr|exact Ht|done|done]. intros S. solve_keeps.
Qed.
End history.

(** ** Properties *)

Lemma killed_streams l : killed (l ≫= stream_freed) = owned l.
Proof. unfold killed, owned. induction l as [|s l IH]; [done|]. cbn. by rewrite IH. Qed.

Lemma safe_streams dead l : NoDup (sub_request <$> l) →
  (∀ s, s ∈ l → Request (sub_request s) ∉ dead) → (∀ s, s ∈ l → Connection (sub_connection s) ∉ dead) →
  safe dead (l ≫= stream_freed) = true.
Proof.
  revert dead. induction l as [|s l IH]; intros dead Hnd Hr Hc; [done|].
  cbn in Hnd. apply NoDup_cons in Hnd as [Hs Hnd]. change ((s :: l) ≫= stream_freed) with (stream_freed s ++ (l ≫= stream_freed)).
  cbn [stream_freed app]. rewrite !safe_cons. split; [constructor; [|constructor]; apply Hc; left|].
  split; [constructor; [|constructor]; cbn; apply Hr; left|]. cbn. apply IH; [done|..]; intros s' Hs'.
  - intros [E|?]%elem_of_cons; [|by apply (Hr s'); [right|]]. injection E as E. apply Hs, list_elem_of_fmap. by exists s'.
  - intros [?|?]%elem_of_cons; [done|]. by apply (Hc s'); [right|].
Qed.

Section properties.
Context (J : Type) `{JsonC J} `{Sqlite D} `{FreshNames W} `{Unordered} (cfg : Config).

Lemma history_books (n0 : Node D W) l n : never_refuses W → history J cfg n0 l n → requests_ n0 = [] → books l n.
Proof.
  intros Hnever. induction 1 as [n0|n0 l n1 e effects n2 _ IH He Hr Ht]; intros Hn0.
  - split; rewrite ?Hn0; [done|..].
    + by intros x ?%not_elem_of_nil.
    + by intros s ?%not_elem_of_nil.
    + apply NoDup_nil_2.
    + apply NoDup_nil_2.
    + by intros c (a & p & ?%not_elem_of_nil).
    + by intros r ?%not_elem_of_nil.
    + by intros c (a & p & ?%not_elem_of_nil).
  - apply (books_event J cfg Hnever l n1 e n2 effects (IH Hn0) He Hr Ht).
Qed.

(** C4: no request, connection or context is used after it was freed.  Over any run of
    the daemon in an order libevent can produce, as long as evhttp_make_request
    never fails, with what libevent frees after the callbacks and with the
    destructor of the event stream at the end: nothing is used or freed after it
    was freed, by the daemon or by libevent, every request the daemon took over
    is freed, and the context of an outgoing request is deleted with its
    connection. *)
Theorem daemon_frees_once (n0 n : Node D W) l : never_refuses W → requests_ n0 = [] → history J cfg n0 l n →
  let closing := requests_ n ≫= stream_freed in
  destroy_stream n = (Ok tt, with_requests [] (with_trace (trace n ++ closing) n)) ∧
  safe [] (l ++ closing) = true ∧
  (∀ r, OwnRequest r ∈ l ++ closing → Request r ∈ killed (l ++ closing)) ∧
  (∀ c, outgoing l c → Context c ∈ killed (l ++ closing) ↔ Connection c ∈ killed (l ++ closing)).
Proof.
  intros Hnever Hn0 Hh closing. destruct (history_books n0 l n Hnever Hh Hn0) as [Hsafe _ Hstr Hnr _ _ Hown Hctx].
  split; [apply destroy_stream_run|]. split_and!.
  - apply safe_app. split; [done|]. rewrite app_nil_r. apply safe_streams; [done|..]; intros s Hs; by apply Hstr.
  - intros r [Hr|Hr]%elem_of_app; rewrite killed_app, elem_of_app; unfold closing; rewrite killed_streams.
    + destruct (Hown r Hr) as [?|(s & -> & Hs)%list_elem_of_fmap]; [by left|right].
      apply list_elem_of_fmap. by exists s.
    + apply list_elem_of_bind in Hr as (s & Hr & _). unfold stream_freed in Hr. set_solver.
  - intros c Hc. rewrite killed_app, !elem_of_app, (Hctx c Hc). unfold closing. rewrite killed_streams.
    assert (∀ x, x ∈ owned (requests_ n) → ∃ r, x = Request r) as Howned.
    { intros x (s & -> & _)%list_elem_of_fmap. by eexists. }
    split; (intros [?|Hin%Howned]; [by left|]); by destruct Hin.
Qed.
End properties.

(** ** Witness *)

(** A browser opens the stream, another posts a message, which goes to the peers;
    the first peer answers. *)
Definition open_stream : event :=
  HttpRequest (MkHttpRequest (-3) (-30) (Some "/api/v1/events") EVHTTP_REQ_GET None EmptyString).
Definition post_hello : event :=
  HttpRequest (MkHttpRequest (-4) (-40) (Some "/api/v1/messages") EVHTTP_REQ_POST (Some "application/json")
    (req_input hello_request)).
Definition first_answer : event := ReplicationDone (Some 200) 1.

Definition idle_node : Node mdb reliable := with_requests [] (service_node store0).
Definition then_ (e : event) (n : Node mdb reliable) : Node mdb reliable := (on_event jtree plain_config e n).2.
Definition effects_of (n n' : Node mdb reliable) : list effect := drop (length (trace n)) (trace n').

Definition streaming_node : Node mdb reliable := then_ open_stream idle_node.
Definition posted_node : Node mdb reliable := then_ post_hello streaming_node.
Definition answered_node : Node mdb reliable := then_ first_answer posted_node.

Definition the_history : list effect :=
  (([] ++ effects_of idle_node streaming_node ++ aftermath open_stream (effects_of idle_node streaming_node)) ++
   effects_of streaming_node posted_node ++ aftermath post_hello (effects_of streaming_node posted_node)) ++
  effects_of posted_node answered_node ++ aftermath first_answer (effects_of posted_node answered_node).

Definition opens (c : Z) (e : effect) : bool := match e with OpenConnection c' _ _ => c' =? c | _ => false end.

Lemma not_outgoing l c : existsb (opens c) l = false → ¬ outgoing l c.
Proof.
  intros Hl (a & p & Hin). apply not_true_iff_false in Hl. apply Hl, existsb_exists.
  exists (OpenConnection c a p). split; [by apply list_elem_of_In|]. cbn. apply Z.eqb_refl.
Qed.

(** Nothing in a list that was computed. *)
Ltac not_listed :=
  match goal with
  | |- ¬ outgoing _ _ => apply not_outgoing; by vm_compute
  | |- ¬ ?P => apply (bool_decide_eq_false P); by vm_compute
  end.

Lemma the_history_runs : history jtree plain_config idle_node the_history answered_node.
Proof.
  apply (history_event _ _ _ _ posted_node first_answer); [|split|by vm_compute|by vm_compute].
  - apply (history_event _ _ _ _ streaming_node post_hello); [| |by vm_compute|by vm_compute].
    + apply (history_event _ _ _ _ idle_node open_stream); [constructor| |by vm_compute|by vm_compute].
      split_and!; [not_listed|not_listed|done|not_listed|not_listed|done|not_listed].
    + split_and!; [not_listed|not_listed|done|not_listed|not_listed|done|not_listed].
  - exists "10.0.0.2", 7777. apply (bool_decide_eq_true (_ ∈ _)). by vm_compute.
  - not_listed.
Qed.

Lemma daemon_frees_once_witness :
  FreeConnection 1 ∈ the_history ∧ requests_ answered_node = [MkSubscriber (-3) (-30)] ∧
  safe [] (the_history ++ [SetCloseCallback (-30) false; FreeRequest (-3)]) = true.
Proof.
  split; [apply (bool_decide_eq_true (_ ∈ _)); by vm_compute|]. split; [by vm_compute|].
  destruct (daemon_frees_once jtree plain_config idle_node answered_node the_history) as (_ & Hs & _).
  - by intros w c r path.
  - done.
  - apply the_history_runs.
  - exact Hs.
Defined.
