(* ===== verification/Knowledge.v ===== *)
(** * What one node knows of the messages of a network

    A node of a network in which only the nodes write messages: [K] lists the
    messages written so far.  What a node stores and sends is in [K], as long as
    what it receives on /api/v1/replicate and /api/v1/sync/messages was sent by a
    node that knew [K] ([carries]).  Network.v puts such nodes together. *)

From S2P Require Import Prelude Cxx Protocol Utf8 Json MessageCodec Sqlite MessageStore StoreProperties.
From S2P Require Import Env Node Clock PeerRegistry Discovery DiscoveryProperties EventStream Replication.
From S2P Require Import MessageService Http HttpApi HttpApiProperties Sync SyncProperties Main Convergence.
From S2P Require Import Daemon Frame Application.
Open Scope Z_scope.

(** ** The messages nodes write *)

Definition written_by (cfg : Config) (m : ChatMessage) : Prop := ∃ q now text,
  m = local_message cfg q now text ∧ 1 ≤ q ≤ i64_max ∧ in_i64 now ∧ acceptable_body text.
Definition written_message (m : ChatMessage) : Prop := ∃ cfg, usable cfg ∧ written_by cfg m.

Lemma written_valid m : written_message m → valid_message m ∧ nul_free m = true.
Proof. intros (cfg & Hus & q & now & text & -> & ? & ? & ?). by apply usable_message. Qed.

Lemma colon_split s1 s2 a b : all_chars node_id_char s1 = true → all_chars node_id_char s2 = true →
  s1 +:+ (":" +:+ a) = s2 +:+ (":" +:+ b) → s1 = s2 ∧ a = b.
Proof.
  revert s2. induction s1 as [|c s1 IH]; intros [|c2 s2]; cbn; rewrite ?andb_true_iff; intros H1 H2 E; injection E as.
  - by subst.
  - subst. by destruct H2 as [H2 _]; vm_compute in H2.
  - subst. by destruct H1 as [H1 _]; vm_compute in H1.
  - destruct H1 as [_ H1], H2 as [_ H2]. subst. by edestruct (IH s2 H1 H2) as [-> ->].
Qed.

(** The id of a message determines its origin and its number, and they the id. *)
Lemma written_id m m' : written_message m → written_message m' →
  message_id m = message_id m' ↔ origin m = origin m' ∧ sequence m = sequence m'.
Proof.
  intros (cfg & Hus & q & now & text & -> & _) (cfg' & Hus' & q' & now' & text' & -> & _). cbn.
  split; [|by intros [-> ->]]. intros E.
  apply colon_split in E as [? Hq]; [|by apply is_valid_node_id_true, us_node_id..].
  unfold to_string in Hq. by simplify_eq.
Qed.

(** ** What is sent *)

(** A request that carries messages carries messages of [K]. *)
Definition carries (J : Type) `{JsonC J} (K : list ChatMessage) (r : string * string) : Prop :=
  (r.1 = "/api/v1/replicate" → ∃ m, m ∈ K ∧ has_text J m r.2) ∧
  (r.1 = "/api/v1/sync/messages" → ∃ l, l ⊆ K ∧ (length l ≤ 50)%nat ∧
    (size r.2 ≤ i32_max → text_of (batch (J := J) l) r.2)).

Lemma carries_mono `{JsonC J} K K' r : K ⊆ K' → carries J K r → carries J K' r.
Proof.
  intros HK [H1 H2]. split; intros Hp.
  - destruct (H1 Hp) as (m & ? & ?). exists m. split; [by apply HK|done].
  - destruct (H2 Hp) as (l & ? & ? & ?). exists l. split_and!; [by etransitivity|done..].
Qed.

Lemma forget_entries k a : entries (forget k a) ⊆ entries a.
Proof. intros x Hx. cbn in Hx. rewrite <- (take_drop k (entries a)). apply elem_of_app. by right. Qed.

(** What taking a message does to the list and to the last sequences. *)
Lemma add_result_effect full a m b a' : (b, a') = add_result full a m →
  entries a' ⊆ m :: entries a ∧
  ∀ o, default 0 (lasts a' !! o) =
    if decide (o = origin m ∧ b = true) then
      match lasts a !! o with Some last => Z.max last (sequence m) | None => sequence m end
    else default 0 (lasts a !! o).
Proof.
  assert (∀ a0, entries a0 ⊆ entries a → lasts a0 = lasts a → (b, a') = put_message a0 m →
    entries a' ⊆ m :: entries a ∧ ∀ o, default 0 (lasts a' !! o) =
    if decide (o = origin m ∧ b = true) then
      match lasts a !! o with Some last => Z.max last (sequence m) | None => sequence m end
    else default 0 (lasts a !! o)) as Hput.
  { intros a0 He Hl. unfold put_message. destruct (clashes a0 m); intros [= -> ->].
    - split; [set_solver|]. intros o. by rewrite decide_False, Hl by naive_solver.
    - cbn [append entries lasts]. split; [set_solver|]. intros o. change (<[_ := _]> (lasts a0)) with (raise (lasts a0) m).
      rewrite raise_lookup, Hl. destruct (decide (o = origin m)) as [->|]; [by rewrite decide_True|].
      by rewrite decide_False by naive_solver. }
  unfold add_result. destruct full; intros Hr; [|by apply (Hput a)].
  apply (Hput (forget 100 a)); [apply forget_entries|done|done].
Qed.

(** ** The invariant of a node *)

Lemma run_cache `{SqliteLaws D} {W} m (n : Node D W) r s' : db_ok (store_ n) → 1 ≤ sequence m →
  add m (store_ n) = (r, s') → messages_ s' ⊆ m :: messages_ (store_ n) ++ entries (node_log n).
Proof. intros Hdb Hm Ea x Hx. destruct (add_cache _ _ _ _ Hdb Hm Ea x Hx) as [?|[?| ->]]; set_solver. Qed.

Section knowledge.
Context (J : Type) `{JsonLaws J} `{SqliteLaws D} `{EnvLaws W} `{Unordered} (cfg : Config).
Implicit Types n : Node D W.

Definition own_last n : Z := default 0 (lasts (node_log n) !! id_node_id (identity_ cfg)).

(** The stored messages are in [K], and the origins with a last sequence have
    messages in it; of its own messages in [K] the node has recorded the last, and
    its next message has a higher number. *)
Record knows (K : list ChatMessage) n : Prop := {
  kn_db : db_ok (store_ n);
  kn_log : entries (node_log n) ⊆ K;
  kn_cache : messages_ (store_ n) ⊆ K;
  kn_next : 1 ≤ next_sequence_ n;
  kn_last : own_last n < next_sequence_ n;
  kn_own m : m ∈ K → origin m = id_node_id (identity_ cfg) → sequence m ≤ own_last n;
  kn_origins o : 0 < default 0 (lasts (node_log n) !! o) → o ∈ origin <$> K;
}.

(** Nothing outside [K] is stored or sent, and no number is given. *)
Definition learns (K : list ChatMessage) n n' : Prop :=
  knows K n → knows K n' ∧ next_sequence_ n' = next_sequence_ n ∧
    ∃ l, trace n' = trace n ++ l ∧ Forall (carries J K) (posted l).

#[export] Instance learns_preorder K : PreOrder (learns K).
Proof.
  split.
  - intros n Hn. split_and!; [done..|]. exists []. rewrite app_nil_r. split; [done|constructor].
  - intros n1 n2 n3 H12 H23 Hn. destruct (H12 Hn) as (Hn2 & Hq & l & Ht & Hl).
    destruct (H23 Hn2) as (Hn3 & Hq' & l' & Ht' & Hl'). split; [done|]. split; [congruence|].
    exists (l ++ l'). rewrite Ht', Ht, posted_app, <- app_assoc. split; [done|by apply Forall_app].
Qed.

(** What leaves the log, the cached list, the counter and the trace. *)
Lemma knows_same K n n' : db_ok (store_ n') → node_log n' = node_log n → messages_ (store_ n') = messages_ (store_ n) →
  next_sequence_ n' = next_sequence_ n → knows K n → knows K n'.
Proof. intros Hdb Hl Hm Hq [? ? ? ? ? ? ?]. split; unfold own_last in *; by rewrite ?Hl, ?Hm, ?Hq. Qed.

Lemma learns_same K n n' : (db_ok (store_ n) → db_ok (store_ n')) → (db_ok (store_ n) → node_log n' = node_log n) →
  (db_ok (store_ n) → messages_ (store_ n') = messages_ (store_ n)) → next_sequence_ n' = next_sequence_ n →
  trace n' = trace n → learns K n n'.
Proof.
  intros Hdb Hl Hm Hq Ht Hn. pose proof (kn_db _ _ Hn) as Hok. split; [by apply (knows_same K n); auto|].
  split; [done|]. exists []. rewrite app_nil_r. split; [done|constructor].
Qed.

Lemma learns_emit K n e : Forall (carries J K) (post_of e) → learns K n (with_trace (trace n ++ [e]) n).
Proof.
  intros He Hn. split; [by apply (knows_same K n), Hn; try apply Hn|]. split; [done|]. exists [e]. split; [done|].
  unfold posted. cbn. by rewrite app_nil_r.
Qed.

(** A query of the store. *)
Lemma learns_query {A} K (m : M (Store D) A) n :
  (∀ s r s', db_ok s → m s = (r, s') → db_ok s' ∧ abs s' = abs s ∧ messages_ s' = messages_ s) →
  learns K n (on_store m n).2.
Proof.
  intros Hm Hn. rewrite on_store_run. destruct (m (store_ n)) as [r s'] eqn:E.
  destruct (Hm _ _ _ (kn_db _ _ Hn) E) as (? & ? & ?). by apply learns_same.
Qed.

#[export] Instance learns_calls K : Calls (learns K).
Proof.
  split; [apply _|..].
  - intros n w. by apply learns_same.
  - intros n e He. apply learns_emit. by destruct e; try constructor.
  - intros n l. by apply learns_same.
  - intros i n. apply learns_query. intros s r s' Hs E.
    destruct (contains_runs i (with_store s n) Hs) as (r' & s2 & E' & ? & ? & ? & _).
    rewrite on_store_run in E'. cbn in E'. rewrite E in E'. cbn in E'. by simplify_eq.
  - intros n. apply learns_query. intros s r s' Hs E.
    eapply (spec_run _ _ _ _ _ _ _ (sequence_summary_spec (view (database s)) (messages_ s) (lo_range _ (db_log _ Hs))))
      in E; [|done].
    assert (at_view (view (database s)) (messages_ s) s') as Hv by (destruct r; [by destruct E|done|done]).
    rewrite (db_ok_view _ Hs) in Hv. by apply at_view_ok in Hv; [|apply Hs..].
Qed.

Lemma learns_makes K path payload : carries J K (path, payload) → Makes path payload (learns K).
Proof. intros Hc n c r headers. apply learns_emit. by constructor. Qed.

#[export] Instance learns_summary K payload : Makes "/api/v1/sync/summary" payload (learns K).
Proof. by apply learns_makes. Qed.

(** A message is offered to the store: it is lost, *)
Lemma knows_lost K m n e s' : knows K n → 1 ≤ sequence m → on_store (add m) n = (Throw e, with_store s' n) →
  knows K (with_store s' n).
Proof.
  intros [Hdb Hlog Hcache Hnext Hlast Hown Horig] Hm E. rewrite on_store_run in E. injection E as Er Es.
  destruct (add m (store_ n)) as [r0 s0] eqn:Ea. cbn in Er, Es. subst r0 s0.
  destruct (add_run _ _ _ _ Hdb Hm Ea) as [Hdb' Hres].
  assert (entries (abs s') ⊆ entries (node_log n) ∧ lasts (abs s') = lasts (node_log n) ∧ messages_ s' ⊆ K)
    as (Hent & Hl & Hc).
  { unfold node_log in *. destruct Hres as [[-> ->]|(_ & -> & [k Hk])]; [done|]. split; [apply forget_entries|]. split; [done|].
    intros x Hx. apply Hlog, (forget_entries 100). rewrite Hk. apply elem_of_app. by left. }
  split; unfold own_last; change (node_log (with_store s' n)) with (abs s'); rewrite ?Hl; try done.
  by etransitivity.
Qed.

(** or taken or refused: then [K'] may hold it too. *)
Lemma knows_taken K K' m n b s' : knows K n → K ⊆ K' → m ∈ K' → 1 ≤ sequence m →
  (∀ x, x ∈ K' → origin x = id_node_id (identity_ cfg) → x ∈ K ∨ x = m) →
  (origin m = id_node_id (identity_ cfg) → sequence m < next_sequence_ n ∧ (b = true ∨ sequence m ≤ own_last n)) →
  on_store (add m) n = (Ok b, with_store s' n) → knows K' (with_store s' n).
Proof.
  intros [Hdb Hlog Hcache Hnext Hlast Hown Horig] HK HmK Hm HK' Hseq E.
  destruct (add_runs m n Hdb Hm) as (r & s2 & E2 & Hdb' & Hres).
  rewrite E2 in E. injection E as -> ->. rewrite on_store_run in E2. injection E2 as Er Es.
  destruct (add m (store_ n)) as [r0 s0] eqn:Ea. cbn in Er, Es. subst r0 s0.
  pose proof (run_cache m n _ _ Hdb Hm Ea) as Hc.
  destruct Hres as (_ & Hres & _). apply add_result_effect in Hres as [Hent Hl].
  pose proof Hl as Hlo. specialize (Hl (id_node_id (identity_ cfg))). unfold own_last in *.
  split; unfold own_last; change (node_log (with_store s' n)) with (abs s'); try done.
  - intros x [->|Hx]%Hent%elem_of_cons; [done|by apply HK, Hlog].
  - intros x [->|[Hx|Hx]%elem_of_app]%Hc%elem_of_cons; [done|by apply HK, Hcache|by apply HK, Hlog].
  - rewrite Hl. destruct (decide (_ ∧ _)) as [[Ho _]|]; [|done]. destruct (Hseq (eq_sym Ho)) as [? _].
    destruct (lasts (node_log n) !! _); cbn in *; lia.
  - intros x Hx Ho. rewrite Hl. destruct (HK' x Hx Ho) as [HxK| ->].
    + specialize (Hown x HxK Ho). destruct (decide (_ ∧ _)) as [[Hom _]|]; [|done].
      destruct (lasts (node_log n) !! _); cbn in *; lia.
    + destruct (Hseq Ho) as [_ [-> |Hle]].
      * rewrite decide_True by done. destruct (lasts (node_log n) !! _); lia.
      * destruct (decide (_ ∧ _)); [|done]. destruct (lasts (node_log n) !! _); cbn in *; lia.
  - intros o. rewrite Hlo. destruct (decide (o = origin m ∧ b = true)) as [[Eo _]|].
    + intros _. apply list_elem_of_fmap. by exists m.
    + intros (x & -> & Hx)%Horig%list_elem_of_fmap. apply list_elem_of_fmap. exists x. split; [done|by apply HK].
Qed.

(** A message of [K] is stored. *)
Lemma learns_add K m : m ∈ K → 1 ≤ sequence m → keeps (learns K) (on_store (add m)).
Proof.
  intros HmK Hm n Hn. destruct (add_runs m n (kn_db _ _ Hn) Hm) as (r & s' & E & _ & Hres). rewrite E. cbn [snd].
  split; [|split; [done|]; exists []; rewrite app_nil_r; split; [done|constructor]].
  destruct r as [b|e|]; [|by eapply knows_lost|done].
  apply (knows_taken K K m n b); [done..|by left| |done]. intros Ho. pose proof (kn_own _ _ Hn m HmK Ho).
  pose proof (kn_last _ _ Hn). split; [lia|by right].
Qed.

(** ** The events that write no message *)

Context (K : list ChatMessage) (HK : ∀ m, m ∈ K → written_message m).

Lemma learns_known m : m ∈ K → keeps (learns K) (on_store (add m)).
Proof. intros Hm. apply learns_add; [done|]. apply (vm_sequence m), written_valid, HK, Hm. Qed.

Lemma known_parsed m : m ∈ K → parse_message (message_json (J := J) m) = Some m.
Proof.
  intros Hm. destruct (written_valid m (HK m Hm)) as [Hv Hn].
  by rewrite parse_message_json, (proj2 (truncated_fixed m) Hn), valid_acceptable.
Qed.

(** A body that is refused ends the handler. *)
Lemma refused_read request limit complete invalid n (j : J) :
  has_json_content_type request = false ∨ limit < size (req_input request) →
  (read_json_object J request limit complete invalid n).1 ≠ Ok (Some j).
Proof.
  intros Hr. destruct (has_json_content_type request) eqn:Hct.
  - destruct Hr as [?|Hsz]; [done|]. by rewrite read_json_object_large.
  - unfold read_json_object, send_unsupported_media_type. rewrite Hct. cbn [negb].
    match goal with |- context [send_json ?q ?a ?b ?c] => destruct (send_json_ok q a b c n) as [n' E] end.
    by rewrite (bind_run _ _ _ _ _ E).
Qed.

Lemma learns_refused {A} (m : M (Node D W) (option A)) (k : option A → M (Node D W) unit) n :
  keeps (learns K) m → (∀ j, (m n).1 ≠ Ok (Some j)) → k None = mret tt → learns K n ((m ≫= k) n).2.
Proof.
  intros Hm Hno Hk. specialize (Hm n). unfold mbind, M_bind.
  destruct (m n) as [[[j|]|e|] n1]; cbn in *; [by destruct (Hno j)|by rewrite Hk|done..].
Qed.

Lemma known_items request l accepted : l ⊆ K → keeps (learns K) (ingest_items (J := J) request l accepted).
Proof.
  revert accepted. induction l as [|m l IH]; intros accepted Hl; cbn [ingest_items]; [solve_keeps|].
  assert (m ∈ K) as Hm by (apply Hl; left). rewrite known_parsed by done.
  apply keeps_bind; [apply _|eapply kept_ingest_sync; [apply _|by apply learns_known]|intros b]. apply IH. set_solver.
Qed.

Lemma learns_replicate request n : carries J K (request_path W request, req_input request) →
  MkRoute (req_command request) (request_path W request) replicate_message ∈ routes →
  learns K n (run_handler J cfg replicate_message request n).2.
Proof.
  intros [Hc _] Hr. assert (request_path W request = "/api/v1/replicate") as Hp
    by (unfold routes in Hr; set_solver). cbn in Hc. rewrite Hp in Hr. destruct (Hc Hp) as (m & Hm & Ht).
  destruct (decide (has_json_content_type request = true ∧ size (req_input request) ≤ 4096)) as [[Hj Hsz]|Hno].
  - assert (posts W request "/api/v1/replicate" replicate_message) as Hposts by done.
    rewrite <- (posts_run cfg _ _ _ n Hposts). destruct (written_valid m (HK m Hm)) as [Hv Hn].
    rewrite (replicate_accepts_run cfg request m n Hposts Hv Hn Ht Hsz).
    revert n. change (keeps (learns K) (accepted ← ingest_replica J m; send_json request HTTP_OK "OK"
      (if accepted : bool then json_lit "{'status':'accepted'}" else json_lit "{'status':'duplicate'}"))).
    apply keeps_bind; [apply _|eapply kept_ingest_replica; [apply _|by apply learns_known]|intros b; solve_keeps].
  - apply learns_refused; [eapply kept_read; apply _| |done]. intros j. apply refused_read.
    unfold max_request_bytes. destruct (has_json_content_type request); [right|by left].
    apply Z.nle_gt. naive_solver.
Qed.

Lemma learns_batch request n : carries J K (request_path W request, req_input request) →
  MkRoute (req_command request) (request_path W request) sync_messages ∈ routes →
  learns K n (run_handler J cfg sync_messages request n).2.
Proof.
  intros [_ Hc] Hr. assert (request_path W request = "/api/v1/sync/messages") as Hp
    by (unfold routes in Hr; set_solver). cbn in Hc. rewrite Hp in Hr. destruct (Hc Hp) as (l & Hl & Hlen & Ht).
  destruct (decide (has_json_content_type request = true ∧ size (req_input request) ≤ max_sync_request_bytes))
    as [[Hj Hsz]|Hno].
  - assert (posts W request "/api/v1/sync/messages" sync_messages) as Hposts by done.
    rewrite <- (posts_run cfg _ _ _ n Hposts).
    rewrite (sync_messages_run cfg request l n Hposts) by (done || apply Ht; unfold max_sync_request_bytes in Hsz; unfold_ints; lia).
    match goal with |- learns K n (?m n).2 => cut (keeps (learns K) m); [by intros Hk; apply Hk|] end.
    apply keeps_bind; [apply _|by apply known_items|intros [a|]; solve_keeps].
  - apply learns_refused; [eapply kept_read; apply _| |done]. intros j. apply refused_read.
    destruct (has_json_content_type request); [right|by left]. apply Z.nle_gt. naive_solver.
Qed.

(** Every handler but the one that writes a message. *)
Lemma learns_handler h request : carries J K (request_path W request, req_input request) →
  MkRoute (req_command request) (request_path W request) h ∈ routes → h ≠ create_message →
  keeps (learns K) (run_handler J cfg h request).
Proof.
  intros Hc Hr Hh. destruct (reads_only h) eqn:Hro; [by eapply kept_reader; [apply _..|]|].
  destruct h; try done.
  - intros n. by apply learns_replicate.
  - intros n. by apply learns_batch.
  - eapply kept_subscribe, _.
Qed.

(** The batch for a peer holds stored messages. *)
Lemma learns_missing context text : keeps (learns K) (send_missing J cfg context text).
Proof.
  intros n. destruct (send_missing_cases cfg context text n) as [[r ->]|(l & Hl & Hlen & ->)]; [done|].
  intros Hn. assert (l ⊆ K) as HlK by (intros m Hm; by apply (kn_cache _ _ Hn), Hl).
  destruct (batch_text (J := J) l) as (t & Hser & Ht).
  { apply Forall_forall. intros m Hm. by apply written_valid, HK, HlK. }
  rewrite (bind_run _ _ _ _ _ (Hser _ n)). revert Hn. unfold send_batch.
  assert (Makes "/api/v1/sync/messages" t (learns K)) as Hmakes.
  { apply learns_makes. split; [done|]. intros _. by exists l. }
  apply (calls_sends (learns K) "/api/v1/sync/messages" t), keeps_ret, _.
Qed.

Lemma learns_answer request context : keeps (learns K) (summary_response_callback J cfg request context).
Proof.
  unfold summary_response_callback, handle_summary_response. solve_keeps; apply learns_missing.
Qed.

Lemma learns_other e : (∀ request, e ≠ HttpRequest request) → keeps (learns K) (on_event J cfg e : M (Node D W) unit).
Proof.
  intros He. apply kept_other; [apply _..|done|intros; apply learns_answer|intros fuel|].
  - eapply kept_receive; [apply _|]. intros. eapply kept_datagram; [apply _|..]; intros; [by apply learns_same|].
    unfold update. solve_keeps. intros n. by apply learns_same.
  - eapply kept_announce; [apply _|]. intros. by apply learns_same.
Qed.

End knowledge.

(** ** Writing a message *)

Section writing.
Context (J : Type) `{JsonLaws J} `{SqliteLaws D} `{EnvLaws W} `{Unordered} (cfg : Config).
Implicit Types n : Node D W.

(** At most one message is written; it has the next number. *)
Definition grown (K K' : list ChatMessage) n : Prop :=
  K' = K ∨ ∃ m, K' = m :: K ∧ written_by cfg m ∧ sequence m = next_sequence_ n.

Definition advances (K : list ChatMessage) n n' : Prop := ∃ K',
  grown K K' n ∧ knows cfg K' n' ∧ next_sequence_ n ≤ next_sequence_ n' ≤ next_sequence_ n + 1 ∧
  ∃ l, trace n' = trace n ++ l ∧ Forall (carries J K') (posted l).

Lemma learns_advances K n n' : knows cfg K n → learns J cfg K n n' → advances K n n'.
Proof. intros Hn Hl. destruct (Hl Hn) as (Hn' & Hq & Ht). exists K. split_and!; [by left|done|lia|lia|done]. Qed.

Lemma keeps_advances {A} K (m : M (Node D W) A) n : knows cfg K n → keeps (learns J cfg K) m → advances K n (m n).2.
Proof. intros Hn Hm. by apply learns_advances. Qed.

(** Then something that writes none. *)
Lemma advances_then K n n1 n2 : advances K n n1 → (∀ K', grown K K' n → learns J cfg K' n1 n2) → advances K n n2.
Proof.
  intros (K' & Hg & Hk & Hq & l & Ht & Hl) Hrest. destruct (Hrest K' Hg Hk) as (Hk2 & Hq2 & l2 & Ht2 & Hl2).
  exists K'. rewrite Hq2. split_and!; [done|done|lia|lia|]. exists (l ++ l2).
  rewrite Ht2, Ht, posted_app, <- app_assoc. split; [done|by apply Forall_app].
Qed.

(** Only a message of the same origin and number clashes with a written one. *)
Lemma written_clash K n m : (∀ x, x ∈ K → written_message x) → knows cfg K n → written_message m →
  origin m = id_node_id (identity_ cfg) → own_last cfg n < sequence m → clashes (node_log n) m = false.
Proof.
  intros HK Hn Hm Ho Hseq. apply not_true_is_false. intros (x & Hx & Hc)%existsb_exists.
  apply list_elem_of_In, (kn_log _ _ _ Hn) in Hx.
  assert (origin m = origin x ∧ sequence m = sequence x) as [Eo Es].
  { unfold conflicts in Hc. apply orb_true_iff in Hc as [Hc|Hc].
    - apply str_eqb_true in Hc. by apply written_id; [|apply HK|].
    - apply andb_true_iff in Hc as [?%str_eqb_true ?%Z.eqb_eq]. done. }
  pose proof (kn_own _ _ _ Hn x Hx ltac:(congruence)). lia.
Qed.

(** The message is sent to the peers as it was stored. *)
Lemma learns_replicate_local K m : m ∈ K → written_message m → keeps (learns J cfg K) (replicate_local J cfg m : M (Node D W) unit).
Proof.
  intros Hm Hw n. destruct (valid_has_text (J := J) m) as (t & Ht); [by apply written_valid|].
  unfold replicate_local. rewrite (message_text_bind _ _ _ _ Ht).
  assert (Makes "/api/v1/replicate" t (learns (D := D) (W := W) J cfg K)) as Hmakes.
  { apply learns_makes. split; [|done]. intros _. by exists m. }
  apply kept_broadcast; apply _.
Qed.

(** From the moment the message has its number. *)
Lemma store_advances K now text n w : (∀ m, m ∈ K → written_message m) → usable cfg → knows cfg K n →
  acceptable_body text → in_i64 now →
  let m := local_message cfg (next_sequence_ n) now text in
  advances K n ((on_store (add m);; publish J m;; replicate_local J cfg m;; mret m)
    (with_next_sequence (next_sequence_ n + 1) (with_world w n))).2.
Proof.
  intros HK Hus Hn Hbody Hnow m. set (n1 := with_next_sequence _ _).
  assert (knows cfg K n1) as Hn1.
  { destruct Hn as [? ? ? ? Hlast ? ?]. split; try done; [cbn; lia|].
    change (own_last cfg n1) with (own_last cfg n). cbn. lia. }
  pose proof (kn_next _ _ _ Hn) as Hq. pose proof (kn_last _ _ _ Hn) as Hlast.
  destruct (add_runs m n1 (kn_db _ _ _ Hn1) Hq) as (r & s' & E & _ & Hres). destruct r as [b|e|]; [| |done].
  - destruct Hres as (Hmax & Hres & _). rewrite (bind_run _ _ _ _ _ E).
    assert (written_by cfg m) as Hw by (by exists (next_sequence_ n), now, text).
    assert (written_message m) as Hwm by by exists cfg.
    apply add_result_free in Hres as (-> & _); [|by apply (written_clash K n m)].
    assert (knows cfg (m :: K) (with_store s' n1)) as Hn2.
    { apply (knows_taken cfg K (m :: K) m n1 true); [done|set_solver|left|done| | |done].
      - intros x [->|Hx]%elem_of_cons; auto.
      - intros _. cbn. split; [lia|by left]. }
    assert (keeps (learns J cfg (m :: K)) (publish J m;; replicate_local J cfg m;; mret m : M (Node D W) _)) as Hrest.
    { solve_keeps. apply learns_replicate_local; [left|done]. }
    destruct (Hrest _ Hn2) as (Hn3 & Hq3 & Ht3). exists (m :: K). rewrite Hq3. cbn.
    split_and!; [right; by exists m|done|lia|lia|exact Ht3].
  - rewrite (bind_throw _ _ _ _ _ E). pose proof (knows_lost cfg K m n1 e s' Hn1 Hq E) as Hn2. exists K.
    split_and!; [by left|exact Hn2|cbn; lia|cbn; lia|]. exists []. rewrite app_nil_r. split; [done|constructor].
Qed.

Lemma create_advances K text n : (∀ m, m ∈ K → written_message m) → usable cfg → knows cfg K n →
  acceptable_body text → next_sequence_ n < u64_max → (create_local J cfg text n).1 ≠ Undefined →
  advances K n (create_local J cfg text n).2.
Proof.
  intros HK Hus Hn Hbody Hmax Hu. pose proof (current_time_run n) as Hnow. cbv zeta in Hnow.
  pose proof (kn_next _ _ _ Hn) as Hq. case_decide as Hin.
  - assert (∀ r, create_local J cfg text n = r → advances K n r.2) as Hr; [|by eapply Hr]. intros r.
    unfold create_local. rewrite (bind_run _ _ n (next_sequence_ n) n) by done.
    rewrite (bind_run _ _ _ _ _ Hnow). cbv zeta. set (n1 := with_world _ n).
    rewrite u64_small by (unfold_ints; lia).
    rewrite (bind_run _ _ n1 tt (with_next_sequence (next_sequence_ n + 1) n1)) by done.
    intros <-. by apply store_advances.
  - destruct Hu. unfold create_local. rewrite (bind_run _ _ n (next_sequence_ n) n) by done.
    unfold mbind, M_bind. by rewrite Hnow.
Qed.

(** ** Every event *)

Lemma grown_written K K' n : (∀ m, m ∈ K → written_message m) → usable cfg → grown K K' n →
  ∀ m, m ∈ K' → written_message m.
Proof. intros HK Hus [->|(m & -> & Hw & _)] x; [apply HK|]. intros [->|Hx]%elem_of_cons; [by exists cfg|by apply HK]. Qed.

Lemma create_request_advances K request n : (∀ m, m ∈ K → written_message m) → usable cfg → knows cfg K n →
  next_sequence_ n < u64_max → (handle_create_message J cfg request n).1 ≠ Undefined →
  advances K n (handle_create_message J cfg request n).2.
Proof.
  intros HK Hus Hn Hmax. destruct (create_message_cases_run (J := J) cfg request n)
    as [(status & reason & text & _ & ->)|[[_ ->]|(text & Ht & ->)]]; intros Hu.
  - apply keeps_advances; [done|]. solve_keeps.
  - by apply learns_advances.
  - unfold create_and_reply in Hu |- *. pose proof (create_advances K text n HK Hus Hn Ht Hmax) as Hc.
    unfold mbind at 1, M_bind at 1 in Hu. unfold mbind at 1, M_bind at 1.
    destruct (create_local J cfg text n) as [[m|e|] n1]; cbn in Hc |- *; [|by apply Hc|done].
    eapply advances_then; [by apply Hc|]. intros K' _.
    match goal with |- learns _ _ _ _ (?k n1).2 => cut (keeps (learns J cfg K') k); [by intros Hk|solve_keeps] end.
Qed.

Lemma process_advances K request n : (∀ m, m ∈ K → written_message m) → usable cfg → knows cfg K n →
  next_sequence_ n < u64_max → carries J K (request_path W request, req_input request) →
  (process_request J cfg request n).1 ≠ Undefined → advances K n (process_request J cfg request n).2.
Proof.
  intros HK Hus Hn Hmax Hc Hu. unfold process_request in Hu |- *.
  assert (∀ status reason text, advances K n (send_json request status reason text n).2) as Hsend.
  { intros. apply keeps_advances; [done|]. solve_keeps. }
  destruct (empty _); [apply Hsend|]. destruct (find_route _ _ _ _) as [h|[|]] eqn:E; [|apply Hsend..].
  destruct (decide (h = create_message)) as [->|Hh]; [by apply create_request_advances|].
  apply keeps_advances; [done|]. apply (learns_handler J cfg K HK); [done|exact (find_route_inl _ _ _ _ _ E)|done].
Qed.

(** One event, handled to its end. *)
Lemma event_advances K e n n' : (∀ m, m ∈ K → written_message m) → usable cfg → knows cfg K n →
  next_sequence_ n < u64_max →
  (∀ request, e = HttpRequest request → carries J K (request_path W request, req_input request)) →
  on_event J cfg e n = (Ok tt, n') → advances K n n'.
Proof.
  intros HK Hus Hn Hmax Hc He. replace n' with (on_event J cfg e n).2 by (by rewrite He).
  assert (Hu : (on_event J cfg e n).1 ≠ Undefined) by (by rewrite He). clear n' He.
  destruct e as [request| | | | | | |]; [|by apply learns_advances, learns_other; done..]. cbn [on_event] in *.
  pose proof (process_advances K request n HK Hus Hn Hmax (Hc request eq_refl)) as Hp.
  unfold handle_request, try_catch in Hu |- *. destruct (process_request J cfg request n) as [[[]|e|] n1]; cbn in Hp, Hu |- *;
    [by apply Hp| |done].
  eapply advances_then; [by apply Hp|]. intros K' _. clear Hu.
  assert (∀ k : M (Node D W) unit, keeps (learns J cfg K') k → learns J cfg K' n1 (k n1).2) as Hk by (intros k Hk; apply Hk).
  destruct e; apply Hk; solve_keeps.
Qed.
End writing.
