(* ===== verification/Network.v ===== *)
(** * A network of daemons

    Any number of daemons with distinct ids.  Requests travel, are lost, delayed,
    reordered and delivered again at will; a node is stopped and started again
    with its database.  Browsers and other HTTP clients send what they like, but
    what arrives on /api/v1/replicate and /api/v1/sync/messages was sent there by
    a node.  Every message stored anywhere was then written by the node it names,
    and two nodes never store different messages under one id. *)

From S2P Require Import Prelude Cxx Protocol Utf8 Json ModelJson MessageCodec Sqlite ModelDb MessageStore.
From S2P Require Import StoreProperties Env Node Clock PeerRegistry Discovery DiscoveryProperties EventStream.
From S2P Require Import Replication MessageService Http HttpApi HttpApiProperties Sync SyncProperties Main.
From S2P Require Import Convergence Rounds Daemon Frame Application Knowledge.
Open Scope Z_scope.

(** ** The system *)

(** The daemons by node id, and every request a daemon has made: its path and
    its payload. *)
Record network (D W : Type) := MkNetwork {
  nodes : gmap string (Config * Node D W);
  wire : list (string * string);
}.
Arguments MkNetwork {D W}.
Arguments nodes {D W}.
Arguments wire {D W}.

Definition carries_messages (path : string) : bool :=
  str_eqb path "/api/v1/replicate" || str_eqb path "/api/v1/sync/messages".

Section network.
Context (J : Type) `{JsonC J} `{SqliteLaws D} `{Env W} `{Unordered}.

(** A request that carries messages is one that some node made. *)
Definition delivered (net : network D W) (e : event) : Prop := ∀ request, e = HttpRequest request →
  carries_messages (request_path W request) = true → (request_path W request, req_input request) ∈ wire net.

(** The node with the id [i] starts on a database with the contents [t]. *)
Definition starts (i : string) (t : tables) (cfg : Config) (n : Node D W) : Prop := ∃ cfg0 path d w,
  usable cfg0 ∧ id_node_id (identity_ cfg0) = i ∧
  sqlite3_open_v2 path = (SQLITE_OK, Some d) ∧ current (view d) = t ∧
  (Application J cfg0 path w).1 = Ok (cfg, n).

Definition set_node (i : string) (x : Config * Node D W) (sent : list effect) (net : network D W) : network D W :=
  MkNetwork (<[i := x]> (nodes net)) (wire net ++ posted sent).

(** A node with a new id and an empty database; a node that was stopped, started
    again with queries that do not fail; an event of a node. *)
Inductive net_step (net : network D W) : network D W → Prop :=
  | net_joins i t cfg n :
      nodes net !! i = None → abs_tables t = MkLog [] ∅ → starts i t cfg n →
      net_step net (set_node i (cfg, n) (trace n) net)
  | net_restarts i cfg n cfg' n' :
      nodes net !! i = Some (cfg, n) → reliable_reads (D := D) →
      starts i (current (view (database (store_ n)))) cfg' n' →
      net_step net (set_node i (cfg', n') (trace n') net)
  | net_handles i cfg n e n' effects :
      nodes net !! i = Some (cfg, n) → delivered net e → on_event J cfg e n = (Ok tt, n') →
      trace n' = trace n ++ effects →
      net_step net (set_node i (cfg, n') effects net).

Definition empty_network : network D W := MkNetwork ∅ [].
End network.

(** ** The constructor makes no request *)

Section constructor.
Context (J : Type) `{JsonC J} `{Sqlite D} `{Env W} `{Unordered}.
Implicit Types n : Node D W.

Definition node_posts n : list (string * string) := posted (trace n).

Lemma emit_posts e : post_of e = [] → keeps (same node_posts) (emit (D := D) (W := W) e).
Proof.
  intros He n. unfold same, node_posts. cbn. rewrite posted_app. unfold posted at 2. cbn.
  by rewrite He, !app_nil_r.
Qed.

#[local] Hint Extern 1 (keeps (same node_posts) (emit _)) => (apply emit_posts; reflexivity) : leschat.
#[local] Hint Extern 1 (keeps (same node_posts) (modify _)) => (apply keeps_modify; intros ?; reflexivity) : leschat.

Lemma new_handle_posts s h : keeps (same node_posts) (new_handle (D := D) (W := W) s h).
Proof. unfold new_handle, take_handle. solve_keeps. Qed.
Lemma release_posts h : keeps (same node_posts) (release (D := D) (W := W) h).
Proof. unfold release. solve_keeps. Qed.
#[local] Hint Resolve new_handle_posts release_posts : leschat.

Lemma services_posts cfg : keeps (same node_posts) (services J cfg : M (Node D W) unit).
Proof.
  unfold services, DiscoveryService, close_resources, announce, send_announce, announcement_json,
    set_announce_failed, log, SyncService, MessageService, set_next_sequence, HttpApi. solve_keeps.
Qed.

Lemma application_posts cfg path w cfg' n : (Application J cfg path w).1 = Ok (cfg', n) → node_posts n = [].
Proof.
  unfold Application. destruct (setup_ok w EventBaseNew) as [[] w0]; [|done]. cbn [negb].
  destruct (MessageStore.MessageStore path max_database_bytes) as [s|e|]; [|done|done]. cbv zeta.
  set (c := with_local_address _ cfg). set (n0 := MkNode s ∅ 0 false [] 0 _ w0 _).
  destruct (try_catch (services J c) (λ e, destroy_members;; throw e) n0) as [[[]|e|] n1] eqn:E; [|done|done].
  intros [= _ <-]. apply catch_rethrow_Ok in E. pose proof (services_posts c n0) as Hk. by rewrite E in Hk.
Qed.
End constructor.

(** ** The invariant *)

Section invariant.
Context `{JsonLaws J} `{SqliteLaws D} `{EnvLaws W} `{Unordered}.
Implicit Types net : network D W.

(** [K] lists the messages written so far. *)
Record network_ok (K : list ChatMessage) (k : Z) net : Prop := {
  no_id i cfg n : nodes net !! i = Some (cfg, n) → id_node_id (identity_ cfg) = i ∧ usable cfg;
  no_knows i cfg n : nodes net !! i = Some (cfg, n) → knows cfg K n;
  no_count i cfg n : nodes net !! i = Some (cfg, n) → next_sequence_ n ≤ i64_max + k;
  no_written m : m ∈ K → written_message m;
  no_writer m : m ∈ K → is_Some (nodes net !! origin m);
  no_unique m m' : m ∈ K → m' ∈ K → origin m = origin m' → sequence m = sequence m' → m = m';
  no_wire r : r ∈ wire net → carries J K r;
}.

Lemma empty_network_ok : network_ok [] 0 empty_network.
Proof. split; try done; intros; set_solver. Qed.

(** A node keeps what it knows when another writes. *)
Lemma knows_other cfg K m (n : Node D W) : origin m ≠ id_node_id (identity_ cfg) → knows cfg K n →
  knows cfg (m :: K) n.
Proof.
  intros Ho [Hdb Hlog Hcache Hnext Hlast Hown Horig]. split; try done; [set_solver..| |].
  - by intros x [->|Hx]%elem_of_cons; [|apply Hown].
  - intros o Hl. cbn. right. by apply Horig.
Qed.

(** A node that starts on what it stored knows what it knew. *)
Lemma starts_runs i t cfg (n : Node D W) : starts J i t cfg n → log_ok (abs_tables t) →
  id_node_id (identity_ cfg) = i ∧ usable cfg ∧ node_posts n = [] ∧ db_ok (store_ n) ∧ node_log n = abs_tables t ∧
  messages_ (store_ n) = entries (node_log n) ∧ 1 ≤ next_sequence_ n ≤ i64_max ∧
  (reliable_reads (D := D) → next_sequence_ n = 1 + own_last cfg n).
Proof.
  intros (cfg0 & path & d & w & Hus & Hid & Hd & <- & Ha) Hlog.
  destruct (application_ok cfg0 path d w cfg n Hd Hlog Ha) as ([Hdb _] & Hq & Hi & Habs & Hcache & Hrel).
  split_and!; [congruence|by destruct Hus; split; rewrite Hi|by eapply application_posts|done|done|done|lia|lia|].
  intros Hr. rewrite (Hrel Hr). unfold own_last, node_log. by rewrite Habs, Hi.
Qed.

(** What a step may add to the messages: one that the node [i] wrote. *)
Definition added (i : string) (K K' : list ChatMessage) : Prop :=
  K' = K ∨ ∃ m, K' = m :: K ∧ written_message m ∧ origin m = i ∧
    ∀ x, x ∈ K → origin x = i → sequence x < sequence m.

Lemma added_knows i K K' cfg (n : Node D W) : added i K K' → id_node_id (identity_ cfg) ≠ i →
  knows cfg K n → knows cfg K' n.
Proof. intros [->|(m & -> & _ & <- & _)] Hi Hn; [done|]. by apply knows_other. Qed.

Lemma added_sub i K K' : added i K K' → K ⊆ K'.
Proof. intros [->|(m & -> & _)]; set_solver. Qed.

Lemma set_node_lookup i x sent net j y : nodes (set_node i x sent net) !! j = Some y →
  i = j ∧ x = y ∨ i ≠ j ∧ nodes net !! j = Some y.
Proof. apply lookup_insert_Some. Qed.

(** A step changes one node. *)
Lemma set_node_ok K K' k net i cfg n sent : network_ok K k net → added i K K' →
  id_node_id (identity_ cfg) = i → usable cfg → knows cfg K' n → next_sequence_ n ≤ i64_max + (k + 1) →
  Forall (carries J K') (posted sent) → network_ok K' (k + 1) (set_node i (cfg, n) sent net).
Proof.
  intros [Hid Hkn Hc Hw Hwr Hun Hwire] Hadd Hi Hus Hn Hq Hsent. pose proof (added_sub _ _ _ Hadd) as Hsub.
  assert (∀ m, is_Some (nodes net !! origin m) → is_Some (nodes (set_node i (cfg, n) sent net) !! origin m)) as Hstay
    by (intros m Hm; cbn; destruct (decide (i = origin m)) as [->|]; [rewrite lookup_insert_eq; by eexists|by rewrite lookup_insert_ne]).
  split.
  - intros j cfg' n' [[<- [= <- <-]]|[_ Hj]]%set_node_lookup; [done|by apply (Hid j cfg' n')].
  - intros j cfg' n' [[<- [= <- <-]]|[Hji Hj]]%set_node_lookup; [done|].
    apply (added_knows i K K'); [done| |by apply (Hkn j)]. destruct (Hid _ _ _ Hj) as [-> _]. congruence.
  - intros j cfg' n' [[<- [= <- <-]]|[_ Hj]]%set_node_lookup; [done|]. specialize (Hc j cfg' n' Hj). lia.
  - destruct Hadd as [->|(m & -> & Hm & _)]; [done|]. by intros x [->|Hx]%elem_of_cons; [|apply Hw].
  - destruct Hadd as [->|(m & -> & _ & Ho & _)]; intros x Hx; [by apply Hstay, Hwr|].
    apply elem_of_cons in Hx as [->|Hx]; [|by apply Hstay, Hwr]. cbn. rewrite Ho, lookup_insert_eq. by eexists.
  - destruct Hadd as [->|(m & -> & _ & Ho & Hlt)]; [done|].
    intros x y [->|Hx]%elem_of_cons [->|Hy]%elem_of_cons Eo Es; [done|..|by apply Hun].
    + specialize (Hlt y Hy ltac:(congruence)). lia.
    + specialize (Hlt x Hx ltac:(congruence)). lia.
  - intros r [Hr|Hr]%elem_of_app; [by apply (carries_mono K), Hwire|]. rewrite Forall_forall in Hsent. by apply Hsent.
Qed.

(** What a node receives carries messages of [K]. *)
Lemma delivered_carries K k net e : network_ok K k net → delivered net e →
  ∀ request, e = HttpRequest request → carries J K (request_path W request, req_input request).
Proof.
  intros Hok Hd request He. specialize (Hd request He). pose proof (no_wire _ _ _ Hok) as Hwire. unfold carries_messages in Hd.
  split; cbn; intros Hp; (destruct (Hwire _ (Hd ltac:(by rewrite Hp))) as [H1' H2']; cbn in *; auto).
Qed.

Lemma net_step_ok K k net net' : network_ok K k net → 0 ≤ k < 2 ^ 62 → net_step J net net' →
  ∃ K', network_ok K' (k + 1) net'.
Proof.
  intros Hok Hk Hs. destruct Hs as [i t cfg n Hi Ht Hst|i cfg n cfg' n' Hi Hrel Hst|i cfg n e n' effects Hi Hd He Htr].
  - exists K. destruct (starts_runs i t cfg n Hst) as (Hid & Hus & Hp & Hdb & Hlog & Hm & Hq & _).
    { rewrite Ht. split; [constructor|by intros []|constructor|apply map_Forall_empty]. }
    apply (set_node_ok K K k); try done; [by left| |lia|unfold node_posts in Hp; rewrite Hp; constructor].
    assert (own_last cfg n = 0) as Ho by (unfold own_last; by rewrite Hlog, Ht).
    split; [done|rewrite Hlog, Ht; set_solver|rewrite Hm, Hlog, Ht; set_solver|lia|lia| |].
    2: { intros o. rewrite Hlog, Ht. cbn [lasts]. rewrite lookup_empty. cbn. lia. }
    intros m HmK Hmo. destruct (no_writer _ _ _ Hok m HmK) as [x Hx]. congruence.
  - exists K. pose proof (no_knows _ _ _ Hok i cfg n Hi) as [Hdb Hlog Hcache _ _ Hown Horig].
    destruct (no_id _ _ _ Hok i cfg n Hi) as [Hid _].
    destruct (starts_runs i _ cfg' n' Hst) as (Hid' & Hus & Hp & Hdb' & Hlog' & Hm & Hq & Hnext); [apply Hdb|].
    change (abs_tables (current (view (database (store_ n))))) with (node_log n) in Hlog'.
    apply (set_node_ok K K k); try done; [by left| |lia|unfold node_posts in Hp; rewrite Hp; constructor].
    assert (own_last cfg' n' = own_last cfg n) as Ho by (unfold own_last; by rewrite Hlog', Hid, Hid').
    specialize (Hnext Hrel). split; [done|by rewrite Hlog'|rewrite Hm, Hlog'; done|lia|lia| |by rewrite Hlog'].
    rewrite Ho, Hid', <- Hid. done.
  - pose proof (no_knows _ _ _ Hok i cfg n Hi) as Hn. destruct (no_id _ _ _ Hok i cfg n Hi) as [Hid Hus].
    pose proof (no_count _ _ _ Hok i cfg n Hi) as Hc.
    destruct (event_advances J cfg K e n n') as (K' & Hg & Hn' & Hq & l & Htr' & Hl); try done.
    { apply (no_written _ _ _ Hok). }
    { unfold_ints. lia. }
    { by apply (delivered_carries K k net). }
    exists K'. rewrite Htr in Htr'. apply app_inv_head in Htr' as ->.
    apply (set_node_ok K K' k); try done; [|lia].
    destruct Hg as [->|(m & -> & Hw & Hseq)]; [by left|right]. exists m. split; [done|]. split; [by exists cfg|].
    assert (origin m = i) as Ho by (by destruct Hw as (? & ? & ? & -> & _)). split; [done|].
    intros x Hx Hxo. pose proof (kn_own _ _ _ Hn x Hx ltac:(congruence)). pose proof (kn_last _ _ _ Hn). lia.
Qed.

Lemma network_runs k net : nsteps (net_step J) k empty_network net → Z.of_nat k ≤ 2 ^ 62 →
  ∃ K, network_ok K (Z.of_nat k) net.
Proof.
  revert net. induction k as [|k IH]; intros net Hs Hk.
  - inversion Hs; subst. exists []. apply empty_network_ok.
  - rewrite <- Nat.add_1_r in Hs. apply nsteps_add_inv in Hs as (net1 & Hs & H1'). apply nsteps_once_inv in H1'.
    destruct (IH net1 Hs) as [K HK]; [lia|]. destruct (net_step_ok K _ net1 net HK) as [K' HK']; [lia|done|].
    exists K'. by replace (Z.of_nat (S k)) with (Z.of_nat k + 1) by lia.
Qed.
End invariant.

(** ** Properties *)

Section properties.
Context `{JsonLaws J} `{SqliteLaws D} `{EnvLaws W} `{Unordered}.
Implicit Types net : network D W.

(** C7: agreement.  In any reachable network every message stored anywhere was
    written by the node it names: that node is in the network, it recorded the
    number, and will give its next message a higher one.  Two messages stored
    anywhere under one id are one message, so nodes never disagree about what an
    id or a number of an origin stands for. *)
Theorem network_agreement k net : nsteps (net_step J) k empty_network net → Z.of_nat k ≤ 2 ^ 62 →
  (∀ i cfg n m, nodes net !! i = Some (cfg, n) → m ∈ entries (node_log n) →
    written_message m ∧ ∃ cfg' n', nodes net !! origin m = Some (cfg', n') ∧
      sequence m ≤ default 0 (lasts (node_log n') !! origin m) < next_sequence_ n') ∧
  (∀ i cfg n m i' cfg' n' m', nodes net !! i = Some (cfg, n) → nodes net !! i' = Some (cfg', n') →
    m ∈ entries (node_log n) → m' ∈ entries (node_log n') →
    message_id m = message_id m' ∨ origin m = origin m' ∧ sequence m = sequence m' → m = m').
Proof.
  intros Hs Hk. destruct (network_runs k net Hs Hk) as [K Hok]. split.
  - intros i cfg n m Hi Hm. apply (kn_log _ _ _ (no_knows _ _ _ Hok i cfg n Hi)) in Hm.
    split; [by apply (no_written _ _ _ Hok)|]. destruct (no_writer _ _ _ Hok m Hm) as [[cfg' n'] Ho].
    exists cfg', n'. split; [done|]. pose proof (no_knows _ _ _ Hok _ _ _ Ho) as Hn'.
    destruct (no_id _ _ _ Hok _ _ _ Ho) as [Hid _].
    pose proof (kn_own _ _ _ Hn' m Hm (eq_sym Hid)). pose proof (kn_last _ _ _ Hn'). unfold own_last in *.
    by rewrite Hid in *.
  - intros i cfg n m i' cfg' n' m' Hi Hi' Hm Hm' Hsame.
    apply (kn_log _ _ _ (no_knows _ _ _ Hok i cfg n Hi)) in Hm.
    apply (kn_log _ _ _ (no_knows _ _ _ Hok i' cfg' n' Hi')) in Hm'.
    assert (origin m = origin m' ∧ sequence m = sequence m') as [Ho Hseq].
    { destruct Hsame as [Hid|?]; [|done]. by apply written_id; [apply (no_written _ _ _ Hok)..|]. }
    by apply (no_unique _ _ _ Hok).
Qed.

(** Any two nodes of a reachable network can synchronise. *)
Lemma network_synchronisable k net i cfg_a a j cfg_b b : nsteps (net_step J) k empty_network net → Z.of_nat k ≤ 2 ^ 62 →
  nodes net !! i = Some (cfg_a, a) → nodes net !! j = Some (cfg_b, b) → cache_ok (store_ a) → synchronisable a b.
Proof.
  intros Hs Hk Hi Hj Hcache. destruct (network_runs k net Hs Hk) as [K Hok].
  pose proof (no_knows _ _ _ Hok _ _ _ Hi) as Ha. pose proof (no_knows _ _ _ Hok _ _ _ Hj) as Hb.
  split; [by split; [apply Ha|]|apply Hb| | |].
  - apply Forall_forall. intros m Hm. by apply written_valid, (no_written _ _ _ Hok), (kn_cache _ _ _ Ha).
  - intros o last Hl. pose proof (lo_range _ (db_log _ (kn_db _ _ _ Hb)) o last Hl) as Hr. split; [|done].
    assert (o ∈ origin <$> K) as (m & -> & Hm)%list_elem_of_fmap.
    { apply (kn_origins _ _ _ Hb). rewrite Hl. cbn in Hr |- *. lia. }
    by apply nul_free_origin, written_valid, (no_written _ _ _ Hok).
  - intros m m' Hm Hm' Hid. apply (kn_cache _ _ _ Ha) in Hm. apply (kn_log _ _ _ Hb) in Hm'.
    by apply written_id; [apply (no_written _ _ _ Hok)..|].
Qed.
End properties.

(** ** Witness *)

Section scripts.
Context `{SqliteLaws D} `{Env W}.
Implicit Types net : network D W.

Definition joined (cfg : Config) (w : W) net : network D W :=
  match (Application jtree cfg "les-chat.db" w).1 with
  | Ok (cfg', n) => set_node (id_node_id (identity_ cfg)) (cfg', n) (trace n) net
  | _ => net
  end.

Definition handled (i : string) (e : event) net : network D W :=
  match nodes net !! i with
  | Some (cfg, n) =>
      let n' := (on_event jtree cfg e n).2 in set_node i (cfg, n') (drop (length (trace n)) (trace n')) net
  | None => net
  end.

Lemma joined_step cfg w net r d : usable cfg → nodes net !! id_node_id (identity_ cfg) = None →
  sqlite3_open_v2 "les-chat.db" = (SQLITE_OK, Some d) → abs_tables (current (view d)) = MkLog [] ∅ →
  (Application (D := D) jtree cfg "les-chat.db" w).1 = Ok r → net_step jtree net (joined cfg w net).
Proof.
  intros Hus Hi Hd Ht Ha. unfold joined. rewrite Ha. destruct r as [cfg' n].
  apply (net_joins jtree net _ (current (view d))); [done|done|]. by exists cfg, "les-chat.db", d, w.
Qed.

Lemma handled_step i e net cfg n : nodes net !! i = Some (cfg, n) → delivered net e →
  (on_event jtree cfg e n).1 = Ok tt →
  trace (on_event jtree cfg e n).2 = trace n ++ drop (length (trace n)) (trace (on_event jtree cfg e n).2) →
  net_step jtree net (handled i e net).
Proof.
  intros Hi Hd He Ht. unfold handled. rewrite Hi. apply (net_handles jtree net i cfg n e); [done..| |exact Ht].
  destruct (on_event jtree cfg e n) as [r n']. cbn in He |- *. by rewrite He.
Qed.

(** The state of a node of a network that was computed. *)
Definition node_at (nobody : Config * Node D W) (i : string) net : Config * Node D W := default nobody (nodes net !! i).

Lemma node_at_lookup nobody i net : bool_decide (is_Some (nodes net !! i)) = true →
  nodes net !! i = Some ((node_at nobody i net).1, (node_at nobody i net).2).
Proof. intros [[c n] Hx]%bool_decide_eq_true. unfold node_at. by rewrite Hx. Qed.
End scripts.

(** Two nodes: node-a hears node-b, is given a message by a browser, and sends it
    to node-b. *)
Definition hearing_world : menv := world_at 1700000000000 false
  [(pos_text (encode (claimed (J := jtree) config_b None)), 5)].

Definition one_node : network mdb menv := joined plain_config hearing_world empty_network.
Definition two_nodes : network mdb menv := joined config_b (world_at 1700000000000 false []) one_node.
Definition acquainted : network mdb menv := handled "node-a" (DatagramsReady 3) two_nodes.
Definition chatting : network mdb menv := handled "node-a" (HttpRequest hello_request) acquainted.

Definition sent_payload : string := default EmptyString (snd <$> head (wire chatting)).
Definition relayed : network mdb menv :=
  handled "node-b" (HttpRequest (post_to "/api/v1/replicate" sent_payload)) chatting.

Definition stranger : Config * Node mdb menv := (plain_config, MkNode store0 ∅ 0 false [] 1 [] hearing_world []).
Definition at_ (i : string) (net : network mdb menv) : Config * Node mdb menv := node_at stranger i net.

Lemma relayed_runs : nsteps (net_step jtree) 5 empty_network relayed.
Proof.
  apply (nsteps_l _ _ _ one_node); [eapply joined_step; [split; by vm_compute|by vm_compute|reflexivity|by vm_compute|by vm_compute]|].
  apply (nsteps_l _ _ _ two_nodes); [eapply joined_step; [split; by vm_compute|by vm_compute|reflexivity|by vm_compute|by vm_compute]|].
  apply (nsteps_l _ _ _ acquainted).
  { apply (handled_step _ _ _ (at_ "node-a" two_nodes).1 (at_ "node-a" two_nodes).2);
      [by apply node_at_lookup; vm_compute|by intros ?|by vm_compute|by vm_compute]. }
  apply (nsteps_l _ _ _ chatting).
  { apply (handled_step _ _ _ (at_ "node-a" acquainted).1 (at_ "node-a" acquainted).2);
      [by apply node_at_lookup; vm_compute| |by vm_compute|by vm_compute]. by intros request [= <-]. }
  apply (nsteps_l _ _ _ relayed); [|constructor].
  apply (handled_step _ _ _ (at_ "node-b" chatting).1 (at_ "node-b" chatting).2);
    [by apply node_at_lookup; vm_compute| |by vm_compute|by vm_compute]. intros request [= <-] _.
  apply (bool_decide_eq_true (_ ∈ _)). by vm_compute.
Qed.

Lemma network_agreement_witness :
  body <$> entries (node_log (at_ "node-b" relayed).2) = ["hello"] ∧
  ∀ m m', m ∈ entries (node_log (at_ "node-a" relayed).2) → m' ∈ entries (node_log (at_ "node-b" relayed).2) →
    message_id m = message_id m' → m = m'.
Proof.
  split; [by vm_compute|]. intros m m' Hm Hm' Hid.
  destruct (network_agreement (J := jtree) 5 relayed relayed_runs ltac:(lia)) as [_ Hagree].
  apply (Hagree "node-a" (at_ "node-a" relayed).1 (at_ "node-a" relayed).2 m
    "node-b" (at_ "node-b" relayed).1 (at_ "node-b" relayed).2 m');
    [apply node_at_lookup; by vm_compute..|exact Hm|exact Hm'|by left].
Defined.
