(* ===== verification/Exchange.v ===== *)
(** * Synchronisation in a network

    The four events of one exchange between two nodes of Network.v: the timer of
    the one, its summary at the other, the answer, and the batch.  Exchanges are
    runs of the network, and bring the second node what the first one has; when
    nothing fails, they happen. *)

From S2P Require Import Prelude Cxx Protocol Utf8 Json ModelJson MessageCodec Sqlite ModelDb MessageStore.
From S2P Require Import StoreProperties Healthy Env Node Ledger Clock PeerRegistry Discovery DiscoveryProperties.
From S2P Require Import EventStream Replication MessageService Http HttpApi HttpApiProperties Sync.
From S2P Require Import SyncProperties Main Specification Convergence Rounds Daemon Frame Application Delivery Knowledge Network.
Open Scope Z_scope.

(** ** The exchange *)

Section exchange.
Context (J : Type) `{JsonC J} `{SqliteLaws D} `{Env W} `{Unordered}.
Implicit Types n a b : Node D W.

(** The node handles the event with the effects. *)
Definition handles (cfg : Config) (e : event) n (effects : list effect) n' : Prop :=
  on_event J cfg e n = (Ok tt, n') ∧ trace n' = trace n ++ effects.

Definition accepted (request : evhttp_request) (body : string) (effects : list effect) : Prop :=
  Reply (req_id request) 200 "OK" (response_headers json_content_type) body ∈ effects.

(** Along the effects the payload was sent to the peer, over the connection. *)
Definition sent_to_peer (peer : Peer) (path payload : string) (c : Z) (effects : list effect) : Prop :=
  OpenConnection c (c_str (peer_address peer)) (peer_http_port peer) ∈ effects ∧
  ∃ r, MakeRequest c r path sync_headers payload ∈ effects.

(** Node a, which knows b as [peer], asks it with its summary, b answers with its
    own, a gives b a batch, and b accepts it: the requests hold what the one node
    sent, and the answer what the other node replied. *)
Record exchanged (j : string) (cfg_a cfg_b : Config) (peer : Peer) (c c' : Z) (ask answer give : evhttp_request)
    (sent replied given taken : list effect) a b a1 b1 a2 b2 : Prop := {
  ex_peer : peers_ a !! j = Some peer;
  ex_asks : handles cfg_a SyncTimer a sent a1;
  ex_ask : sent_to_peer peer "/api/v1/sync/summary" (req_input ask) c sent;
  ex_ask_posts : posts W ask "/api/v1/sync/summary" sync_summary;
  ex_answers : handles cfg_b (HttpRequest ask) b replied b1;
  ex_answer : accepted ask (req_input answer) replied;
  ex_gives : handles cfg_a (SummaryDone (Some (answer, 200)) (MkContext c (peer_address peer) (peer_http_port peer))) a1 given a2;
  ex_give : sent_to_peer peer "/api/v1/sync/messages" (req_input give) c' given;
  ex_give_posts : posts W give "/api/v1/sync/messages" sync_messages;
  ex_takes : handles cfg_b (HttpRequest give) b1 taken b2;
  ex_taken : ∃ body, accepted give body taken;
}.

(** The same between two nodes of a network. *)
Inductive exchange (i j : string) (net : network D W) : network D W → Prop :=
  | exchanges cfg_a cfg_b peer c c' ask answer give sent replied given taken a b a1 b1 a2 b2 :
      i ≠ j → nodes net !! i = Some (cfg_a, a) → nodes net !! j = Some (cfg_b, b) →
      exchanged j cfg_a cfg_b peer c c' ask answer give sent replied given taken a b a1 b1 a2 b2 →
      exchange i j net
        (set_node j (cfg_b, b2) taken (set_node i (cfg_a, a2) given
          (set_node j (cfg_b, b1) replied (set_node i (cfg_a, a1) sent net)))).
End exchange.

Lemma sent_posted peer path payload c effects : sent_to_peer peer path payload c effects → (path, payload) ∈ posted effects.
Proof. intros [_ [r Hr]]. by eapply made_posted. Qed.

Lemma attempt_sends local peer path payload l : attempt local [] sync_headers (peer_address peer) (peer_http_port peer) path payload l →
  made l → ∃ c, sent_to_peer peer path payload c l.
Proof.
  intros Ha Hm. destruct (attempt_made_sends _ _ _ _ _ _ _ _ Ha Hm eq_refl) as (c & r & Ho & Hr).
  exists c. split; [done|by exists r].
Qed.

(** ** What the steps before the batch leave alone *)

Section silent_steps.
Context `{JsonLaws J} `{SqliteLaws D} `{EnvLaws W} `{Unordered}.
Implicit Types n : Node D W.

Lemma silent_store n n' : silent n n' → store_ok (store_ n) → store_ok (store_ n') ∧ node_log n' = node_log n ∧
  messages_ (store_ n') = messages_ (store_ n).
Proof.
  intros Hs [Hdb Hc]. destruct (Hs Hdb) as (Hdb' & Hchat & Hm). assert (node_log n' = node_log n) as Hlog by exact (f_equal chat_log Hchat).
  split; [|by split]. split; [done|]. unfold cache_ok, node_log in *. by rewrite Hm, Hlog.
Qed.
End silent_steps.

(** ** The answer with status 200 *)

Section answers.
Context `{JsonLaws J} `{SqliteLaws D} `{EnvLaws W} `{Unordered} (cfg : Config).
Implicit Types n : Node D W.

(** What send_json emits. *)
Lemma send_json_says request status reason text n r n' : send_json request status reason text n = (r, n') →
  r = Ok tt ∧ store_ n' = store_ n ∧ ∃ e, trace n' = trace n ++ [e] ∧
    (e = Reply (req_id request) status reason (response_headers json_content_type) text ∨ e = SendError (req_id request)).
Proof.
  unfold send_json, send_response. rewrite (bind_run _ _ _ _ _ (call_run _ n)).
  destruct (evbuffer_new (world n)).1; cbn [negb]; rewrite emit_run; intros [= <- <-]; (split; [done|]; split; [done|]);
    eexists; (split; [done|]); [by left|by right].
Qed.

(** A reply that was sent is the one at hand. *)
Lemma accepted_says request status reason text n r n' effects body :
  send_json request status reason text n = (r, n') → trace n' = trace n ++ effects → accepted request body effects →
  status = 200 ∧ text = body.
Proof.
  intros Hs Ht Ha. destruct (send_json_says _ _ _ _ _ _ _ Hs) as (_ & _ & e & Ht' & He).
  rewrite Ht' in Ht. apply app_inv_head in Ht as <-. apply list_elem_of_singleton in Ha. subst e.
  by destruct He as [[=]|].
Qed.

Lemma answered_reply r status reason headers body l : Reply r status reason headers body ∈ l → answer_count r l ≠ 0%nat.
Proof.
  intros Hin Hc. unfold answer_count in Hc. apply length_zero_iff_nil in Hc.
  apply (filter_nil_not_elem_of _ _ (Reply r status reason headers body) Hc); [|done]. cbn. by rewrite Z.eqb_refl.
Qed.

(** Only a handler that returned answers with 200. *)
Lemma accepted_returned request n n' effects body : handle_request J cfg request n = (Ok tt, n') →
  trace n' = trace n ++ effects → accepted request body effects → process_request J cfg request n = (Ok tt, n').
Proof.
  intros Hr Ht Hin. unfold handle_request, try_catch in Hr.
  destruct (process_request_once (J := J) cfg request n) as (l & Hl & Ha).
  destruct (process_request J cfg request n) as [[[]|e|] n1]; cbn in Hl, Ha; [done| |done]. exfalso.
  assert (∀ n2 status reason text l2, status ≠ 200 → trace n2 = trace n ++ l2 → answer_count (req_id request) l2 = 0%nat →
    send_json request status reason text n2 = (Ok tt, n') → False) as Hsend.
  { intros n2 status reason text l2 Hst Hl2 Ha2 Hs. destruct (send_json_says _ _ _ _ _ _ _ Hs) as (_ & _ & e' & He & Hcase).
    rewrite He, Hl2, <- app_assoc in Ht. apply app_inv_head in Ht as <-. apply elem_of_app in Hin as [Hin|Hin].
    - by apply answered_reply in Hin.
    - apply list_elem_of_singleton in Hin. subst e'. by destruct Hcase as [[=]|]. }
  destruct e; first [by apply (Hsend n1 _ _ _ l) in Hr|
    unfold log in Hr; rewrite (bind_run _ _ _ _ _ (emit_run _ n1)) in Hr; eapply Hsend in Hr; [done|done|cbn; by rewrite Hl, <- app_assoc|by rewrite answers_app, Ha]].
Qed.

Lemma sync_member_reads (o : J) s k t n : (sync_member J o s k t n).2 = n.
Proof.
  assert (keeps (same id) (sync_member J o s k t : M (Node D W) (option J))) as Hk
    by (unfold sync_member, string_view_is; solve_keeps).
  exact (Hk n).
Qed.

(** The body of the answer to a summary. *)
Lemma summary_accepted request n n' effects body : handle_sync_summary J request n = (Ok tt, n') →
  trace n' = trace n ++ effects → accepted request body effects →
  ∃ summary n1, service_summary n = (Ok summary, n1) ∧
    serialize_json (summary_object (J := J) summary) n1 = (Ok body, n1).
Proof.
  intros Hr Ht Ha. unfold handle_sync_summary in Hr.
  destruct (read_json_object_cases (J := J) request max_request_bytes true (json_lit "{'error':'invalid_sync_summary'}") n)
    as [(status & reason & text & Hst & E)|[[_ E]|(j & Hj & E)]].
  - destruct (send_json_ok request status reason text n) as [n1 Hn1].
    rewrite (bind_run _ _ _ _ _ Hn1) in E. rewrite (bind_run _ _ _ _ _ E) in Hr. injection Hr as <-.
    destruct (accepted_says _ _ _ _ _ _ _ _ _ Hn1 Ht Ha). lia.
  - by rewrite (bind_throw _ _ _ _ _ E) in Hr.
  - rewrite (bind_run _ _ _ _ _ E) in Hr. apply bind_Ok in Hr as (o & n1 & Ho & Hr).
    assert (n1 = n) as ->.
    { pose proof (sync_member_reads j "sync_summary" "origins" json_type_object n) as Hm. by rewrite Ho in Hm. }
    destruct o as [o|]; [|by destruct (accepted_says _ _ _ _ _ _ _ _ _ Hr Ht Ha)].
    apply bind_Ok in Hr as (s & n1 & Hs & Hr). exists s, n1. split; [done|].
    rewrite (bind_run _ _ _ _ _ (origins_json_run s n1)), (bind_run _ _ _ _ _ (sync_envelope_run _ _ _ n1)) in Hr.
    apply bind_Ok in Hr as (t & n2 & Hser & Hr).
    assert (n2 = n1) as ->.
    { pose proof (serialize_json_reads (summary_object (J := J) s) n1) as Hm. unfold summary_object in Hm. by rewrite Hser in Hm. }
    assert (trace n1 = trace n) as Htr by (unfold service_summary in Hs; rewrite on_store_run in Hs; by injection Hs as _ <-).
    rewrite <- Htr in Ht. by destruct (accepted_says _ _ _ _ _ _ _ _ _ Hr Ht Ha) as [_ <-].
Qed.
End answers.

(** ** The batch *)

Section giving.
Context `{JsonLaws J} `{SqliteLaws D} `{EnvLaws W} `{Unordered} (cfg : Config).
Implicit Types n : Node D W.

(** send_missing only sends, and not when it throws. *)
Lemma send_missing_ends context text n r n' : send_missing J cfg context text n = (r, n') →
  (∃ l, trace n' = trace n ++ l) ∧ (∀ e, r = Throw e → n' = n).
Proof.
  assert (∃ l, trace n = trace n ++ l) as Hsame by (exists []; by rewrite app_nil_r).
  destruct (send_missing_cases (J := J) cfg context text n) as [[r' Hr]|(l & _ & _ & Hr)]; rewrite Hr; [by intros [= <- <-]|].
  pose proof (serialize_json_reads (batch (J := J) l) n) as Hs. unfold mbind, M_bind.
  destruct (serialize_json (batch l) n) as [[t|e'|] n1]; cbn in Hs; subst n1; [|by intros [= <- <-]..].
  unfold send_batch.
  destruct (post_request_alone cfg sync_headers (address context) (port context) "/api/v1/sync/messages" t n)
    as (w & ef & -> & _). intros [= <- <-]. split; [by exists ef|done].
Qed.

(** A request made by the completion of a summary request came from send_missing. *)
Lemma completion_gives answer context n n' effects r :
  handles J cfg (SummaryDone (Some (answer, 200)) context) n effects n' → r ∈ posted effects →
  size (req_input answer) ≤ max_sync_request_bytes ∧ ∃ n1 given,
    send_missing J cfg context (req_input answer) n = (Ok tt, n1) ∧ trace n1 = trace n ++ given ∧ r ∈ posted given ∧
    store_ n' = store_ n1.
Proof.
  intros [Hr Ht] Hin. cbn [on_event] in Hr. unfold summary_response_callback in Hr.
  change (200 =? HTTP_OK) with true in Hr. cbv iota in Hr. apply bind_Ok in Hr as ([] & n1 & Hr & Hdrop).
  rewrite drop_run in Hdrop. injection Hdrop as <-. cbn in Ht.
  assert (∀ n2 s, trace n2 = trace n → log s n2 = (Ok tt, n1) → False) as Hlog.
  { intros n2 s Ht2. unfold log. rewrite emit_run. intros [= <-]. cbn in Ht. rewrite Ht2, <- !app_assoc in Ht.
    apply app_inv_head in Ht as <-. by apply not_elem_of_nil in Hin. }
  unfold try_catch, handle_summary_response in Hr.
  pose proof (read_request_body_run answer max_sync_request_bytes n) as Hread.
  destruct (Z.ltb_spec max_sync_request_bytes (size (req_input answer))) as [|Hsz];
    [rewrite (bind_throw _ _ _ _ _ Hread) in Hr; by apply Hlog in Hr|].
  rewrite (bind_run _ _ _ _ _ Hread) in Hr.
  split; [done|]. destruct (send_missing J cfg context (req_input answer) n) as [[[]|e|] n2] eqn:E; [| |done].
  - injection Hr as <-. destruct (send_missing_ends _ _ _ _ _ E) as [[given Hg] _]. exists n2, given.
    split_and!; [done..| |done]. rewrite Hg, <- app_assoc in Ht. apply app_inv_head in Ht as <-.
    rewrite posted_app in Hin. by apply elem_of_app in Hin as [?|[]%not_elem_of_nil].
  - destruct (send_missing_ends _ _ _ _ _ E) as [_ Hn]. rewrite (Hn e eq_refl) in Hr. by apply Hlog in Hr.
Qed.
End giving.

(** ** Exchanges take batches *)

Section taking.
Context `{JsonLaws J} `{SqliteLaws D} `{EnvLaws W} `{Unordered}.
Implicit Types n a b : Node D W.

(** A request a handler answered with 200. *)
Lemma handled_request cfg request p h n effects n' body :
  posts W request p h → handles J cfg (HttpRequest request) n effects n' → accepted request body effects →
  process_request J cfg request n = (Ok tt, n') ∧ run_handler J cfg h request n = (Ok tt, n').
Proof.
  intros Hp [Hr Ht] Ha. pose proof (accepted_returned cfg request n n' effects body Hr Ht Ha) as Hrun.
  split; [done|]. by rewrite <- (posts_run cfg request p h n Hp).
Qed.

(** The peer's answer is its last sequences. *)
Lemma answer_text cfg ask answer n effects n' : db_ok (store_ n) → posts W ask "/api/v1/sync/summary" sync_summary →
  handles J cfg (HttpRequest ask) n effects n' → accepted ask answer effects → size answer ≤ i32_max →
  text_of (summary_object (J := J) (lasts (node_log n))) answer ∧ db_ok (store_ n') ∧ node_log n' = node_log n.
Proof.
  intros Hdb Hp Hh Ha Hsz. destruct (handled_request _ _ _ _ _ _ _ _ Hp Hh Ha) as [_ Hrun].
  pose proof (kept_reader J cfg silent ask sync_summary eq_refl n Hdb) as Hq. rewrite Hrun in Hq.
  destruct Hq as (Hdb' & Hchat & _). split; [|split; [done|exact (f_equal chat_log Hchat)]].
  destruct Hh as [_ Ht]. destruct (summary_accepted _ _ _ _ _ Hrun Ht Ha) as (s & n1 & Hs & Hser).
  unfold service_summary in Hs. rewrite on_store_run in Hs.
  destruct (sequence_summary (store_ n)) as [r s1] eqn:E. cbn in Hs. injection Hs as -> <-.
  destruct (sequence_summary_exact _ _ _ Hdb E) as [-> _].
  refine (serialized_text_of 2 _ _ _ _ _ Hser Hsz); [apply summary_object_built|lia].
Qed.

Lemma exchanged_takes j cfg_a cfg_b peer c c' ask answer give sent replied given taken a b a1 b1 a2 b2 :
  exchanged J j cfg_a cfg_b peer c c' ask answer give sent replied given taken a b a1 b1 a2 b2 →
  synchronisable a b → takes_batch a b a2 b2.
Proof.
  intros [_ Hasks _ Hask Hans Hanswer Hgives Hgive%sent_posted Hposts Htakes [body Htaken]] [Ha Hb Hval Hsum Hids].
  assert (silent a a1) as Hq.
  { destruct Hasks as [Hr _]. cbn [on_event] in Hr. pose proof (kept_timer J cfg_a silent a) as Hk. by rewrite Hr in Hk. }
  destruct (silent_store _ _ Hq Ha) as (Ha1 & _ & Hm).
  destruct (completion_gives cfg_a _ _ _ _ _ _ Hgives Hgive) as (Hsz & a3 & made & Hsend & Htr & Hin & Hst).
  destruct (answer_text cfg_b _ _ _ _ _ Hb Hask Hans Hanswer) as (Ht & Hb1 & Hl); [unfold_ints; unfold max_sync_request_bytes in Hsz; lia|].
  destruct (handled_request _ _ _ _ _ _ _ _ Hposts Htakes Htaken) as [Hrun _].
  assert (size (req_input give) ≤ max_sync_request_bytes) as Hsmall.
  { apply Z.nlt_ge. intros Hlarge. destruct Htakes as [Hr Htr'].
    cbn [on_event] in Hr. rewrite (posts_large cfg_b give _ _ b1 Hposts) in Hr by tauto.
    by destruct (accepted_says _ _ _ _ _ _ _ _ _ Hr Htr' Htaken). }
  assert (synchronisable a1 b1) as Hs by (split; rewrite ?Hm, ?Hl; done).
  destruct (round_keeps cfg_a cfg_b a1 b1 a3 b2 Hs) as [Hsame Htake].
  { rewrite <- Hl in Ht. by eapply a_round. }
  unfold takes_batch in *. rewrite Hm, Hl in Htake. destruct Htake as (Hne & Hm3 & Hlasts & Hent & Hs3).
  rewrite Hst. split_and!; [done..|]. destruct Hs3. by split; rewrite ?Hst.
Qed.
End taking.

(** ** Exchanges in the network *)

Section network.
Context `{JsonLaws J} `{SqliteLaws D} `{EnvLaws W} `{Unordered}.
Implicit Types net : network D W.

Lemma set_node_other i j x sent net : i ≠ j → nodes (set_node i x sent net) !! j = nodes net !! j.
Proof. intros Hij. cbn. by rewrite lookup_insert_ne. Qed.

(** An exchange is four steps of the network, changes two nodes, and takes a batch. *)
Lemma exchange_steps i j net net' : exchange J i j net net' → nsteps (net_step J) 4 net net'.
Proof.
  intros [cfg_a cfg_b peer c c' ask answer give sent replied given taken a b a1 b1 a2 b2 Hij Ha Hb
    [_ [Hasks Ht1] _ Hask [Hans Ht2] _ [Hgives Ht3] Hgive%sent_posted Hposts [Htakes Ht4] _]].
  assert (delivered net SyncTimer) as Hd1 by (by intros ?).
  eapply nsteps_l; [by apply (net_handles J net i cfg_a a SyncTimer)|].
  eapply nsteps_l; [apply (net_handles J _ j cfg_b b (HttpRequest ask) b1 replied); [by rewrite set_node_other| |done..]|].
  { intros r [= <-]. by rewrite (ps_path _ _ _ Hask). }
  eapply nsteps_l; [apply (net_handles J _ i cfg_a a1 (SummaryDone (Some (answer, 200)) (MkContext c (peer_address peer) (peer_http_port peer))) a2 given); [|by intros ?|done..]|].
  { rewrite set_node_other by done. apply lookup_insert_eq. }
  eapply nsteps_l; [apply (net_handles J _ j cfg_b b1 (HttpRequest give) b2 taken); [| |done..]|constructor].
  - rewrite set_node_other by done. apply lookup_insert_eq.
  - intros r [= <-] _. rewrite (ps_path _ _ _ Hposts). cbn. apply elem_of_app. by right.
Qed.

Lemma exchange_nodes i j net net' cfg_a cfg_b a b : exchange J i j net net' →
  nodes net !! i = Some (cfg_a, a) → nodes net !! j = Some (cfg_b, b) → synchronisable a b →
  ∃ a' b', nodes net' !! i = Some (cfg_a, a') ∧ nodes net' !! j = Some (cfg_b, b') ∧ takes_batch a b a' b' ∧
    ∀ k, k ≠ i → k ≠ j → nodes net' !! k = nodes net !! k.
Proof.
  intros [cfg_a' cfg_b' peer c c' ask answer give sent replied given taken a' b' a1 b1 a2 b2 Hij Ha Hb Hex] Ha' Hb' Hs.
  rewrite Ha in Ha'. rewrite Hb in Hb'. injection Ha' as -> ->. injection Hb' as -> ->.
  exists a2, b2. split_and!.
  - rewrite set_node_other by done. apply lookup_insert_eq.
  - apply lookup_insert_eq.
  - by eapply exchanged_takes.
  - intros k Hi Hj. by rewrite !set_node_other.
Qed.

(** The pair of nodes in the networks of a run of exchanges. *)
Definition batch_step : relation (Node D W * Node D W) :=
  λ '(a, b) '(a', b'), synchronisable a b ∧ takes_batch a b a' b'.

Lemma exchanges_run r i j net net' cfg_a cfg_b a b : nsteps (exchange J i j) r net net' →
  nodes net !! i = Some (cfg_a, a) → nodes net !! j = Some (cfg_b, b) → synchronisable a b →
  nsteps (net_step J) (4 * r) net net' ∧
  ∃ a' b', nodes net' !! i = Some (cfg_a, a') ∧ nodes net' !! j = Some (cfg_b, b') ∧
    nsteps batch_step r (a, b) (a', b') ∧ ∀ k, k ≠ i → k ≠ j → nodes net' !! k = nodes net !! k.
Proof.
  revert net a b. induction r as [|r IH]; intros net a b Hr Ha Hb Hs.
  { inversion Hr; subst. split; [constructor|]. exists a, b. split_and!; [done..|constructor|done]. }
  inversion Hr as [|? ? net1 ? Hex Hr']; subst.
  destruct (exchange_nodes i j net net1 cfg_a cfg_b a b Hex Ha Hb Hs) as (a1 & b1 & Ha1 & Hb1 & Ht & Hother).
  destruct (IH net1 a1 b1 Hr' Ha1 Hb1) as (Hsteps & a' & b' & Ha' & Hb' & Hrun & Hother'); [apply Ht|].
  split.
  - replace (4 * S r)%nat with (4 + 4 * r)%nat by lia. eapply nsteps_trans; [by eapply exchange_steps|done].
  - exists a', b'. split_and!; [done..| |].
    + eapply nsteps_l; [|done]. by split.
    + intros k Hi Hj. by rewrite Hother', Hother.
Qed.
End network.

(** ** Without faults an exchange happens *)

(** Nothing fails around the nodes: libevent refuses no request and has buffers for
    replies, each path of the API can be asked for, the clock is sane, and the
    database is healthy. *)
Record faultless (D W : Type) `{SqliteLaws D} `{Env W} : Prop := {
  fl_accepting : accepting W;
  fl_buffers (w : W) : (evbuffer_new w).1 = true;
  fl_paths r : r ∈ routes → ∃ uri, evhttp_uri_path (W := W) uri = Some (Some (path r));
  fl_clock : sane_clock W;
  fl_healthy : healthy D;
}.
Arguments faultless D W {_ _ _}.

Section progress.
Context `{JsonLaws J} `{SqliteLaws D} `{EnvLaws W} `{Unordered} (Hf : faultless D W).
Implicit Types n a b : Node D W.

Lemma route_posts p h t : MkRoute EVHTTP_REQ_POST p h ∈ routes → ∃ request, posts W request p h ∧ req_input request = t.
Proof.
  intros Hr. destruct (fl_paths _ _ Hf _ Hr) as [uri Hu].
  exists (MkHttpRequest 0 0 (Some uri) EVHTTP_REQ_POST (Some "application/json") t). split; [|done].
  split; [unfold request_path; cbn; by rewrite Hu|done..].
Qed.

Lemma sync_routes : MkRoute EVHTTP_REQ_POST "/api/v1/sync/summary" sync_summary ∈ routes ∧
  MkRoute EVHTTP_REQ_POST "/api/v1/sync/messages" sync_messages ∈ routes.
Proof. unfold routes. set_solver. Qed.

Lemma summary_runs n : db_ok (store_ n) →
  ∃ s', on_store sequence_summary n = (Ok (lasts (node_log n)), with_store s' n).
Proof.
  intros Hdb. destruct (summary_sure (fl_healthy _ _ Hf) (store_ n) Hdb) as [s' Hs].
  exists s'. by rewrite on_store_run, Hs.
Qed.

(** The peers that are active by the node's clock. *)
Definition active_now n : list Peer := active_list ((system_clock_now (world n)).1 + time_offset_ms n) (peers_ n).

Lemma active_known n peer : registry_ok (peers_ n) → peer ∈ active_now n → peers_ n !! peer_node_id peer = Some peer.
Proof.
  unfold active_now, active_list, sort_peers, peer_list. intros Hok Hin.
  rewrite (stable_sort_perm node_id_lt) in Hin. apply list_elem_of_filter in Hin as [_ Hin].
  apply list_elem_of_fmap in Hin as ([k p] & -> & Hin%elem_of_map_to_list). cbn. by rewrite (Hok k p Hin).
Qed.

(** The timer asks the active peers. *)
Lemma timer_asks cfg n peer : db_ok (store_ n) → times_ok n → registry_ok (peers_ n) → peer ∈ active_now n →
  ∃ t effects n', (∀ S (s : S), serialize_json (summary_object (J := J) (lasts (node_log n))) s = (Ok t, s)) ∧
    (size t ≤ i32_max → text_of (summary_object (J := J) (lasts (node_log n))) t) ∧
    handles J cfg SyncTimer n effects n' ∧ ∃ c, sent_to_peer peer "/api/v1/sync/summary" t c effects.
Proof.
  intros Hdb Ht Hreg Hact. destruct (built_text 2 _ (summary_object_built (J := J) (lasts (node_log n))) ltac:(lia)) as (t & Hser & Htext).
  destruct (summary_runs n Hdb) as [s' Hs]. set (n1 := with_store s' n).
  destruct (times_ok_current n1 (fl_clock _ _ Hf)) as (now & w & Hnow & _ & Hfit & _); [by split; apply Ht|].
  assert ((system_clock_now (world n)).1 + time_offset_ms n = now) as Hread
    by (rewrite current_time_run in Hnow; case_decide; [by injection Hnow|done]).
  unfold active_now in Hact. rewrite Hread in Hact.
  set (n2 := with_world w n1).
  destruct (iterM_emits_all (summary_to cfg t) _ (active_list now (peers_ n))
    (λ peer, post_request_alone cfg sync_headers (peer_address peer) (peer_http_port peer) "/api/v1/sync/summary" t) n2)
    as (w' & l & Hl & ls & -> & Hall).
  exists t, (concat ls), (with_world w' (with_trace (trace n ++ concat ls) n2)). split_and!; [done|done| |].
  - split; [|done]. cbn [on_event]. unfold timer_callback, try_catch, synchronize.
    rewrite (bind_run _ _ _ _ _ Hs). rewrite (bind_run _ _ _ _ _ (origins_json_run _ n1)).
    rewrite (bind_run _ _ _ _ _ (sync_envelope_run _ _ _ n1)), (bind_run _ _ _ _ _ (Hser _ n1)).
    rewrite (bind_run _ _ _ _ _ Hnow), (bind_run _ _ _ _ _ (active_peers_run now n2 Hreg Hfit)). cbn [peers_ with_world with_store n1 n2].
    by rewrite Hl.
  - apply list_elem_of_lookup in Hact as [i Hi]. destruct (Forall2_lookup_l _ _ _ _ _ Hall Hi) as (l1 & Hl1 & Ha & Hm).
    destruct (attempt_sends _ _ _ _ _ Ha (Hm (fl_accepting _ _ Hf))) as (c & Ho & r & Hr).
    apply list_elem_of_lookup_2 in Hl1. exists c.
    split; [|exists r]; apply list_elem_of_In, in_concat; exists l1; split; by apply list_elem_of_In.
Qed.
(** A handler that returns is answered. *)
Lemma handles_request cfg request p h n n' effects : posts W request p h → run_handler J cfg h request n = (Ok tt, n') →
  trace n' = trace n ++ effects → handles J cfg (HttpRequest request) n effects n'.
Proof.
  intros Hp Hr Ht. split; [|done]. cbn [on_event]. unfold handle_request, try_catch.
  by rewrite (posts_run cfg _ _ _ n Hp), Hr.
Qed.

Lemma replies request text n : ∃ n', send_json request 200 "OK" text n = (Ok tt, n') ∧
  ∃ effects, trace n' = trace n ++ effects ∧ accepted request text effects.
Proof.
  rewrite send_json_run by apply (fl_buffers _ _ Hf). eexists. split; [done|]. eexists. split; [done|]. left.
Qed.

(** A node that is asked answers. *)
Lemma summary_answers cfg ask summary n : db_ok (store_ n) → posts W ask "/api/v1/sync/summary" sync_summary →
  text_of (summary_object (J := J) summary) (req_input ask) → size (req_input ask) ≤ max_request_bytes →
  ∃ t effects n', (∀ S (s : S), serialize_json (summary_object (J := J) (lasts (node_log n))) s = (Ok t, s)) ∧
    handles J cfg (HttpRequest ask) n effects n' ∧ accepted ask t effects.
Proof.
  intros Hdb Hp Ht Hsz. destruct (built_text 2 _ (summary_object_built (J := J) (lasts (node_log n))) ltac:(lia)) as (t & Hser & _).
  destruct (summary_runs n Hdb) as [s' Hs]. destruct (replies ask t (with_store s' n)) as (n' & Hr & effects & Htr & Ha).
  exists t, effects, n'. split_and!; [done| |done].
  apply (handles_request _ _ _ _ _ _ _ Hp); [|done]. rewrite <- (posts_run cfg ask _ _ n Hp).
  rewrite (sync_summary_run cfg ask summary n Hp Ht Hsz).
  by rewrite (bind_run _ _ _ _ _ Hs), (bind_run _ _ _ _ _ (Hser _ (with_store s' n))).
Qed.

(** A node gives what the answer lacks. *)
Lemma completion_runs cfg answer c peer summary n : summary_ok summary →
  text_of (summary_object (J := J) summary) (req_input answer) → size (req_input answer) ≤ max_sync_request_bytes →
  Forall (λ m, valid_message m ∧ nul_free m = true) (messages_ (store_ n)) →
  missing summary (messages_ (store_ n)) ≠ [] →
  ∃ t effects n', (∀ S (s : S), serialize_json (batch (J := J) (missing summary (messages_ (store_ n)))) s = (Ok t, s)) ∧
    (size t ≤ i32_max → text_of (batch (J := J) (missing summary (messages_ (store_ n)))) t) ∧
    handles J cfg (SummaryDone (Some (answer, 200)) (MkContext c (peer_address peer) (peer_http_port peer))) n effects n' ∧
    ∃ c', sent_to_peer peer "/api/v1/sync/messages" t c' effects.
Proof.
  intros Hs Ht Hsz Hval Hne. set (context := MkContext c (peer_address peer) (peer_http_port peer)).
  destruct (send_missing_posts cfg context summary (req_input answer) n Hs Ht) as (t & w & ef & Hsend & Ha & Hm & Hser & Htext); [|done|].
  { eapply Forall_impl; [exact Hval|]. intros m [? ?]. split; [done|by apply nul_free_origin]. }
  set (n1 := with_world w (with_trace (trace n ++ ef) n)) in *.
  set (freed := [FreeConnection (connection context); DeleteContext (connection context)]).
  exists t, (ef ++ freed), (with_trace (trace n1 ++ freed) n1). split_and!; [done|done| |].
  - split; [|cbn; by rewrite app_assoc]. cbn [on_event]. unfold summary_response_callback.
    change (200 =? HTTP_OK) with true. cbv iota.
    pose proof (read_request_body_run answer max_sync_request_bytes n) as Hread. rewrite (proj2 (Z.ltb_ge _ _) Hsz) in Hread.
    erewrite bind_run; [apply drop_run|]. unfold try_catch, handle_summary_response.
    by rewrite (bind_run _ _ _ _ _ Hread), Hsend.
  - destruct (attempt_sends _ peer _ _ _ Ha (Hm (fl_accepting _ _ Hf))) as (c' & Ho & r & Hr). exists c'.
    split; [|exists r]; apply elem_of_app; by left.
Qed.

(** A node takes a batch. *)
Lemma ingest_sure m n : db_ok (store_ n) → valid_message m →
  ∃ ok n', ingest_sync J m n = (Ok ok, n') ∧ db_ok (store_ n') ∧ ∃ l, trace n' = trace n ++ l.
Proof.
  intros Hdb Hv. destruct (ingest_sync_runs m n Hdb Hv) as (r & s' & l & Hr & Hs' & Hres).
  destruct r as [b|e|]; [|exfalso|done].
  - exists b, (with_trace (trace n ++ l) (with_store s' n)). split_and!; [done..|by exists l].
  - destruct (add_sure (fl_healthy _ _ Hf) (store_ n) m Hdb) as [b Hb]; [apply (vm_sequence _ Hv)|].
    destruct (add m (store_ n)) as [r s1] eqn:E. cbn in Hb. subst r. unfold ingest_sync in Hr.
    destruct (valid_has_text m Hv) as (t & Ht).
    rewrite (bind_run _ _ n b (with_store s1 n)) in Hr by (by rewrite on_store_run, E). destruct b; cbn [negb] in Hr; [|done].
    by rewrite (bind_run _ _ _ _ _ (publish_runs m t (with_store s1 n) Ht)) in Hr.
Qed.

Lemma ingest_items_sure request l k n : Forall (λ m, valid_message m ∧ nul_free m = true) l → db_ok (store_ n) →
  ∃ k' n', ingest_items (J := J) request l k n = (Ok (Some k'), n') ∧ ∃ ef, trace n' = trace n ++ ef.
Proof.
  intros Hl. revert k n. induction Hl as [|m l [Hv Hn] Hl IH]; intros k n Hdb; cbn [ingest_items].
  { exists k, n. split; [done|]. exists []. by rewrite app_nil_r. }
  rewrite parse_message_json, (proj2 (truncated_fixed m) Hn), valid_acceptable by done.
  destruct (ingest_sure m n Hdb Hv) as (b & n1 & Hr & Hdb1 & l1 & Ht1). rewrite (bind_run _ _ _ _ _ Hr).
  destruct (IH (if b : bool then k + 1 else k) n1 Hdb1) as (k' & n' & Hr' & l2 & Ht2).
  exists k', n'. split; [done|]. exists (l1 ++ l2). by rewrite Ht2, Ht1, app_assoc.
Qed.

Lemma batch_accepted cfg give l n : db_ok (store_ n) → posts W give "/api/v1/sync/messages" sync_messages →
  Forall (λ m, valid_message m ∧ nul_free m = true) l → (length l ≤ 50)%nat → text_of (batch (J := J) l) (req_input give) →
  size (req_input give) ≤ max_sync_request_bytes →
  ∃ body effects n', handles J cfg (HttpRequest give) n effects n' ∧ accepted give body effects.
Proof.
  intros Hdb Hp Hl Hlen Ht Hsz. destruct (ingest_items_sure give l 0 n Hl Hdb) as (k & n1 & Hr & l1 & Ht1).
  destruct (replies give (json_lit "{'status':'accepted','count':" +:+ to_string k +:+ "}") n1) as (n' & Hrep & ef & Htr & Ha).
  eexists _, (l1 ++ ef), n'. split.
  - apply (handles_request _ _ _ _ _ _ _ Hp); [|by rewrite Htr, Ht1, app_assoc]. rewrite <- (posts_run cfg give _ _ n Hp).
    rewrite (sync_messages_run cfg give l n Hp Ht Hsz Hlen). by rewrite (bind_run _ _ _ _ _ Hr).
  - apply elem_of_app. right. exact Ha.
Qed.

(** What node a needs to bring node b forward: clock and registry in order, b among
    the peers that are active by its clock, something b lacks, and texts within
    the limits of the receivers. *)
Record ready j a b : Prop := {
  re_clock : times_ok a;
  re_peers : registry_ok (peers_ a);
  re_active : j ∈ peer_node_id <$> active_now a;
  re_cache : cache_ok (store_ a);
  re_lacks : above (lasts (node_log b)) (messages_ (store_ a)) ≠ [];
  re_ask t : serialize_json (summary_object (J := J) (lasts (node_log a))) tt = (Ok t, tt) → size t ≤ max_request_bytes;
  re_answer t : serialize_json (summary_object (J := J) (lasts (node_log b))) tt = (Ok t, tt) → size t ≤ max_sync_request_bytes;
  re_give t : serialize_json (batch (J := J) (missing (lasts (node_log b)) (messages_ (store_ a)))) tt = (Ok t, tt) →
    size t ≤ max_sync_request_bytes;
}.

Lemma exchange_happens j cfg_a cfg_b a b : synchronisable a b → ready j a b →
  ∃ peer c c' ask answer give sent replied given taken a1 b1 a2 b2,
    exchanged J j cfg_a cfg_b peer c c' ask answer give sent replied given taken a b a1 b1 a2 b2.
Proof.
  intros [Ha Hb Hval Hsum Hids] [Hclock Hpeers Hact _ Hlacks Hask Hanswer Hgive].
  assert (max_request_bytes ≤ i32_max ∧ max_sync_request_bytes ≤ i32_max) as [Hmax Hmax'] by done.
  apply list_elem_of_fmap in Hact as (peer & -> & Hact).
  destruct (timer_asks cfg_a a peer) as (t1 & sent & a1 & Hser1 & Ht1 & Hasks & c & Hin1); [apply Ha|done..|].
  specialize (Hask t1 (Hser1 _ tt)). specialize (Ht1 ltac:(lia)).
  destruct (route_posts _ _ t1 (proj1 sync_routes)) as (ask & Hp1 & <-).
  destruct (summary_answers cfg_b ask _ b Hb Hp1 Ht1 Hask) as (t2 & replied & b1 & Hser2 & Hans & Hin2).
  specialize (Hanswer t2 (Hser2 _ tt)).
  destruct (answer_text cfg_b ask t2 b replied b1 Hb Hp1 Hans Hin2 ltac:(lia)) as (Ht2 & Hb1 & Hl).
  assert (silent a a1) as Hq.
  { pose proof (kept_timer J cfg_a silent a) as Hk. destruct Hasks as [Hr _]. cbn [on_event] in Hr. by rewrite Hr in Hk. }
  destruct (silent_store _ _ Hq Ha) as (_ & _ & Hm).
  set (answer := MkHttpRequest 0 0 None EVHTTP_REQ_POST None t2).
  destruct (completion_runs cfg_a answer c peer (lasts (node_log b)) a1 Hsum Ht2 Hanswer)
    as (t3 & given & a2 & Hser3 & Ht3 & Hgives & c' & Hin3);
    [by rewrite Hm|rewrite Hm; unfold missing; fold (above (lasts (node_log b)) (messages_ (store_ a))); by destruct (above _ _)|].
  rewrite Hm in Hser3, Ht3. specialize (Hgive t3 (Hser3 _ tt)). specialize (Ht3 ltac:(lia)).
  destruct (route_posts _ _ t3 (proj2 sync_routes)) as (give & Hp3 & <-).
  destruct (batch_accepted cfg_b give (missing (lasts (node_log b)) (messages_ (store_ a))) b1 Hb1 Hp3)
    as (body & taken & b2 & Htakes & Hin4); [|unfold missing; rewrite length_take; lia|done..|].
  { rewrite Forall_forall in Hval. apply Forall_forall. intros m Hin. by apply Hval, (elem_of_sublist _ _ _ Hin), missing_sublist. }
  exists peer, c, c', ask, answer, give, sent, replied, given, taken, a1, b1, a2, b2.
  split; try done; [by apply active_known|by exists body].
Qed.

Lemma exchange_possible i j (net : network D W) cfg_a cfg_b a b : i ≠ j →
  nodes net !! i = Some (cfg_a, a) → nodes net !! j = Some (cfg_b, b) → synchronisable a b → ready j a b →
  ∃ net', exchange J i j net net'.
Proof.
  intros Hij Ha Hb Hs Hready. destruct (exchange_happens j cfg_a cfg_b a b Hs Hready)
    as (peer & c & c' & ask & answer & give & sent & replied & given & taken & a1 & b1 & a2 & b2 & Hex).
  eexists. by eapply exchanges.
Qed.
End progress.

(** ** Properties *)

Section properties.
Context `{JsonLaws J} `{SqliteLaws D} `{EnvLaws W} `{Unordered}.
Implicit Types net : network D W.

(** C8: a node catches up in a network.  In any reachable network, whatever was lost
    before, exchanges of one node with another are runs of the network in which no
    third node changes; each shortens the list of what the first node has above the
    last sequences of the second by fifty, there are no more of them than batches
    needed, and after so many the second node's last sequences cover every message
    of the first, which answers its next summary with nothing.  The list of the
    first node must be the one in its database. *)
Theorem network_catches_up k r net net' i j cfg_a cfg_b (a b : Node D W) :
  nsteps (net_step J) k empty_network net → Z.of_nat k ≤ 2 ^ 62 →
  nodes net !! i = Some (cfg_a, a) → nodes net !! j = Some (cfg_b, b) → cache_ok (store_ a) →
  nsteps (exchange J i j) r net net' →
  nsteps (net_step J) (4 * r) net net' ∧ ∃ a' b',
    nodes net' !! i = Some (cfg_a, a') ∧ nodes net' !! j = Some (cfg_b, b') ∧
    (∀ x, x ≠ i → x ≠ j → nodes net' !! x = nodes net !! x) ∧ converges (J := J) cfg_a r a b a' b'.
Proof.
  intros Hk Hmax Ha Hb Hcache Hr.
  assert (synchronisable a b) as Hs by (by eapply network_synchronisable).
  destruct (exchanges_run r i j net net' cfg_a cfg_b a b Hr Ha Hb Hs) as (Hsteps & a' & b' & Ha' & Hb' & Hrun & Hother).
  split; [done|]. exists a', b'. split_and!; [done..|]. apply (rounds_converge cfg_a batch_step); [|done..].
  by intros a1 b1 a2 b2 _ [_ ?].
Qed.

(** C9: and an exchange happens.  Without faults around the nodes, in any reachable
    network, when a node has something an active peer of its lacks, and the three
    texts are within the limits of those who read them (4096 bytes for the summary
    it sends, 128 KiB for the answer and for the batch), the network has a run of
    four events, beginning with the node's timer, after which the peer lacks fifty
    messages less, or none. *)
Theorem network_progress k net i j cfg_a cfg_b (a b : Node D W) : faultless D W →
  nsteps (net_step J) k empty_network net → Z.of_nat k ≤ 2 ^ 62 → i ≠ j →
  nodes net !! i = Some (cfg_a, a) → nodes net !! j = Some (cfg_b, b) → ready (J := J) j a b →
  ∃ net' a' b', exchange J i j net net' ∧ nsteps (net_step J) 4 net net' ∧
    nodes net' !! i = Some (cfg_a, a') ∧ nodes net' !! j = Some (cfg_b, b') ∧
    (length (above (lasts (node_log b')) (messages_ (store_ a'))) ≤
     length (above (lasts (node_log b)) (messages_ (store_ a))) - 50)%nat.
Proof.
  intros Hf Hk Hmax Hij Ha Hb Hready.
  assert (synchronisable a b) as Hs by (by eapply network_synchronisable, Hready).
  destruct (exchange_possible Hf i j net cfg_a cfg_b a b Hij Ha Hb Hs Hready) as [net' Hnet].
  destruct (exchange_nodes i j net _ cfg_a cfg_b a b Hnet Ha Hb Hs) as (a' & b' & Ha' & Hb' & (_ & Hm & Hl & _) & _).
  exists net', a', b'. split_and!; [exact Hnet|by eapply exchange_steps|done..|].
  rewrite Hm, Hl. apply above_shrinks. by eapply positive_valid.
Qed.
End properties.

(** ** Witnesses *)

(** The two nodes of Network.v without faults; what node-a sent to node-b is lost. *)
Definition rworld (q : list (string * Z)) : reliable := Reliable (world_at 1700000000000 false q).

Definition met : network rdb reliable :=
  handled "node-a" (DatagramsReady 3)
    (joined config_b (rworld [])
      (joined plain_config (rworld [(pos_text (encode (claimed (J := jtree) config_b None)), 5)]) empty_network)).
Definition spoken : network rdb reliable := handled "node-a" (HttpRequest hello_request) met.

Definition nobody : Config * Node rdb reliable :=
  (plain_config, MkNode (MkStore (MkRoomy (fresh_db 0)) []) ∅ 0 false [] 1 [] (rworld []) []).
Definition spoken_a : Config * Node rdb reliable := node_at nobody "node-a" spoken.
Definition spoken_b : Config * Node rdb reliable := node_at nobody "node-b" spoken.

Lemma spoken_runs : nsteps (net_step jtree) 4 empty_network spoken.
Proof.
  eapply nsteps_l; [eapply (joined_step plain_config); [split; by vm_compute|by vm_compute|reflexivity|by vm_compute|by vm_compute]|].
  eapply nsteps_l; [eapply (joined_step config_b (rworld [])); [split; by vm_compute|by vm_compute|reflexivity|by vm_compute|by vm_compute]|].
  apply (nsteps_l _ _ _ met).
  { eapply handled_step; [apply (node_at_lookup nobody); by vm_compute|by intros ?|by vm_compute|by vm_compute]. }
  apply (nsteps_l _ _ _ spoken); [|constructor].
  eapply handled_step; [apply (node_at_lookup nobody); by vm_compute| |by vm_compute|by vm_compute].
  by intros request [= <-].
Qed.

Lemma spoken_faultless : faultless rdb reliable.
Proof.
  split; [apply reliable_accepting|done|by intros r _; exists (path r)|apply reliable_sane|apply roomy_healthy].
Qed.

Lemma model_size (j : jtree) (limit : Z) : bool_decide (size (model_text j) ≤ limit) = true →
  ∀ t, serialize_json j tt = (Ok t, tt) → size t ≤ limit.
Proof. intros Hl%bool_decide_eq_true t Ht. rewrite model_serialize in Ht. by injection Ht as <-. Qed.

Lemma spoken_ready : ready (J := jtree) "node-b" spoken_a.2 spoken_b.2.
Proof.
  split; [| | |by vm_compute|by vm_compute|apply model_size; by vm_compute..].
  - split; [split; by vm_compute|]. apply (bool_decide_eq_true (map_Forall _ _)). by vm_compute.
  - apply (bool_decide_eq_true (map_Forall _ _)). by vm_compute.
  - apply (bool_decide_eq_true (_ ∈ _)). by vm_compute.
Qed.

Lemma spoken_at i : bool_decide (is_Some (nodes spoken !! i)) = true →
  nodes spoken !! i = Some ((node_at nobody i spoken).1, (node_at nobody i spoken).2).
Proof. apply node_at_lookup. Qed.

Lemma spoken_lacks : length (above (lasts (node_log spoken_b.2)) (messages_ (store_ spoken_a.2))) = 1%nat.
Proof. by vm_compute. Qed.

#[local] Opaque spoken spoken_a spoken_b.

Lemma network_catches_up_witness : ∃ (net' : network rdb reliable) (a' b' : Node rdb reliable),
  nodes net' !! "node-a" = Some (spoken_a.1, a') ∧ nodes net' !! "node-b" = Some (spoken_b.1, b') ∧
  Forall (λ m, sequence m ≤ default 0 (lasts (node_log b') !! origin m)) (messages_ (store_ spoken_a.2)).
Proof.
  assert (nodes spoken !! "node-a" = Some (spoken_a.1, spoken_a.2)) as Ha by (apply spoken_at; by vm_compute).
  assert (nodes spoken !! "node-b" = Some (spoken_b.1, spoken_b.2)) as Hb by (apply spoken_at; by vm_compute).
  pose proof (network_synchronisable (J := jtree) 4 spoken "node-a" spoken_a.1 spoken_a.2 "node-b" spoken_b.1 spoken_b.2
    spoken_runs ltac:(lia) Ha Hb (re_cache _ _ _ spoken_ready)) as Hs.
  destruct (exchange_possible (J := jtree) spoken_faultless "node-a" "node-b" spoken spoken_a.1 spoken_b.1 spoken_a.2
    spoken_b.2 ltac:(done) Ha Hb Hs spoken_ready) as [net' Hnet].
  destruct (network_catches_up (J := jtree) 4 1 spoken net' "node-a" "node-b" spoken_a.1 spoken_b.1 spoken_a.2 spoken_b.2)
    as (_ & a' & b' & Ha' & Hb' & _ & (_ & _ & _ & Hall)).
  - exact spoken_runs.
  - lia.
  - exact Ha.
  - exact Hb.
  - apply (re_cache _ _ _ spoken_ready).
  - by apply nsteps_once.
  - exists net', a', b'. split; [exact Ha'|]. split; [exact Hb'|]. apply Hall. rewrite spoken_lacks. lia.
Defined.

Lemma network_progress_witness : ∃ (net' : network rdb reliable) (a' b' : Node rdb reliable), nsteps (net_step jtree) 4 spoken net' ∧
  nodes net' !! "node-a" = Some (spoken_a.1, a') ∧ nodes net' !! "node-b" = Some (spoken_b.1, b') ∧
  above (lasts (node_log b')) (messages_ (store_ a')) = [].
Proof.
  destruct (network_progress (J := jtree) 4 spoken "node-a" "node-b" spoken_a.1 spoken_b.1 spoken_a.2 spoken_b.2)
    as (net' & a' & b' & _ & Hsteps & Ha & Hb & Hlen).
  - exact spoken_faultless.
  - exact spoken_runs.
  - lia.
  - done.
  - apply spoken_at. by vm_compute.
  - apply spoken_at. by vm_compute.
  - exact spoken_ready.
  - exists net', a', b'. split; [exact Hsteps|]. split; [exact Ha|]. split; [exact Hb|].
    rewrite spoken_lacks in Hlen. by apply length_zero_iff_nil, Nat.le_0_r.
Defined.
